(* ===== verification/_CoqProject ===== *)
-Q . S2P
Prelude.v
Text.v
Ids.v
Order.v
Channel.v
Defaults.v
Payload.v
Json.v
Ports.v
CanonicalJson.v
TestDoubles.v
Codec.v
CodecLaws.v
Wire.v
Chain.v
ChainLaws.v
RowLog.v
Party.v
HealRange.v
Bins.v
State.v
StateLaws.v
Frags.v
Helpers.v
HelpersLaws.v
Engine.v
Frame.v
Ratchet.v
RatchetLaws.v
Vault.v
VaultLaws.v
Directory.v
Skeleton.v
Samples.v
Chat.v
Heal.v
HealLaws.v
Fingerprint.v
Live.v
LiveLaws.v
Handshake.v
Identity.v
Groups.v
Receive.v
Ingest.v
Views.v
Session.v
Invite.v
Poll.v
Steady.v
GroupLaws.v
PollLaws.v
Delivery.v
Agreement.v
Persist.v
GroupFold.v
FoldTree.v
FoldTreeLaws.v
Fold.v
FoldText.v
Onward.v
FoldLaws.v
Adapters.v
