(* ===== verification/Prelude.v ===== *)
(** * Chuchotez: a verification of the v1 protocol engine

    Chuchotez is an end-to-end encrypted messenger without servers of its own: devices
    leave 512-byte packets under unlinkable tags on third-party channels and collect them
    there.  The program under verification is the engine that decides what to post, where,
    under which keys, and what to make of what arrives.  It is pure: the host passes the
    state in, gets a new state, records to persist and packets to deliver back, and does all
    input and output.  This library models that engine and proves what it guarantees.

    ** Parts of the program, and where they are modelled

    Paths are under [src/crates/]; [D/] stands for [chuchotez-domain/src/protocol/], [E/]
    for [D/v1/engine/].  A Rust function [f] is the definition [f] of the file named, or one
    with a prefix where two modules use the same name.

    - Foundations.  [Prelude] (results, validated values, machine integers, bytes),
      [Text] (Rust strings; [D/v1/unicode.rs]), [Order] ([BTreeMap] iteration), [Ids]
      ([D/bytes32.rs], [D/policy.rs], [D/rng.rs], [D/v1/ids.rs], errors and key records).
    - Wire data.  [Channel], [Defaults], [Payload] (the files of the same names),
      [Json] and [Ports] (the capability traits of a suite as type classes, each with a law
      class for its documented behaviour), [CanonicalJson]
      ([chuchotez-adapters/src/json.rs]), [Codec] ([D/v1/codec.rs]), with [CodecLaws] and
      [Wire] for what the bytes on the wire mean.  [TestDoubles] is a concrete suite;
      [Adapters] is the suite that ships (the other files of [chuchotez-adapters/src/]).
    - Packets.  [Chain] ([D/v1/chain.rs]: keys, sealing, opening with skip-ahead,
      cutting), [ChainLaws].
    - The state.  [RowLog], [Party], [Bins], [State] ([E/row_log.rs], [E/party.rs],
      [E/helpers.rs], [E/state.rs], [E/chains.rs]), with [StateLaws], [Helpers],
      [HelpersLaws], [Directory] (who is who), [Skeleton] (what rows show besides logs and
      chains).
    - The engine.  [Engine] is the handle, the monad [M] in which every operation runs,
      and merging; [Vault], [Ratchet], [HealRange] and [Heal], [Live] and [Receive],
      [Handshake], [Fingerprint] and [Ingest], [Identity], [Invite], [Groups], [Chat],
      [Session], [Poll], [Views] follow the files of [E/] ([Live] and [Receive] are the
      two halves of [live.rs]; [Handshake], [Fingerprint] and [Ingest] are parts of
      [handshake.rs]; [Frags] is the reassembly of both).
    - Persistence.  [Persist] (replaying records, [E/persist.rs]), [Fold], [FoldTree],
      [GroupFold] (the snapshot: [persist.rs], [E/fold_tree.rs], the end of [group.rs]),
      with [FoldTreeLaws], [FoldText], [FoldLaws].

    ** How it is modelled

    An operation that takes [&mut self], [&mut EngineState] or [&dyn Rng] is a computation
    of type [M A]: from a [World] (the handle, the state, the number of draws so far) to a
    [World] and a value, an [EngineError], or a panic.  An [expect] or [unwrap] that the
    source could reach is the primitive [expect], which ends in [Panic]; it is never assumed
    away.  The caller of an operation that takes the state by value keeps the old one on an
    error ([mutation], [rolled_back]); the handle and the draws stay changed.  Where the
    source returns [&mut T], the model has a function that applies a change to the [T]
    found.  Maps are [gmap]s read in key order; integers are naturals below their width,
    and each saturating operation says so.  Random bytes come from a stream [draw], so every
    theorem holds for every source of randomness.

    Loops run on fuel where the recursion is not structural, and the fuel is enough:
    [decode_fuel] is linear in the text and never runs out ([decode_terminates]); cutting a
    body and writing its fragments stop at the 65th ([write_fuel], [fragment_body_spec]);
    [frag_search] halves an interval below the packet size; [advance_loop] has one step per
    completed bin; [post_live] recurses at most once, because the transaction it mints on the
    way owes none ([post_live_enough]); opening on the ephemeral path tries 64 keys and
    skipping ahead 50, as the source does.

    ** What is proved

    - The wire: every durable body, packet and ticket parses back from its canonical text;
      the canonical encoder and parser invert each other; a packet of at most 512 bytes opens
      to what was sealed ([CodecLaws], [Wire], [CanonicalJson], [ChainLaws]).  Opening strips
      every zero byte at the end of the plaintext, those of the compressed stream with those
      of the padding, so this, and what is built on it, is for packets whose stream inflates
      without them ([arrives]; [zero_end_lost] is one that is lost).
    - One device to another: fragments reassemble in any order ([Frags]); a receiver that is
      behind catches up and remembers what it skipped ([ChainLaws]); the packets one
      engine queues for a transaction, opened in order by another in step, give exactly that
      transaction to store ([Delivery]); the two ends of a handshake hold the same two shared secrets,
      and what is sealed to a key or under a conversation opens there ([Agreement]); two
      devices that agree on wraps mix the same keys ([RatchetLaws]); every member installs
      the roster the owner signed ([GroupLaws]).
    - The state: transactions are stored in rows that implement a map ([StateLaws]);
      parties only move forward along the handshake's phases ([Party]); watermarks,
      acknowledgements and skipped keys mean what they say ([HelpersLaws]); no sequence of
      host operations turns the clock back, lowers the next record number or misfiles the
      progress of a bin, and the record log changes only at free numbers and at those of
      records that are replayed ([Onward]).
    - Sending: a post is a refinement of cutting, sealing and queueing ([VaultLaws],
      [LiveLaws]); overdue copies go out, younger ones wait; the set reconciliation ends after
      at most 256 halvings, at a differing id or in the one range that cannot be halved, and
      its fallback always completes ([HealLaws], [HealRange]); what sending leaves alone ([Frame], [Steady], [Skeleton]).
    - Time: ticking fails exactly the handshakes that have run out ([PollLaws]).
    - Persistence: replaying the records of a run gives the state it ended in ([Persist]); a
      folded snapshot loads back ([FoldLaws]); a wrapped data key unlocks ([VaultLaws]).
    - The shipped suite: given what the third-party crates document, it keeps the laws the
      other theorems ask of a suite, that of the AEAD for texts within the length limit of
      AES-GCM; a hybrid signature needs both of its halves, and inflating stops at the cap
      however the decoder cuts its output ([Adapters]).
    - Where the code does something it does not mean to, a theorem says what it does: the
      panics, the nonces that repeat, the messages that can no longer be opened.

    Proofs about whole computations go through [Evolves R m] of [Frame]: a preorder on worlds
    that every primitive respects is respected by everything composed of them ([evolve]).
    [forward], [idle], [onward], [Steady], [Keyed] and [Filed] are such preorders; [Calm] says that a
    computation does not panic.  Theorems with hypotheses are followed by a witness on the
    device of [Samples] or on one like it.

    ** What is not modelled

    The third-party primitives (HMAC-SHA-256, SHA-256, AES-GCM, Argon2id, Deflate, base64url,
    the KEMs and signatures) are parameters with their documented laws; [nfc.rs] is one call
    of a Unicode crate that only the host makes; the facade crate only re-exports; test code
    and its doubles are not part of the program.  Secrecy against an adversary is not stated:
    the laws of the primitives are functional ones. *)

From stdpp Require Import base tactics list numbers option strings countable gmap.
From Stdlib Require Import Strings.Byte Eqdep_dec.

(** * Results *)

(** Rust's [Result<A, E>], error type first so that [result E] is a functor. *)
Inductive result (E A : Type) : Type :=
| Ok (a : A)
| Err (e : E).
Arguments Ok {E A} a.
Arguments Err {E A} e.

#[export] Instance result_ret {E} : MRet (result E) := λ A, Ok.
#[export] Instance result_bind {E} : MBind (result E) := λ A B f r,
  match r with Ok a => f a | Err e => Err e end.
#[export] Instance result_fmap {E} : FMap (result E) := λ A B f r,
  match r with Ok a => Ok (f a) | Err e => Err e end.

#[export] Instance result_eq_dec {E A} `{EqDecision E, EqDecision A} :
  EqDecision (result E A).
Proof. solve_decision. Defined.

Definition ok_or {E A} (e : E) (o : option A) : result E A :=
  match o with Some a => Ok a | None => Err e end.

Definition map_err {E F A} (f : E → F) (r : result E A) : result F A :=
  match r with Ok a => Ok a | Err e => Err (f e) end.

Definition is_ok {E A} (r : result E A) : bool :=
  match r with Ok _ => true | Err _ => false end.

(** [r.err()]. *)
Definition err {E A} (r : result E A) : option E :=
  match r with Ok _ => None | Err e => Some e end.

(** [if cond { return Err(e) }]. *)
Definition refuse_if {E} (b : bool) (e : E) : result E unit :=
  if b then Err e else Ok tt.

(** [iter.map(f).collect::<Result<Vec<_>, _>>()]. *)
Fixpoint collect {E A B} (f : A → result E B) (l : list A) : result E (list B) :=
  match l with
  | [] => Ok []
  | a :: l' => b ← f a; bs ← collect f l'; Ok (b :: bs)
  end.

Lemma collect_map {E A B} (f : B → result E A) (g : A → B) (l : list A) :
  (∀ a, a ∈ l → f (g a) = Ok a) → collect f (map g l) = Ok l.
Proof.
  induction l as [|a l IH]; intros H; cbn; [done|].
  rewrite H by set_solver. cbn. rewrite IH by set_solver. done.
Qed.

Lemma collect_ext {E A B} (f g : A → result E B) (l : list A) :
  (∀ a, a ∈ l → f a = g a) → collect f l = collect g l.
Proof.
  induction l as [|a l IH]; intros H; cbn; [done|].
  rewrite H by set_solver. destruct (g a); cbn; [|done].
  rewrite IH by set_solver. done.
Qed.

(** A [for] loop whose body may return an error. *)
Fixpoint try_fold {E A S} (f : A → S → result E S) (l : list A) (s : S) : result E S :=
  match l with
  | [] => Ok s
  | a :: l' => s ← f a s; try_fold f l' s
  end.

Lemma try_fold_app {E A S} (f : A → S → result E S) l1 l2 s :
  try_fold f (l1 ++ l2) s = (s ← try_fold f l1 s; try_fold f l2 s).
Proof. revert s. induction l1 as [|a l1 IH]; intros s; cbn; [done|]. destruct (f a s); cbn; auto. Qed.

(** A loop over written values that succeeds on each is a fold over them. *)
Lemma try_fold_map {E A B S} (f : B → S → result E S) (g : A → B) (h : S → A → S) l s :
  (∀ a s, a ∈ l → f (g a) s = Ok (h s a)) → try_fold f (map g l) s = Ok (fold_left h l s).
Proof.
  revert s. induction l as [|a l IH]; intros s H; cbn; [done|].
  rewrite H by set_solver. cbn. apply IH. intros; apply H; set_solver.
Qed.

Lemma bind_ok {E A B} (a : A) (f : A → result E B) : (Ok a ≫= f) = f a.
Proof. done. Qed.

(** Injectivity that leaves the values as they are written. *)
Lemma Ok_inj {E A} (a b : A) : @Ok E A a = Ok b → a = b.
Proof. by intros [= ->]. Qed.

Lemma bind_inv {E A B} (r : result E A) (f : A → result E B) b :
  (r ≫= f) = Ok b → ∃ a, r = Ok a ∧ f a = Ok b.
Proof. destruct r; cbn; naive_solver. Qed.

Lemma bind_ext {E A B} (r1 r2 : result E A) (f g : A → result E B) :
  r1 = r2 → (∀ a, f a = g a) → (r1 ≫= f) = (r2 ≫= g).
Proof. intros -> H. destruct r2; cbn; auto. Qed.

(** Close a decidable closed goal by computation.  The computation is of the boolean
    decision, so the types in the statement are never normalised. *)
Ltac vm_decide :=
  match goal with
  | |- ?P => refine (bool_decide_eq_true_1 P _); vm_compute; reflexivity
  end.

(** * Checked values

    A Rust newtype with a private field and a validating constructor, and every
    machine integer, is a value with a boolean proof that it is in range.  The
    proof is irrelevant, so two checked values are equal when their contents are. *)
Record checked {A : Type} (P : A → bool) : Type := mkChecked {
  cval : A;
  cok : P cval = true
}.
Arguments mkChecked {A P} cval cok.
Arguments cval {A P} c.
Arguments cok {A P} c.

Lemma checked_eq {A} {P : A → bool} (x y : checked P) : cval x = cval y → x = y.
Proof.
  destruct x as [a Ha], y as [b Hb]; cbn. intros ->. f_equal.
  apply UIP_dec, bool_eq_dec.
Qed.

Lemma checked_eq_iff {A} {P : A → bool} (x y : checked P) : cval x = cval y ↔ x = y.
Proof. split; [apply checked_eq|by intros ->]. Qed.

#[export] Instance cval_inj {A} {P : A → bool} : Inj (=) (=) (@cval A P).
Proof. intros x y. apply checked_eq. Qed.

#[export] Instance checked_eq_dec {A} `{EqDecision A} (P : A → bool) :
  EqDecision (checked P).
Proof.
  refine (λ x y, cast_if (decide (cval x = cval y))); by rewrite <-checked_eq_iff.
Defined.

Definition check {A} (P : A → bool) (a : A) : option (checked P) :=
  match Sumbool.sumbool_of_bool (P a) with
  | left H => Some (mkChecked a H)
  | right _ => None
  end.

Lemma check_cval {A} {P : A → bool} (x : checked P) : check P (cval x) = Some x.
Proof.
  unfold check. destruct (Sumbool.sumbool_of_bool _) as [H|H].
  - f_equal. by apply checked_eq.
  - exfalso. pose proof (cok x). congruence.
Qed.

Lemma check_Some {A} {P : A → bool} a (x : checked P) :
  check P a = Some x ↔ cval x = a.
Proof.
  split.
  - unfold check. destruct (Sumbool.sumbool_of_bool _); [intros [= <-]|]; done.
  - intros <-. apply check_cval.
Qed.

Lemma check_None {A} (P : A → bool) a : check P a = None ↔ P a = false.
Proof.
  unfold check. destruct (Sumbool.sumbool_of_bool _) as [H|H]; split; congruence.
Qed.

#[export] Instance checked_countable {A} `{Countable A} (P : A → bool) :
  Countable (checked P).
Proof. apply (inj_countable cval (check P)). intros x. apply check_cval. Defined.

(** A validating constructor that names why it refuses: [err a = None] accepts. *)
Definition accepts {A E} (err : A → option E) (a : A) : bool :=
  match err a with None => true | Some _ => false end.

Abbreviation valid err := (checked (accepts err)).

Lemma accepts_intro {A E} (err : A → option E) a : err a = None → accepts err a = true.
Proof. unfold accepts. by intros ->. Defined.

Lemma accepts_elim {A E} (err : A → option E) a : accepts err a = true → err a = None.
Proof. unfold accepts. by destruct (err a). Qed.

Definition validate_at {A E} (err : A → option E) (a : A) (o : option E) :
    err a = o → result E (valid err) :=
  match o with
  | None => λ H, Ok (mkChecked a (accepts_intro err a H))
  | Some e => λ _, Err e
  end.

Definition validate {A E} (err : A → option E) (a : A) : result E (valid err) :=
  validate_at err a (err a) eq_refl.

Lemma validate_spec {A E} (err : A → option E) a :
  (∃ v, validate err a = Ok v ∧ cval v = a ∧ err a = None) ∨
  (∃ e, validate err a = Err e ∧ err a = Some e).
Proof.
  enough (∀ o (H : err a = o),
    (∃ v, validate_at err a o H = Ok v ∧ cval v = a ∧ err a = None) ∨
    (∃ e, validate_at err a o H = Err e ∧ err a = Some e)) as HH by apply HH.
  intros [e|] H; [right|left]; cbn; eauto.
Qed.

Lemma validate_cval {A E} (err : A → option E) (v : valid err) :
  validate err (cval v) = Ok v.
Proof.
  destruct (validate_spec err (cval v)) as [(v' & -> & Hv & _)|(e & _ & He)].
  - f_equal. by apply checked_eq.
  - pose proof (accepts_elim err _ (cok v)). congruence.
Qed.

Lemma validate_Ok {A E} (err : A → option E) a v :
  validate err a = Ok v → cval v = a ∧ err a = None.
Proof.
  destruct (validate_spec err a) as [(v' & -> & Hv & Hn)|(e & -> & _)]; [|done].
  intros [= ->]. done.
Qed.

Lemma validate_Err {A E} (err : A → option E) a e :
  validate err a = Err e ↔ err a = Some e.
Proof.
  destruct (validate_spec err a) as [(v' & -> & Hv & Hn)|(e' & -> & He)];
    rewrite ?Hn, ?He; split; congruence.
Qed.

(** * Machine integers *)

Abbreviation uint w := (checked (λ n : N, (n <? 2 ^ w)%N)).
Abbreviation u64 := (uint 64).
Abbreviation u32 := (uint 32).

Definition u64_max : N := (2 ^ 64 - 1)%N.

(** [u64::from]/[try_from] of a mathematical integer: [None] out of range. *)
Definition u64_of_N (n : N) : option u64 := check _ n.
Definition u32_of_N (n : N) : option u32 := check _ n.

Lemma N_clamp_lt (n m : N) : (N.min n (2 ^ m - 1) <? 2 ^ m)%N = true.
Proof.
  apply N.ltb_lt. pose proof (N.pow_nonzero 2 m ltac:(done)). lia.
Qed.

(** A literal, or a saturating result: the integer clamped to the type's maximum.  On
    a concrete integer the range proof computes to [eq_refl]. *)
Definition clamp64 (n : N) : u64 :=
  match check _ (N.min n (2 ^ 64 - 1)) with
  | Some u => u
  | None => mkChecked 0%N eq_refl
  end.
Definition clamp32 (n : N) : u32 :=
  match check _ (N.min n (2 ^ 32 - 1)) with
  | Some u => u
  | None => mkChecked 0%N eq_refl
  end.

(** [a.saturating_add(b)] and [a.saturating_sub(b)] on [u64]. *)
Definition sat_add (a : u64) (b : N) : u64 := clamp64 (cval a + b).
Definition sat_sub (a : u64) (b : N) : u64 := clamp64 (cval a - b).

Lemma u64_bound (a : u64) : (cval a < 2 ^ 64)%N.
Proof. apply N.ltb_lt, (cok a). Qed.

Lemma clamp64_val n : cval (clamp64 n) = N.min n u64_max.
Proof.
  unfold clamp64. destruct (check _ _) as [u|] eqn:E; [by apply check_Some in E|].
  apply check_None in E. by rewrite N_clamp_lt in E.
Qed.

Lemma clamp64_id (a : u64) : clamp64 (cval a) = a.
Proof.
  apply checked_eq. rewrite clamp64_val. pose proof (u64_bound a). unfold u64_max. lia.
Qed.

Lemma sat_add_val a b : cval (sat_add a b) = N.min (cval a + b) u64_max.
Proof. apply clamp64_val. Qed.

Lemma sat_sub_val a b : cval (sat_sub a b) = (cval a - b)%N.
Proof.
  unfold sat_sub. rewrite clamp64_val. pose proof (u64_bound a). unfold u64_max. lia.
Qed.

Lemma u64_le_max (a : u64) : (cval a <= u64_max)%N.
Proof. pose proof (u64_bound a). unfold u64_max. lia. Qed.

(** Arithmetic goals about [u64] values: unfold the saturating operations, bring in
    the range of every [u64] in sight, and call [lia]. *)
Ltac u64_lia :=
  rewrite ?sat_add_val, ?sat_sub_val, ?clamp64_val in *;
  repeat match goal with
  | a : u64 |- _ =>
      lazymatch goal with
      | _ : (cval a <= u64_max)%N |- _ => fail
      | _ => pose proof (u64_le_max a)
      end
  end;
  unfold u64_max in *; lia.

(** * Bytes and byte arrays *)

Abbreviation bytes := (list byte).

#[export] Instance byte_eq_dec : EqDecision byte := Byte.byte_eq_dec.

Definition byte_of_N (n : N) : byte := default x00 (Byte.of_N (n mod 256)).

Lemma byte_to_of_N n : Byte.to_N (byte_of_N n) = (n mod 256)%N.
Proof.
  unfold byte_of_N. destruct (Byte.of_N (n mod 256)) as [b|] eqn:E; cbn.
  - by apply Byte.to_of_N in E.
  - apply Byte.of_N_None_iff in E. pose proof (N.mod_lt n 256 ltac:(done)). lia.
Qed.

Lemma byte_of_to_N b : byte_of_N (Byte.to_N b) = b.
Proof.
  unfold byte_of_N. rewrite N.mod_small.
  - by rewrite Byte.of_to_N.
  - pose proof (Byte.to_N_bounded b). lia.
Qed.

#[export] Instance byte_to_N_inj : Inj (=) (=) Byte.to_N.
Proof. intros a b H. by rewrite <-(byte_of_to_N a), H, byte_of_to_N. Qed.

#[export] Instance byte_countable : Countable byte.
Proof. apply (inj_countable' Byte.to_N byte_of_N byte_of_to_N). Defined.

Lemma byte_bound b : (Byte.to_N b < 256)%N.
Proof. pose proof (Byte.to_N_bounded b). lia. Qed.

(** [[u8; n]]. *)
Abbreviation arr n := (checked (λ l : bytes, Nat.eqb (length l) n)).

(** [Vec<u8>::try_into::<[u8; n]>()]. *)
Definition try_into (n : nat) (l : bytes) : option (arr n) := check _ l.

Lemma arr_length {n} (a : arr n) : length (cval a) = n.
Proof. apply Nat.eqb_eq, (cok a). Qed.

Lemma try_into_cval {n} (a : arr n) : try_into n (cval a) = Some a.
Proof. apply check_cval. Qed.

Lemma repeat_arr_ok n (b : byte) : Nat.eqb (length (replicate n b)) n = true.
Proof. rewrite length_replicate. apply Nat.eqb_refl. Qed.

(** [[b; n]]. *)
Definition fill (n : nat) (b : byte) : arr n := mkChecked (replicate n b) (repeat_arr_ok n b).

(** * Lexicographic order

    [Ord] of slices of unsigned integers: [[u8]] (the 32-byte newtypes delegate to
    it), [str] (its UTF-8 bytes) and [Iterator::cmp] on UTF-16 units. *)
Fixpoint lex_compare (a b : list N) : comparison :=
  match a, b with
  | [], [] => Eq
  | [], _ :: _ => Lt
  | _ :: _, [] => Gt
  | x :: a', y :: b' =>
      match N.compare x y with
      | Eq => lex_compare a' b'
      | c => c
      end
  end.

Definition lex_leb (a b : list N) : bool :=
  match lex_compare a b with Gt => false | _ => true end.

Definition lex_ltb (a b : list N) : bool :=
  match lex_compare a b with Lt => true | _ => false end.

Lemma lex_compare_eq a b : lex_compare a b = Eq ↔ a = b.
Proof.
  revert b. induction a as [|x a IH]; intros [|y b]; cbn; try done.
  destruct (N.compare_spec x y) as [->|H|H]; rewrite ?IH; split; try done; try congruence.
  all: intros [= -> ->]; lia.
Qed.

Lemma lex_compare_antisym a b : lex_compare b a = CompOpp (lex_compare a b).
Proof.
  revert b. induction a as [|x a IH]; intros [|y b]; cbn; try done.
  rewrite N.compare_antisym. destruct (N.compare x y); cbn; auto.
Qed.

Lemma lex_leb_total a b : lex_leb a b = true ∨ lex_leb b a = true.
Proof.
  unfold lex_leb. rewrite (lex_compare_antisym a b). destruct (lex_compare a b); auto.
Qed.

Lemma lex_leb_antisym a b : lex_leb a b = true → lex_leb b a = true → a = b.
Proof.
  unfold lex_leb. rewrite (lex_compare_antisym a b).
  destruct (lex_compare a b) eqn:E; cbn; try done. by apply lex_compare_eq in E.
Qed.

Lemma lex_ltb_leb a b : lex_ltb a b = negb (lex_leb b a).
Proof.
  unfold lex_ltb, lex_leb. rewrite (lex_compare_antisym a b).
  by destruct (lex_compare a b).
Qed.

Lemma lex_leb_trans a b c : lex_leb a b = true → lex_leb b c = true → lex_leb a c = true.
Proof.
  unfold lex_leb. revert b c. induction a as [|x a IH]; intros [|y b] [|z c]; cbn; try done.
  destruct (N.compare_spec x y), (N.compare_spec y z), (N.compare_spec x z); subst;
    try done; try lia; eauto.
Qed.

Definition bytes_N (l : bytes) : list N := map Byte.to_N l.

Definition bytes_compare (a b : bytes) : comparison := lex_compare (bytes_N a) (bytes_N b).

Lemma bytes_N_inj a b : bytes_N a = bytes_N b → a = b.
Proof. apply list_fmap_eq_inj, byte_to_N_inj. Qed.

Lemma bytes_compare_eq a b : bytes_compare a b = Eq ↔ a = b.
Proof.
  unfold bytes_compare. rewrite lex_compare_eq. split; [apply bytes_N_inj|by intros ->].
Qed.

(** * Big-endian integers *)

(** [n.to_be_bytes()] on [u64]: eight bytes, most significant first. *)
Definition be_bytes (k : nat) (n : N) : bytes :=
  map (λ i, byte_of_N (N.shiftr n (8 * N.of_nat i))) (rev (seq 0 k)).

Definition to_be_bytes (n : u64) : bytes := be_bytes 8 (cval n).

(** The integer a big-endian byte string denotes. *)
Definition be_val (l : bytes) : N := fold_left (λ acc b, acc * 256 + Byte.to_N b)%N l 0%N.

(** * Changes that leave something as it was *)

Definition keeps {A B} (f : A → B) : relation A := λ a a', f a' = f a.

#[export] Instance keeps_preorder {A B} (f : A → B) : PreOrder (keeps f).
Proof. unfold keeps. split; [done|]. intros a b c H1 H2. by rewrite H2. Qed.

(** * Automation

    [checked] reads a value back through the validating constructor it came from; [widths]
    knows the ranges of machine integers and the lengths of arrays. *)

Create Rewrite HintDb checked.
#[export] Hint Rewrite @bind_ok @check_cval @validate_cval @try_into_cval clamp64_id : checked.

Create HintDb widths discriminated.
#[export] Hint Resolve u64_bound u64_le_max byte_bound arr_length : widths.
