(* ===== verification/Text.v ===== *)
(** Rust strings: Unicode scalar values, UTF-8, UTF-16, decimal numerals, and the
    combining-mark predicate of [protocol/v1/unicode.rs].

    A [str] is the list of its [char]s.  [value.len()] counts UTF-8 bytes
    ([str_len]); [as_bytes()]/[into_bytes()] is [utf8]; [str::from_utf8] is
    [from_utf8]; [encode_utf16()] is [utf16]. *)

From stdpp Require Import base tactics list numbers option strings countable gmap.
From Stdlib Require Import Strings.Byte.
From Stdlib Require Import ZArith Lia.
From Stdlib Require Strings.Ascii.
From S2P Require Import Prelude.

Local Open Scope N_scope.

(** * Scalar values and strings *)

(** [char]: a Unicode scalar value. *)
Definition is_scalar (n : N) : bool :=
  (n <? 0xD800) || ((0xE000 <=? n) && (n <=? 0x10FFFF)).

Abbreviation char := (checked is_scalar).
Abbreviation str := (list char).

(** [char::from_u32]. *)
Definition char_from_u32 (n : N) : option char := check is_scalar n.

(** U+FFFD, only ever the default of a total literal. *)
Definition replacement : char := mkChecked 0xFFFD eq_refl.

Definition char_of (n : N) : char := default replacement (char_from_u32 n).

(** A Rust string literal. *)
Definition lit (s : string) : str :=
  map (λ a, char_of (Ascii.N_of_ascii a)) (String.list_ascii_of_string s).

Definition str_eqb (a b : str) : bool := bool_decide (a = b).

Lemma char_of_val n : is_scalar n = true → cval (char_of n) = n.
Proof.
  intros H. unfold char_of, char_from_u32.
  destruct (check is_scalar n) as [c|] eqn:E; cbn.
  - by apply check_Some in E.
  - apply check_None in E. congruence.
Qed.

Lemma char_of_cval c : char_of (cval c) = c.
Proof. unfold char_of, char_from_u32. by rewrite check_cval. Qed.

Lemma is_scalar_spec n :
  is_scalar n = true ↔ n < 0xD800 ∨ (0xE000 <= n ∧ n <= 0x10FFFF).
Proof.
  unfold is_scalar. rewrite orb_true_iff, andb_true_iff, N.ltb_lt, !N.leb_le. done.
Qed.

Lemma char_range (c : char) : cval c < 0xD800 ∨ (0xE000 <= cval c ∧ cval c <= 0x10FFFF).
Proof. apply is_scalar_spec, (cok c). Qed.

Lemma ascii_char_inj a b :
  char_of (Ascii.N_of_ascii a) = char_of (Ascii.N_of_ascii b) → a = b.
Proof.
  intros H. apply (f_equal cval) in H.
  pose proof (Ascii.N_ascii_bounded a). pose proof (Ascii.N_ascii_bounded b).
  rewrite !char_of_val in H by (apply is_scalar_spec; lia).
  rewrite <-(Ascii.ascii_N_embedding a), <-(Ascii.ascii_N_embedding b). by f_equal.
Qed.

Lemma lit_inj a b : lit a = lit b → a = b.
Proof.
  unfold lit. intros H.
  assert (String.list_ascii_of_string a = String.list_ascii_of_string b) as HE.
  { revert H. generalize (String.list_ascii_of_string a) (String.list_ascii_of_string b).
    intros l; induction l as [|x l IH]; intros [|y l']; cbn; try done.
    intros [= Hx Hl]. f_equal; [by apply ascii_char_inj|by apply IH]. }
  by rewrite <-(String.string_of_list_ascii_of_string a), HE,
    String.string_of_list_ascii_of_string.
Qed.

Lemma str_eqb_eq a b : str_eqb a b = true ↔ a = b.
Proof. apply bool_decide_eq_true. Qed.

Lemma str_eqb_refl a : str_eqb a a = true.
Proof. by apply str_eqb_eq. Qed.

Lemma str_eqb_lit a b : str_eqb (lit a) (lit b) = String.eqb a b.
Proof.
  destruct (String.eqb_spec a b) as [->|Hne]; [apply str_eqb_refl|].
  apply bool_decide_eq_false. by intros ?%lit_inj.
Qed.

(** * UTF-8 *)

Definition utf8_char (c : char) : bytes :=
  let n := cval c in
  if n <? 0x80 then [byte_of_N n]
  else if n <? 0x800 then [byte_of_N (0xC0 + n / 64); byte_of_N (0x80 + n mod 64)]
  else if n <? 0x10000 then
    [byte_of_N (0xE0 + n / 4096); byte_of_N (0x80 + n / 64 mod 64);
     byte_of_N (0x80 + n mod 64)]
  else
    [byte_of_N (0xF0 + n / 262144); byte_of_N (0x80 + n / 4096 mod 64);
     byte_of_N (0x80 + n / 64 mod 64); byte_of_N (0x80 + n mod 64)].

(** [String::into_bytes]. *)
Definition utf8 (s : str) : bytes := concat (map utf8_char s).

(** [str::len]: UTF-8 bytes. *)
Definition str_len (s : str) : nat := length (utf8 s).

Definition is_cont (b : byte) : bool :=
  (0x80 <=? Byte.to_N b) && (Byte.to_N b <=? 0xBF).

Definition cont (b : byte) : N := Byte.to_N b - 0x80.

(** A decoded scalar of a multi-byte sequence: refused when it is overlong, a
    surrogate or past U+10FFFF. *)
Definition utf8_scalar (least n : N) : option char :=
  if n <? least then None else char_from_u32 n.

(** [str::from_utf8]. *)
Fixpoint from_utf8 (bs : bytes) : option str :=
  match bs with
  | [] => Some []
  | b0 :: r0 =>
    let n0 := Byte.to_N b0 in
    if n0 <? 0x80 then cons (char_of n0) <$> from_utf8 r0
    else if n0 <? 0xC0 then None
    else match r0 with
    | [] => None
    | b1 :: r1 =>
      if negb (is_cont b1) then None
      else if n0 <? 0xE0 then
        c ← utf8_scalar 0x80 ((n0 - 0xC0) * 64 + cont b1);
        cons c <$> from_utf8 r1
      else match r1 with
      | [] => None
      | b2 :: r2 =>
        if negb (is_cont b2) then None
        else if n0 <? 0xF0 then
          c ← utf8_scalar 0x800 ((n0 - 0xE0) * 4096 + cont b1 * 64 + cont b2);
          cons c <$> from_utf8 r2
        else match r2 with
        | [] => None
        | b3 :: r3 =>
          if negb (is_cont b3) then None
          else if n0 <? 0xF8 then
            c ← utf8_scalar 0x10000
                  ((n0 - 0xF0) * 262144 + cont b1 * 4096 + cont b2 * 64 + cont b3);
            cons c <$> from_utf8 r3
          else None
        end
      end
    end
  end.

Lemma mod64_lt n : ∃ r, n mod 64 = r ∧ r < 64.
Proof. exists (n mod 64). split; [done|]. by apply N.mod_lt. Qed.

Lemma is_cont_of n : is_cont (byte_of_N (0x80 + n mod 64)) = true.
Proof.
  unfold is_cont. rewrite byte_to_of_N.
  destruct (mod64_lt n) as (r & -> & Hr). rewrite (N.mod_small (_ + _) 256) by lia.
  apply andb_true_iff. rewrite !N.leb_le. lia.
Qed.

Lemma cont_of n : cont (byte_of_N (0x80 + n mod 64)) = n mod 64.
Proof.
  unfold cont. rewrite byte_to_of_N.
  destruct (mod64_lt n) as (r & -> & Hr). rewrite (N.mod_small (_ + _) 256) by lia. lia.
Qed.

Lemma utf8_scalar_of least (c : char) :
  least <= cval c → utf8_scalar least (cval c) = Some c.
Proof.
  intros H. unfold utf8_scalar, char_from_u32.
  replace (cval c <? least) with false by (symmetry; apply N.ltb_ge; lia).
  apply check_cval.
Qed.

Lemma byte_lead base n : base + n < 256 → Byte.to_N (byte_of_N (base + n)) = base + n.
Proof. intros H. by rewrite byte_to_of_N, N.mod_small. Qed.

(** Step through the comparisons of one decoding step, each decided by [lia]. *)
Ltac decide_ltb :=
  repeat match goal with
  | |- context [ (?a <? ?b)%N ] =>
      first [ replace (a <? b)%N with true by (symmetry; apply N.ltb_lt; lia)
            | replace (a <? b)%N with false by (symmetry; apply N.ltb_ge; lia) ];
      cbv beta iota
  end.

Lemma from_utf8_char c rest :
  from_utf8 (utf8_char c ++ rest) = cons c <$> from_utf8 rest.
Proof.
  pose proof (char_range c) as Hr. unfold utf8_char. set (n := cval c) in *.
  destruct (mod64_lt n) as (r0 & E0 & Hr0).
  destruct (mod64_lt (n / 64)) as (r1 & E1 & Hr1).
  destruct (mod64_lt (n / 4096)) as (r2 & E2 & Hr2).
  pose proof (N.div_mod n 64 ltac:(done)) as D0.
  pose proof (N.div_mod (n / 64) 64 ltac:(done)) as D1.
  pose proof (N.div_mod (n / 4096) 64 ltac:(done)) as D2.
  rewrite E0 in D0. rewrite E1, N.Div0.div_div in D1. change (64 * 64) with 4096 in D1.
  rewrite E2, N.Div0.div_div in D2. change (4096 * 64) with 262144 in D2.
  pose proof (is_cont_of n) as C0. pose proof (is_cont_of (n / 64)) as C1.
  pose proof (is_cont_of (n / 4096)) as C2. pose proof (cont_of n) as V0.
  pose proof (cont_of (n / 64)) as V1. pose proof (cont_of (n / 4096)) as V2.
  rewrite E0 in *. rewrite E1 in *. rewrite E2 in *. clear E0 E1 E2.
  generalize dependent (n / 262144). generalize dependent (n / 4096).
  generalize dependent (n / 64). intros q1 D0 q2 D1 q3 D2.
  destruct (n <? 0x80) eqn:E1; [|destruct (n <? 0x800) eqn:E2;
    [|destruct (n <? 0x10000) eqn:E3]];
    rewrite ?N.ltb_lt, ?N.ltb_ge in *; cbn [app from_utf8].
  - rewrite <-(N.add_0_l n), byte_lead by lia. rewrite N.add_0_l.
    decide_ltb. unfold n. by rewrite char_of_cval.
  - rewrite byte_lead by lia. decide_ltb. rewrite C0, V0. cbn [negb].
    replace ((0xC0 + q1 - 0xC0) * 64 + r0) with n by lia.
    unfold n. by rewrite utf8_scalar_of by lia.
  - rewrite byte_lead by lia. decide_ltb. rewrite C0, C1, V0, V1. cbn [negb].
    replace ((0xE0 + q2 - 0xE0) * 4096 + r1 * 64 + r0) with n by lia.
    unfold n. by rewrite utf8_scalar_of by lia.
  - rewrite byte_lead by lia. decide_ltb. rewrite C0, C1, C2, V0, V1, V2. cbn [negb].
    replace ((0xF0 + q3 - 0xF0) * 262144 + r2 * 4096 + r1 * 64 + r0) with n by lia.
    unfold n. by rewrite utf8_scalar_of by lia.
Qed.

Lemma from_utf8_utf8 s : from_utf8 (utf8 s) = Some s.
Proof.
  induction s as [|c s IH]; [done|].
  unfold utf8 in *. cbn [map concat]. by rewrite from_utf8_char, IH.
Qed.

Lemma utf8_inj s t : utf8 s = utf8 t → s = t.
Proof. intros H. apply (f_equal from_utf8) in H. rewrite !from_utf8_utf8 in H. congruence. Qed.

(** * UTF-16 *)

Definition utf16_char (c : char) : list N :=
  let n := cval c in
  if n <? 0x10000 then [n]
  else [0xD800 + (n - 0x10000) / 0x400; 0xDC00 + (n - 0x10000) mod 0x400].

(** [str::encode_utf16]. *)
Definition utf16 (s : str) : list N := concat (map utf16_char s).

Lemma utf16_char_inj c d (s t : list N) :
  utf16_char c ++ s = utf16_char d ++ t → c = d ∧ s = t.
Proof.
  unfold utf16_char. pose proof (char_range c) as Hc. pose proof (char_range d) as Hd.
  pose proof (N.div_mod (cval c - 0x10000) 0x400 ltac:(done)) as Dc.
  pose proof (N.div_mod (cval d - 0x10000) 0x400 ltac:(done)) as Dd.
  assert (∀ n, n <= 0x10FFFF → (n - 0x10000) / 0x400 < 0x400) as Hq.
  { intros n Hn. apply N.Div0.div_lt_upper_bound. lia. }
  pose proof (Hq (cval c)). pose proof (Hq (cval d)).
  destruct (cval c <? 0x10000) eqn:E1, (cval d <? 0x10000) eqn:E2;
    rewrite ?N.ltb_lt, ?N.ltb_ge in *; cbn [app];
    try (generalize dependent ((cval c - 0x10000) / 0x400); intros qc);
    try (generalize dependent ((cval d - 0x10000) / 0x400); intros qd);
    try (generalize dependent ((cval c - 0x10000) mod 0x400); intros rc);
    try (generalize dependent ((cval d - 0x10000) mod 0x400); intros rd);
    intros; simplify_list_eq; try (exfalso; lia).
  all: split; [apply checked_eq; lia|done].
Qed.

Lemma utf16_inj s t : utf16 s = utf16 t → s = t.
Proof.
  unfold utf16. revert t. induction s as [|c s IH]; intros [|d t]; cbn [map concat].
  - done.
  - unfold utf16_char. by destruct (_ <? _).
  - unfold utf16_char. by destruct (_ <? _).
  - intros [-> H]%utf16_char_inj. f_equal. by apply IH.
Qed.

(** * Character classes *)

Definition ascii_is (lo hi : N) (c : char) : bool := (lo <=? cval c) && (cval c <=? hi).

(** [char::is_ascii_lowercase], [is_ascii_digit], [is_ascii]. *)
Definition is_ascii_lowercase : char → bool := ascii_is 97 122.
Definition is_ascii_digit : char → bool := ascii_is 48 57.
Definition is_ascii (c : char) : bool := cval c <? 128.

(** [char::is_whitespace]: the code points with the White_Space property. *)
Definition is_whitespace (c : char) : bool :=
  let n := cval c in
  ((9 <=? n) && (n <=? 13)) || (n =? 0x20) || (n =? 0x85) || (n =? 0xA0) || (n =? 0x1680)
  || ((0x2000 <=? n) && (n <=? 0x200A)) || (n =? 0x2028) || (n =? 0x2029) || (n =? 0x202F)
  || (n =? 0x205F) || (n =? 0x3000).

(** [str::trim_start]. *)
Fixpoint trim_start (s : str) : str :=
  match s with
  | c :: s' => if is_whitespace c then trim_start s' else s
  | [] => []
  end.

Fixpoint starts_with (p s : str) : bool :=
  match p, s with
  | [], _ => true
  | a :: p', b :: s' => bool_decide (a = b) && starts_with p' s'
  | _ :: _, [] => false
  end.

(** [str::strip_prefix]. *)
Definition strip_prefix (p s : str) : option str :=
  if starts_with p s then Some (drop (length p) s) else None.

Lemma starts_with_app p s : starts_with p (p ++ s) = true.
Proof. induction p; cbn; [done|]. by rewrite bool_decide_true. Qed.

Lemma strip_prefix_app p s : strip_prefix p (p ++ s) = Some s.
Proof. unfold strip_prefix. by rewrite starts_with_app, drop_app_length. Qed.

(** * Decimal numerals *)

Lemma divmod_ex n k : k ≠ 0 → ∃ q r, n / k = q ∧ n mod k = r ∧ n = k * q + r ∧ r < k.
Proof.
  intros Hk. exists (n / k), (n mod k). split_and!; try done.
  - by apply N.div_mod.
  - by apply N.mod_lt.
Qed.

Definition digit_char (d : N) : char := char_of (48 + d).

Fixpoint dec_digits (fuel : nat) (n : N) : list N :=
  match fuel with
  | O => []
  | S f => if n <? 10 then [n] else dec_digits f (n / 10) ++ [n mod 10]
  end.

(** [u64::to_string]: at most twenty digits. *)
Definition u64_to_string (n : u64) : str := map digit_char (dec_digits 20 (cval n)).

Fixpoint parse_digits (acc : N) (s : str) : option N :=
  match s with
  | [] => Some acc
  | c :: s' =>
    if negb (is_ascii_digit c) then None
    else
      let acc' := acc * 10 + (cval c - 48) in
      if acc' <? 2 ^ 64 then parse_digits acc' s' else None
  end.

(** [str::parse::<u64>] on an unsigned numeral. *)
Definition parse_u64 (s : str) : option u64 :=
  match s with
  | [] => None
  | _ => parse_digits 0 s ≫= u64_of_N
  end.

Lemma digit_char_val d : d < 10 → cval (digit_char d) = 48 + d.
Proof. intros H. apply char_of_val, is_scalar_spec. lia. Qed.

Lemma digit_char_digit d : d < 10 → is_ascii_digit (digit_char d) = true.
Proof.
  intros H. unfold is_ascii_digit, ascii_is. rewrite digit_char_val by done.
  apply andb_true_iff. rewrite !N.leb_le. lia.
Qed.

Lemma parse_digits_app acc s t :
  parse_digits acc (s ++ t) = parse_digits acc s ≫= λ a, parse_digits a t.
Proof.
  revert acc. induction s as [|c s IH]; intros acc; cbn [app parse_digits]; [done|].
  destruct (negb _); [done|]. destruct (_ <? _); [apply IH|done].
Qed.

Lemma parse_digits_single acc d :
  d < 10 → acc * 10 + d < 2 ^ 64 → parse_digits acc [digit_char d] = Some (acc * 10 + d).
Proof.
  intros Hd Hb. cbn [parse_digits]. rewrite digit_char_digit, digit_char_val by done.
  cbn [negb]. replace (acc * 10 + (48 + d - 48)) with (acc * 10 + d) by lia.
  by apply N.ltb_lt in Hb as ->.
Qed.

Lemma dec_digits_parse fuel n :
  n < 10 ^ N.of_nat fuel → n < 2 ^ 64 →
  parse_digits 0 (map digit_char (dec_digits fuel n)) = Some n.
Proof.
  revert n. induction fuel as [|f IH]; intros n Hf Hb; cbn [dec_digits].
  { cbn in *. f_equal. lia. }
  destruct (n <? 10) eqn:E; rewrite ?N.ltb_lt, ?N.ltb_ge in E; cbn [map].
  { rewrite parse_digits_single; [f_equal| |]; lia. }
  destruct (divmod_ex n 10 ltac:(done)) as (q & r & -> & -> & D & Hr).
  rewrite Nat2N.inj_succ, N.pow_succ_r' in Hf.
  rewrite map_app, parse_digits_app, IH by lia. cbn [mbind option_bind map].
  rewrite parse_digits_single; [f_equal| |]; lia.
Qed.

Lemma dec_digits_lt fuel n : Forall (λ d, d < 10) (dec_digits fuel n).
Proof.
  revert n. induction fuel as [|f IH]; intros n; cbn [dec_digits]; [constructor|].
  destruct (n <? 10) eqn:E; [apply N.ltb_lt in E; repeat constructor; done|].
  apply Forall_app. split; [apply IH|]. repeat constructor. by apply N.mod_lt.
Qed.

Lemma dec_digits_head fuel n :
  (0 < fuel)%nat → ∃ d ds, dec_digits fuel n = d :: ds ∧ d < 10 ∧
    (d = 0 → 0 < n → n < 10 ^ N.of_nat fuel → False) ∧ (n = 0 → ds = []).
Proof.
  revert n. induction fuel as [|f IH]; intros n Hf; [lia|]. cbn [dec_digits].
  destruct (n <? 10) eqn:E; rewrite ?N.ltb_lt, ?N.ltb_ge in E.
  { exists n, []. repeat split; try done; lia. }
  destruct (divmod_ex n 10 ltac:(done)) as (q & r & -> & -> & D & Hr).
  destruct f as [|f].
  { exists r, []. cbn [dec_digits app].
    change (10 ^ N.of_nat 1) with 10. repeat split; try done; intros; lia. }
  destruct (IH q) as (d & ds & -> & Hd & Hz & _); [lia|].
  exists d, (ds ++ [r]). split_and!; [done|done| |intros; lia].
  intros -> Hn Hlt. rewrite Nat2N.inj_succ, N.pow_succ_r' in Hlt.
  apply (Hz eq_refl); lia.
Qed.

Lemma parse_u64_to_string n : parse_u64 (u64_to_string n) = Some n.
Proof.
  unfold parse_u64, u64_to_string.
  pose proof (u64_bound n) as Hb.
  assert (cval n < 10 ^ N.of_nat 20) as Hf.
  { eapply N.lt_trans; [exact Hb|]. by vm_compute. }
  pose proof (dec_digits_parse 20 (cval n) Hf Hb) as HP.
  destruct (dec_digits_head 20 (cval n)) as (d & ds & E & _); [lia|].
  rewrite E in *. cbn [map] in *. rewrite HP. apply check_cval.
Qed.

(** * Combining marks ([unicode.rs]) *)

Definition COMBINING_RANGES : list (N * N) :=
  [(0x0300, 0x036F); (0x0483, 0x0489); (0x0591, 0x05BD); (0x05BF, 0x05BF);
   (0x05C1, 0x05C2); (0x05C4, 0x05C5); (0x05C7, 0x05C7); (0x0610, 0x061A);
   (0x064B, 0x065F); (0x0670, 0x0670); (0x06D6, 0x06DC); (0x06DF, 0x06E4);
   (0x06E7, 0x06E8); (0x06EA, 0x06ED); (0x0711, 0x0711); (0x0730, 0x074A);
   (0x07A6, 0x07B0); (0x07EB, 0x07F3); (0x0816, 0x0819); (0x081B, 0x0823);
   (0x0825, 0x0827); (0x0829, 0x082D); (0x0859, 0x085B); (0x08D3, 0x08E1);
   (0x08E3, 0x0903); (0x093A, 0x094F); (0x0951, 0x0957); (0x0962, 0x0963);
   (0x1AB0, 0x1ACE); (0x1DC0, 0x1DFF); (0x20D0, 0x20F0); (0xFE20, 0xFE2F)].

Definition is_combining (c : char) : bool :=
  existsb (λ '(lo, hi), (lo <=? cval c) && (cval c <=? hi)) COMBINING_RANGES.

Lemma ascii_not_combining c : is_ascii c = true → is_combining c = false.
Proof.
  intros H%N.ltb_lt. apply not_true_is_false. intros ([lo hi] & Hin & Hr)%existsb_exists.
  assert (Forall (λ r : N * N, 128 <= r.1) COMBINING_RANGES) as HF
    by (repeat constructor; cbn; lia).
  rewrite List.Forall_forall in HF. specialize (HF _ Hin). cbn in HF.
  apply andb_true_iff in Hr as [Hlo _]. apply N.leb_le in Hlo. lia.
Qed.
