(* ===== verification/Ids.v ===== *)
(** Identifiers, keys, policies and errors: [protocol/bytes32.rs], [protocol/policy.rs],
    [protocol/rng.rs], and [ids.rs], [error.rs], [kem.rs], [sign.rs], [aead.rs], [hmac.rs]
    under [protocol/v1/].

    The macro [bytes32_type!] makes a newtype of [[u8; 32]] per role; here the role is
    a phantom index of one record, so a [Tag] is not a [Secret]. *)

From stdpp Require Import base tactics list numbers option strings countable gmap.
From Stdlib Require Import Strings.Byte.
From S2P Require Import Prelude Text.

(** * Constant-time equality ([bytes32.rs]) *)

Definition byte_or (a b : byte) : byte := byte_of_N (N.lor (Byte.to_N a) (Byte.to_N b)).
Definition byte_xor (a b : byte) : byte := byte_of_N (N.lxor (Byte.to_N a) (Byte.to_N b)).

(** [a.iter().zip(b.iter()).fold(0, |acc, (x, y)| acc | (x ^ y)) == 0]. *)
Definition ct_eq (a b : bytes) : bool :=
  bool_decide (fold_left (λ acc '(x, y), byte_or acc (byte_xor x y)) (zip a b) x00 = x00).

Lemma N_lt256_bits (f : N → N → N) (a b : N) :
  (a < 256)%N → (b < 256)%N →
  (∀ n, N.testbit (f a b) n = true → N.testbit a n = true ∨ N.testbit b n = true) →
  (f a b < 256)%N.
Proof.
  intros Ha Hb Hf. destruct (N.eq_0_gt_0_cases (f a b)) as [->|Hp]; [done|].
  change 256%N with (2 ^ 8)%N in *.
  apply N.log2_lt_pow2; [done|]. pose proof (N.bit_log2 (f a b) ltac:(lia)) as Hbit.
  assert (∀ c, (c < 2 ^ 8)%N → N.testbit c (N.log2 (f a b)) = true →
    (N.log2 (f a b) < 8)%N) as Hc.
  { intros c Hlt Ht. destruct (N.lt_ge_cases (N.log2 (f a b)) 8) as [|Hge]; [done|].
    destruct (N.eq_0_gt_0_cases c) as [->|Hc0]; [by rewrite N.bits_0 in Ht|].
    rewrite N.bits_above_log2 in Ht; [done|].
    eapply N.lt_le_trans; [|exact Hge]. by apply N.log2_lt_pow2. }
  destruct (Hf _ Hbit) as [Ht|Ht]; [by apply (Hc a)|by apply (Hc b)].
Qed.

Lemma byte_xor_val a b :
  Byte.to_N (byte_xor a b) = N.lxor (Byte.to_N a) (Byte.to_N b).
Proof.
  unfold byte_xor. rewrite byte_to_of_N. apply N.mod_small.
  apply (N_lt256_bits N.lxor); [apply byte_bound..|].
  intros n. rewrite N.lxor_spec. destruct (N.testbit _ n), (N.testbit _ n); auto.
Qed.

Lemma byte_or_val a b :
  Byte.to_N (byte_or a b) = N.lor (Byte.to_N a) (Byte.to_N b).
Proof.
  unfold byte_or. rewrite byte_to_of_N. apply N.mod_small.
  apply (N_lt256_bits N.lor); [apply byte_bound..|].
  intros n. rewrite N.lor_spec, orb_true_iff. auto.
Qed.

Lemma byte_or_zero a b : byte_or a b = x00 ↔ a = x00 ∧ b = x00.
Proof.
  rewrite <-!(inj_iff Byte.to_N), byte_or_val. change (Byte.to_N x00) with 0%N.
  apply N.lor_eq_0_iff.
Qed.

Lemma byte_xor_zero a b : byte_xor a b = x00 ↔ a = b.
Proof.
  rewrite <-!(inj_iff Byte.to_N), byte_xor_val. change (Byte.to_N x00) with 0%N.
  apply N.lxor_eq_0_iff.
Qed.

Lemma byte_xor_comm a b : byte_xor a b = byte_xor b a.
Proof. apply (inj Byte.to_N). by rewrite !byte_xor_val, N.lxor_comm. Qed.

Lemma byte_xor_assoc a b c : byte_xor a (byte_xor b c) = byte_xor (byte_xor a b) c.
Proof. apply (inj Byte.to_N). by rewrite !byte_xor_val, N.lxor_assoc. Qed.

Lemma byte_xor_0_r a : byte_xor a x00 = a.
Proof. apply (inj Byte.to_N). by rewrite byte_xor_val, N.lxor_0_r. Qed.

Lemma byte_xor_self a : byte_xor a a = x00.
Proof. by apply byte_xor_zero. Qed.

Lemma ct_fold_zero l acc :
  fold_left (λ acc '(x, y), byte_or acc (byte_xor x y)) l acc = x00 ↔
  acc = x00 ∧ Forall (λ p : byte * byte, p.1 = p.2) l.
Proof.
  revert acc. induction l as [|[x y] l IH]; intros acc; cbn [fold_left].
  - split; [intros ->; by split|by intros [-> _]].
  - rewrite IH, byte_or_zero, byte_xor_zero, Forall_cons. cbn. tauto.
Qed.

Lemma Forall_zip_eq (a b : bytes) :
  length a = length b → Forall (λ p : byte * byte, p.1 = p.2) (zip a b) ↔ a = b.
Proof.
  revert b. induction a as [|x a IH]; intros [|y b] Hl; try done.
  injection Hl as Hl. cbn [zip zip_with]. rewrite Forall_cons, IH by done. cbn.
  split; [by intros [-> ->]|by intros [= -> ->]].
Qed.

Lemma ct_eq_spec {n} (a b : arr n) : ct_eq (cval a) (cval b) = true ↔ a = b.
Proof.
  unfold ct_eq. rewrite bool_decide_eq_true, ct_fold_zero.
  rewrite Forall_zip_eq by by rewrite !arr_length.
  rewrite checked_eq_iff. tauto.
Qed.

(** * Branded 32-byte newtypes ([ids.rs], [rng.rs], [chain.rs]) *)

Inductive role : Set :=
| RUserId | RIdentityId | RConversationId | RDeviceId | RSecret | RTag | RTagKey
| RRandom32 | RHmacKey | RHmacMac | RAeadKey
| RChainRoot | RChainKey | RMessageKey | REphMessageKey.

Record branded (r : role) : Set := from_bytes { as_bytes : arr 32 }.
Arguments from_bytes {r} as_bytes.
Arguments as_bytes {r} b.

#[export] Instance branded_eq_dec r : EqDecision (branded r).
Proof. solve_decision. Defined.

#[export] Instance branded_countable r : Countable (branded r).
Proof. by apply (inj_countable' as_bytes from_bytes); intros []. Defined.

Abbreviation UserId := (branded RUserId).
Abbreviation IdentityId := (branded RIdentityId).
Abbreviation ConversationId := (branded RConversationId).
Abbreviation DeviceId := (branded RDeviceId).
Abbreviation Secret := (branded RSecret).
Abbreviation Tag := (branded RTag).
Abbreviation TagKey := (branded RTagKey).
Abbreviation Random32 := (branded RRandom32).
Abbreviation HmacSha256Key := (branded RHmacKey).
Abbreviation HmacSha256Mac := (branded RHmacMac).
Abbreviation AeadKey := (branded RAeadKey).
Abbreviation ChainRoot := (branded RChainRoot).
Abbreviation ChainKey := (branded RChainKey).
Abbreviation MessageKey := (branded RMessageKey).
Abbreviation EphMessageKey := (branded REphMessageKey).

(** [impl PartialEq]: constant-time equality. *)
Definition branded_eq {r} (a b : branded r) : bool :=
  ct_eq (cval (as_bytes a)) (cval (as_bytes b)).

(** [impl Ord]: lexicographic on the bytes. *)
Definition branded_cmp {r} (a b : branded r) : comparison :=
  bytes_compare (cval (as_bytes a)) (cval (as_bytes b)).

(** [From<Random32>]. *)
Definition from_random32 {r} (rnd : Random32) : branded r := from_bytes (as_bytes rnd).

Lemma branded_ext {r} (a b : branded r) : as_bytes a = as_bytes b → a = b.
Proof. destruct a, b; cbn. by intros ->. Qed.

(** Equality of the secrets and tags compared on protocol paths never returns early
    and still decides equality; the order used by the ordered maps agrees with it. *)
Lemma branded_eq_spec {r} (a b : branded r) : branded_eq a b = true ↔ a = b.
Proof.
  unfold branded_eq. rewrite ct_eq_spec. split; [apply branded_ext|by intros ->].
Qed.

Lemma branded_cmp_eq {r} (a b : branded r) : branded_cmp a b = Eq ↔ a = b.
Proof.
  unfold branded_cmp. rewrite bytes_compare_eq, checked_eq_iff.
  split; [apply branded_ext|by intros ->].
Qed.

(** [u64_type!]: the newtypes of [u64]. *)
Abbreviation UnixSeconds := u64.
Abbreviation TimeBin := u64.
Abbreviation PersistSeq := u64.
Abbreviation PacketSeq := u64.
Abbreviation PacketEpoch := u64.
Abbreviation FragIndex := u64.

(** * Policy ([policy.rs]) and the length tables ([kem.rs], [sign.rs]) *)

Inductive Policy : Set := Classic | PostQuantum | Hybrid.

#[export] Instance Policy_eq_dec : EqDecision Policy.
Proof. solve_decision. Defined.

Definition KEM_SHARED_LEN : nat := 32.

Definition kem_pk_len (policy : Policy) : nat :=
  match policy with Classic => 32 | PostQuantum => 1184 | Hybrid => 1216 end.

Definition kem_sk_len (policy : Policy) : nat :=
  match policy with Classic => 32 | PostQuantum => 2400 | Hybrid => 32 end.

Definition kem_ct_len (policy : Policy) : nat :=
  match policy with Classic => 32 | PostQuantum => 1088 | Hybrid => 1120 end.

Definition sign_pk_len (policy : Policy) : nat :=
  match policy with Classic => 32 | PostQuantum => 1952 | Hybrid => 32 + 1952 end.

Definition sign_sk_len (policy : Policy) : nat :=
  match policy with Classic => 32 | PostQuantum => 4032 | Hybrid => 32 + 4032 end.

Definition sign_sig_len (policy : Policy) : nat :=
  match policy with Classic => 64 | PostQuantum => 3309 | Hybrid => 64 + 3309 end.

(** * Keys *)

Record EncryptionPublicKey : Set := EncryptionPublicKey_from_bytes { enc_bytes : bytes }.
Record SigningPublicKey : Set := SigningPublicKey_from_bytes { sign_bytes : bytes }.

(** Encryption and signing pairs: [KeyPair] and [SigningKeyPair]. *)
Record KeyPair : Set := KeyPair_from_parts { kp_public : bytes; kp_secret : bytes }.
Record SigningKeyPair : Set :=
  SigningKeyPair_from_parts { skp_public : bytes; skp_secret : bytes }.

#[export] Instance EncryptionPublicKey_eq_dec : EqDecision EncryptionPublicKey.
Proof. solve_decision. Defined.
#[export] Instance SigningPublicKey_eq_dec : EqDecision SigningPublicKey.
Proof. solve_decision. Defined.
#[export] Instance KeyPair_eq_dec : EqDecision KeyPair.
Proof. solve_decision. Defined.
#[export] Instance SigningKeyPair_eq_dec : EqDecision SigningKeyPair.
Proof. solve_decision. Defined.

(** [KemSeed::from_pair] and [SignSeed::from_pair]: the two draws concatenated. *)
Lemma from_pair_ok (first second : Random32) :
  Nat.eqb (length (cval (as_bytes first) ++ cval (as_bytes second))) 64 = true.
Proof. rewrite length_app, !arr_length. done. Qed.

Definition from_pair (first second : Random32) : arr 64 :=
  mkChecked (cval (as_bytes first) ++ cval (as_bytes second)) (from_pair_ok first second).

(** * Actors ([ids.rs]) *)

Inductive Actor : Set :=
| Actor_Handshake
| Actor_Signing (pk : SigningPublicKey)
| Actor_Device (id : DeviceId).

#[export] Instance Actor_eq_dec : EqDecision Actor.
Proof. solve_decision. Defined.

Definition Actor_role (a : Actor) : str :=
  match a with
  | Actor_Handshake => lit "handshake"
  | Actor_Signing _ => lit "signing"
  | Actor_Device _ => lit "device"
  end.

Definition Actor_as_bytes (a : Actor) : bytes :=
  match a with
  | Actor_Handshake => []
  | Actor_Signing pk => sign_bytes pk
  | Actor_Device id => cval (as_bytes id)
  end.

Definition Actor_from_stored (r : option str) (bs : bytes) : option Actor :=
  let signing :=
    match bs with
    | [] => Some Actor_Handshake
    | _ => Some (Actor_Signing (SigningPublicKey_from_bytes bs))
    end in
  match r with
  | None => signing
  | Some r =>
    if str_eqb r (lit "handshake") then Some Actor_Handshake
    else if str_eqb r (lit "device") then
      id ← try_into 32 bs; Some (Actor_Device (from_bytes id))
    else if str_eqb r (lit "signing") then signing
    else None
  end.

(** A stored actor reads back, except that an empty signing key is the handshake
    actor: [from_stored] conflates the two. *)
Lemma Actor_from_stored_role a :
  Actor_from_stored (Some (Actor_role a)) (Actor_as_bytes a) =
  Some (if bool_decide (Actor_as_bytes a = []) then Actor_Handshake else a).
Proof.
  unfold Actor_from_stored. destruct a as [|[pk]|[id]]; cbn [Actor_role Actor_as_bytes].
  - by rewrite str_eqb_refl.
  - rewrite !str_eqb_lit. cbn. by destruct pk.
  - rewrite !str_eqb_lit. cbn. rewrite try_into_cval. cbn.
    rewrite bool_decide_false; [done|]. intros H%(f_equal length).
    by rewrite arr_length in H.
Qed.

(** * Errors ([error.rs]) *)

Inductive EngineError : Set :=
| WrongPhase | MalformedTicket | ExpiresNotAfterNow | UnknownIds | MalformedDisplayName
| ChannelBounds | MalformedPersist | NotTicked | ClockWentBackwards | UnknownTag
| UnknownWrite | BodyTooLarge | MalformedPayload | UnlockFailed | Locked | MalformedWake
| EmptyEngineRequired | NotOwner | MemberCap | DuplicateMember | Equivocation.

#[export] Instance EngineError_eq_dec : EqDecision EngineError.
Proof. solve_decision. Defined.
