(* ===== verification/Order.v ===== *)
(** Comparisons, stable sorting, and the ordered maps of the standard library.

    A [BTreeMap<K, V>] is a [gmap] with an order on its keys ([Ord]); its iterators run
    through [entries], the bindings in key order.  [find_map] and [upd_first] are the
    first match of a scan over such an iterator, and a mutation of it. *)

From stdpp Require Import base tactics list numbers option strings countable gmap sorting.
From Stdlib Require Import Strings.Byte.
From S2P Require Import Prelude Ids.

(** * Sorting by a comparison

    [slice::sort_by] (stable) and [Vec::dedup]. *)
Section SortBy.
Context {A : Type} (cmp : A → A → comparison).

Definition cmp_le (x y : A) : Prop := cmp x y ≠ Gt.

Fixpoint insert_by (x : A) (l : list A) : list A :=
  match l with
  | [] => [x]
  | y :: l' => match cmp x y with Gt => y :: insert_by x l' | _ => x :: l end
  end.

Definition sort_by (l : list A) : list A := foldr insert_by [] l.

Context (cmp_antisym : ∀ x y, cmp y x = CompOpp (cmp x y)).
Context (cmp_trans : ∀ x y z, cmp_le x y → cmp_le y z → cmp_le x z).

Lemma insert_by_perm x l : insert_by x l ≡ₚ x :: l.
Proof.
  induction l as [|y l IH]; cbn; [done|]. destruct (cmp x y); [done..|].
  rewrite IH. apply Permutation_swap.
Qed.

Lemma sort_by_perm l : sort_by l ≡ₚ l.
Proof. induction l as [|x l IH]; cbn; [done|]. by rewrite insert_by_perm, IH. Qed.

Lemma insert_by_sorted x l : StronglySorted cmp_le l → StronglySorted cmp_le (insert_by x l).
Proof.
  induction 1 as [|y l HS IH HF]; cbn; [repeat constructor|].
  assert (∀ c, cmp x y = c → c ≠ Gt → StronglySorted cmp_le (x :: y :: l)) as Hle.
  { intros c Hc Hn. assert (cmp_le x y) as Hxy by (unfold cmp_le; congruence).
    constructor; [by constructor|]. constructor; [done|].
    eapply Forall_impl; [exact HF|]. intros z Hz. by eapply cmp_trans. }
  destruct (cmp x y) eqn:E; [by apply (Hle Eq)|by apply (Hle Lt)|].
  constructor; [done|]. rewrite insert_by_perm. constructor; [|done].
  unfold cmp_le. by rewrite cmp_antisym, E.
Qed.

Lemma sort_by_sorted l : StronglySorted cmp_le (sort_by l).
Proof. induction l; [constructor|]. by apply insert_by_sorted. Qed.

End SortBy.

Fixpoint dedup `{EqDecision A} (l : list A) : list A :=
  match l with
  | [] => []
  | x :: l' =>
    match l' with
    | [] => [x]
    | y :: _ => if decide (x = y) then dedup l' else x :: dedup l'
    end
  end.

Lemma dedup_head `{EqDecision A} (x : A) l : ∃ l', dedup (x :: l) = x :: l'.
Proof.
  revert x. induction l as [|y l IH]; intros x; [by exists []|].
  cbn [dedup]. case_decide as E; [|by eexists]. subst y. apply IH.
Qed.

Lemma elem_of_dedup `{EqDecision A} (x : A) l : x ∈ dedup l ↔ x ∈ l.
Proof.
  induction l as [|y l IH]; [done|]. cbn [dedup]. destruct l as [|z l]; [done|].
  case_decide as E; [subst; rewrite IH; set_solver|]. rewrite !elem_of_cons, IH.
  by rewrite elem_of_cons.
Qed.

(** On a list sorted by a comparison whose [Eq] is equality, [dedup] leaves no repeat. *)
Lemma dedup_NoDup `{EqDecision A} (cmp : A → A → comparison) l :
  (∀ x y, cmp x y = Eq ↔ x = y) → (∀ x y, cmp y x = CompOpp (cmp x y)) →
  StronglySorted (cmp_le cmp) l → NoDup (dedup l).
Proof.
  intros Heq Hanti. induction 1 as [|x l HS IH HF]; [constructor|].
  cbn [dedup]. destruct l as [|y l]; [apply NoDup_singleton|].
  case_decide as E; [done|]. constructor; [|done]. rewrite elem_of_dedup. intros Hin.
  apply E. apply Heq.
  assert (cmp_le cmp x y) as Hxy by (by inversion HF).
  assert (cmp_le cmp y x) as Hyx.
  { apply elem_of_cons in Hin as [->|Hin]; [done|].
    inversion HS as [|? ? _ HF2]; subst. rewrite Forall_forall in HF2. by apply HF2. }
  unfold cmp_le in *. rewrite Hanti in Hyx. by destruct (cmp x y).
Qed.

(** [Ordering::then_with]. *)
Definition then_with (c d : comparison) : comparison := match c with Eq => d | _ => c end.

Lemma bytes_compare_antisym a b : bytes_compare b a = CompOpp (bytes_compare a b).
Proof. apply lex_compare_antisym. Qed.

(** A comparison that orders totally, up to the equivalence [cmp x y = Eq]. *)
Record total_cmp {A} (cmp : A → A → comparison) : Prop := {
  tc_antisym : ∀ x y, cmp y x = CompOpp (cmp x y);
  tc_trans : ∀ x y z, cmp_le cmp x y → cmp_le cmp y z → cmp_le cmp x z;
  tc_eq : ∀ x y z, cmp x y = Eq → cmp x z = cmp y z
}.

Lemma total_cmp_bytes {A} (f : A → bytes) : total_cmp (λ x y, bytes_compare (f x) (f y)).
Proof.
  split.
  - intros x y. apply bytes_compare_antisym.
  - intros x y z H1 H2. unfold cmp_le, bytes_compare in *.
    pose proof (lex_leb_trans (bytes_N (f x)) (bytes_N (f y)) (bytes_N (f z))) as HT.
    unfold lex_leb in HT.
    destruct (lex_compare (bytes_N (f x)) _), (lex_compare (bytes_N (f y)) _),
      (lex_compare (bytes_N (f x)) _); naive_solver.
  - intros x y z ->%bytes_compare_eq. done.
Qed.

Lemma then_with_eq c d : then_with c d = Eq ↔ c = Eq ∧ d = Eq.
Proof. destruct c; cbn; naive_solver. Qed.

Lemma total_cmp_then {A} (c d : A → A → comparison) :
  total_cmp c → total_cmp d → total_cmp (λ x y, then_with (c x y) (d x y)).
Proof.
  intros [Ca Ct Ce] [Da Dt De]. split.
  - intros x y. rewrite Ca, Da. by destruct (c x y).
  - intros x y z H1 H2. unfold cmp_le in *.
    assert (cmp_le c x z) as Hxz.
    { apply (Ct x y); unfold cmp_le; intros E; rewrite E in *; done. }
    unfold cmp_le in Hxz. destruct (c x z) eqn:Exz; cbn; [|done|done].
    assert (c x y = Eq) as Exy.
    { pose proof (Ce _ _ y Exz) as E. pose proof (Ca z y) as E'.
      destruct (c x y); [done| |done]. rewrite <-E in E'. by rewrite E' in H2. }
    pose proof (Ce _ _ z Exy) as Eyz. rewrite Exz in Eyz. rewrite Exy in H1. rewrite <-Eyz in H2.
    by apply (Dt x y z).
  - intros x y z [E1 E2]%then_with_eq. by rewrite (Ce _ _ _ E1), (De _ _ _ E2).
Qed.

(** * Ordered maps *)

Class Ord (K : Type) : Type := ord : K → K → comparison.

Class OrdLaws (K : Type) `{Ord K} : Prop := {
  ord_eq : ∀ a b : K, ord a b = Eq ↔ a = b;
  ord_total : total_cmp (ord (K := K))
}.

#[export] Instance branded_ord r : Ord (branded r) := branded_cmp.
#[export] Instance uint_ord w : Ord (uint w) := λ a b, N.compare (cval a) (cval b).

#[export] Instance branded_ord_laws r : OrdLaws (branded r).
Proof.
  split; [apply branded_cmp_eq|].
  apply (total_cmp_bytes (λ a : branded r, cval (as_bytes a))).
Qed.

#[export] Instance uint_ord_laws w : OrdLaws (uint w).
Proof.
  unfold Ord, uint_ord. split.
  - intros a b. unfold ord. by rewrite N.compare_eq_iff, checked_eq_iff.
  - split; unfold ord, cmp_le.
    + intros x y. apply N.compare_antisym.
    + intros x y z.
      destruct (N.compare_spec (cval x) (cval y)), (N.compare_spec (cval y) (cval z)),
        (N.compare_spec (cval x) (cval z)); try done; lia.
    + intros x y z ->%N.compare_eq_iff. done.
Qed.

Section BTreeMap.
Context {K V : Type} `{Countable K} `{!Ord K}.

(** [map.iter()], [map.into_iter()]. *)
Definition entries (m : gmap K V) : list (K * V) :=
  sort_by (λ a b, ord a.1 b.1) (map_to_list m).

(** [map.values()]. *)
Definition values (m : gmap K V) : list V := map snd (entries m).

Lemma entries_perm m : entries m ≡ₚ map_to_list m.
Proof. apply sort_by_perm. Qed.

Lemma elem_of_entries m k v : (k, v) ∈ entries m ↔ m !! k = Some v.
Proof. by rewrite entries_perm, elem_of_map_to_list. Qed.

Lemma elem_of_values m v : v ∈ values m ↔ ∃ k, m !! k = Some v.
Proof.
  unfold values. rewrite list_elem_of_fmap. split.
  - intros ([k v'] & -> & Hin). exists k. by apply elem_of_entries.
  - intros [k Hk]. exists (k, v). split; [done|]. by apply elem_of_entries.
Qed.

Lemma entries_keys_NoDup m : NoDup (map fst (entries m)).
Proof. rewrite entries_perm. apply NoDup_fst_map_to_list. Qed.

Lemma entries_sorted `{!OrdLaws K} m : StronglySorted (λ a b, cmp_le ord a.1 b.1) (entries m).
Proof.
  apply (sort_by_sorted (λ a b : K * V, ord a.1 b.1)).
  - intros x y. apply (tc_antisym _ (ord_total (K := K)) x.1 y.1).
  - intros x y z. apply (tc_trans _ (ord_total (K := K)) x.1 y.1 z.1).
Qed.

Definition key_le (a b : K * V) : Prop := cmp_le ord a.1 b.1.

(** A list of bindings in key order is determined by its elements. *)
Lemma key_sorted_unique `{!OrdLaws K} (l1 l2 : list (K * V)) :
  StronglySorted key_le l1 → StronglySorted key_le l2 → NoDup (map fst l1) →
  l1 ≡ₚ l2 → l1 = l2.
Proof.
  revert l2. induction l1 as [|x l1 IH]; intros l2 S1 S2 HN HP.
  { by apply Permutation_nil_l in HP. }
  destruct l2 as [|y l2]; [by apply Permutation_nil_r in HP|].
  apply StronglySorted_inv in S1 as [S1 F1]. apply StronglySorted_inv in S2 as [S2 F2].
  cbn [map] in HN. apply NoDup_cons in HN as [Hx HN].
  assert (x = y) as <-.
  { assert (x ∈ y :: l2) as Hx2 by (rewrite <-HP; left).
    assert (y ∈ x :: l1) as Hy1. { rewrite HP. apply elem_of_cons. by left. }
    apply elem_of_cons in Hx2 as [|Hx2]; [done|]. apply elem_of_cons in Hy1 as [|Hy1]; [done|].
    rewrite Forall_forall in F1, F2. pose proof (F1 _ Hy1) as L1. pose proof (F2 _ Hx2) as L2.
    exfalso. apply Hx. apply list_elem_of_fmap. exists y. split; [|done].
    apply (ord_eq x.1 y.1). unfold key_le, cmp_le in *.
    pose proof (tc_antisym _ (ord_total (K := K)) x.1 y.1) as HA.
    by destruct (ord x.1 y.1). }
  f_equal. apply IH; [done..|]. by apply Permutation_cons_inv in HP.
Qed.

Lemma key_sorted_fst (l1 l2 : list (K * V)) :
  map fst l1 = map fst l2 → StronglySorted key_le l1 → StronglySorted key_le l2.
Proof.
  revert l2. induction l1 as [|x l1 IH]; intros [|y l2] HE S1; try done.
  cbn in HE. injection HE as Hxy HE. apply StronglySorted_inv in S1 as [S1 F1].
  constructor; [by apply IH|]. rewrite Forall_forall in *. intros z Hz.
  assert (z.1 ∈ map fst l1) as (z' & Hz1 & Hz')%list_elem_of_fmap.
  { rewrite HE. apply list_elem_of_fmap. eauto. }
  unfold key_le in *. rewrite Hz1, <-Hxy. by apply F1.
Qed.

(** Changing values in place keeps the bindings in their order. *)
Lemma entries_change `{!OrdLaws K} (m m' : gmap K V) (f : K → V → V) :
  (∀ k, m' !! k = f k <$> m !! k) →
  entries m' = map (λ '(k, v), (k, f k v)) (entries m).
Proof.
  intros HE.
  assert (map fst (map (λ '(k, v), (k, f k v)) (entries m)) = map fst (entries m)) as HF.
  { rewrite map_map. apply map_ext. by intros []. }
  apply key_sorted_unique.
  - apply entries_sorted.
  - apply (key_sorted_fst (entries m)); [by rewrite HF|]. apply entries_sorted.
  - apply entries_keys_NoDup.
  - apply NoDup_Permutation.
    + eapply NoDup_fmap_1, entries_keys_NoDup.
    + apply (NoDup_fmap_1 fst). change (fst <$> ?l) with (map fst l). rewrite HF.
      apply entries_keys_NoDup.
    + intros [k v]. rewrite elem_of_entries, HE, list_elem_of_fmap. split.
      * intros (v' & Hk & ->)%fmap_Some. exists (k, v'). split; [done|]. by apply elem_of_entries.
      * intros ([k' v'] & [= -> ->] & Hin%elem_of_entries). by rewrite Hin.
Qed.

Lemma entries_alter `{!OrdLaws K} (m : gmap K V) f k :
  entries (alter f k m) = map (λ '(k', v), (k', if decide (k' = k) then f v else v)) (entries m).
Proof.
  apply (entries_change _ _ (λ k' v, if decide (k' = k) then f v else v)). intros k'.
  destruct (decide (k' = k)) as [->|Hk]; [by rewrite lookup_alter_eq|].
  rewrite lookup_alter_ne by done. by destruct (m !! k').
Qed.

End BTreeMap.

(** The bindings a partial change of the values keeps, in their order. *)
Lemma entries_omap {K V W} `{Countable K, !Ord K, !OrdLaws K} (f : V → option W) (m : gmap K V) :
  entries (omap f m) = omap (λ '(k, v), (k,.) <$> f v) (entries m).
Proof.
  assert (∀ l : list (K * V), map fst (omap (λ '(k, v), (k,.) <$> f v) l) `sublist_of` map fst l) as HS.
  { induction l as [|[k v] l IH]; [constructor|]. cbn. destruct (f v); cbn; by constructor. }
  assert (∀ l : list (K * V), StronglySorted key_le l →
    StronglySorted key_le (omap (λ '(k, v), (k,.) <$> f v) l)) as HSS.
  { induction l as [|[k v] l IH]; intros HSo; [constructor|].
    apply StronglySorted_inv in HSo as [HSo HF]. cbn. destruct (f v) as [w|]; cbn; [|by apply IH].
    constructor; [by apply IH|]. rewrite Forall_forall in HF. apply Forall_forall. intros [k' w'] Hin.
    apply list_elem_of_omap in Hin as ([k1 v1] & Hin & E). destruct (f v1); [|done].
    injection E as -> ->. by apply (HF _ Hin). }
  apply key_sorted_unique.
  - apply entries_sorted.
  - apply HSS, entries_sorted.
  - apply entries_keys_NoDup.
  - apply NoDup_Permutation.
    + eapply NoDup_fmap_1, entries_keys_NoDup.
    + apply (NoDup_fmap_1 fst). apply (sublist_NoDup _ (map fst (entries m))); [apply entries_keys_NoDup|apply HS].
    + intros [k w]. rewrite elem_of_entries, lookup_omap, list_elem_of_omap. split.
      * intros (v & Hv & Hw)%bind_Some. exists (k, v). split; [by apply elem_of_entries|]. by rewrite Hw.
      * intros ([k' v] & Hin & E). destruct (f v) as [w'|] eqn:Ef; [|done]. injection E as -> ->.
        apply elem_of_entries in Hin. by rewrite Hin.
Qed.

(** * The first match of a scan *)

(** [iter.find_map(f)]. *)
Fixpoint find_map {A B} (f : A → option B) (l : list A) : option B :=
  match l with
  | [] => None
  | a :: l' => match f a with Some b => Some b | None => find_map f l' end
  end.

Lemma find_map_Some {A B} (f : A → option B) l b :
  find_map f l = Some b → ∃ a, a ∈ l ∧ f a = Some b.
Proof.
  induction l as [|x l IH]; cbn; [done|]. destruct (f x) as [b'|] eqn:E.
  - intros [= ->]. exists x. split; [left|done].
  - intros (a & Hin & Ha)%IH. exists a. split; [by right|done].
Qed.

Lemma find_map_None {A B} (f : A → option B) l :
  find_map f l = None ↔ ∀ a, a ∈ l → f a = None.
Proof.
  induction l as [|x l IH]; cbn; [set_solver|]. destruct (f x) eqn:E.
  - split; [done|]. intros Ha. rewrite Ha in E by left. done.
  - rewrite IH. set_solver.
Qed.

Lemma find_map_is_Some {A B} (f : A → option B) l :
  is_Some (find_map f l) ↔ ∃ a, a ∈ l ∧ is_Some (f a).
Proof.
  split.
  - intros [b (a & Hin & Ha)%find_map_Some]. eauto.
  - intros (a & Hin & Ha). destruct (find_map f l) as [b|] eqn:E; [done|].
    rewrite find_map_None in E. rewrite E in Ha by done. by destruct Ha.
Qed.

Lemma find_map_ext {A B} (f g : A → option B) l :
  (∀ a, a ∈ l → f a = g a) → find_map f l = find_map g l.
Proof.
  induction l as [|x l IH]; intros HE; cbn; [done|].
  rewrite HE by left. rewrite IH; [done|]. intros a Ha. apply HE. by right.
Qed.

Lemma find_map_fmap {A B C} (f : A → option B) (g : B → C) l :
  find_map (λ a, g <$> f a) l = g <$> find_map f l.
Proof. induction l as [|x l IH]; cbn; [done|]. by destruct (f x). Qed.
