(* ===== verification/Channel.v ===== *)
(** Mapper kinds, addresses and channels: [protocol/v1/channel.rs]. *)

From stdpp Require Import base tactics list numbers option strings countable gmap.
From Stdlib Require Import Strings.Byte.
From S2P Require Import Prelude Text Ids.

Definition KIND_MAX_LEN : nat := 32.
Definition ADDRESS_MAX_LEN : nat := 256.

Inductive KindError : Set := Kind_Empty | Kind_TooLong | Kind_InvalidChar.
Inductive AddressError : Set :=
| Address_Empty | Address_TooLong | Address_Nul | Address_CombiningMark
| Address_InvalidUtf8.

#[export] Instance KindError_eq_dec : EqDecision KindError.
Proof. solve_decision. Defined.
#[export] Instance AddressError_eq_dec : EqDecision AddressError.
Proof. solve_decision. Defined.

Definition is_nul (c : char) : bool := (cval c =? 0)%N.
Definition is_kind_char (c : char) : bool :=
  is_ascii_lowercase c || is_ascii_digit c || (cval c =? 45)%N.

Definition parse_kind (value : str) : result KindError str :=
  match value with
  | [] => Err Kind_Empty
  | first :: chars =>
    _ ← refuse_if (bool_decide (KIND_MAX_LEN < str_len value)) Kind_TooLong;
    _ ← refuse_if (negb (is_ascii_lowercase first)) Kind_InvalidChar;
    _ ← refuse_if (negb (forallb is_kind_char chars)) Kind_InvalidChar;
    Ok value
  end.

Definition parse_address (value : str) : result AddressError str :=
  _ ← refuse_if (bool_decide (value = [])) Address_Empty;
  _ ← refuse_if (bool_decide (ADDRESS_MAX_LEN < str_len value)) Address_TooLong;
  _ ← refuse_if (existsb is_nul value) Address_Nul;
  _ ← refuse_if (existsb is_combining value) Address_CombiningMark;
  Ok value.

Definition kind_error (value : str) : option KindError := err (parse_kind value).
Definition address_error (value : str) : option AddressError := err (parse_address value).

(** The private-field newtypes: only a parsed string is a [Kind] or an [Address]. *)
Abbreviation Kind := (valid kind_error).
Abbreviation Address := (valid address_error).

Definition Kind_try_from (value : str) : result KindError Kind := validate kind_error value.
Definition Address_try_from (value : str) : result AddressError Address :=
  validate address_error value.

Record DurableChannel : Set :=
  DurableChannel_new { d_kind : Kind; d_address : Address }.
Record EphemeralChannel : Set :=
  EphemeralChannel_new { e_kind : Kind; e_address : Address }.

#[export] Instance DurableChannel_eq_dec : EqDecision DurableChannel.
Proof. solve_decision. Defined.
#[export] Instance EphemeralChannel_eq_dec : EqDecision EphemeralChannel.
Proof. solve_decision. Defined.

Lemma refuse_if_bind {E A} b (e : E) (k : unit → result E A) x :
  (refuse_if b e ≫= k) = Ok x ↔ b = false ∧ k tt = Ok x.
Proof. destruct b; cbn; naive_solver. Qed.

Lemma validate_is_ok {A E} (f : A → option E) a :
  is_ok (validate f a) = true ↔ f a = None.
Proof.
  destruct (validate_spec f a) as [(v & -> & _ & ->)|(e & -> & ->)]; cbn; naive_solver.
Qed.

Lemma parse_kind_ok value :
  kind_error value = None ↔
  (str_len value ≤ KIND_MAX_LEN)%nat ∧
  ∃ first chars, value = first :: chars ∧ is_ascii_lowercase first = true ∧
    forallb is_kind_char chars = true.
Proof.
  unfold kind_error, parse_kind. destruct value as [|first chars].
  { split; [done|]. naive_solver. }
  unfold refuse_if, mbind, result_bind. case_bool_decide as Hlen.
  { split; [done|]. intros [? _]. lia. }
  destruct (is_ascii_lowercase first) eqn:E1; cbn [negb].
  2: { split; [done|]. intros (_ & ? & ? & [= <- <-] & ? & _). congruence. }
  destruct (forallb is_kind_char chars) eqn:E2; cbn [negb err].
  2: { split; [done|]. intros (_ & ? & ? & [= <- <-] & _ & ?). congruence. }
  split; [|done]. intros _. split; [lia|eauto].
Qed.

Lemma utf8_char_length c :
  (1 ≤ length (utf8_char c) ≤ 4)%nat ∧ (is_ascii c = true → length (utf8_char c) = 1%nat).
Proof.
  unfold utf8_char, is_ascii.
  destruct (_ <? _)%N; [|destruct (_ <? _)%N; [|destruct (_ <? _)%N]]; cbn [length];
    (split; [lia|done]).
Qed.

Lemma str_len_cons c s : str_len (c :: s) = (length (utf8_char c) + str_len s)%nat.
Proof. unfold str_len, utf8. cbn [map concat]. by rewrite length_app. Qed.

Lemma str_len_ascii s : forallb is_ascii s = true → str_len s = length s.
Proof.
  induction s as [|c s IH]; [done|]. cbn [forallb length].
  rewrite andb_true_iff, str_len_cons. intros [Hc Hs].
  rewrite IH by done. by rewrite (proj2 (utf8_char_length c) Hc).
Qed.

Lemma str_len_ge s : (length s ≤ str_len s)%nat.
Proof.
  induction s as [|c s IH]; [cbn; lia|]. rewrite str_len_cons. cbn [length].
  pose proof (utf8_char_length c). lia.
Qed.

(** The scalar ranges of the kind grammar. *)
Definition kind_first (n : N) : Prop := (97 <= n <= 122)%N.
Definition kind_rest (n : N) : Prop :=
  (97 <= n <= 122 ∨ 48 <= n <= 57 ∨ n = 45)%N.

Lemma is_kind_char_spec c : is_kind_char c = true ↔ kind_rest (cval c).
Proof.
  unfold is_kind_char, is_ascii_lowercase, is_ascii_digit, ascii_is, kind_rest.
  rewrite !orb_true_iff, !andb_true_iff, !N.leb_le, N.eqb_eq. tauto.
Qed.

Lemma is_lower_spec c : is_ascii_lowercase c = true ↔ kind_first (cval c).
Proof.
  unfold is_ascii_lowercase, ascii_is, kind_first.
  by rewrite !andb_true_iff, !N.leb_le.
Qed.

Lemma forallb_kind s :
  forallb is_kind_char s = true ↔ Forall (λ c, kind_rest (cval c)) s.
Proof.
  rewrite forallb_forall, List.Forall_forall. setoid_rewrite is_kind_char_spec. done.
Qed.

Lemma kind_str_len first chars :
  kind_first (cval first) → Forall (λ c, kind_rest (cval c)) chars →
  str_len (first :: chars) = S (length chars).
Proof.
  intros Hf Hc. rewrite str_len_ascii; [done|]. cbn [forallb]. apply andb_true_iff. split.
  - apply N.ltb_lt. unfold kind_first in Hf. lia.
  - apply forallb_forall. intros c Hin. rewrite List.Forall_forall in Hc.
    specialize (Hc c Hin). apply N.ltb_lt. unfold kind_rest in Hc. lia.
Qed.

(** A string is accepted as a mapper kind exactly when it is 1 to 32 characters
    of the grammar [[a-z][a-z0-9-]*]; every accepted character is one byte, so the
    byte cap is a character cap. *)
Theorem Kind_try_from_grammar (value : str) :
  is_ok (Kind_try_from value) = true ↔
  ∃ first chars, value = first :: chars ∧ (length value ≤ 32)%nat ∧
    kind_first (cval first) ∧ Forall (λ c, kind_rest (cval c)) chars.
Proof.
  unfold Kind_try_from. rewrite validate_is_ok, parse_kind_ok. split.
  - intros (Hl & f & cs & -> & Hf%is_lower_spec & Hc%forallb_kind).
    rewrite kind_str_len in Hl by done. exists f, cs. done.
  - intros (f & cs & -> & Hl & Hf & Hc). rewrite kind_str_len by done.
    split; [done|]. exists f, cs. rewrite is_lower_spec, forallb_kind. done.
Qed.
