(* ===== verification/Defaults.v ===== *)
(** Display names, profile pictures, wake subscriptions, preferences and the channel
    lists of [Defaults]: [protocol/v1/defaults.rs]. *)

From stdpp Require Import base tactics list numbers option strings countable gmap.
From Stdlib Require Import Strings.Byte.
From S2P Require Import Prelude Text Ids Channel.

Definition DISPLAY_NAME_MAX_LEN : nat := 64.
Definition PROFILE_PIC_MAX_LEN : nat := 4096.
Definition PERSISTENT_MIN_COUNT : nat := 1.
Definition PERSISTENT_MAX_COUNT : nat := 4.
Definition EPHEMERAL_MAX_COUNT : nat := 4.

(** * Display names *)

Inductive DisplayNameError : Set :=
| DisplayName_Empty | DisplayName_TooLong | DisplayName_Nul | DisplayName_CombiningMark.

Definition parse_display_name (value : str) : result DisplayNameError str :=
  _ ← refuse_if (bool_decide (value = [])) DisplayName_Empty;
  _ ← refuse_if (bool_decide (DISPLAY_NAME_MAX_LEN < str_len value)) DisplayName_TooLong;
  _ ← refuse_if (existsb is_nul value) DisplayName_Nul;
  _ ← refuse_if (existsb is_combining value) DisplayName_CombiningMark;
  Ok value.

Definition display_name_error (value : str) : option DisplayNameError :=
  err (parse_display_name value).

Abbreviation DisplayName := (valid display_name_error).

Definition DisplayName_try_from (value : str) : result DisplayNameError DisplayName :=
  validate display_name_error value.

(** * Profile pictures *)

Inductive ProfilePicError : Set := Pic_Length | Pic_Header.

Definition RIFF : bytes := [x52; x49; x46; x46].
Definition WEBP : bytes := [x57; x45; x42; x50].

(** [&value[lo..hi]]. *)
Definition slice (lo hi : nat) (value : bytes) : bytes := take (hi - lo) (drop lo value).

Definition parse_profile_pic (value : bytes) : result ProfilePicError bytes :=
  _ ← refuse_if (bool_decide (value = []) || bool_decide (PROFILE_PIC_MAX_LEN < length value))
        Pic_Length;
  _ ← refuse_if (bool_decide (length value < 12)
                 || negb (bool_decide (slice 0 4 value = RIFF))
                 || negb (bool_decide (slice 8 12 value = WEBP))) Pic_Header;
  Ok value.

Definition profile_pic_error (value : bytes) : option ProfilePicError :=
  err (parse_profile_pic value).

Abbreviation ProfilePic := (valid profile_pic_error).

Definition ProfilePic_try_from (value : bytes) : result ProfilePicError ProfilePic :=
  validate profile_pic_error value.

(** * Notification privacy *)

Inductive NotificationPrivacy : Set := Privacy_Name | Privacy_Preview | Privacy_Silent.

#[export] Instance NotificationPrivacy_eq_dec : EqDecision NotificationPrivacy.
Proof. solve_decision. Defined.

Definition NotificationPrivacy_as_str (p : NotificationPrivacy) : str :=
  match p with
  | Privacy_Name => lit "name"
  | Privacy_Preview => lit "preview"
  | Privacy_Silent => lit "silent"
  end.

Definition NotificationPrivacy_parse (s : str) : option NotificationPrivacy :=
  if str_eqb s (lit "name") then Some Privacy_Name
  else if str_eqb s (lit "preview") then Some Privacy_Preview
  else if str_eqb s (lit "silent") then Some Privacy_Silent
  else None.

Lemma NotificationPrivacy_parse_as_str p :
  NotificationPrivacy_parse (NotificationPrivacy_as_str p) = Some p.
Proof.
  unfold NotificationPrivacy_parse.
  by destruct p; cbn [NotificationPrivacy_as_str]; rewrite ?str_eqb_lit; cbn.
Qed.

(** * Wake *)

Inductive WakeError : Set := Wake_Endpoint | Wake_P256dh | Wake_Auth.

Definition WAKE_MAX_LEN : nat := 2048.

Definition bad_endpoint_char (c : char) : bool :=
  (cval c =? 32)%N || is_nul c || negb (is_ascii c) || is_combining c.

Definition check_endpoint (endpoint : str) : result WakeError str :=
  _ ← refuse_if (bool_decide (endpoint = []) || bool_decide (WAKE_MAX_LEN < str_len endpoint))
        Wake_Endpoint;
  _ ← refuse_if (negb (starts_with (lit "https:") endpoint)) Wake_Endpoint;
  _ ← refuse_if (existsb bad_endpoint_char endpoint) Wake_Endpoint;
  Ok endpoint.

Definition endpoint_error (endpoint : str) : option WakeError :=
  err (check_endpoint endpoint).

(** The private fields of [Wake]: only a checked endpoint is stored. *)
Record Wake : Set := mkWake {
  w_endpoint : valid endpoint_error;
  w_p256dh : arr 65;
  w_auth : arr 16;
  w_vapid_pk : option bytes
}.

#[export] Instance Wake_eq_dec : EqDecision Wake.
Proof. solve_decision. Defined.

Definition Wake_try_new (endpoint : str) (p256dh auth : bytes) (vapid_pk : option bytes) :
    result WakeError Wake :=
  endpoint ← validate endpoint_error endpoint;
  p256dh ← ok_or Wake_P256dh (try_into 65 p256dh);
  auth ← ok_or Wake_Auth (try_into 16 auth);
  Ok (mkWake endpoint p256dh auth vapid_pk).

Lemma Wake_try_new_fields w :
  Wake_try_new (cval (w_endpoint w)) (cval (w_p256dh w)) (cval (w_auth w)) (w_vapid_pk w)
  = Ok w.
Proof.
  unfold Wake_try_new. autorewrite with checked. cbn. autorewrite with checked. cbn.
  autorewrite with checked. by destruct w.
Qed.

(** * Preferences *)

Record OnWirePrefs : Set := mkOnWirePrefs {
  p_read_receipts : bool;
  p_online_visible : bool;
  p_send_typing : bool;
  p_disappear_after : option u64;
  p_wake : option Wake
}.

Record ConversationPrefs : Set := mkConversationPrefs {
  cp_read_receipts : bool;
  cp_online_visible : bool;
  cp_send_typing : bool;
  cp_disappear_after : option u64;
  cp_notification_privacy : NotificationPrivacy;
  cp_wake : option Wake
}.

#[export] Instance OnWirePrefs_eq_dec : EqDecision OnWirePrefs.
Proof. solve_decision. Defined.

(** * Defaults *)

Inductive DefaultsError : Set :=
| Defaults_ChannelBounds
| Defaults_Kind (e : KindError)
| Defaults_Address (e : AddressError).

(** The two nested [for] loops: some later element has the same kind and address. *)
Fixpoint has_duplicate {A} (same : A → A → bool) (l : list A) : bool :=
  match l with
  | [] => false
  | a :: l' => existsb (same a) l' || has_duplicate same l'
  end.

Definition same_durable (a b : DurableChannel) : bool :=
  str_eqb (cval (d_kind a)) (cval (d_kind b)) && str_eqb (cval (d_address a)) (cval (d_address b)).

Definition same_ephemeral (a b : EphemeralChannel) : bool :=
  str_eqb (cval (e_kind a)) (cval (e_kind b)) && str_eqb (cval (e_address a)) (cval (e_address b)).

Definition check_channel_bounds (persistents : list DurableChannel)
    (ephemerals : list EphemeralChannel) : result DefaultsError unit :=
  _ ← refuse_if (bool_decide (length persistents < PERSISTENT_MIN_COUNT)
                 || bool_decide (PERSISTENT_MAX_COUNT < length persistents))
        Defaults_ChannelBounds;
  _ ← refuse_if (bool_decide (EPHEMERAL_MAX_COUNT < length ephemerals)) Defaults_ChannelBounds;
  _ ← refuse_if (has_duplicate same_durable persistents) Defaults_ChannelBounds;
  refuse_if (has_duplicate same_ephemeral ephemerals) Defaults_ChannelBounds.

Definition channels_error (c : list DurableChannel * list EphemeralChannel) :
    option DefaultsError := err (check_channel_bounds c.1 c.2).

(** The private fields of [Defaults]: the two lists are stored only together, checked. *)
Record Defaults : Set := mkDefaults {
  df_channels : valid channels_error;
  df_read_receipts : bool;
  df_online_visible : bool;
  df_send_typing : bool;
  df_disappear_after : option u64;
  df_publish_wake : bool;
  df_notification_privacy : NotificationPrivacy
}.

#[export] Instance Defaults_eq_dec : EqDecision Defaults.
Proof. solve_decision. Defined.

Definition df_persistents (d : Defaults) : list DurableChannel := (cval (df_channels d)).1.
Definition df_ephemerals (d : Defaults) : list EphemeralChannel := (cval (df_channels d)).2.

Definition Defaults_try_new (persistents : list DurableChannel)
    (ephemerals : list EphemeralChannel) (read_receipts online_visible send_typing : bool)
    (disappear_after : option u64) (publish_wake : bool)
    (notification_privacy : NotificationPrivacy) : result DefaultsError Defaults :=
  channels ← validate channels_error (persistents, ephemerals);
  Ok (mkDefaults channels read_receipts online_visible send_typing disappear_after
        publish_wake notification_privacy).

Definition durable_from_parts (kind address : str) : result DefaultsError DurableChannel :=
  kind ← map_err Defaults_Kind (Kind_try_from kind);
  address ← map_err Defaults_Address (Address_try_from address);
  Ok (DurableChannel_new kind address).

Lemma Defaults_try_new_fields d :
  Defaults_try_new (df_persistents d) (df_ephemerals d) (df_read_receipts d)
    (df_online_visible d) (df_send_typing d) (df_disappear_after d) (df_publish_wake d)
    (df_notification_privacy d) = Ok d.
Proof.
  unfold Defaults_try_new, df_persistents, df_ephemerals. rewrite <-surjective_pairing.
  rewrite validate_cval. by destruct d.
Qed.

Lemma same_durable_eq a b : same_durable a b = true ↔ a = b.
Proof.
  unfold same_durable. rewrite andb_true_iff, !str_eqb_eq, !checked_eq_iff.
  destruct a, b; cbn. split; [by intros [-> ->]|by intros [= -> ->]].
Qed.

Lemma same_ephemeral_eq a b : same_ephemeral a b = true ↔ a = b.
Proof.
  unfold same_ephemeral. rewrite andb_true_iff, !str_eqb_eq, !checked_eq_iff.
  destruct a, b; cbn. split; [by intros [-> ->]|by intros [= -> ->]].
Qed.

Lemma has_duplicate_NoDup {A} (same : A → A → bool) l :
  (∀ a b, same a b = true ↔ a = b) → has_duplicate same l = false ↔ NoDup l.
Proof.
  intros Hs. induction l as [|a l IH]; cbn [has_duplicate]; [by split; constructor|].
  rewrite orb_false_iff, IH, NoDup_cons, <-not_true_iff_false, existsb_exists.
  setoid_rewrite Hs. setoid_rewrite list_elem_of_In. naive_solver.
Qed.

(** [Defaults::try_new] accepts exactly one to four distinct durable channels and
    at most four distinct ephemeral ones, whatever the other fields, and every
    [Defaults] value satisfies those bounds. *)
Theorem Defaults_try_new_bounds p e rr ov st da pw np :
  is_ok (Defaults_try_new p e rr ov st da pw np) = true ↔
  (1 ≤ length p ≤ 4)%nat ∧ (length e ≤ 4)%nat ∧ NoDup p ∧ NoDup e.
Proof.
  unfold Defaults_try_new.
  rewrite <-(has_duplicate_NoDup same_durable p same_durable_eq).
  rewrite <-(has_duplicate_NoDup same_ephemeral e same_ephemeral_eq).
  transitivity (channels_error (p, e) = None).
  { rewrite <-(validate_is_ok channels_error). by destruct (validate _ _). }
  unfold channels_error, check_channel_bounds, refuse_if. cbn [fst snd].
  unfold PERSISTENT_MIN_COUNT, PERSISTENT_MAX_COUNT, EPHEMERAL_MAX_COUNT.
  unfold mbind, result_bind.
  repeat case_bool_decide; cbn [orb err]; try (split; [done|lia]).
  destruct (has_duplicate same_durable p); cbn [err]; [split; [done|naive_solver]|].
  destruct (has_duplicate same_ephemeral e); cbn [err]; [split; [done|naive_solver]|].
  split; [intros _|done]. split_and!; auto; lia.
Qed.

(** A wake endpoint may contain control characters: a line feed after [https:]
    passes every gate, although it is not printable ASCII. *)
Theorem Wake_accepts_control :
  is_ok (Wake_try_new (lit "https:" ++ [char_of 10]) (replicate 65 x00) (replicate 16 x00)
           None) = true.
Proof. by vm_compute. Qed.
