(* ===== verification/Payload.v ===== *)
(** The wire objects: tickets, packets, durable bodies and the transaction payloads of
    [protocol/v1/payload.rs], with the sort labels, policy names, time bins and the
    zero padding of packets. *)

From stdpp Require Import base tactics list numbers option strings countable gmap.
From Stdlib Require Import Strings.Byte.
From S2P Require Import Prelude Text Ids Channel Defaults.

Definition TICKET_MAX_UNCOMPRESSED : N := 4096.
Definition PACKET_MAX_UNCOMPRESSED : N := 65536.
Definition PERSIST_MAX_UNCOMPRESSED : N := 1048576.
Definition PACKET_LEN : nat := 512.
Definition PACKET_NONCE_LEN : nat := 12.
Definition PACKET_PAD_LEN : nat := 484.
Definition AEAD_TAG_LEN : nat := 16.
Definition TIME_BIN_SECONDS : N := 3600.

(** * Conversation sorts and their labels *)

Inductive ConversationSort : Set :=
| HandshakeDm | HandshakeSync | DirectMessage | Group | Synchronization | EngineSort.

#[export] Instance ConversationSort_eq_dec : EqDecision ConversationSort.
Proof. solve_decision. Defined.

Definition sort_as_str (s : ConversationSort) : str :=
  match s with
  | HandshakeDm => lit "HandshakeDm"
  | HandshakeSync => lit "HandshakeSync"
  | DirectMessage => lit "DirectMessage"
  | Group => lit "Group"
  | Synchronization => lit "Synchronization"
  | EngineSort => lit "Engine"
  end.

(** A byte-string literal. *)
Definition blit (s : string) : bytes := utf8 (lit s).

Definition omits_actor_id (s : ConversationSort) : bool :=
  match s with HandshakeDm | HandshakeSync => true | _ => false end.

Definition chain_root_label (s : ConversationSort) : option bytes :=
  match s with
  | HandshakeDm => Some (blit "chuchotez/1/handshake-dm-chain-root")
  | HandshakeSync => Some (blit "chuchotez/1/handshake-sync-chain-root")
  | DirectMessage => Some (blit "chuchotez/1/dm-chain-root")
  | Group => Some (blit "chuchotez/1/group-chain-root")
  | Synchronization => Some (blit "chuchotez/1/sync-chain-root")
  | EngineSort => None
  end.

Definition chain_c_label (s : ConversationSort) : option bytes :=
  match s with
  | HandshakeDm => Some (blit "chuchotez/1/handshake-dm-chain-c")
  | HandshakeSync => Some (blit "chuchotez/1/handshake-sync-chain-c")
  | DirectMessage => Some (blit "chuchotez/1/dm-chain-c")
  | Group => Some (blit "chuchotez/1/group-chain-c")
  | Synchronization => Some (blit "chuchotez/1/sync-chain-c")
  | EngineSort => None
  end.

Definition mix_label (s : ConversationSort) : option bytes :=
  match s with
  | HandshakeDm => Some (blit "chuchotez/1/handshake-dm-kem-mix")
  | HandshakeSync => Some (blit "chuchotez/1/handshake-sync-kem-mix")
  | DirectMessage => Some (blit "chuchotez/1/dm-kem-mix")
  | Group => Some (blit "chuchotez/1/group-kem-mix")
  | Synchronization => Some (blit "chuchotez/1/sync-kem-mix")
  | EngineSort => None
  end.

Definition persist_label (s : ConversationSort) : option bytes :=
  match s with
  | HandshakeDm => Some (blit "chuchotez/1/handshake-dm-persist-bin")
  | HandshakeSync => Some (blit "chuchotez/1/handshake-sync-persist-bin")
  | DirectMessage => Some (blit "chuchotez/1/dm-persist-bin")
  | Group => Some (blit "chuchotez/1/group-persist-bin")
  | Synchronization => Some (blit "chuchotez/1/sync-persist-bin")
  | EngineSort => None
  end.

Definition eph_label (s : ConversationSort) : option bytes :=
  match s with
  | HandshakeDm => Some (blit "chuchotez/1/handshake-dm-eph-bin")
  | HandshakeSync => Some (blit "chuchotez/1/handshake-sync-eph-bin")
  | DirectMessage => Some (blit "chuchotez/1/dm-eph-bin")
  | Group => Some (blit "chuchotez/1/group-eph-bin")
  | Synchronization => Some (blit "chuchotez/1/sync-eph-bin")
  | EngineSort => None
  end.

(** * Tickets and packets *)

Record Ticket : Set := mkTicket {
  tk_secret : Secret;
  tk_persistents : list DurableChannel;
  tk_expires : UnixSeconds
}.

Record Hlc : Set := mkHlc { wall_ms : u64; counter : u64 }.

Record PacketTxFragMore : Set := mkTxFragMore {
  fm_actor_id : bytes; fm_packet_seq : u64; fm_tx_id : Tag; fm_frag_i : u64; fm_frag : bytes
}.

Record PacketTxFragLast : Set := mkTxFragLast {
  fl_actor_id : bytes; fl_packet_seq : u64; fl_tx_id : Tag; fl_frag_i : u64;
  fl_frag : bytes; fl_set_xor : Tag
}.

Record PacketXorAck : Set := mkXorAck {
  xa_actor_id : bytes; xa_packet_seq : u64; xa_set_xor : Tag
}.

Record PacketHealHalfXor : Set := mkHealHalfXor {
  hx_actor_id : bytes; hx_packet_seq : u64; hx_lo : Tag; hx_hi : Tag; hx_xor : Tag
}.

Record PacketHealWant : Set := mkHealWant {
  hw_actor_id : bytes; hw_packet_seq : u64; hw_lo : Tag; hw_hi : Tag; hw_ids : list Tag
}.

Record PacketHealHave : Set := mkHealHave {
  hh_actor_id : bytes; hh_packet_seq : u64; hh_lo : Tag; hh_hi : Tag; hh_ids : list Tag
}.

Record PacketTyping : Set := mkTyping {
  ty_actor_id : bytes; ty_packet_seq : u64; ty_conversation_id : ConversationId;
  ty_composing : bool
}.

Record PacketTypingActive : Set := mkTypingActive {
  ta_actor_id : bytes; ta_packet_seq : u64; ta_conversation_id : ConversationId;
  ta_last_active : u64; ta_composing : bool
}.

Record PacketPresence : Set := mkPresence {
  pr_actor_id : bytes; pr_packet_seq : u64; pr_conversation_id : ConversationId
}.

Record PacketPresenceActive : Set := mkPresenceActive {
  pa_actor_id : bytes; pa_packet_seq : u64; pa_conversation_id : ConversationId;
  pa_last_active : u64
}.

Inductive PacketPlain : Set :=
| TxFragMore (p : PacketTxFragMore)
| TxFragLast (p : PacketTxFragLast)
| XorAck (p : PacketXorAck)
| HealHalfXor (p : PacketHealHalfXor)
| HealWant (p : PacketHealWant)
| HealHave (p : PacketHealHave)
| Typing (p : PacketTyping)
| TypingActive (p : PacketTypingActive)
| Presence (p : PacketPresence)
| PresenceActive (p : PacketPresenceActive).

(** * Payload records *)

Record TxNotice : Set := mkTxNotice {
  n_policy : Policy; n_intake_pk : EncryptionPublicKey;
  n_persistents : list DurableChannel; n_ephemerals : list EphemeralChannel;
  n_expires : UnixSeconds
}.

Record TxInviterIntro : Set := mkTxInviterIntro {
  ii_name : DisplayName; ii_profile_pic : option ProfilePic;
  ii_send_tag_key : TagKey; ii_eph_send_tag_key : TagKey;
  ii_encryption_pk : EncryptionPublicKey; ii_signing_pk : SigningPublicKey;
  ii_seed_ct : bytes; ii_prefs : OnWirePrefs
}.

Record TxInviteeIntro : Set := mkTxInviteeIntro {
  ie_name : DisplayName; ie_profile_pic : option ProfilePic;
  ie_send_tag_key : TagKey; ie_eph_send_tag_key : TagKey;
  ie_encryption_pk : EncryptionPublicKey; ie_signing_pk : SigningPublicKey;
  ie_intake_pk : EncryptionPublicKey; ie_seed_ct : bytes; ie_prefs : OnWirePrefs
}.

Record SyncInviterIntro : Set := mkSyncInviterIntro {
  si_intro : TxInviterIntro; si_device_id : DeviceId
}.

Record SyncInviteeIntro : Set := mkSyncInviteeIntro {
  se_intro : TxInviteeIntro; se_device_id : DeviceId
}.

Record TxText : Set := mkTxText {
  t_body : str; t_reply_to : option Tag; t_expire_at : option UnixSeconds
}.

Record TxEdit : Set := mkTxEdit { ed_target : Tag; ed_body : str }.

Record TxReaction : Set := mkTxReaction { re_target : Tag; re_emoji : str; re_add : bool }.

Record TxMedia : Set := mkTxMedia {
  m_mime : str; m_filename : str; m_hash : Tag; m_kind : Kind; m_address : Address;
  m_tag : Tag; m_caption : option str; m_reply_to : option Tag;
  m_expire_at : option UnixSeconds
}.

Record TxGroupInvite : Set := mkTxGroupInvite {
  gi_group_id : ConversationId; gi_owner_signing_pk : SigningPublicKey;
  gi_persistents : list DurableChannel; gi_ephemerals : list EphemeralChannel;
  gi_name : DisplayName; gi_photo : option ProfilePic;
  gi_invitee_signing_pk : SigningPublicKey; gi_group_secret_ct : bytes
}.

Record GroupMember : Set := mkGroupMember {
  gm_signing_pk : SigningPublicKey; gm_encryption_pk : EncryptionPublicKey;
  gm_send_tag_key : TagKey; gm_eph_send_tag_key : TagKey
}.

Record TxGroupRoster : Set := mkTxGroupRoster {
  gr_epoch : u64; gr_members : list GroupMember; gr_sig : bytes
}.

Record TxGroupWrap : Set := mkTxGroupWrap {
  gw_to : SigningPublicKey; gw_from : SigningPublicKey; gw_kem_ct : bytes
}.

(** * Payloads *)

Inductive TxPayload : Set :=
| PNotice (n : TxNotice)
| PInviterIntro (i : TxInviterIntro)
| PInviteeIntro (i : TxInviteeIntro)
| PSyncInviterIntro (s : SyncInviterIntro)
| PSyncInviteeIntro (s : SyncInviteeIntro)
| PConfirm
| PReject
| PText (t : TxText)
| PEdit (e : TxEdit)
| PRemove (target : Tag)
| PReaction (r : TxReaction)
| PRead (up_to : Tag)
| PDelivered (up_to : Tag)
| PMedia (m : TxMedia)
| PAdvertise (encaps_pk : EncryptionPublicKey)
| PWrap (kem_ct : bytes)
| PAck (ratchet_ack : Tag)
| PName (name : DisplayName)
| PPhoto (profile_pic : option ProfilePic)
| PPrefs (p : OnWirePrefs)
| PGroupInvite (g : TxGroupInvite)
| PGroupAccept (group_id : ConversationId)
| PGroupReject (group_id : ConversationId)
| PGroupRoster (r : TxGroupRoster)
| PGroupWrap (w : TxGroupWrap)
| PGroupLeave
| PGroupKick (signing_pk : SigningPublicKey)
| PEngineInit
| PEngineSetDefaults (defaults : Defaults)
| PEngineCreateUser (user_id : UserId)
| PEngineCreateIdentity (user_id : UserId) (identity_id : IdentityId) (policy : Policy)
    (encryption : KeyPair) (signing : SigningKeyPair)
| PEngineDeleteUser (user_id : UserId)
| PEngineDeleteIdentity (user_id : UserId) (identity_id : IdentityId)
| PEngineSetDisplayName (user_id : UserId) (identity_id : IdentityId) (name : DisplayName)
| PEngineUnsetDisplayName (user_id : UserId) (identity_id : IdentityId)
| PEngineSetProfilePic (user_id : UserId) (identity_id : IdentityId)
    (profile_pic : option ProfilePic)
| PEngineSetDeviceName (name : DisplayName)
| PEngineKickDevice (device_id : DeviceId)
| PSyncDek (ct : bytes).

(** [derive(PartialEq)]. *)
#[export] Instance TxNotice_eq_dec : EqDecision TxNotice.
Proof. solve_decision. Defined.
#[export] Instance TxInviterIntro_eq_dec : EqDecision TxInviterIntro.
Proof. solve_decision. Defined.
#[export] Instance TxInviteeIntro_eq_dec : EqDecision TxInviteeIntro.
Proof. solve_decision. Defined.
#[export] Instance SyncInviterIntro_eq_dec : EqDecision SyncInviterIntro.
Proof. solve_decision. Defined.
#[export] Instance SyncInviteeIntro_eq_dec : EqDecision SyncInviteeIntro.
Proof. solve_decision. Defined.
#[export] Instance TxText_eq_dec : EqDecision TxText.
Proof. solve_decision. Defined.
#[export] Instance TxEdit_eq_dec : EqDecision TxEdit.
Proof. solve_decision. Defined.
#[export] Instance TxReaction_eq_dec : EqDecision TxReaction.
Proof. solve_decision. Defined.
#[export] Instance TxMedia_eq_dec : EqDecision TxMedia.
Proof. solve_decision. Defined.
#[export] Instance TxGroupInvite_eq_dec : EqDecision TxGroupInvite.
Proof. solve_decision. Defined.
#[export] Instance GroupMember_eq_dec : EqDecision GroupMember.
Proof. solve_decision. Defined.
#[export] Instance TxGroupRoster_eq_dec : EqDecision TxGroupRoster.
Proof. solve_decision. Defined.
#[export] Instance TxGroupWrap_eq_dec : EqDecision TxGroupWrap.
Proof. solve_decision. Defined.
#[export] Instance TxPayload_eq_dec : EqDecision TxPayload.
Proof. solve_decision. Defined.

Record DurableBody : Set := mkDurableBody {
  db_conversation_id : ConversationId; db_hlc : Hlc; db_payload : TxPayload
}.

Record VaultHeader : Set := mkVaultHeader {
  vh_salt : arr 16; vh_m : u32; vh_t : u32; vh_p : u32;
  vh_passphrase_nonce : option (arr 12); vh_passphrase_wrapped_dek : option bytes;
  vh_prf_nonce : option (arr 12); vh_prf_wrapped_dek : option bytes
}.

(** * Policy names, time bins and padding *)

Definition policy_str (policy : Policy) : str :=
  match policy with
  | Classic => lit "Classic"
  | PostQuantum => lit "PostQuantum"
  | Hybrid => lit "Hybrid"
  end.

Definition parse_policy (s : str) : option Policy :=
  if str_eqb s (lit "Classic") then Some Classic
  else if str_eqb s (lit "PostQuantum") then Some PostQuantum
  else if str_eqb s (lit "Hybrid") then Some Hybrid
  else None.

Definition time_bin (unix_seconds : UnixSeconds) : TimeBin :=
  clamp64 (cval unix_seconds / TIME_BIN_SECONDS).

(** [out.resize(n, 0)] on a vector no longer than [n]. *)
Definition pad_to (n : nat) (bs : bytes) : bytes := bs ++ replicate (n - length bs) x00.

Definition pad (bs : bytes) (n : nat) : result unit bytes :=
  if bool_decide (length bs ≤ n) then Ok (pad_to n bs) else Err tt.

(** [&bytes[..n]] with [n] one past the last nonzero byte. *)
Fixpoint unpad (bs : bytes) : bytes :=
  match bs with
  | [] => []
  | b :: bs' =>
    match unpad bs' with
    | [] => if bool_decide (b = x00) then [] else [b]
    | u => b :: u
    end
  end.

Lemma parse_policy_str p : parse_policy (policy_str p) = Some p.
Proof. unfold parse_policy. by destruct p; cbn [policy_str]; rewrite ?str_eqb_lit; cbn. Qed.

Lemma time_bin_val s : cval (time_bin s) = (cval s / 3600)%N.
Proof.
  unfold time_bin. rewrite clamp64_val. pose proof (u64_le_max s).
  apply N.min_l. transitivity (cval s); [|done]. by apply N.Div0.div_le_upper_bound; lia.
Qed.

Lemma unpad_zeros n : unpad (replicate n x00) = [].
Proof. induction n as [|n IH]; [done|]. cbn [replicate unpad]. by rewrite IH. Qed.

Lemma unpad_app_zeros bs n : unpad (bs ++ replicate n x00) = unpad bs.
Proof. induction bs as [|b bs IH]; [apply unpad_zeros|]. cbn [app unpad]. by rewrite IH. Qed.

Lemma unpad_last_nonzero bs b : b ≠ x00 → unpad (bs ++ [b]) = bs ++ [b].
Proof.
  intros Hb. induction bs as [|a bs IH]; cbn [app unpad].
  - by rewrite bool_decide_false.
  - rewrite IH. by destruct bs.
Qed.

Lemma unpad_kept bs : last bs ≠ Some x00 → unpad bs = bs.
Proof.
  induction bs as [|b bs' _] using rev_ind; [done|]. rewrite last_snoc.
  intros Hb. apply unpad_last_nonzero. congruence.
Qed.

Lemma pad_to_length n bs : (length bs ≤ n)%nat → length (pad_to n bs) = n.
Proof. intros H. unfold pad_to. rewrite length_app, length_replicate. lia. Qed.

(** Padding to [n] bytes refuses exactly the longer inputs, otherwise gives [n]
    bytes that start with the input, and [unpad] removes exactly the zero bytes at the
    end: what it returns does not end in zero, and the input is what it returns
    followed by zeros. *)
Theorem pad_unpad bs n :
  (is_ok (pad bs n) = true ↔ (length bs ≤ n)%nat) ∧
  (∀ out, pad bs n = Ok out → length out = n ∧ unpad out = unpad bs) ∧
  (∃ k, bs = unpad bs ++ replicate k x00) ∧
  last (unpad bs) ≠ Some x00.
Proof.
  split_and!.
  - unfold pad. by case_bool_decide.
  - unfold pad. case_bool_decide; [|done]. intros out [= <-].
    split; [by apply pad_to_length|apply unpad_app_zeros].
  - induction bs as [|b bs [k IH]]; [by exists 0|]. cbn [unpad].
    destruct (unpad bs) as [|u us] eqn:E.
    + case_bool_decide as Hb; [exists (S k); rewrite Hb|exists k]; cbn; f_equal; exact IH.
    + exists k. cbn. f_equal. exact IH.
  - induction bs as [|b bs IH]; [done|]. cbn [unpad].
    destruct (unpad bs) as [|u us] eqn:E.
    + case_bool_decide; [done|]. cbn. congruence.
    + by rewrite last_cons_cons.
Qed.
