(* ===== verification/Json.v ===== *)
(** JSON values ([protocol/v1/json.rs]), member lookup, and the equivalence that
    forgets the order of object members. *)

From stdpp Require Import base tactics list numbers option strings countable gmap.
From Stdlib Require Import Strings.Byte.
From S2P Require Import Prelude Text.

Unset Elimination Schemes.
Inductive Json : Set :=
| JNull
| JBool (b : bool)
| JNumber (n : u64)
| JString (s : str)
| JArray (items : list Json)
| JObject (members : list (str * Json)).
Set Elimination Schemes.

(** Induction with the hypothesis for every item and every member value. *)
Fixpoint Json_ind (P : Json → Prop)
    (Hnull : P JNull) (Hbool : ∀ b, P (JBool b)) (Hnum : ∀ n, P (JNumber n))
    (Hstr : ∀ s, P (JString s)) (Harr : ∀ l, Forall P l → P (JArray l))
    (Hobj : ∀ m, Forall (λ kv : str * Json, P kv.2) m → P (JObject m))
    (v : Json) {struct v} : P v :=
  let rec := Json_ind P Hnull Hbool Hnum Hstr Harr Hobj in
  match v with
  | JNull => Hnull
  | JBool b => Hbool b
  | JNumber n => Hnum n
  | JString s => Hstr s
  | JArray l =>
      Harr l ((fix items (l : list Json) : Forall P l :=
        match l with
        | [] => Forall_nil_2 P
        | x :: l' => Forall_cons_2 P x l' (rec x) (items l')
        end) l)
  | JObject m =>
      Hobj m ((fix members (m : list (str * Json)) :
                 Forall (λ kv : str * Json, P kv.2) m :=
        match m with
        | [] => Forall_nil_2 _
        | kv :: m' => Forall_cons_2 (λ kv : str * Json, P kv.2) kv m' (rec kv.2) (members m')
        end) m)
  end.

(** [members.iter().find(|(k, _)| k == key).map(|(_, v)| v)]. *)
Fixpoint find_key (m : list (str * Json)) (key : str) : option Json :=
  match m with
  | [] => None
  | (k, v) :: m' => if str_eqb k key then Some v else find_key m' key
  end.

Definition keys (m : list (str * Json)) : list str := map fst m.

Lemma find_key_In m k v : find_key m k = Some v → (k, v) ∈ m.
Proof.
  induction m as [|[k' v'] m IH]; cbn; [done|].
  destruct (str_eqb k' k) eqn:E; [|intros; right; auto].
  apply str_eqb_eq in E as ->. intros [= ->]. left.
Qed.

Lemma find_key_NoDup m k v : NoDup (keys m) → (k, v) ∈ m → find_key m k = Some v.
Proof.
  induction m as [|[k' v'] m IH]; cbn; intros HN Hin; [by apply not_elem_of_nil in Hin|].
  apply NoDup_cons in HN as [Hni HN]. apply elem_of_cons in Hin as [[= <- <-]|Hin].
  - by rewrite str_eqb_refl.
  - destruct (str_eqb k' k) eqn:E; [|auto].
    apply str_eqb_eq in E as ->. destruct Hni. by apply (list_elem_of_fmap_2 fst) in Hin.
Qed.

Lemma find_key_None m k : find_key m k = None ↔ k ∉ keys m.
Proof.
  induction m as [|[k' v'] m IH]; cbn; [split; [intros _; apply not_elem_of_nil|done]|].
  rewrite not_elem_of_cons. destruct (str_eqb k' k) eqn:E.
  - apply str_eqb_eq in E as ->. naive_solver.
  - rewrite IH. split; [|naive_solver]. intros Hk. split; [|done].
    intros ->. by rewrite str_eqb_refl in E.
Qed.

(** Objects with distinct keys are determined by lookup, up to order. *)
Lemma find_key_Permutation m1 m2 k :
  NoDup (keys m1) → m1 ≡ₚ m2 → find_key m1 k = find_key m2 k.
Proof.
  intros HN HP. assert (NoDup (keys m2)) as HN2 by (unfold keys; by rewrite <-HP).
  destruct (find_key m1 k) as [v|] eqn:E.
  - symmetry. apply find_key_NoDup; [done|]. rewrite <-HP. by apply find_key_In.
  - symmetry. apply find_key_None. unfold keys. rewrite <-HP. by apply find_key_None.
Qed.

(** * Equivalence up to member order

    Two objects are equivalent when looking up any key gives equivalent values: what a
    parser that only looks members up and checks the key set can observe. *)
Unset Elimination Schemes.
Inductive json_equiv : Json → Json → Prop :=
| je_null : json_equiv JNull JNull
| je_bool b : json_equiv (JBool b) (JBool b)
| je_number n : json_equiv (JNumber n) (JNumber n)
| je_string s : json_equiv (JString s) (JString s)
| je_array l1 l2 : Forall2 json_equiv l1 l2 → json_equiv (JArray l1) (JArray l2)
| je_object m1 m2 :
    (∀ k, option_Forall2 json_equiv (find_key m1 k) (find_key m2 k)) →
    json_equiv (JObject m1) (JObject m2).
Set Elimination Schemes.

Definition members_equiv (m1 m2 : list (str * Json)) : Prop :=
  ∀ k, option_Forall2 json_equiv (find_key m1 k) (find_key m2 k).

#[export] Instance json_equiv_refl : Reflexive json_equiv.
Proof.
  intros v. induction v as [| | | |l IH|m IH] using Json_ind; constructor.
  - induction IH; constructor; auto.
  - intros k. destruct (find_key m k) as [v|] eqn:E; constructor.
    apply find_key_In in E. by apply (proj1 (Forall_forall _ _) IH _ E).
Qed.

#[export] Instance json_equiv_sym : Symmetric json_equiv.
Proof.
  intros v. induction v as [| | | |l IH|m IH] using Json_ind; intros w H; inversion H; subst; constructor.
  - clear H. revert l2 H1. induction IH as [|x l Hx _ IHl]; intros l2 HF;
      inversion HF; subst; constructor; auto.
  - intros k. specialize (H1 k). inversion H1 as [x y Hxy Ex Ey|Ex Ey]; constructor.
    symmetry in Ex. apply find_key_In in Ex.
    by apply (proj1 (Forall_forall _ _) IH _ Ex).
Qed.

Lemma json_equiv_array_inv l w :
  json_equiv (JArray l) w → ∃ l', w = JArray l' ∧ Forall2 json_equiv l l'.
Proof. inversion 1; eauto. Qed.

Lemma json_equiv_object_inv m w :
  json_equiv (JObject m) w → ∃ m', w = JObject m' ∧ members_equiv m m'.
Proof. inversion 1; eauto. Qed.

#[export] Instance json_equiv_trans : Transitive json_equiv.
Proof.
  intros v. induction v as [| | | |l IH|m IH] using Json_ind; intros w z Hvw Hwz;
    try (inversion Hvw; subst; done).
  - apply json_equiv_array_inv in Hvw as (l2 & -> & H1).
    apply json_equiv_array_inv in Hwz as (l3 & -> & H2). constructor.
    revert l2 l3 H1 H2. induction IH as [|x l Hx _ IHl]; intros l2 l3 H1 H2;
      inversion H1; subst; inversion H2; subst; constructor; eauto.
  - apply json_equiv_object_inv in Hvw as (m2 & -> & H1).
    apply json_equiv_object_inv in Hwz as (m3 & -> & H2). constructor. intros k.
    specialize (H1 k). specialize (H2 k).
    inversion H1 as [x y Hxy Ex Ey|Ex Ey]; rewrite <-Ey in H2;
      inversion H2 as [y' z Hyz Ey' Ez|]; subst; constructor.
    symmetry in Ex. apply find_key_In in Ex.
    eapply (proj1 (Forall_forall _ _) IH _ Ex); eauto.
Qed.

#[export] Instance json_equivalence : Equivalence json_equiv.
Proof. split; apply _. Qed.

Lemma members_equiv_keys m1 m2 k :
  members_equiv m1 m2 → k ∈ keys m1 ↔ k ∈ keys m2.
Proof.
  intros H. specialize (H k). pose proof (find_key_None m1 k). pose proof (find_key_None m2 k).
  destruct (decide (k ∈ keys m1)), (decide (k ∈ keys m2)); try tauto;
    destruct (find_key m1 k), (find_key m2 k); inversion H; naive_solver.
Qed.

(** No object anywhere in the value repeats a key. *)
Fixpoint json_nodup (v : Json) : bool :=
  match v with
  | JArray l => forallb json_nodup l
  | JObject m => bool_decide (NoDup (keys m)) && forallb (λ kv, json_nodup kv.2) m
  | _ => true
  end.
