(* ===== verification/Ports.v ===== *)
(** The capability ports of a v1 suite, as type classes, with the documented behaviour
    the domain relies on as law classes.

    The traits are [hmac.rs], [compress.rs], [b64u.rs], [aead.rs], [json.rs], [kem.rs],
    [sign.rs], [hash.rs] and [argon.rs]; [suite.rs] bundles them.  The primitives behind
    them (HMAC-SHA-256, Deflate, AES-256-GCM, ...) are third-party code and stay
    abstract; the canonical JSON port is implemented by the adapter modelled in
    [CanonicalJson.v], the others by those of [Adapters.v]. *)

From stdpp Require Import base tactics list numbers option strings countable gmap.
From Stdlib Require Import Strings.Byte.
From S2P Require Import Prelude Text Ids Payload Json.

Class HmacSha256 : Set := mac : HmacSha256Key → bytes → HmacSha256Mac.

Inductive CompressError : Set := Compress_Codec | Compress_Oversize.

Class Compress : Set := {
  compress : bytes → bytes;
  decompress : bytes → N → result CompressError bytes
}.

Class Base64Url : Set := {
  b64_encode : bytes → str;
  b64_decode : str → option bytes
}.

Class Aead : Set := {
  aead_seal : AeadKey → arr 12 → bytes → bytes → bytes;
  aead_open : AeadKey → arr 12 → bytes → bytes → option bytes
}.

Class CanonicalJson : Set := {
  json_encode : Json → bytes;
  json_decode : bytes → option Json
}.

Class Kem : Set := {
  kem_generate : Policy → arr 64 → option KeyPair;
  kem_wrap : Policy → bytes → arr 64 → option (bytes * bytes);
  kem_unwrap : Policy → bytes → bytes → option bytes
}.

Class Sign : Set := {
  sign_generate : Policy → arr 64 → option SigningKeyPair;
  sign_sign : Policy → bytes → bytes → Random32 → option bytes;
  sign_verify : Policy → bytes → bytes → bytes → bool
}.

Class Sha256 : Set := sha256 : bytes → arr 32.

Class Argon2id : Set :=
  argon2id : bytes → arr 16 → u32 → u32 → u32 → option (arr 32).

(** [Suite]: the capability bag handed to an engine. *)
Class Suite : Set := {
  #[global] suite_hmac :: HmacSha256;
  #[global] suite_compress :: Compress;
  #[global] suite_b64u :: Base64Url;
  #[global] suite_aead :: Aead;
  #[global] suite_json :: CanonicalJson;
  #[global] suite_kem :: Kem;
  #[global] suite_sign :: Sign;
  #[global] suite_hash :: Sha256;
  #[global] suite_argon :: Argon2id
}.

(** [expand] of [hmac.rs]: RFC 5869 [T(1)], the counter byte appended to [info]. *)
Definition expand `{HmacSha256} (key : HmacSha256Key) (info : bytes) : HmacSha256Mac :=
  mac key (info ++ [x01]).

(** * Laws *)

(** Unpadded base64url decodes what it encodes. *)
Class Base64UrlLaws `{Base64Url} : Prop :=
  b64_decode_encode : ∀ bs, b64_decode (b64_encode bs) = Some bs.

(** [open] returns the plaintext under the same key, nonce and associated data, and the
    ciphertext is the plaintext followed by a 16-byte tag. *)
Class AeadLaws `{Aead} : Prop := {
  aead_open_seal : ∀ k n aad pt, aead_open k n aad (aead_seal k n aad pt) = Some pt;
  aead_seal_length : ∀ k n aad pt, length (aead_seal k n aad pt) = (length pt + 16)%nat
}.

(** What is wrapped to the public half of a generated pair unwraps with the secret half; a
    shared secret has 32 bytes and its ciphertext the length the policy says. *)
Class KemLaws `{Kem} : Prop := {
  kem_unwrap_wrap : ∀ policy s kp seed shared ct, kem_generate policy s = Some kp →
    kem_wrap policy (kp_public kp) seed = Some (shared, ct) →
    kem_unwrap policy (kp_secret kp) ct = Some shared;
  kem_wrap_lengths : ∀ policy pk seed shared ct, kem_wrap policy pk seed = Some (shared, ct) →
    length shared = 32%nat ∧ length ct = kem_ct_len policy
}.

(** A signature made with the secret half of a generated pair verifies with the public one. *)
Class SignLaws `{Sign} : Prop :=
  sign_verify_sign : ∀ policy s kp msg rnd sig, sign_generate policy s = Some kp →
    sign_sign policy (skp_secret kp) msg rnd = Some sig →
    sign_verify policy (skp_public kp) msg sig = true.

(** A canonical encoding parses, to the value up to the order of object members. *)
Class CanonicalJsonLaws `{CanonicalJson} : Prop :=
  json_decode_encode : ∀ v, json_nodup v = true →
    ∃ w, json_decode (json_encode v) = Some w ∧ json_equiv v w.

(** [decompress] restores what was compressed when it fits the cap.  Nothing is promised of
    a stream that lost bytes of its end. *)
Class CompressLaws `{Compress} : Prop :=
  decompress_compress : ∀ bs max, (N.of_nat (length bs) <= max)%N →
    decompress (compress bs) max = Ok bs.
