(* ===== verification/CanonicalJson.v ===== *)
(** RFC 8785 emit and parse: the adapter [chuchotez-adapters/src/json.rs], which
    implements the [CanonicalJson] port.

    The parser recurses through nested values, so it is a mutual fixpoint on fuel;
    [decode_fuel] is enough for every input ([value_terminates]). *)

From stdpp Require Import base tactics list numbers option strings countable gmap sorting.
From Stdlib Require Import Strings.Byte.
From S2P Require Import Prelude Text Json Ports.

(** * Emit *)

Definition is_c (n : N) (c : char) : bool := (cval c =? n)%N.

Definition hex_char (d : N) : char := char_of (if (d <? 10)%N then 48 + d else 87 + d)%N.

(** [format!("\\u{:04x}", c)]. *)
Definition hex4 (n : N) : str :=
  map (λ k, hex_char (n / k mod 16)%N) [4096; 256; 16; 1]%N.

Definition escape_char (c : char) : str :=
  let n := cval c in
  if (n =? 34)%N then [char_of 92; char_of 34]
  else if (n =? 92)%N then [char_of 92; char_of 92]
  else if (n =? 8)%N then [char_of 92; char_of 98]
  else if (n =? 12)%N then [char_of 92; char_of 102]
  else if (n =? 10)%N then [char_of 92; char_of 110]
  else if (n =? 13)%N then [char_of 92; char_of 114]
  else if (n =? 9)%N then [char_of 92; char_of 116]
  else if (n <? 32)%N then char_of 92 :: char_of 117 :: hex4 n
  else [c].

Definition write_string (s : str) : str :=
  char_of 34 :: concat (map escape_char s) ++ [char_of 34].

(** [utf16_cmp(a, b) != Greater]. *)
Definition utf16_leb (a b : str) : bool := lex_leb (utf16 a) (utf16 b).

(** [sorted.sort_by(|a, b| utf16_cmp(&a.0, &b.0))]: the stable sort by key. *)
Fixpoint insert_member {A} (x : str * A) (l : list (str * A)) : list (str * A) :=
  match l with
  | [] => [x]
  | y :: l' => if utf16_leb x.1 y.1 then x :: l else y :: insert_member x l'
  end.

Definition sort_members {A} (l : list (str * A)) : list (str * A) :=
  foldr insert_member [] l.

Fixpoint join_comma (l : list str) : str :=
  match l with
  | [] => []
  | [x] => x
  | x :: l' => x ++ char_of 44 :: join_comma l'
  end.

(** [write_json].  The members are rendered before they are sorted; the order depends
    on the keys alone. *)
Fixpoint write_json (v : Json) : str :=
  match v with
  | JNull => lit "null"
  | JBool true => lit "true"
  | JBool false => lit "false"
  | JNumber n => u64_to_string n
  | JString s => write_string s
  | JArray items => char_of 91 :: join_comma (map write_json items) ++ [char_of 93]
  | JObject members =>
      let texts := map (λ kv, (kv.1, write_json kv.2)) members in
      char_of 123 ::
      join_comma (map (λ kv, write_string kv.1 ++ char_of 58 :: kv.2) (sort_members texts))
      ++ [char_of 125]
  end.

Definition encode (v : Json) : bytes := utf8 (write_json v).

(** * Parse *)

Inductive parsed (A : Type) : Type :=
| Done (a : A) (rest : str)
| Invalid
| NoFuel.
Arguments Done {A} a rest.
Arguments Invalid {A}.
Arguments NoFuel {A}.

Definition hex_value (c : char) : option N :=
  let n := cval c in
  if ((48 <=? n) && (n <=? 57))%N then Some (n - 48)%N
  else if ((97 <=? n) && (n <=? 102))%N then Some (n - 87)%N
  else if ((65 <=? n) && (n <=? 70))%N then Some (n - 55)%N
  else None.

Fixpoint hex_digits (acc : N) (s : str) : option N :=
  match s with
  | [] => Some acc
  | c :: s' => d ← hex_value c; hex_digits (acc * 16 + d)%N s'
  end.

(** [u32::from_str_radix(&hex, 16)] of four characters: a leading [+] is accepted. *)
Definition from_str_radix16 (h : str) : option N :=
  match h with
  | c :: h' => if is_c 43 c then hex_digits 0 h' else hex_digits 0 h
  | [] => None
  end.

Definition unescape (e : char) : option char :=
  let n := cval e in
  if ((n =? 34) || (n =? 92) || (n =? 47))%N then Some e
  else if (n =? 98)%N then Some (char_of 8)
  else if (n =? 102)%N then Some (char_of 12)
  else if (n =? 110)%N then Some (char_of 10)
  else if (n =? 114)%N then Some (char_of 13)
  else if (n =? 116)%N then Some (char_of 9)
  else None.

(** The loop of [Parser::string], after the opening quote. *)
Fixpoint string_body (s : str) : option (str * str) :=
  match s with
  | [] => None
  | c :: s1 =>
    if is_c 34 c then Some ([], s1)
    else if is_c 92 c then
      match s1 with
      | [] => None
      | e :: s2 =>
        if is_c 117 e then
          match s2 with
          | h1 :: h2 :: h3 :: h4 :: s3 =>
            code ← from_str_radix16 [h1; h2; h3; h4];
            x ← char_from_u32 code;
            '(out, rest) ← string_body s3; Some (x :: out, rest)
          | _ => None
          end
        else
          x ← unescape e;
          '(out, rest) ← string_body s2; Some (x :: out, rest)
      end
    else '(out, rest) ← string_body s1; Some (c :: out, rest)
  end.

Definition parse_string (s : str) : option (str * str) :=
  match s with
  | c :: s1 => if is_c 34 c then string_body s1 else None
  | [] => None
  end.

Fixpoint span_digits (s : str) : str * str :=
  match s with
  | c :: s' =>
    if is_ascii_digit c then let '(ds, rest) := span_digits s' in (c :: ds, rest)
    else ([], s)
  | [] => ([], [])
  end.

Definition parse_number (s : str) : parsed Json :=
  let leading_zero :=
    match s with c :: d :: _ => is_c 48 c && is_ascii_digit d | _ => false end in
  if leading_zero then Invalid
  else
    let '(ds, rest) := span_digits s in
    match parse_u64 ds with Some n => Done (JNumber n) rest | None => Invalid end.

Definition head_is (n : N) (s : str) : bool :=
  match s with c :: _ => is_c n c | [] => false end.

Definition head_digit (s : str) : bool :=
  match s with c :: _ => is_ascii_digit c | [] => false end.

Fixpoint value (fuel : nat) (rest : str) : parsed Json :=
  match fuel with
  | O => NoFuel
  | S f =>
    let r := trim_start rest in
    match strip_prefix (lit "null") r, strip_prefix (lit "true") r,
          strip_prefix (lit "false") r with
    | Some r', _, _ => Done JNull r'
    | None, Some r', _ => Done (JBool true) r'
    | None, None, Some r' => Done (JBool false) r'
    | None, None, None =>
      if head_is 34 r then
        match parse_string r with
        | Some (s, r') => Done (JString s) r'
        | None => Invalid
        end
      else if head_is 91 r then
        let r1 := trim_start (tail r) in
        if head_is 93 r1 then Done (JArray []) (tail r1) else array_items f r1 []
      else if head_is 123 r then
        let r1 := trim_start (tail r) in
        if head_is 125 r1 then Done (JObject []) (tail r1) else object_members f r1 []
      else if head_digit r then parse_number r
      else Invalid
    end
  end
with array_items (fuel : nat) (rest : str) (items : list Json) : parsed Json :=
  match fuel with
  | O => NoFuel
  | S f =>
    match value f rest with
    | Done v r =>
      let r1 := trim_start r in
      if head_is 44 r1 then array_items f (tail r1) (items ++ [v])
      else if head_is 93 r1 then Done (JArray (items ++ [v])) (tail r1)
      else Invalid
    | Invalid => Invalid
    | NoFuel => NoFuel
    end
  end
with object_members (fuel : nat) (rest : str) (members : list (str * Json)) : parsed Json :=
  match fuel with
  | O => NoFuel
  | S f =>
    match parse_string (trim_start rest) with
    | None => Invalid
    | Some (key, r) =>
      let r1 := trim_start r in
      if negb (head_is 58 r1) then Invalid
      else
        match value f (tail r1) with
        | Done v r2 =>
          let r3 := trim_start r2 in
          if head_is 44 r3 then object_members f (tail r3) (members ++ [(key, v)])
          else if head_is 125 r3 then Done (JObject (members ++ [(key, v)])) (tail r3)
          else Invalid
        | Invalid => Invalid
        | NoFuel => NoFuel
        end
    end
  end.

Definition decode_fuel (text : str) : nat := 2 * length text + 1.

Definition decode (bs : bytes) : option Json :=
  text ← from_utf8 bs;
  match value (decode_fuel text) text with
  | Done v rest => if bool_decide (trim_start rest = []) then Some v else None
  | _ => None
  end.

(** The sorted form a round trip produces: members in UTF-16 key order, recursively. *)
Fixpoint canon (v : Json) : Json :=
  match v with
  | JArray items => JArray (map canon items)
  | JObject members => JObject (sort_members (map (λ kv, (kv.1, canon kv.2)) members))
  | _ => v
  end.

Example encode_sorts :
  write_json (JObject [(lit "b", JNumber (clamp64 20)); (lit "a", JArray [JNull; JBool true])])
  = lit "{" ++ write_string (lit "a") ++ lit ":[null,true]," ++ write_string (lit "b")
    ++ lit ":20}".
Proof. vm_decide. Qed.

Example decode_spaces :
  encode <$> decode (utf8 (lit " [1 , {} ] ")) = Some (utf8 (lit "[1,{}]")).
Proof. vm_decide. Qed.

(** * Emit: escapes, sorting *)

Lemma hex_value_char d : (d < 16)%N → hex_value (hex_char d) = Some d.
Proof.
  intros H. unfold hex_char, hex_value.
  destruct (d <? 10)%N eqn:E; rewrite ?N.ltb_lt, ?N.ltb_ge in E;
    rewrite char_of_val by (apply is_scalar_spec; lia).
  - replace ((48 <=? 48 + d)%N && (48 + d <=? 57)%N) with true
      by (symmetry; apply andb_true_iff; rewrite !N.leb_le; lia).
    f_equal. lia.
  - replace ((48 <=? 87 + d)%N && (87 + d <=? 57)%N) with false
      by (symmetry; apply andb_false_iff; rewrite !N.leb_gt; lia).
    replace ((97 <=? 87 + d)%N && (87 + d <=? 102)%N) with true
      by (symmetry; apply andb_true_iff; rewrite !N.leb_le; lia).
    f_equal. lia.
Qed.

(** The only characters escaped by code point are the controls below [0x20], for which
    the four hexadecimal digits read back. *)
Lemma from_str_radix16_hex4 n :
  (n < 32)%N → from_str_radix16 (hex4 n) = Some n.
Proof.
  intros H. destruct (divmod_ex n 16 ltac:(done)) as (q & r & Hq & Hr & Hn & Hlt).
  assert (n / 4096 = 0 ∧ n / 256 = 0)%N as [E1 E2]
    by (split; apply N.div_small; lia).
  unfold hex4, from_str_radix16. cbn [map].
  rewrite E1, E2, Hq, N.div_1_r, Hr, (N.mod_small q) by lia.
  change (0 mod 16)%N with 0%N.
  replace (is_c 43 (hex_char 0)) with false by (vm_compute; reflexivity).
  cbn [hex_digits]. rewrite !hex_value_char by lia. cbn. f_equal. lia.
Qed.

Lemma string_body_escape c s :
  string_body (escape_char c ++ s) = ('(out, rest) ← string_body s; Some (c :: out, rest)).
Proof.
  unfold escape_char.
  assert (∀ n, (cval c =? n)%N = true → c = char_of n) as Hc.
  { intros n Hn%N.eqb_eq. by rewrite <-Hn, char_of_cval. }
  repeat match goal with
  | |- context [if (cval c =? ?n)%N then _ else _] =>
      let E := fresh "E" in
      destruct (cval c =? n)%N eqn:E;
      [apply Hc in E as ->; cbn [app string_body]; reflexivity|]
  end.
  destruct (cval c <? 32)%N eqn:E32.
  - apply N.ltb_lt, from_str_radix16_hex4 in E32. revert E32. unfold hex4. cbn [map].
    generalize (hex_char (cval c / 4096 mod 16)), (hex_char (cval c / 256 mod 16)),
      (hex_char (cval c / 16 mod 16)), (hex_char (cval c / 1 mod 16)).
    intros h1 h2 h3 h4 H16. cbn [app string_body].
    change (is_c 34 (char_of 92)) with false. change (is_c 92 (char_of 92)) with true.
    change (is_c 117 (char_of 117)) with true. cbv iota. rewrite H16.
    cbn [mbind option_bind]. unfold char_from_u32. by rewrite check_cval.
  - cbn [app string_body]. unfold is_c. by rewrite E, E0.
Qed.

Lemma string_body_write s rest :
  string_body (concat (map escape_char s) ++ char_of 34 :: rest) = Some (s, rest).
Proof.
  induction s as [|c s IH]; [done|]. cbn [map concat].
  rewrite <-(assoc_L (++)), string_body_escape, IH. done.
Qed.

Lemma parse_string_write s rest : parse_string (write_string s ++ rest) = Some (s, rest).
Proof.
  unfold write_string. cbn [app parse_string]. change (is_c 34 (char_of 34)) with true.
  cbv iota. rewrite <-(assoc_L (++)). apply string_body_write.
Qed.

Lemma insert_member_perm {A} (x : str * A) l : insert_member x l ≡ₚ x :: l.
Proof.
  induction l as [|y l IH]; cbn; [done|]. destruct (utf16_leb _ _); [done|].
  rewrite IH. apply Permutation_swap.
Qed.

Lemma sort_members_perm {A} (l : list (str * A)) : sort_members l ≡ₚ l.
Proof. induction l as [|x l IH]; cbn; [done|]. by rewrite insert_member_perm, IH. Qed.

Lemma sort_members_map {A B} (f : A → B) (l : list (str * A)) :
  sort_members (map (λ kv, (kv.1, f kv.2)) l) = map (λ kv, (kv.1, f kv.2)) (sort_members l).
Proof.
  induction l as [|x l IH]; cbn; [done|]. unfold sort_members in *. rewrite IH.
  generalize (foldr insert_member [] l). intros m.
  induction m as [|y m IHm]; cbn; [done|]. destruct (utf16_leb _ _); cbn; congruence.
Qed.

(** * Parse: progress and termination *)

Lemma trim_start_length s : length (trim_start s) ≤ length s.
Proof. induction s as [|c s IH]; cbn; [lia|]. destruct (is_whitespace c); cbn; lia. Qed.

Lemma starts_with_length p s : starts_with p s = true → length p ≤ length s.
Proof.
  revert s. induction p as [|a p IH]; intros [|b s]; cbn; try done; [lia|].
  intros [_ H]%andb_true_iff. apply IH in H. lia.
Qed.

Lemma strip_prefix_length p s r :
  strip_prefix p s = Some r → length s = length p + length r.
Proof.
  unfold strip_prefix. destruct (starts_with p s) eqn:E; intros [= <-].
  apply starts_with_length in E. rewrite length_drop. lia.
Qed.

Lemma head_is_tail n s : head_is n s = true → S (length (tail s)) = length s.
Proof. by destruct s. Qed.

Lemma string_body_length s t r : string_body s = Some (t, r) → length r < length s.
Proof.
  revert t r. induction s as [s IH] using (induction_ltof1 _ (@length char)).
  unfold ltof in IH. intros t r. destruct s as [|c s1]; cbn [string_body]; [done|].
  destruct (is_c 34 c); [intros [= <- <-]; cbn; lia|].
  destruct (is_c 92 c).
  - destruct s1 as [|e s2]; [done|]. destruct (is_c 117 e).
    + destruct s2 as [|h1 [|h2 [|h3 [|h4 s3]]]]; try done.
      destruct (from_str_radix16 _); [|done]. cbn [mbind option_bind].
      destruct (char_from_u32 _); [|done]. cbn [mbind option_bind].
      destruct (string_body s3) as [[o r']|] eqn:E; [|done]. intros [= <- <-].
      apply IH in E; cbn in *; lia.
    + destruct (unescape e); [|done]. cbn [mbind option_bind].
      destruct (string_body s2) as [[o r']|] eqn:E; [|done]. intros [= <- <-].
      apply IH in E; cbn in *; lia.
  - destruct (string_body s1) as [[o r']|] eqn:E; [|done]. intros [= <- <-].
    apply IH in E; cbn in *; lia.
Qed.

Lemma parse_string_length s t r : parse_string s = Some (t, r) → length r < length s.
Proof.
  destruct s as [|c s]; cbn; [done|]. destruct (is_c 34 c); [|done].
  intros H%string_body_length. lia.
Qed.

Lemma span_digits_app s : s = (span_digits s).1 ++ (span_digits s).2.
Proof.
  induction s as [|c s IH]; cbn; [done|]. destruct (is_ascii_digit c); [|done].
  destruct (span_digits s). cbn in *. congruence.
Qed.

Lemma parse_number_length s v r : parse_number s = Done v r → length r < length s.
Proof.
  unfold parse_number. destruct (match s with [] => _ | _ => _ end); [done|].
  pose proof (span_digits_app s) as H. destruct (span_digits s) as [ds r']. cbn in H.
  destruct (parse_u64 ds) eqn:E; [|done]. intros [= <- <-].
  destruct ds; [done|]. subst s. cbn. rewrite length_app. lia.
Qed.

(** Bring the length facts of one parser step into the context. *)
Ltac parse_lengths :=
  repeat match goal with
  | H : strip_prefix _ _ = Some _ |- _ => apply strip_prefix_length in H; cbn in H
  | H : parse_string _ = Some _ |- _ => apply parse_string_length in H
  | H : parse_number _ = Done _ _ |- _ => apply parse_number_length in H
  | H : head_is _ ?s = true |- _ => apply head_is_tail in H
  end;
  repeat match goal with
  | |- context [trim_start ?s] =>
      lazymatch goal with
      | _ : length (trim_start s) ≤ length s |- _ => fail
      | _ => pose proof (trim_start_length s)
      end
  | _ : context [trim_start ?s] |- _ =>
      lazymatch goal with
      | _ : length (trim_start s) ≤ length s |- _ => fail
      | _ => pose proof (trim_start_length s)
      end
  end.

(** Case analysis on the next scrutinee of a parser step. *)
Ltac parse_case :=
  match goal with
  | |- context [match ?x with _ => _ end] =>
      lazymatch x with
      | context [match _ with _ => _ end] => fail
      | value _ _ => fail
      | _ => let E := fresh "E" in destruct x as [] eqn:E
      end
  | |- context [if ?x then _ else _] => let E := fresh "E" in destruct x as [] eqn:E
  end.

(** A successful parse consumes at least one character. *)
Lemma value_progress f :
  (∀ r v r', value f r = Done v r' → length r' < length r) ∧
  (∀ r l v r', array_items f r l = Done v r' → length r' < length r) ∧
  (∀ r l v r', object_members f r l = Done v r' → length r' < length r).
Proof.
  induction f as [|f (IHv & IHa & IHo)]; [done|]. split_and!; cbn [value array_items object_members].
  - intros r v r'. pose proof (trim_start_length r). repeat parse_case; try done;
      try (intros [= <- <-]; parse_lengths; lia);
      [intros ?%IHa|intros ?%IHo|intros ?%parse_number_length]; parse_lengths; lia.
  - intros r l v r'. destruct (value f r) as [w r1| |] eqn:Ev; [|done|done].
    apply IHv in Ev. repeat parse_case; try done;
      [intros ?%IHa|intros [= <- <-]]; parse_lengths; lia.
  - intros r l v r'. destruct (parse_string _) as [[k r1]|] eqn:Ek; [|done].
    destruct (negb _) eqn:Ec; [done|]. apply negb_false_iff in Ec.
    destruct (value f _) as [w r2| |] eqn:Ev; [|done|done]. apply IHv in Ev.
    repeat parse_case; try done; [intros ?%IHo|intros [= <- <-]]; parse_lengths; lia.
Qed.

(** The fuel [decode] starts from is enough: the parser never runs out. *)
Lemma value_fuel_enough f :
  (∀ r, 2 * length r + 1 ≤ f → value f r ≠ NoFuel) ∧
  (∀ r l, 2 * length r + 2 ≤ f → array_items f r l ≠ NoFuel) ∧
  (∀ r l, 2 * length r + 2 ≤ f → object_members f r l ≠ NoFuel).
Proof.
  induction f as [|f (IHv & IHa & IHo)]; [split_and!; lia|].
  destruct (value_progress f) as (Pv & _ & _).
  split_and!; cbn [value array_items object_members].
  - intros r Hf. pose proof (trim_start_length r). repeat parse_case; try done.
    + apply IHa. parse_lengths. lia.
    + apply IHo. parse_lengths. lia.
    + unfold parse_number. repeat parse_case; done.
  - intros r l Hf. pose proof (IHv r ltac:(lia)).
    destruct (value f r) as [w r1| |] eqn:Ev; [|done|done].
    apply Pv in Ev. repeat parse_case; try done. apply IHa. parse_lengths. lia.
  - intros r l Hf. destruct (parse_string _) as [[k r1]|] eqn:Ek; [|done].
    destruct (negb _) eqn:Ec; [done|]. apply negb_false_iff in Ec.
    pose proof (IHv (tail (trim_start r1))) as Hv.
    destruct (value f _) as [w r2| |] eqn:Ev; [|done|parse_lengths; exfalso; apply Hv; [lia|done]].
    apply Pv in Ev. repeat parse_case; try done. apply IHo. parse_lengths. lia.
Qed.

(** More fuel does not change a result. *)
Lemma value_mono f :
  (∀ r, value f r ≠ NoFuel → value (S f) r = value f r) ∧
  (∀ r l, array_items f r l ≠ NoFuel → array_items (S f) r l = array_items f r l) ∧
  (∀ r l, object_members f r l ≠ NoFuel → object_members (S f) r l = object_members f r l).
Proof.
  induction f as [|f (IHv & IHa & IHo)]; [done|]. split_and!.
  - intros r. remember (S f) as f' eqn:Ef. cbn [value].
    replace (value f' r) with (value (S f) r) by congruence. cbn [value].
    repeat parse_case; try done; auto.
  - intros r l. remember (S f) as f' eqn:Ef. cbn [array_items].
    replace (array_items f' r l) with (array_items (S f) r l) by congruence.
    cbn [array_items]. destruct (value f r) eqn:Ev; [|intros _|done];
      rewrite IHv, Ev by (by rewrite Ev); [|done].
    repeat parse_case; try done; auto.
  - intros r l. remember (S f) as f' eqn:Ef. cbn [object_members].
    replace (object_members f' r l) with (object_members (S f) r l) by congruence.
    cbn [object_members]. destruct (parse_string _) as [[k r1]|]; [|done].
    destruct (negb _); [done|]. destruct (value f _) eqn:Ev; [|intros _|done];
      rewrite IHv, Ev by (by rewrite Ev); [|done].
    repeat parse_case; try done; auto.
Qed.

Lemma value_stable f f' r : value f r ≠ NoFuel → f ≤ f' → value f' r = value f r.
Proof.
  intros H Hle. induction Hle as [|f' _ IH]; [done|].
  rewrite (proj1 (value_mono f')); by rewrite IH.
Qed.

Lemma value_more f f' r v t :
  value f r = Done v t → f ≤ f' → value f' r = Done v t.
Proof. intros H Hle. rewrite (value_stable f); by rewrite ?H. Qed.

Lemma array_items_more f f' r l v t :
  array_items f r l = Done v t → f ≤ f' → array_items f' r l = Done v t.
Proof.
  intros H Hle. induction Hle as [|f' _ IH]; [done|].
  rewrite (proj1 (proj2 (value_mono f'))); by rewrite IH.
Qed.

Lemma object_members_more f f' r l v t :
  object_members f r l = Done v t → f ≤ f' → object_members f' r l = Done v t.
Proof.
  intros H Hle. induction Hle as [|f' _ IH]; [done|].
  rewrite (proj2 (proj2 (value_mono f'))); by rewrite IH.
Qed.

(** * Round trip *)

Lemma trim_start_id c s : is_whitespace c = false → trim_start (c :: s) = c :: s.
Proof. cbn. by intros ->. Qed.

Lemma strip_prefix_head a p c s : a ≠ c → strip_prefix (a :: p) (c :: s) = None.
Proof. intros H. unfold strip_prefix. cbn. by rewrite bool_decide_false. Qed.

Lemma lit_cons (a : Ascii.ascii) (s : string) : lit (String a s) = char_of (Ascii.N_of_ascii a) :: lit s.
Proof. reflexivity. Qed.

Lemma char_of_ne n c : is_c n c = false → is_scalar n = true → char_of n ≠ c.
Proof.
  intros H Hn <-. unfold is_c in H. by rewrite char_of_val, N.eqb_refl in H.
Qed.

(** A value whose first character starts no literal is dispatched on that character. *)
Lemma value_head f c s :
  is_whitespace c = false → is_c 110 c = false → is_c 116 c = false → is_c 102 c = false →
  value (S f) (c :: s) =
    if is_c 34 c then
      match parse_string (c :: s) with Some (t, r') => Done (JString t) r' | None => Invalid end
    else if is_c 91 c then
      let r1 := trim_start s in
      if head_is 93 r1 then Done (JArray []) (tail r1) else array_items f r1 []
    else if is_c 123 c then
      let r1 := trim_start s in
      if head_is 125 r1 then Done (JObject []) (tail r1) else object_members f r1 []
    else if is_ascii_digit c then parse_number (c :: s)
    else Invalid.
Proof.
  intros Hw H1 H2 H3. cbn [value]. rewrite (trim_start_id _ _ Hw).
  change (lit "null") with (char_of 110 :: lit "ull").
  change (lit "true") with (char_of 116 :: lit "rue").
  change (lit "false") with (char_of 102 :: lit "alse").
  rewrite !strip_prefix_head by (by apply char_of_ne). done.
Qed.

Definition parses (r : str) (v : Json) (t : str) : Prop := ∃ f, value f r = Done v t.

Lemma parses_literal (s : string) v t :
  (∀ f, value (S f) (lit s ++ t) = Done v t) → parses (lit s ++ t) v t.
Proof. intros H. exists 1. apply H. Qed.

Lemma span_digits_all ds t :
  Forall (λ c, is_ascii_digit c = true) ds → head_digit t = false →
  span_digits (ds ++ t) = (ds, t).
Proof.
  intros HF Ht. induction HF as [|c ds Hc _ IH]; cbn.
  - destruct t as [|c t]; cbn in *; [done|]. by rewrite Ht.
  - by rewrite Hc, IH.
Qed.

Lemma digit_is_c d n : (d < 10)%N → (n < 48 ∨ 58 <= n)%N → is_c n (digit_char d) = false.
Proof. intros Hd Hn. unfold is_c. rewrite digit_char_val by done. apply N.eqb_neq. lia. Qed.

Lemma digit_not_whitespace d : (d < 10)%N → is_whitespace (digit_char d) = false.
Proof.
  intros Hd. unfold is_whitespace. rewrite digit_char_val by done.
  rewrite !orb_false_iff, !andb_false_iff, !N.leb_gt, !N.eqb_neq. lia.
Qed.

Lemma u64_digits n :
  ∃ d ds, u64_to_string n = digit_char d :: map digit_char ds ∧ (d < 10)%N ∧
    Forall (λ c, is_ascii_digit c = true) (u64_to_string n) ∧
    (d = 0%N → ds = []).
Proof.
  unfold u64_to_string. pose proof (u64_bound n) as Hb.
  destruct (dec_digits_head 20 (cval n)) as (d & ds & E & Hd & H0 & H1); [lia|].
  exists d, ds. rewrite E. split_and!; [done|done| |].
  - pose proof (dec_digits_lt 20 (cval n)) as HF. rewrite E in HF.
    apply Forall_map. eapply Forall_impl; [exact HF|]. apply digit_char_digit.
  - intros ->. apply H1. destruct (decide (cval n = 0)%N) as [|Hne]; [done|].
    exfalso. apply H0; [done|lia|]. eapply N.lt_trans; [exact Hb|by vm_compute].
Qed.

Lemma parse_number_write n t :
  head_digit t = false → parse_number (u64_to_string n ++ t) = Done (JNumber n) t.
Proof.
  intros Ht. destruct (u64_digits n) as (d & ds & E & Hd & HF & H0).
  unfold parse_number. rewrite (span_digits_all _ _ HF Ht), parse_u64_to_string.
  rewrite E. cbn [map app].
  destruct (is_c 48 (digit_char d)) eqn:Ez.
  - unfold is_c in Ez. rewrite digit_char_val in Ez by done. apply N.eqb_eq in Ez.
    rewrite (H0 ltac:(lia)). destruct t as [|c t]; cbn in *; [done|]. by rewrite Ht.
  - by destruct (map digit_char ds ++ t).
Qed.

Lemma parses_number n t :
  head_digit t = false → parses (u64_to_string n ++ t) (JNumber n) t.
Proof.
  intros Ht. exists 1. rewrite <-(parse_number_write n t Ht).
  destruct (u64_digits n) as (d & ds & -> & Hd & _). cbn [app].
  rewrite value_head by (first [by apply digit_not_whitespace|apply digit_is_c; lia]).
  rewrite !(digit_is_c d) by lia. by rewrite digit_char_digit.
Qed.

Lemma parses_string s t : parses (write_string s ++ t) (JString s) t.
Proof.
  exists 1. pose proof (parse_string_write s t) as H. unfold write_string in *.
  rewrite <-app_comm_cons in *. rewrite value_head by reflexivity.
  change (is_c 34 (char_of 34)) with true. cbv iota. by rewrite H.
Qed.

(** One array element and the separator or the closing bracket that follows it. *)
Lemma array_items_more_step f1 f2 v r t acc w u :
  value f1 r = Done v (char_of 44 :: t) →
  array_items f2 t (acc ++ [v]) = Done w u →
  array_items (S (f1 `max` f2)) r acc = Done w u.
Proof.
  intros H1 H2. cbn [array_items]. rewrite (value_more _ (f1 `max` f2) _ _ _ H1) by lia.
  rewrite trim_start_id by reflexivity. cbn [tail].
  change (head_is 44 (char_of 44 :: t)) with true. cbv iota.
  apply (array_items_more _ _ _ _ _ _ H2). lia.
Qed.

Lemma array_items_last f v r t acc :
  value f r = Done v (char_of 93 :: t) →
  array_items (S f) r acc = Done (JArray (acc ++ [v])) t.
Proof. intros H. cbn [array_items]. rewrite H. by rewrite trim_start_id. Qed.

Definition parses_back (v : Json) : Prop :=
  ∀ t, head_digit t = false → parses (write_json v ++ t) (canon v) t.

Lemma parses_items l t :
  Forall parses_back l → l ≠ [] → ∀ acc, ∃ f,
    array_items f (join_comma (map write_json l) ++ char_of 93 :: t) acc =
      Done (JArray (acc ++ map canon l)) t.
Proof.
  induction 1 as [|v l Hv HF IH]; [done|]. intros _ acc. destruct l as [|w l].
  - destruct (Hv (char_of 93 :: t)) as [f Hf]; [done|]. exists (S f).
    by apply array_items_last.
  - destruct (IH ltac:(done) (acc ++ [canon v])) as [f2 H2].
    change (join_comma (map write_json (v :: w :: l))) with
      (write_json v ++ char_of 44 :: join_comma (map write_json (w :: l))).
    rewrite <-(assoc_L (++)), <-app_comm_cons.
    destruct (Hv (char_of 44 :: join_comma (map write_json (w :: l)) ++ char_of 93 :: t))
      as [f1 H1]; [done|].
    exists (S (f1 `max` f2)). eapply array_items_more_step; [exact H1|].
    rewrite H2. by rewrite <-(assoc_L (++)).
Qed.

(** No text written starts with white space or a closing bracket. *)
Definition opens (s : str) : Prop :=
  ∃ c s', s = c :: s' ∧ is_whitespace c = false ∧ is_c 93 c = false ∧ is_c 125 c = false.

Lemma opens_app s t : opens s → opens (s ++ t).
Proof. intros (c & s' & -> & H). by exists c, (s' ++ t). Qed.

Lemma opens_trim s : opens s → trim_start s = s.
Proof. intros (c & s' & -> & Hw & _). by apply trim_start_id. Qed.

Lemma write_json_opens v : opens (write_json v).
Proof.
  destruct v as [|[]|n| | |]; try (eexists _, _; split; [reflexivity|split_and!; reflexivity]).
  destruct (u64_digits n) as (d & ds & E & Hd & _). exists (digit_char d), (map digit_char ds).
  split_and!; [done|by apply digit_not_whitespace|apply digit_is_c; lia..].
Qed.

Lemma join_comma_opens x l : opens x → opens (join_comma (x :: l)).
Proof. intros H. destruct l; [done|]. by apply opens_app. Qed.

Lemma parses_array l t :
  Forall parses_back l → parses (write_json (JArray l) ++ t) (canon (JArray l)) t.
Proof.
  intros HF. cbn [write_json canon]. rewrite <-app_comm_cons, <-(assoc_L (++)).
  change ([char_of 93] ++ t) with (char_of 93 :: t).
  destruct l as [|v l]; [by exists 1|].
  destruct (parses_items (v :: l) t HF ltac:(done) []) as [f Hf].
  assert (opens (join_comma (map write_json (v :: l)) ++ char_of 93 :: t)) as Ho
    by apply opens_app, join_comma_opens, write_json_opens.
  exists (S f). rewrite value_head by reflexivity.
  change (is_c 34 (char_of 91)) with false. change (is_c 91 (char_of 91)) with true.
  cbv iota zeta. rewrite (opens_trim _ Ho). rewrite Hf.
  destruct Ho as (c & s & -> & _ & Hc & _). cbn [head_is]. by rewrite Hc.
Qed.

Definition write_member (kv : str * Json) : str :=
  write_string kv.1 ++ char_of 58 :: write_json kv.2.

Lemma write_object m :
  write_json (JObject m) =
    char_of 123 :: join_comma (map write_member (sort_members m)) ++ [char_of 125].
Proof.
  cbn [write_json]. rewrite sort_members_map, map_map. done.
Qed.

Lemma canon_object m :
  canon (JObject m) = JObject (map (λ kv, (kv.1, canon kv.2)) (sort_members m)).
Proof. cbn [canon]. by rewrite sort_members_map. Qed.

Lemma trim_write_string k s : trim_start (write_string k ++ s) = write_string k ++ s.
Proof. by apply (trim_start_id (char_of 34)). Qed.

Lemma object_members_step f1 f2 k v r t acc w u :
  value f1 r = Done v (char_of 44 :: t) →
  object_members f2 t (acc ++ [(k, v)]) = Done w u →
  object_members (S (f1 `max` f2)) (write_string k ++ char_of 58 :: r) acc = Done w u.
Proof.
  intros H1 H2. cbn [object_members].
  rewrite trim_write_string, parse_string_write.
  rewrite trim_start_id by reflexivity. change (negb (head_is 58 (char_of 58 :: r))) with false.
  cbn [tail]. rewrite (value_more _ (f1 `max` f2) _ _ _ H1) by lia.
  rewrite trim_start_id by reflexivity. cbn [tail].
  change (head_is 44 (char_of 44 :: t)) with true. cbv iota.
  apply (object_members_more _ _ _ _ _ _ H2). lia.
Qed.

Lemma object_members_last f k v r t acc :
  value f r = Done v (char_of 125 :: t) →
  object_members (S f) (write_string k ++ char_of 58 :: r) acc =
    Done (JObject (acc ++ [(k, v)])) t.
Proof.
  intros H. cbn [object_members].
  rewrite trim_write_string, parse_string_write.
  rewrite trim_start_id by reflexivity. change (negb (head_is 58 (char_of 58 :: r))) with false.
  cbn [tail]. rewrite H. by rewrite trim_start_id.
Qed.

Lemma parses_members m t :
  Forall (λ kv, parses_back kv.2) m → m ≠ [] → ∀ acc, ∃ f,
    object_members f (join_comma (map write_member m) ++ char_of 125 :: t) acc =
      Done (JObject (acc ++ map (λ kv, (kv.1, canon kv.2)) m)) t.
Proof.
  induction 1 as [|[k v] m Hv HF IH]; [done|]. intros _ acc. cbn [snd] in Hv.
  assert (∀ s, write_member (k, v) ++ s = write_string k ++ char_of 58 :: (write_json v ++ s))
    as HW by (intros s; unfold write_member; by rewrite <-(assoc_L (++))).
  destruct m as [|w m].
  - destruct (Hv (char_of 125 :: t)) as [f Hf]; [done|]. exists (S f).
    cbn [map join_comma]. rewrite HW. by apply object_members_last.
  - destruct (IH ltac:(done) (acc ++ [(k, canon v)])) as [f2 H2].
    change (join_comma (map write_member ((k, v) :: w :: m))) with
      (write_member (k, v) ++ char_of 44 :: join_comma (map write_member (w :: m))).
    rewrite <-(assoc_L (++)), <-app_comm_cons, HW.
    destruct (Hv (char_of 44 :: join_comma (map write_member (w :: m)) ++ char_of 125 :: t))
      as [f1 H1]; [done|].
    exists (S (f1 `max` f2)). eapply object_members_step; [exact H1|].
    rewrite H2. by rewrite <-(assoc_L (++)).
Qed.

Lemma parses_object m t :
  Forall (λ kv, parses_back kv.2) m →
  parses (write_json (JObject m) ++ t) (canon (JObject m)) t.
Proof.
  intros HF. rewrite write_object, canon_object.
  assert (Forall (λ kv, parses_back kv.2) (sort_members m)) as HS
    by (by rewrite sort_members_perm).
  generalize dependent (sort_members m). clear m HF. intros m HF.
  rewrite <-app_comm_cons, <-(assoc_L (++)).
  change ([char_of 125] ++ t) with (char_of 125 :: t).
  destruct m as [|v m]; [by exists 1|].
  destruct (parses_members (v :: m) t HF ltac:(done) []) as [f Hf].
  assert (opens (join_comma (map write_member (v :: m)) ++ char_of 125 :: t)) as Ho
    by (apply opens_app, join_comma_opens, opens_app; by eexists _, _).
  exists (S f). rewrite value_head by reflexivity.
  change (is_c 34 (char_of 123)) with false. change (is_c 91 (char_of 123)) with false.
  change (is_c 123 (char_of 123)) with true.
  cbv iota zeta. rewrite (opens_trim _ Ho). rewrite Hf.
  destruct Ho as (c & s & -> & _ & _ & Hc). cbn [head_is]. by rewrite Hc.
Qed.

Lemma value_write v : parses_back v.
Proof.
  induction v as [|[]|n|s|l IH|m IH] using Json_ind; intros t Ht.
  - exists 1. by cbn.
  - exists 1. by cbn.
  - exists 1. by cbn.
  - by apply parses_number.
  - apply parses_string.
  - by apply parses_array.
  - by apply parses_object.
Qed.

(** A parse that succeeds at some fuel succeeds at the fuel [decode] uses. *)
Lemma parses_decode_fuel r v t : parses r v t → value (decode_fuel r) r = Done v t.
Proof.
  intros [f Hf].
  pose proof (proj1 (value_fuel_enough (decode_fuel r)) r ltac:(unfold decode_fuel; lia)) as Hn.
  rewrite <-(value_stable _ (f `max` decode_fuel r) r Hn) by lia.
  apply (value_more _ _ _ _ _ Hf). lia.
Qed.

Lemma decode_encode_canon v : decode (encode v) = Some (canon v).
Proof.
  unfold decode, encode. rewrite from_utf8_utf8. cbn [mbind option_bind].
  pose proof (value_write v [] eq_refl) as H. rewrite app_nil_r in H.
  by rewrite (parses_decode_fuel _ _ _ H).
Qed.

(** * Canonicity *)

Definition member_le {A} (x y : str * A) : Prop := utf16_leb x.1 y.1 = true.

Lemma insert_member_sorted {A} (x : str * A) l :
  StronglySorted member_le l → StronglySorted member_le (insert_member x l).
Proof.
  induction 1 as [|y l HS IH HF]; cbn; [repeat constructor|].
  destruct (utf16_leb x.1 y.1) eqn:E.
  - constructor; [by constructor|]. constructor; [done|].
    eapply Forall_impl; [exact HF|]. intros z Hz. by eapply lex_leb_trans.
  - constructor; [done|]. rewrite insert_member_perm. constructor; [|done].
    unfold member_le. destruct (lex_leb_total (utf16 x.1) (utf16 y.1)) as [H|H]; [|done].
    unfold utf16_leb in E. congruence.
Qed.

Lemma sort_members_sorted {A} (l : list (str * A)) : StronglySorted member_le (sort_members l).
Proof. induction l; [constructor|]. by apply insert_member_sorted. Qed.

(** The order of the members of an object with distinct keys is immaterial. *)
Lemma sort_members_unique {A} (l1 l2 : list (str * A)) :
  NoDup (map fst l1) → l1 ≡ₚ l2 → sort_members l1 = sort_members l2.
Proof.
  intros HN HP.
  apply (StronglySorted_unique_strong member_le); [|apply sort_members_sorted..|].
  - intros x1 x2 H1 H2 L1 L2. rewrite sort_members_perm in H1. rewrite sort_members_perm in H2.
    rewrite <-HP in H2. assert (x1.1 = x2.1) as E by (apply utf16_inj, lex_leb_antisym; done).
    clear -HN H1 H2 E. induction l1 as [|y l IH]; [by apply not_elem_of_nil in H1|].
    cbn in HN. apply NoDup_cons in HN as [Hni HN].
    apply elem_of_cons in H1 as [->|H1], H2 as [->|H2]; try done.
    + destruct Hni. rewrite E. by apply (list_elem_of_fmap_2 fst).
    + destruct Hni. rewrite <-E. by apply (list_elem_of_fmap_2 fst).
    + by apply IH.
  - by rewrite !sort_members_perm.
Qed.

Lemma map_keys {A B} (f : A → B) (m : list (str * A)) :
  map fst (map (λ kv, (kv.1, f kv.2)) m) = map fst m.
Proof. rewrite map_map. done. Qed.

(** Equivalent members are mapped to a permutation by a function that identifies
    equivalent values. *)
Lemma members_equiv_map {B} (f : Json → B) m1 m2 :
  NoDup (keys m1) → NoDup (keys m2) → members_equiv m1 m2 →
  (∀ k v1 v2, (k, v1) ∈ m1 → (k, v2) ∈ m2 → json_equiv v1 v2 → f v1 = f v2) →
  map (λ kv, (kv.1, f kv.2)) m1 ≡ₚ map (λ kv, (kv.1, f kv.2)) m2.
Proof.
  intros N1 N2 HE Hf. apply NoDup_Permutation.
  1, 2: by apply (NoDup_fmap_1 fst); change (fmap fst) with (map (@fst str B)); rewrite map_keys.
  intros [k b]. rewrite !list_elem_of_fmap. split; intros ([k' v] & [= -> ->] & Hin).
  - specialize (HE k'). rewrite (find_key_NoDup _ _ _ N1 Hin) in HE.
    inversion HE as [x y Hxy Ex Ey|]; subst. symmetry in Ey. apply find_key_In in Ey.
    exists (k', y). cbn. by rewrite (Hf _ _ _ Hin Ey Hxy).
  - specialize (HE k'). rewrite (find_key_NoDup _ _ _ N2 Hin) in HE.
    inversion HE as [x y Hxy Ex Ey|]; subst. symmetry in Ex. apply find_key_In in Ex.
    exists (k', x). cbn. by rewrite (Hf _ _ _ Ex Hin Hxy).
Qed.

Lemma json_nodup_object m :
  json_nodup (JObject m) = true ↔
  NoDup (keys m) ∧ Forall (λ kv, json_nodup kv.2 = true) m.
Proof.
  cbn [json_nodup]. rewrite andb_true_iff, bool_decide_eq_true, forallb_forall, List.Forall_forall. done.
Qed.

Lemma json_nodup_array l :
  json_nodup (JArray l) = true ↔ Forall (λ v, json_nodup v = true) l.
Proof. cbn [json_nodup]. rewrite forallb_forall, List.Forall_forall. done. Qed.

Lemma write_json_equiv v : ∀ w,
  json_nodup v = true → json_nodup w = true → json_equiv v w → write_json v = write_json w.
Proof.
  induction v as [|b|n|s|l IH|m IH] using Json_ind; intros w Hv Hw HE; try (inversion HE; subst; done).
  - apply json_equiv_array_inv in HE as (l2 & -> & HF).
    rewrite json_nodup_array in Hv, Hw. cbn [write_json]. do 3 f_equal.
    clear -IH Hv Hw HF. induction HF as [|x y l l2 Hxy _ IHF]; [done|]. cbn.
    inversion IH; inversion Hv; inversion Hw; subst. f_equal; auto.
  - apply json_equiv_object_inv in HE as (m2 & -> & HF).
    rewrite json_nodup_object in Hv, Hw. destruct Hv as [N1 F1], Hw as [N2 F2].
    cbn [write_json]. do 4 f_equal.
    apply sort_members_unique; [by rewrite map_keys|].
    apply members_equiv_map; [done..|]. intros k v1 v2 H1 H2 HE.
    rewrite Forall_forall in IH, F1, F2.
    apply (IH _ H1); [apply (F1 _ H1)|apply (F2 _ H2)|done].
Qed.

Lemma find_key_map (f : Json → Json) m k :
  find_key (map (λ kv, (kv.1, f kv.2)) m) k = f <$> find_key m k.
Proof. induction m as [|[k' v] m IH]; cbn; [done|]. by destruct (str_eqb k' k). Qed.

Lemma canon_equiv v : json_nodup v = true → json_equiv v (canon v).
Proof.
  induction v as [|b|n|s|l IH|m IH] using Json_ind; intros Hv; try done.
  - rewrite json_nodup_array in Hv. constructor.
    clear -IH Hv. induction IH; cbn; inversion Hv; subst; constructor; auto.
  - rewrite json_nodup_object in Hv. destruct Hv as [HN HF].
    rewrite canon_object. constructor. intros k. rewrite find_key_map.
    assert (m ≡ₚ sort_members m) as HP by (by rewrite sort_members_perm).
    rewrite <-(find_key_Permutation _ _ k HN HP).
    destruct (find_key m k) as [v|] eqn:E; constructor.
    apply find_key_In in E. rewrite Forall_forall in IH, HF. apply (IH _ E), (HF _ E).
Qed.

Lemma sort_members_id {A} (l : list (str * A)) :
  StronglySorted member_le l → sort_members l = l.
Proof.
  induction 1 as [|x l HS IH HF]; [done|]. cbn. unfold sort_members in IH. rewrite IH.
  destruct HF as [|y l Hy _]; [done|]. cbn. unfold member_le in Hy. by rewrite Hy.
Qed.

Lemma StronglySorted_map_keys {A B} (f : A → B) (l : list (str * A)) :
  StronglySorted member_le l → StronglySorted member_le (map (λ kv, (kv.1, f kv.2)) l).
Proof. induction 1 as [|x l _ IH HF]; cbn; constructor; [done|]. by apply Forall_map. Qed.

(** Re-encoding what a canonical text decodes to gives the same bytes. *)
Lemma encode_canon v : encode (canon v) = encode v.
Proof.
  unfold encode. f_equal. induction v as [|b|n|s|l IH|m IH] using Json_ind; try done.
  - cbn [canon write_json]. do 3 f_equal. rewrite map_map.
    by apply map_ext_Forall.
  - rewrite canon_object, !write_object. do 3 f_equal.
    rewrite (sort_members_id (map _ _)) by apply StronglySorted_map_keys, sort_members_sorted.
    rewrite map_map. apply map_ext_Forall. rewrite sort_members_perm.
    eapply Forall_impl; [exact IH|]. intros kv Hkv. unfold write_member. cbn. by rewrite Hkv.
Qed.

(** * The port *)

#[export] Instance Rfc8785 : CanonicalJson | 100 := {| json_encode := encode; json_decode := decode |}.

(** C37. Every value encodes to text the parser accepts, whatever it contains: the
    decoded value is the encoded one with the members of every object in UTF-16 key
    order, and encoding it again gives the same bytes. *)
Theorem decode_encode v :
  ∃ w, decode (encode v) = Some w ∧ encode w = encode v ∧
       (json_nodup v = true → json_equiv v w).
Proof.
  exists (canon v). split_and!; [apply decode_encode_canon|apply encode_canon|apply canon_equiv].
Qed.

(** The encoding is canonical: two values without repeated keys have the same bytes
    exactly when they are equal up to the order of object members. *)
Theorem encode_canonical v w :
  json_nodup v = true → json_nodup w = true → encode v = encode w ↔ json_equiv v w.
Proof.
  intros Hv Hw. split.
  - intros HE. assert (canon v = canon w) as HC.
    { pose proof (decode_encode_canon v) as H. rewrite HE, decode_encode_canon in H. congruence. }
    rewrite (canon_equiv v Hv), HC. symmetry. by apply canon_equiv.
  - intros HE. unfold encode. f_equal. by apply write_json_equiv.
Qed.

Lemma encode_canonical_witness :
  let v := JObject [(lit "b", JNull); (lit "a", JBool true)] in
  let w := JObject [(lit "a", JBool true); (lit "b", JNull)] in
  json_equiv v w ∧ encode v = encode w.
Proof.
  cbv zeta. assert (encode (JObject [(lit "b", JNull); (lit "a", JBool true)]) =
    encode (JObject [(lit "a", JBool true); (lit "b", JNull)])) as HE by vm_decide.
  split; [|exact HE]. apply encode_canonical; [by vm_compute|by vm_compute|exact HE].
Defined.

(** C38. The parser terminates on every text: at the fuel [decode] uses, linear in the
    length of the text, no call runs out, and neither does any with more fuel. *)
Theorem decode_terminates text fuel :
  decode_fuel text ≤ fuel → value fuel text ≠ NoFuel ∧ value fuel text = value (decode_fuel text) text.
Proof.
  intros Hle. assert (value (decode_fuel text) text ≠ NoFuel) as H
    by (apply (proj1 (value_fuel_enough _)); unfold decode_fuel; lia).
  rewrite (value_stable _ _ _ H Hle). done.
Qed.

Lemma decode_terminates_witness : value 100 (lit "[[") ≠ NoFuel.
Proof. apply (decode_terminates (lit "[[") 100). vm_decide. Defined.

#[export] Instance Rfc8785_laws : CanonicalJsonLaws.
Proof.
  intros v Hv. exists (canon v). split; [apply decode_encode_canon|by apply canon_equiv].
Qed.
