(* ===== verification/TestDoubles.v ===== *)
(** A concrete suite: the test doubles of [protocol/v1/fixtures.rs] with the laws of
    [Ports.v], to evaluate the development on concrete inputs.

    Two ports differ from the fixtures because the fixtures break the documented
    behaviour: [IdentityCompress] drops trailing zero bytes of its input, so a marker
    byte ends the stream here; and the JSON port is the RFC 8785 adapter.  The instances have a low priority, so that a
    suite in context is preferred to this one. *)

From stdpp Require Import base tactics list numbers option strings countable gmap.
From Stdlib Require Import Strings.Byte.
From S2P Require Import Prelude Text Ids Payload Json Ports CanonicalJson.

(** [out[i % 32] ^= b], byte by byte from position [i]. *)
Fixpoint xor_into (i : nat) (data out : bytes) : bytes :=
  match data with
  | [] => out
  | b :: rest => xor_into (S i) rest (alter (byte_xor b) (i mod 32)%nat out)
  end.

Lemma xor_into_length i data out : length (xor_into i data out) = length out.
Proof.
  revert i out. induction data as [|b data IH]; intros i out; cbn; [done|].
  by rewrite IH, length_alter.
Qed.

Lemma xor_into_ok data (out : arr 32) : Nat.eqb (length (xor_into 0 data (cval out))) 32 = true.
Proof. by rewrite xor_into_length, arr_length. Qed.

Definition xor_arr (data : bytes) (out : arr 32) : arr 32 :=
  mkChecked (xor_into 0 data (cval out)) (xor_into_ok data out).

#[export] Instance XorHmac : HmacSha256 | 100 := λ key data, from_bytes (xor_arr data (as_bytes key)).
#[export] Instance XorHash : Sha256 | 100 := λ data, xor_arr data (fill 32 x00).
#[export] Instance EchoArgon : Argon2id | 100 := λ passphrase salt _ _ _,
  Some (xor_arr (passphrase ++ cval salt) (fill 32 x00)).

(** The stream is the input and an end marker; zero bytes after the marker are ignored. *)
#[export] Instance MarkedCompress : Compress | 100 := {
  compress bs := bs ++ [x01];
  decompress src max :=
    match rev (unpad src) with
    | x01 :: rest =>
        if (N.of_nat (length rest) <=? max)%N then Ok (rev rest) else Err Compress_Oversize
    | _ => Err Compress_Codec
    end
}.

Definition hex_digit (n : N) : N := if (n <? 10)%N then n + 48 else n + 87.

Definition hex_nibble (c : N) : option N :=
  if (48 <=? c)%N && (c <=? 57)%N then Some (c - 48)%N
  else if (97 <=? c)%N && (c <=? 102)%N then Some (c - 97 + 10)%N
  else None.

Definition hex_encode (bs : bytes) : str :=
  flat_map (λ b, [char_of (hex_digit (Byte.to_N b / 16)); char_of (hex_digit (Byte.to_N b mod 16))])
    bs.

Fixpoint hex_decode (s : str) : option bytes :=
  match s with
  | [] => Some []
  | [_] => None
  | h :: l :: rest =>
      hi ← hex_nibble (cval h);
      lo ← hex_nibble (cval l);
      out ← hex_decode rest;
      Some (byte_of_N (hi * 16 + lo) :: out)
  end.

#[export] Instance HexB64 : Base64Url | 100 := { b64_encode := hex_encode; b64_decode := hex_decode }.

(** The key stream of [XorAead]: key and nonce bytes, each repeated. *)
Definition xor_stream (key nonce data : bytes) : bytes :=
  imap (λ i b, byte_xor b (byte_xor (nth (i mod 32) key x00) (nth (i mod 12) nonce x00))) data.

Definition xor_seal (key : AeadKey) (nonce : arr 12) (aad plaintext : bytes) : bytes :=
  xor_stream (cval (as_bytes key)) (cval nonce) plaintext ++ take 16 (cval (as_bytes key)).

Definition xor_open (key : AeadKey) (nonce : arr 12) (aad ciphertext : bytes) : option bytes :=
  if (length ciphertext <? 16)%nat then None else
  let n := (length ciphertext - 16)%nat in
  if bool_decide (drop n ciphertext = take 16 (cval (as_bytes key)))
  then Some (xor_stream (cval (as_bytes key)) (cval nonce) (take n ciphertext)) else None.

#[export] Instance XorAead : Aead | 100 := { aead_seal := xor_seal; aead_open := xor_open }.

(** [public[i] = seed32[i % 32]] over [n] bytes. *)
Definition repeat_seed (n : nat) (seed : bytes) : bytes :=
  map (λ i, nth (i mod 32) seed x00) (seq 0 n).

Definition echo_shared (pk : bytes) (seed : arr 64) : bytes :=
  match take 32 (cval seed), pk with
  | s :: rest, p :: _ => byte_xor s p :: rest
  | bs, _ => bs
  end.

#[export] Instance EchoKem : Kem | 100 := {
  kem_generate policy seed :=
    Some (KeyPair_from_parts (repeat_seed (kem_pk_len policy) (cval seed)) (take 32 (cval seed)));
  kem_wrap policy pk seed :=
    if bool_decide (length pk = kem_pk_len policy) then
      let shared := echo_shared pk seed in
      Some (shared, shared ++ replicate (kem_ct_len policy - 32) x00)
    else None;
  kem_unwrap policy sk ct :=
    match ct with
    | xee :: xfd :: _ => None
    | xee :: xfe :: _ => Some (replicate 31 x00)
    | _ => Some (take 32 ct ++ replicate (32 - length ct) x00)
    end
}.

Definition echo_sign (policy : Policy) (sk message : bytes) : bytes :=
  map (λ i, byte_xor (nth (i mod length sk) sk x00) (nth (i mod Nat.max 1 (length message)) message x00))
    (seq 0 (sign_sig_len policy)).

#[export] Instance EchoSign : Sign | 100 := {
  sign_generate policy seed :=
    Some (SigningKeyPair_from_parts (repeat_seed (sign_pk_len policy) (cval seed))
            (take 32 (cval seed)));
  sign_sign policy sk message _ := Some (echo_sign policy sk message);
  sign_verify policy pk message sig := bool_decide (echo_sign policy pk message = sig)
}.

#[export] Instance test_suite : Suite | 100 := {}.

(** A key encapsulation that keeps its laws for every seed: the fixtures' [EchoKem] refuses
    the secrets that begin with the bytes of its error cases. *)
Definition SeedKem : Kem := {|
  kem_generate policy seed :=
    Some (KeyPair_from_parts (repeat_seed (kem_pk_len policy) (cval seed)) (take 32 (cval seed)));
  kem_wrap policy pk seed :=
    if bool_decide (length pk = kem_pk_len policy) then
      Some (take 32 (cval seed), take 32 (cval seed) ++ replicate (kem_ct_len policy - 32) x00)
    else None;
  kem_unwrap policy sk ct :=
    if bool_decide (length ct = kem_ct_len policy) then Some (take 32 ct) else None
|}.

Definition seed_suite : Suite := {| suite_kem := SeedKem |}.

(** * Laws *)

Lemma hex_nibble_digit n : (n < 16)%N → hex_nibble (cval (char_of (hex_digit n))) = Some n.
Proof.
  intros Hn. assert (n ∈ map N.of_nat (seq 0 16)) as Hin.
  { apply list_elem_of_fmap. exists (N.to_nat n). split; [lia|]. apply elem_of_seq. lia. }
  clear Hn. revert n Hin. apply Forall_forall. vm_decide.
Qed.

Lemma byte_nibbles b :
  byte_of_N (Byte.to_N b / 16 * 16 + Byte.to_N b mod 16) = b.
Proof. by destruct b. Qed.

Lemma HexB64_lawful : @Base64UrlLaws HexB64.
Proof.
  intros bs. induction bs as [|b bs IH]; [done|]. cbn [b64_encode b64_decode HexB64] in *.
  unfold hex_encode in *. cbn [flat_map app hex_decode].
  pose proof (byte_bound b).
  rewrite !hex_nibble_digit by (first [by apply N.mod_lt|apply N.Div0.div_lt_upper_bound; lia]).
  cbn. rewrite IH. cbn. by rewrite byte_nibbles.
Qed.

Lemma xor_stream_length key nonce data : length (xor_stream key nonce data) = length data.
Proof. apply length_imap. Qed.

Lemma xor_stream_involutive key nonce data :
  xor_stream key nonce (xor_stream key nonce data) = data.
Proof.
  unfold xor_stream.
  apply list_eq. intros i. rewrite !list_lookup_imap.
  destruct (data !! i) as [b|]; cbn; [|done].
  by rewrite <-byte_xor_assoc, byte_xor_self, byte_xor_0_r.
Qed.

Lemma key_tag_length (key : AeadKey) : length (take 16 (cval (as_bytes key))) = 16%nat.
Proof. by rewrite length_take, arr_length. Qed.

Lemma XorAead_lawful : @AeadLaws XorAead.
Proof.
  split.
  - intros k n aad pt. cbn [aead_open aead_seal XorAead]. unfold xor_open, xor_seal.
    rewrite length_app, xor_stream_length, key_tag_length.
    replace (length pt + 16 - 16)%nat with (length pt) by lia.
    replace (length pt + 16 <? 16)%nat with false by (symmetry; apply Nat.ltb_ge; lia).
    rewrite take_app_length', drop_app_length' by by rewrite xor_stream_length.
    rewrite bool_decide_true by done. by rewrite xor_stream_involutive.
  - intros k n aad pt. cbn [aead_seal XorAead]. unfold xor_seal.
    by rewrite length_app, xor_stream_length, key_tag_length.
Qed.

Lemma MarkedCompress_lawful : @CompressLaws MarkedCompress.
Proof.
  intros bs max Hle. cbn [compress decompress MarkedCompress].
  rewrite unpad_last_nonzero, rev_app_distr by done. cbn [rev app].
  rewrite length_rev, rev_involutive. by apply N.leb_le in Hle as ->.
Qed.

#[export] Instance test_b64u_laws : @Base64UrlLaws (@suite_b64u test_suite).
Proof. exact HexB64_lawful. Qed.
#[export] Instance test_aead_laws : @AeadLaws (@suite_aead test_suite).
Proof. exact XorAead_lawful. Qed.
#[export] Instance test_compress_laws : @CompressLaws (@suite_compress test_suite).
Proof. exact MarkedCompress_lawful. Qed.
#[export] Instance test_json_laws : @CanonicalJsonLaws (@suite_json test_suite).
Proof. exact Rfc8785_laws. Qed.

Lemma SeedKem_lawful : @KemLaws SeedKem.
Proof.
  assert (∀ (seed : arr 64), length (take 32 (cval seed)) = 32%nat) as HL
    by (intros seed; by rewrite length_take, arr_length).
  assert (∀ policy (seed : arr 64), length (take 32 (cval seed) ++ replicate (kem_ct_len policy - 32) x00)
    = kem_ct_len policy) as HC
    by (intros policy seed; rewrite length_app, length_replicate, HL; by destruct policy).
  split.
  - intros policy s kp seed shared ct _. cbn [kem_wrap kem_unwrap SeedKem]. case_bool_decide; [|done].
    intros [= <- <-]. rewrite bool_decide_true by apply HC. by rewrite take_app_length' by by rewrite HL.
  - intros policy pk seed shared ct. cbn [kem_wrap SeedKem]. case_bool_decide; [|done].
    intros [= <- <-]. split; [apply HL|apply HC].
Qed.

Lemma nth_repeat_seed n (seed : bytes) i d :
  (i < n)%nat → nth i (repeat_seed n seed) d = nth (i mod 32) seed x00.
Proof.
  intros Hi. unfold repeat_seed. rewrite (nth_indep _ d (nth (0 mod 32) seed x00)) by by rewrite length_map, length_seq.
  rewrite (map_nth (λ i, nth (i mod 32) seed x00)). by rewrite seq_nth.
Qed.

Lemma EchoSign_lawful : @SignLaws EchoSign.
Proof.
  intros policy seed kp msg rnd sig. cbn. intros [= <-] [= <-]. cbn [skp_public skp_secret].
  apply bool_decide_eq_true. unfold echo_sign. apply map_ext. intros i. f_equal.
  assert (length (take 32 (cval seed)) = 32%nat) as HL by by rewrite length_take, arr_length.
  assert (∃ k, sign_pk_len policy = (32 * S k)%nat) as [k HK] by (destruct policy; [by exists 0%nat|by exists 60%nat|by exists 61%nat]).
  assert (length (repeat_seed (sign_pk_len policy) (cval seed)) = (32 * S k)%nat) as HR
    by (unfold repeat_seed; by rewrite length_map, length_seq).
  rewrite HR, HL, HK, nth_repeat_seed by (apply Nat.mod_upper_bound; lia).
  rewrite Nat.Div0.mod_mul_r. rewrite (Nat.mul_comm 32), Nat.Div0.mod_add, Nat.Div0.mod_mod.
  rewrite nth_firstn. destruct (_ <? 32)%nat eqn:E; [done|]. apply Nat.ltb_ge in E.
  pose proof (Nat.mod_upper_bound i 32). lia.
Qed.
