(* ===== verification/Codec.v ===== *)
(** The JSON mapping of tickets, durable bodies, packets and the vault header
    ([protocol/v1/codec.rs]): emitters, member getters and parsers.

    Object members are written with literal keys, [lits] being the [.into()] of each;
    every parser fails with the unit error, as the code's do. *)

From stdpp Require Import base tactics list numbers option strings countable gmap.
From Stdlib Require Import Strings.Byte.
From S2P Require Import Prelude Text Ids Channel Defaults Payload Json Ports.

Abbreviation members := (list (str * Json)).
Abbreviation fields := (list (string * Json)).

Definition lits (l : fields) : members := map (λ kv, (lit kv.1, kv.2)) l.
Definition obj (l : fields) : Json := JObject (lits l).
Definition jlit (s : string) : Json := JString (lit s).

(** [o.map(f).unwrap_or(Json::Null)]. *)
Definition or_null {A} (f : A → Json) (o : option A) : Json := from_option f JNull o.

(** * Getters *)

Definition parse_obj (value : Json) : result unit members :=
  match value with JObject m => Ok m | _ => Err tt end.

Definition get (m : members) (key : string) : result unit Json :=
  ok_or tt (find_key m (lit key)).

Definition get_str (m : members) (key : string) : result unit str :=
  v ← get m key; match v with JString s => Ok s | _ => Err tt end.

Definition get_u64 (m : members) (key : string) : result unit u64 :=
  v ← get m key; match v with JNumber n => Ok n | _ => Err tt end.

Definition get_bool (m : members) (key : string) : result unit bool :=
  v ← get m key; match v with JBool b => Ok b | _ => Err tt end.

Definition extra_ok (m : members) (keys : list string) : result unit unit :=
  if forallb (λ kv, existsb (λ k, str_eqb k kv.1) (map lit keys)) m then Ok tt else Err tt.

(** [id32(bytes, T::from_bytes)]. *)
Definition id32 {r} (bs : bytes) : result unit (branded r) :=
  a ← ok_or tt (try_into 32 bs); Ok (from_bytes a).

(** [match ty { "..." => ..., _ => Err(()) }]. *)
Definition on_type {A} (ty : str) (arms : list (string * (members → result unit A)))
    (m : members) : result unit A :=
  match find (λ arm, str_eqb ty (lit arm.1)) arms with
  | Some arm => arm.2 m
  | None => Err tt
  end.

(** * Channels, tickets and clocks *)

Definition durable_json (ch : DurableChannel) : Json :=
  obj [("kind", JString (cval (d_kind ch))); ("address", JString (cval (d_address ch)))].

Definition ephemeral_json (ch : EphemeralChannel) : Json :=
  obj [("kind", JString (cval (e_kind ch))); ("address", JString (cval (e_address ch)))].

Definition parse_durable (value : Json) : result unit DurableChannel :=
  m ← parse_obj value;
  _ ← extra_ok m ["kind"; "address"];
  kind ← (s ← get_str m "kind"; map_err (λ _, tt) (Kind_try_from s));
  address ← (s ← get_str m "address"; map_err (λ _, tt) (Address_try_from s));
  Ok (DurableChannel_new kind address).

Definition parse_durable_list (value : Json) : result unit (list DurableChannel) :=
  match value with JArray items => collect parse_durable items | _ => Err tt end.

Definition parse_ephemeral (value : Json) : result unit EphemeralChannel :=
  m ← parse_obj value;
  _ ← extra_ok m ["kind"; "address"];
  kind ← (s ← get_str m "kind"; map_err (λ _, tt) (Kind_try_from s));
  address ← (s ← get_str m "address"; map_err (λ _, tt) (Address_try_from s));
  Ok (EphemeralChannel_new kind address).

Definition parse_ephemeral_list (value : Json) : result unit (list EphemeralChannel) :=
  match value with JArray items => collect parse_ephemeral items | _ => Err tt end.

Definition hlc_json (hlc : Hlc) : Json :=
  obj [("wall_ms", JNumber (wall_ms hlc)); ("counter", JNumber (counter hlc))].

Definition parse_hlc (value : Json) : result unit Hlc :=
  m ← parse_obj value;
  _ ← extra_ok m ["wall_ms"; "counter"];
  w ← get_u64 m "wall_ms";
  c ← get_u64 m "counter";
  Ok (mkHlc w c).

Definition payload_type (payload : TxPayload) : string :=
  match payload with
  | PNotice _ => "v1-handshake-notice"
  | PInviterIntro _ => "v1-handshake-inviter-intro"
  | PSyncInviterIntro _ => "v1-sync-inviter-intro"
  | PSyncInviteeIntro _ => "v1-sync-invitee-intro"
  | PInviteeIntro _ => "v1-handshake-invitee-intro"
  | PConfirm => "v1-handshake-confirm"
  | PReject => "v1-handshake-reject"
  | PText _ => "v1-text"
  | PEdit _ => "v1-edit"
  | PRemove _ => "v1-remove"
  | PReaction _ => "v1-reaction"
  | PRead _ => "v1-read"
  | PDelivered _ => "v1-delivered"
  | PMedia _ => "v1-media"
  | PAdvertise _ => "v1-advertise"
  | PWrap _ => "v1-wrap"
  | PAck _ => "v1-ack"
  | PName _ => "v1-name"
  | PPhoto _ => "v1-photo"
  | PPrefs _ => "v1-prefs"
  | PGroupInvite _ => "v1-group-invite"
  | PGroupAccept _ => "v1-group-accept"
  | PGroupReject _ => "v1-group-reject"
  | PGroupRoster _ => "v1-group-roster"
  | PGroupWrap _ => "v1-group-wrap"
  | PGroupLeave => "v1-group-leave"
  | PGroupKick _ => "v1-group-kick"
  | PEngineInit => "v1-engine-init"
  | PEngineSetDefaults _ => "v1-engine-set-defaults"
  | PEngineCreateUser _ => "v1-engine-create-user"
  | PEngineCreateIdentity _ _ _ _ _ => "v1-engine-create-identity"
  | PEngineDeleteUser _ => "v1-engine-delete-user"
  | PEngineDeleteIdentity _ _ => "v1-engine-delete-identity"
  | PEngineSetDisplayName _ _ _ => "v1-engine-set-display-name"
  | PEngineUnsetDisplayName _ _ => "v1-engine-unset-display-name"
  | PEngineSetProfilePic _ _ _ => "v1-engine-set-profile-pic"
  | PEngineSetDeviceName _ => "v1-engine-set-device-name"
  | PEngineKickDevice _ => "v1-engine-kick-device"
  | PSyncDek _ => "v1-sync-dek"
  end.

Definition packet_type (packet : PacketPlain) : string :=
  match packet with
  | TxFragMore _ => "v1-packet-tx-frag-more"
  | TxFragLast _ => "v1-packet-tx-frag-last"
  | XorAck _ => "v1-packet-xor-ack"
  | HealHalfXor _ => "v1-packet-heal-half-xor"
  | HealWant _ => "v1-packet-heal-want"
  | HealHave _ => "v1-packet-heal-have"
  | Typing _ => "v1-packet-typing"
  | TypingActive _ => "v1-packet-typing-active"
  | Presence _ => "v1-packet-presence"
  | PresenceActive _ => "v1-packet-presence-active"
  end.

Definition defaults_json (d : Defaults) : Json :=
  obj [("persistents", JArray (map durable_json (df_persistents d)));
       ("ephemerals", JArray (map ephemeral_json (df_ephemerals d)));
       ("read_receipts", JBool (df_read_receipts d));
       ("online_visible", JBool (df_online_visible d));
       ("send_typing", JBool (df_send_typing d));
       ("disappear_after", or_null JNumber (df_disappear_after d));
       ("publish_wake", JBool (df_publish_wake d));
       ("notification_privacy",
         JString (NotificationPrivacy_as_str (df_notification_privacy d)))].

Definition parse_opt_u64 (value : Json) : result unit (option u64) :=
  match value with JNull => Ok None | JNumber n => Ok (Some n) | _ => Err tt end.

Definition parse_opt_str (value : Json) : result unit (option str) :=
  match value with JNull => Ok None | JString s => Ok (Some s) | _ => Err tt end.

Definition parse_name (s : str) : result unit DisplayName :=
  map_err (λ _, tt) (DisplayName_try_from s).

Definition parse_defaults (value : Json) : result unit Defaults :=
  m ← parse_obj value;
  _ ← extra_ok m ["persistents"; "ephemerals"; "read_receipts"; "online_visible";
                  "send_typing"; "disappear_after"; "publish_wake"; "notification_privacy"];
  disappear ← (v ← get m "disappear_after";
    match v with JNull => Ok None | JNumber n => Ok (Some n) | _ => Err tt end);
  privacy ← (s ← get_str m "notification_privacy"; ok_or tt (NotificationPrivacy_parse s));
  persistents ← (v ← get m "persistents"; parse_durable_list v);
  ephemerals ← (v ← get m "ephemerals"; parse_ephemeral_list v);
  read_receipts ← get_bool m "read_receipts";
  online_visible ← get_bool m "online_visible";
  send_typing ← get_bool m "send_typing";
  publish_wake ← get_bool m "publish_wake";
  map_err (λ _, tt) (Defaults_try_new persistents ephemerals read_receipts online_visible
                       send_typing disappear publish_wake privacy).

(** Everything below encodes bytes through the suite's [Base64Url]. *)
Section WithBase64Url.
Context `{Base64Url}.

Definition bstr (bs : bytes) : Json := JString (b64_encode bs).

(** [bstr(b64u, id.as_bytes())] of a 32-byte newtype. *)
Definition id_json {r} (id : branded r) : Json := bstr (cval (as_bytes id)).

Definition opt_bstr (bs : option bytes) : Json := or_null bstr bs.

Definition get_bstr (m : members) (key : string) : result unit bytes :=
  s ← get_str m key; ok_or tt (b64_decode s).

Definition get_tag (m : members) (key : string) : result unit Tag :=
  bs ← get_bstr m key; a ← ok_or tt (try_into 32 bs); Ok (from_bytes a).

(** [id32(get_bstr(b64u, m, key)?, T::from_bytes)]. *)
Definition get_id {r} (m : members) (key : string) : result unit (branded r) :=
  bs ← get_bstr m key; id32 bs.

Definition ticket_to_json (ticket : Ticket) : Json :=
  obj [("type", jlit "v1-handshake-ticket");
       ("secret", id_json (tk_secret ticket));
       ("persistents", JArray (map durable_json (tk_persistents ticket)));
       ("expires", JNumber (tk_expires ticket))].

Definition ticket_from_json (value : Json) : result unit Ticket :=
  m ← parse_obj value;
  _ ← extra_ok m ["type"; "secret"; "persistents"; "expires"];
  ty ← get_str m "type";
  _ ← refuse_if (negb (str_eqb ty (lit "v1-handshake-ticket"))) tt;
  secret_bytes ← get_bstr m "secret";
  secret ← ok_or tt (try_into 32 secret_bytes);
  persistents ← (v ← get m "persistents"; parse_durable_list v);
  _ ← refuse_if (bool_decide (persistents = []) || bool_decide (4 < length persistents)%nat) tt;
  expires ← get_u64 m "expires";
  Ok (mkTicket (from_bytes secret) persistents expires).

(** * Payload emitters *)

Definition wake_json (w : Wake) : Json :=
  obj [("endpoint", JString (cval (w_endpoint w)));
       ("p256dh", bstr (cval (w_p256dh w)));
       ("auth", bstr (cval (w_auth w)));
       ("vapid_pk", or_null bstr (w_vapid_pk w))].

Definition prefs_fields (p : OnWirePrefs) : fields :=
  [("read_receipts", JBool (p_read_receipts p));
   ("online_visible", JBool (p_online_visible p));
   ("send_typing", JBool (p_send_typing p));
   ("disappear_after", or_null JNumber (p_disappear_after p));
   ("wake", or_null wake_json (p_wake p))].

Definition prefs_object (p : OnWirePrefs) : Json := obj (prefs_fields p).

Definition pic_json (pic : option ProfilePic) : Json := opt_bstr (cval <$> pic).

Definition intro_fields (i : TxInviterIntro) : fields :=
  [("name", JString (cval (ii_name i)));
   ("profile_pic", pic_json (ii_profile_pic i));
   ("send_tag_key", id_json (ii_send_tag_key i));
   ("eph_send_tag_key", id_json (ii_eph_send_tag_key i));
   ("encryption_pk", bstr (enc_bytes (ii_encryption_pk i)));
   ("signing_pk", bstr (sign_bytes (ii_signing_pk i)));
   ("seed_ct", bstr (ii_seed_ct i));
   ("prefs", prefs_object (ii_prefs i))].

Definition invitee_fields (i : TxInviteeIntro) : fields :=
  [("name", JString (cval (ie_name i)));
   ("profile_pic", pic_json (ie_profile_pic i));
   ("send_tag_key", id_json (ie_send_tag_key i));
   ("eph_send_tag_key", id_json (ie_eph_send_tag_key i));
   ("encryption_pk", bstr (enc_bytes (ie_encryption_pk i)));
   ("signing_pk", bstr (sign_bytes (ie_signing_pk i)));
   ("intake_pk", bstr (enc_bytes (ie_intake_pk i)));
   ("seed_ct", bstr (ie_seed_ct i));
   ("prefs", prefs_object (ie_prefs i))].

Definition media_fields (m : TxMedia) : fields :=
  [("mime", JString (m_mime m));
   ("filename", JString (m_filename m));
   ("hash", id_json (m_hash m));
   ("kind", JString (cval (m_kind m)));
   ("address", JString (cval (m_address m)));
   ("tag", id_json (m_tag m));
   ("caption", or_null JString (m_caption m));
   ("reply_to", or_null id_json (m_reply_to m));
   ("expire_at", or_null JNumber (m_expire_at m))].

Definition group_invite_fields (g : TxGroupInvite) : fields :=
  [("group_id", id_json (gi_group_id g));
   ("owner_signing_pk", bstr (sign_bytes (gi_owner_signing_pk g)));
   ("persistents", JArray (map durable_json (gi_persistents g)));
   ("ephemerals", JArray (map ephemeral_json (gi_ephemerals g)));
   ("name", JString (cval (gi_name g)));
   ("photo", pic_json (gi_photo g));
   ("invitee_signing_pk", bstr (sign_bytes (gi_invitee_signing_pk g)));
   ("group_secret_ct", bstr (gi_group_secret_ct g))].

Definition member_json (m : GroupMember) : Json :=
  obj [("signing_pk", bstr (sign_bytes (gm_signing_pk m)));
       ("encryption_pk", bstr (enc_bytes (gm_encryption_pk m)));
       ("send_tag_key", id_json (gm_send_tag_key m));
       ("eph_send_tag_key", id_json (gm_eph_send_tag_key m))].

Definition roster_fields (r : TxGroupRoster) : fields :=
  [("epoch", JNumber (gr_epoch r));
   ("members", JArray (map member_json (gr_members r)));
   ("sig", bstr (gr_sig r))].

(** The members [payload_to_json] pushes after ["type"]. *)
Definition payload_fields (payload : TxPayload) : fields :=
  match payload with
  | PNotice n =>
      [("policy", JString (policy_str (n_policy n)));
       ("intake_pk", bstr (enc_bytes (n_intake_pk n)));
       ("persistents", JArray (map durable_json (n_persistents n)));
       ("ephemerals", JArray (map ephemeral_json (n_ephemerals n)));
       ("expires", JNumber (n_expires n))]
  | PConfirm | PReject | PEngineInit | PGroupLeave => []
  | PEngineCreateUser user_id => [("user_id", id_json user_id)]
  | PEngineDeleteUser user_id => [("user_id", id_json user_id)]
  | PEngineCreateIdentity user_id identity_id policy encryption signing =>
      [("user_id", id_json user_id);
       ("identity_id", id_json identity_id);
       ("policy", JString (policy_str policy));
       ("encryption", obj [("pk", bstr (kp_public encryption));
                           ("sk", bstr (kp_secret encryption))]);
       ("signing", obj [("pk", bstr (skp_public signing)); ("sk", bstr (skp_secret signing))])]
  | PEngineDeleteIdentity user_id identity_id | PEngineUnsetDisplayName user_id identity_id =>
      [("user_id", id_json user_id); ("identity_id", id_json identity_id)]
  | PEngineSetDisplayName user_id identity_id name =>
      [("user_id", id_json user_id); ("identity_id", id_json identity_id);
       ("name", JString (cval name))]
  | PEngineSetProfilePic user_id identity_id profile_pic =>
      [("user_id", id_json user_id); ("identity_id", id_json identity_id);
       ("profile_pic", pic_json profile_pic)]
  | PEngineSetDefaults defaults => [("defaults", defaults_json defaults)]
  | PEngineSetDeviceName name => [("name", JString (cval name))]
  | PEngineKickDevice device_id => [("device_id", id_json device_id)]
  | PSyncDek ct => [("ct", bstr ct)]
  | PText t =>
      [("body", JString (t_body t));
       ("reply_to", or_null id_json (t_reply_to t));
       ("expire_at", or_null JNumber (t_expire_at t))]
  | PEdit e => [("target", id_json (ed_target e)); ("body", JString (ed_body e))]
  | PRemove target => [("target", id_json target)]
  | PReaction r =>
      [("target", id_json (re_target r)); ("emoji", JString (re_emoji r));
       ("add", JBool (re_add r))]
  | PRead up_to | PDelivered up_to => [("up_to", id_json up_to)]
  | PName name => [("name", JString (cval name))]
  | PPhoto profile_pic => [("profile_pic", pic_json profile_pic)]
  | PAdvertise encaps_pk => [("encaps_pk", bstr (enc_bytes encaps_pk))]
  | PWrap kem_ct => [("kem_ct", bstr kem_ct)]
  | PAck ratchet_ack => [("ratchet_ack", id_json ratchet_ack)]
  | PGroupAccept group_id | PGroupReject group_id => [("group_id", id_json group_id)]
  | PGroupKick signing_pk => [("signing_pk", bstr (sign_bytes signing_pk))]
  | PInviterIntro i => intro_fields i
  | PInviteeIntro i => invitee_fields i
  | PSyncInviterIntro s => intro_fields (si_intro s) ++ [("device_id", id_json (si_device_id s))]
  | PSyncInviteeIntro s =>
      invitee_fields (se_intro s) ++ [("device_id", id_json (se_device_id s))]
  | PMedia m => media_fields m
  | PPrefs p => prefs_fields p
  | PGroupInvite g => group_invite_fields g
  | PGroupRoster r => roster_fields r
  | PGroupWrap w =>
      [("to", bstr (sign_bytes (gw_to w))); ("from", bstr (sign_bytes (gw_from w)));
       ("kem_ct", bstr (gw_kem_ct w))]
  end.

Definition payload_to_json (payload : TxPayload) : Json :=
  obj (("type", jlit (payload_type payload)) :: payload_fields payload).

Definition durable_body_to_json (body : DurableBody) : Json :=
  obj [("type", jlit "v1-durable-body");
       ("conversation_id", id_json (db_conversation_id body));
       ("hlc", hlc_json (db_hlc body));
       ("payload", payload_to_json (db_payload body))].

(** [u64::from] of a [u32]. *)
Definition u64_from (n : u32) : u64 := clamp64 (cval n).

Definition vault_header_to_json (header : VaultHeader) : Json :=
  obj [("type", jlit "v1-vault-header");
       ("salt", bstr (cval (vh_salt header)));
       ("m", JNumber (u64_from (vh_m header)));
       ("t", JNumber (u64_from (vh_t header)));
       ("p", JNumber (u64_from (vh_p header)));
       ("passphrase_nonce", or_null (λ n, bstr (cval n)) (vh_passphrase_nonce header));
       ("passphrase_wrapped_dek", or_null bstr (vh_passphrase_wrapped_dek header));
       ("prf_nonce", or_null (λ n, bstr (cval n)) (vh_prf_nonce header));
       ("prf_wrapped_dek", or_null bstr (vh_prf_wrapped_dek header))].

(** * Payload parsers *)

Definition parse_keypair (value : Json) : result unit KeyPair :=
  m ← parse_obj value;
  _ ← extra_ok m ["pk"; "sk"];
  pk ← get_bstr m "pk";
  sk ← get_bstr m "sk";
  Ok (KeyPair_from_parts pk sk).

Definition parse_sign_pair (value : Json) : result unit SigningKeyPair :=
  m ← parse_obj value;
  _ ← extra_ok m ["pk"; "sk"];
  pk ← get_bstr m "pk";
  sk ← get_bstr m "sk";
  Ok (SigningKeyPair_from_parts pk sk).

Definition parse_wake (value : Json) : result unit Wake :=
  m ← parse_obj value;
  _ ← extra_ok m ["endpoint"; "p256dh"; "auth"; "vapid_pk"];
  vapid ← (v ← get m "vapid_pk";
    match v with
    | JNull => Ok None
    | JString s => bs ← ok_or tt (b64_decode s); Ok (Some bs)
    | _ => Err tt
    end);
  endpoint ← get_str m "endpoint";
  p256dh ← get_bstr m "p256dh";
  auth ← get_bstr m "auth";
  map_err (λ _, tt) (Wake_try_new endpoint p256dh auth vapid).

Definition parse_prefs (value : Json) : result unit OnWirePrefs :=
  m ← parse_obj value;
  _ ← extra_ok m ["read_receipts"; "online_visible"; "send_typing"; "disappear_after"; "wake"];
  disappear ← (v ← get m "disappear_after";
    match v with JNull => Ok None | JNumber n => Ok (Some n) | _ => Err tt end);
  wake ← (v ← get m "wake";
    match v with JNull => Ok None | v => w ← parse_wake v; Ok (Some w) end);
  read_receipts ← get_bool m "read_receipts";
  online_visible ← get_bool m "online_visible";
  send_typing ← get_bool m "send_typing";
  Ok (mkOnWirePrefs read_receipts online_visible send_typing disappear wake).

Definition parse_pic (value : Json) : result unit (option ProfilePic) :=
  match value with
  | JNull => Ok None
  | JString s =>
      bs ← ok_or tt (b64_decode s);
      pic ← map_err (λ _, tt) (ProfilePic_try_from bs);
      Ok (Some pic)
  | _ => Err tt
  end.

Definition parse_opt_tag (value : Json) : result unit (option Tag) :=
  match value with
  | JNull => Ok None
  | JString s =>
      bs ← ok_or tt (b64_decode s);
      tag ← id32 bs;
      Ok (Some tag)
  | _ => Err tt
  end.

Definition take_enc (m : members) (key : string) : result unit EncryptionPublicKey :=
  bs ← get_bstr m key; Ok (EncryptionPublicKey_from_bytes bs).

Definition take_sign (m : members) (key : string) : result unit SigningPublicKey :=
  bs ← get_bstr m key; Ok (SigningPublicKey_from_bytes bs).

(** [keys.push("device_id")] for a sync intro. *)
Definition sync_keys (keys : list string) (sync : bool) : list string :=
  if sync then keys ++ ["device_id"] else keys.

Definition parse_intro (m : members) (sync : bool) : result unit TxInviterIntro :=
  _ ← extra_ok m (sync_keys ["type"; "name"; "profile_pic"; "send_tag_key"; "eph_send_tag_key";
                             "encryption_pk"; "signing_pk"; "seed_ct"; "prefs"] sync);
  name ← (s ← get_str m "name"; parse_name s);
  profile_pic ← (v ← get m "profile_pic"; parse_pic v);
  send_tag_key ← get_id m "send_tag_key";
  eph_send_tag_key ← get_id m "eph_send_tag_key";
  encryption_pk ← take_enc m "encryption_pk";
  signing_pk ← take_sign m "signing_pk";
  seed_ct ← get_bstr m "seed_ct";
  prefs ← (v ← get m "prefs"; parse_prefs v);
  Ok (mkTxInviterIntro name profile_pic send_tag_key eph_send_tag_key encryption_pk
        signing_pk seed_ct prefs).

Definition parse_invitee (m : members) (sync : bool) : result unit TxInviteeIntro :=
  _ ← extra_ok m (sync_keys ["type"; "name"; "profile_pic"; "send_tag_key"; "eph_send_tag_key";
                             "encryption_pk"; "signing_pk"; "intake_pk"; "seed_ct"; "prefs"]
                    sync);
  name ← (s ← get_str m "name"; parse_name s);
  profile_pic ← (v ← get m "profile_pic"; parse_pic v);
  send_tag_key ← get_id m "send_tag_key";
  eph_send_tag_key ← get_id m "eph_send_tag_key";
  encryption_pk ← take_enc m "encryption_pk";
  signing_pk ← take_sign m "signing_pk";
  intake_pk ← take_enc m "intake_pk";
  seed_ct ← get_bstr m "seed_ct";
  prefs ← (v ← get m "prefs"; parse_prefs v);
  Ok (mkTxInviteeIntro name profile_pic send_tag_key eph_send_tag_key encryption_pk
        signing_pk intake_pk seed_ct prefs).

Definition parse_media (m : members) : result unit TxMedia :=
  _ ← extra_ok m ["type"; "mime"; "filename"; "hash"; "kind"; "address"; "tag"; "caption";
                  "reply_to"; "expire_at"];
  mime ← get_str m "mime";
  filename ← get_str m "filename";
  hash ← get_id m "hash";
  kind ← (s ← get_str m "kind"; map_err (λ _, tt) (Kind_try_from s));
  address ← (s ← get_str m "address"; map_err (λ _, tt) (Address_try_from s));
  tag ← get_tag m "tag";
  caption ← (v ← get m "caption"; parse_opt_str v);
  reply_to ← (v ← get m "reply_to"; parse_opt_tag v);
  expire_at ← (v ← get m "expire_at"; parse_opt_u64 v);
  Ok (mkTxMedia mime filename hash kind address tag caption reply_to expire_at).

Definition parse_group_invite (m : members) : result unit TxGroupInvite :=
  _ ← extra_ok m ["type"; "group_id"; "owner_signing_pk"; "persistents"; "ephemerals"; "name";
                  "photo"; "invitee_signing_pk"; "group_secret_ct"];
  group_id ← get_id m "group_id";
  owner_signing_pk ← take_sign m "owner_signing_pk";
  persistents ← (v ← get m "persistents"; parse_durable_list v);
  ephemerals ← (v ← get m "ephemerals"; parse_ephemeral_list v);
  name ← (s ← get_str m "name"; parse_name s);
  photo ← (v ← get m "photo"; parse_pic v);
  invitee_signing_pk ← take_sign m "invitee_signing_pk";
  group_secret_ct ← get_bstr m "group_secret_ct";
  Ok (mkTxGroupInvite group_id owner_signing_pk persistents ephemerals name photo
        invitee_signing_pk group_secret_ct).

(** One iteration of the member loop of [parse_roster]. *)
Definition parse_member (item : Json) : result unit GroupMember :=
  im ← parse_obj item;
  _ ← extra_ok im ["signing_pk"; "encryption_pk"; "send_tag_key"; "eph_send_tag_key"];
  signing_pk ← take_sign im "signing_pk";
  encryption_pk ← take_enc im "encryption_pk";
  send_tag_key ← get_id im "send_tag_key";
  eph_send_tag_key ← get_id im "eph_send_tag_key";
  Ok (mkGroupMember signing_pk encryption_pk send_tag_key eph_send_tag_key).

Definition parse_roster (m : members) : result unit TxGroupRoster :=
  _ ← extra_ok m ["type"; "epoch"; "members"; "sig"];
  v ← get m "members";
  items ← match v with JArray items => Ok items | _ => Err tt end;
  ms ← collect parse_member items;
  epoch ← get_u64 m "epoch";
  sig ← get_bstr m "sig";
  Ok (mkTxGroupRoster epoch ms sig).

(** The arms of [payload_from_json], in four groups. *)
Definition handshake_arms : list (string * (members → result unit TxPayload)) :=
  [("v1-handshake-notice", λ m,
      _ ← extra_ok m ["type"; "policy"; "intake_pk"; "persistents"; "ephemerals"; "expires"];
      policy ← (s ← get_str m "policy"; ok_or tt (parse_policy s));
      intake_pk ← take_enc m "intake_pk";
      persistents ← (v ← get m "persistents"; parse_durable_list v);
      ephemerals ← (v ← get m "ephemerals"; parse_ephemeral_list v);
      expires ← get_u64 m "expires";
      Ok (PNotice (mkTxNotice policy intake_pk persistents ephemerals expires)));
   ("v1-handshake-inviter-intro", λ m,
      i ← parse_intro m false; Ok (PInviterIntro i));
   ("v1-sync-inviter-intro", λ m,
      i ← parse_intro m true;
      device_id ← get_id m "device_id";
      Ok (PSyncInviterIntro (mkSyncInviterIntro i device_id)));
   ("v1-sync-invitee-intro", λ m,
      i ← parse_invitee m true;
      device_id ← get_id m "device_id";
      Ok (PSyncInviteeIntro (mkSyncInviteeIntro i device_id)));
   ("v1-handshake-invitee-intro", λ m,
      i ← parse_invitee m false; Ok (PInviteeIntro i));
   ("v1-handshake-confirm", λ m, _ ← extra_ok m ["type"]; Ok PConfirm);
   ("v1-handshake-reject", λ m, _ ← extra_ok m ["type"]; Ok PReject)].

Definition chat_arms : list (string * (members → result unit TxPayload)) :=
  [("v1-text", λ m,
      _ ← extra_ok m ["type"; "body"; "reply_to"; "expire_at"];
      body ← get_str m "body";
      reply_to ← (v ← get m "reply_to"; parse_opt_tag v);
      expire_at ← (v ← get m "expire_at"; parse_opt_u64 v);
      Ok (PText (mkTxText body reply_to expire_at)));
   ("v1-edit", λ m,
      _ ← extra_ok m ["type"; "target"; "body"];
      target ← get_tag m "target";
      body ← get_str m "body";
      Ok (PEdit (mkTxEdit target body)));
   ("v1-remove", λ m,
      _ ← extra_ok m ["type"; "target"];
      target ← get_tag m "target"; Ok (PRemove target));
   ("v1-reaction", λ m,
      _ ← extra_ok m ["type"; "target"; "emoji"; "add"];
      target ← get_tag m "target";
      emoji ← get_str m "emoji";
      add ← get_bool m "add";
      Ok (PReaction (mkTxReaction target emoji add)));
   ("v1-read", λ m,
      _ ← extra_ok m ["type"; "up_to"]; up_to ← get_tag m "up_to"; Ok (PRead up_to));
   ("v1-delivered", λ m,
      _ ← extra_ok m ["type"; "up_to"]; up_to ← get_tag m "up_to"; Ok (PDelivered up_to));
   ("v1-media", λ m, x ← parse_media m; Ok (PMedia x));
   ("v1-advertise", λ m,
      _ ← extra_ok m ["type"; "encaps_pk"];
      encaps_pk ← take_enc m "encaps_pk"; Ok (PAdvertise encaps_pk));
   ("v1-wrap", λ m,
      _ ← extra_ok m ["type"; "kem_ct"]; kem_ct ← get_bstr m "kem_ct"; Ok (PWrap kem_ct));
   ("v1-ack", λ m,
      _ ← extra_ok m ["type"; "ratchet_ack"];
      ratchet_ack ← get_tag m "ratchet_ack"; Ok (PAck ratchet_ack));
   ("v1-name", λ m,
      _ ← extra_ok m ["type"; "name"];
      name ← (s ← get_str m "name"; parse_name s); Ok (PName name));
   ("v1-photo", λ m,
      _ ← extra_ok m ["type"; "profile_pic"];
      profile_pic ← (v ← get m "profile_pic"; parse_pic v); Ok (PPhoto profile_pic));
   ("v1-prefs", λ m,
      p ← parse_prefs (JObject (List.filter (λ kv, negb (str_eqb kv.1 (lit "type"))) m));
      Ok (PPrefs p))].

Definition group_arms : list (string * (members → result unit TxPayload)) :=
  [("v1-group-invite", λ m, g ← parse_group_invite m; Ok (PGroupInvite g));
   ("v1-group-accept", λ m,
      _ ← extra_ok m ["type"; "group_id"];
      group_id ← get_id m "group_id"; Ok (PGroupAccept group_id));
   ("v1-group-reject", λ m,
      _ ← extra_ok m ["type"; "group_id"];
      group_id ← get_id m "group_id"; Ok (PGroupReject group_id));
   ("v1-group-roster", λ m, r ← parse_roster m; Ok (PGroupRoster r));
   ("v1-group-wrap", λ m,
      _ ← extra_ok m ["type"; "to"; "from"; "kem_ct"];
      to ← take_sign m "to";
      from ← take_sign m "from";
      kem_ct ← get_bstr m "kem_ct";
      Ok (PGroupWrap (mkTxGroupWrap to from kem_ct)));
   ("v1-group-leave", λ m, _ ← extra_ok m ["type"]; Ok PGroupLeave);
   ("v1-group-kick", λ m,
      _ ← extra_ok m ["type"; "signing_pk"];
      signing_pk ← take_sign m "signing_pk"; Ok (PGroupKick signing_pk))].

Definition engine_arms : list (string * (members → result unit TxPayload)) :=
  [("v1-engine-init", λ m, _ ← extra_ok m ["type"]; Ok PEngineInit);
   ("v1-engine-set-defaults", λ m,
      _ ← extra_ok m ["type"; "defaults"];
      defaults ← (v ← get m "defaults"; parse_defaults v); Ok (PEngineSetDefaults defaults));
   ("v1-engine-create-user", λ m,
      _ ← extra_ok m ["type"; "user_id"];
      user_id ← get_id m "user_id"; Ok (PEngineCreateUser user_id));
   ("v1-engine-create-identity", λ m,
      _ ← extra_ok m ["type"; "user_id"; "identity_id"; "policy"; "encryption"; "signing"];
      user_id ← get_id m "user_id";
      identity_id ← get_id m "identity_id";
      policy ← (s ← get_str m "policy"; ok_or tt (parse_policy s));
      encryption ← (v ← get m "encryption"; parse_keypair v);
      signing ← (v ← get m "signing"; parse_sign_pair v);
      Ok (PEngineCreateIdentity user_id identity_id policy encryption signing));
   ("v1-engine-delete-user", λ m,
      _ ← extra_ok m ["type"; "user_id"];
      user_id ← get_id m "user_id"; Ok (PEngineDeleteUser user_id));
   ("v1-engine-delete-identity", λ m,
      _ ← extra_ok m ["type"; "user_id"; "identity_id"];
      user_id ← get_id m "user_id";
      identity_id ← get_id m "identity_id";
      Ok (PEngineDeleteIdentity user_id identity_id));
   ("v1-engine-set-display-name", λ m,
      _ ← extra_ok m ["type"; "user_id"; "identity_id"; "name"];
      user_id ← get_id m "user_id";
      identity_id ← get_id m "identity_id";
      name ← (s ← get_str m "name"; parse_name s);
      Ok (PEngineSetDisplayName user_id identity_id name));
   ("v1-engine-unset-display-name", λ m,
      _ ← extra_ok m ["type"; "user_id"; "identity_id"];
      user_id ← get_id m "user_id";
      identity_id ← get_id m "identity_id";
      Ok (PEngineUnsetDisplayName user_id identity_id));
   ("v1-engine-set-profile-pic", λ m,
      _ ← extra_ok m ["type"; "user_id"; "identity_id"; "profile_pic"];
      user_id ← get_id m "user_id";
      identity_id ← get_id m "identity_id";
      profile_pic ← (v ← get m "profile_pic"; parse_pic v);
      Ok (PEngineSetProfilePic user_id identity_id profile_pic));
   ("v1-engine-set-device-name", λ m,
      _ ← extra_ok m ["type"; "name"];
      name ← (s ← get_str m "name"; parse_name s); Ok (PEngineSetDeviceName name));
   ("v1-engine-kick-device", λ m,
      _ ← extra_ok m ["type"; "device_id"];
      device_id ← get_id m "device_id"; Ok (PEngineKickDevice device_id));
   ("v1-sync-dek", λ m,
      _ ← extra_ok m ["type"; "ct"]; ct ← get_bstr m "ct"; Ok (PSyncDek ct))].

Definition payload_arms : list (string * (members → result unit TxPayload)) :=
  handshake_arms ++ chat_arms ++ group_arms ++ engine_arms.

Definition payload_from_json (value : Json) : result unit TxPayload :=
  m ← parse_obj value;
  ty ← get_str m "type";
  on_type ty payload_arms m.

Definition durable_body_from_json (value : Json) : result unit DurableBody :=
  m ← parse_obj value;
  _ ← extra_ok m ["type"; "conversation_id"; "hlc"; "payload"];
  ty ← get_str m "type";
  _ ← refuse_if (negb (str_eqb ty (lit "v1-durable-body"))) tt;
  conversation_id ← get_id m "conversation_id";
  hlc ← (v ← get m "hlc"; parse_hlc v);
  payload ← (v ← get m "payload"; payload_from_json v);
  Ok (mkDurableBody conversation_id hlc payload).

(** * Packets *)

Definition tags_json (ids : list Tag) : Json := JArray (map id_json ids).

(** The members [packet_to_json] pushes after ["type"] and ["version"]. *)
Definition packet_fields (packet : PacketPlain) : fields :=
  match packet with
  | TxFragMore p =>
      [("actor_id", bstr (fm_actor_id p)); ("packet_seq", JNumber (fm_packet_seq p));
       ("tx_id", id_json (fm_tx_id p)); ("frag_i", JNumber (fm_frag_i p));
       ("frag", bstr (fm_frag p))]
  | TxFragLast p =>
      [("actor_id", bstr (fl_actor_id p)); ("packet_seq", JNumber (fl_packet_seq p));
       ("tx_id", id_json (fl_tx_id p)); ("frag_i", JNumber (fl_frag_i p));
       ("frag", bstr (fl_frag p)); ("set_xor", id_json (fl_set_xor p))]
  | XorAck p =>
      [("actor_id", bstr (xa_actor_id p)); ("packet_seq", JNumber (xa_packet_seq p));
       ("set_xor", id_json (xa_set_xor p))]
  | HealHalfXor p =>
      [("actor_id", bstr (hx_actor_id p)); ("packet_seq", JNumber (hx_packet_seq p));
       ("lo", id_json (hx_lo p)); ("hi", id_json (hx_hi p)); ("xor", id_json (hx_xor p))]
  | HealWant p =>
      [("actor_id", bstr (hw_actor_id p)); ("packet_seq", JNumber (hw_packet_seq p));
       ("lo", id_json (hw_lo p)); ("hi", id_json (hw_hi p)); ("ids", tags_json (hw_ids p))]
  | HealHave p =>
      [("actor_id", bstr (hh_actor_id p)); ("packet_seq", JNumber (hh_packet_seq p));
       ("lo", id_json (hh_lo p)); ("hi", id_json (hh_hi p)); ("ids", tags_json (hh_ids p))]
  | Typing p =>
      [("actor_id", bstr (ty_actor_id p)); ("packet_seq", JNumber (ty_packet_seq p));
       ("conversation_id", id_json (ty_conversation_id p));
       ("composing", JBool (ty_composing p))]
  | TypingActive p =>
      [("actor_id", bstr (ta_actor_id p)); ("packet_seq", JNumber (ta_packet_seq p));
       ("conversation_id", id_json (ta_conversation_id p));
       ("last_active", JNumber (ta_last_active p)); ("composing", JBool (ta_composing p))]
  | Presence p =>
      [("actor_id", bstr (pr_actor_id p)); ("packet_seq", JNumber (pr_packet_seq p));
       ("conversation_id", id_json (pr_conversation_id p))]
  | PresenceActive p =>
      [("actor_id", bstr (pa_actor_id p)); ("packet_seq", JNumber (pa_packet_seq p));
       ("conversation_id", id_json (pa_conversation_id p));
       ("last_active", JNumber (pa_last_active p))]
  end.

Definition packet_to_json (packet : PacketPlain) : Json :=
  obj (("type", jlit (packet_type packet)) :: ("version", JNumber (clamp64 1))
       :: packet_fields packet).

Definition get_cid (m : members) : result unit ConversationId := get_id m "conversation_id".

Definition require_v1 (m : members) : result unit unit :=
  n ← get_u64 m "version"; if (cval n =? 1)%N then Ok tt else Err tt.

Definition get_frag_i (m : members) (max : N) : result unit u64 :=
  n ← get_u64 m "frag_i"; if (cval n <=? max)%N then Ok n else Err tt.

Definition get_ids (m : members) : result unit (list Tag) :=
  v ← get m "ids";
  items ← match v with JArray items => Ok items | _ => Err tt end;
  _ ← refuse_if (negb (bool_decide (length items ≤ 32)%nat)) tt;
  collect (λ item,
    match item with
    | JString s => bs ← ok_or tt (b64_decode s); id32 bs
    | _ => Err tt
    end) items.

Definition frag_arms : list (string * (members → result unit PacketPlain)) :=
  [("v1-packet-tx-frag-more", λ m,
      _ ← extra_ok m ["type"; "version"; "actor_id"; "packet_seq"; "tx_id"; "frag_i"; "frag"];
      actor_id ← get_bstr m "actor_id";
      packet_seq ← get_u64 m "packet_seq";
      tx_id ← get_tag m "tx_id";
      frag_i ← get_frag_i m 62;
      frag ← get_bstr m "frag";
      Ok (TxFragMore (mkTxFragMore actor_id packet_seq tx_id frag_i frag)));
   ("v1-packet-tx-frag-last", λ m,
      _ ← extra_ok m ["type"; "version"; "actor_id"; "packet_seq"; "tx_id"; "frag_i"; "frag";
                      "set_xor"];
      actor_id ← get_bstr m "actor_id";
      packet_seq ← get_u64 m "packet_seq";
      tx_id ← get_tag m "tx_id";
      frag_i ← get_frag_i m 63;
      frag ← get_bstr m "frag";
      set_xor ← get_tag m "set_xor";
      Ok (TxFragLast (mkTxFragLast actor_id packet_seq tx_id frag_i frag set_xor)));
   ("v1-packet-xor-ack", λ m,
      _ ← extra_ok m ["type"; "version"; "actor_id"; "packet_seq"; "set_xor"];
      actor_id ← get_bstr m "actor_id";
      packet_seq ← get_u64 m "packet_seq";
      set_xor ← get_tag m "set_xor";
      Ok (XorAck (mkXorAck actor_id packet_seq set_xor)))].

Definition heal_arms : list (string * (members → result unit PacketPlain)) :=
  [("v1-packet-heal-half-xor", λ m,
      _ ← extra_ok m ["type"; "version"; "actor_id"; "packet_seq"; "lo"; "hi"; "xor"];
      actor_id ← get_bstr m "actor_id";
      packet_seq ← get_u64 m "packet_seq";
      lo ← get_tag m "lo";
      hi ← get_tag m "hi";
      xor ← get_tag m "xor";
      Ok (HealHalfXor (mkHealHalfXor actor_id packet_seq lo hi xor)));
   ("v1-packet-heal-want", λ m,
      _ ← extra_ok m ["type"; "version"; "actor_id"; "packet_seq"; "lo"; "hi"; "ids"];
      actor_id ← get_bstr m "actor_id";
      packet_seq ← get_u64 m "packet_seq";
      lo ← get_tag m "lo";
      hi ← get_tag m "hi";
      ids ← get_ids m;
      Ok (HealWant (mkHealWant actor_id packet_seq lo hi ids)));
   ("v1-packet-heal-have", λ m,
      _ ← extra_ok m ["type"; "version"; "actor_id"; "packet_seq"; "lo"; "hi"; "ids"];
      actor_id ← get_bstr m "actor_id";
      packet_seq ← get_u64 m "packet_seq";
      lo ← get_tag m "lo";
      hi ← get_tag m "hi";
      ids ← get_ids m;
      Ok (HealHave (mkHealHave actor_id packet_seq lo hi ids)))].

Definition live_arms : list (string * (members → result unit PacketPlain)) :=
  [("v1-packet-typing", λ m,
      _ ← extra_ok m ["type"; "version"; "actor_id"; "packet_seq"; "conversation_id";
                      "composing"];
      actor_id ← get_bstr m "actor_id";
      packet_seq ← get_u64 m "packet_seq";
      conversation_id ← get_cid m;
      composing ← get_bool m "composing";
      Ok (Typing (mkTyping actor_id packet_seq conversation_id composing)));
   ("v1-packet-typing-active", λ m,
      _ ← extra_ok m ["type"; "version"; "actor_id"; "packet_seq"; "conversation_id";
                      "last_active"; "composing"];
      actor_id ← get_bstr m "actor_id";
      packet_seq ← get_u64 m "packet_seq";
      conversation_id ← get_cid m;
      last_active ← get_u64 m "last_active";
      composing ← get_bool m "composing";
      Ok (TypingActive (mkTypingActive actor_id packet_seq conversation_id last_active
                          composing)));
   ("v1-packet-presence", λ m,
      _ ← extra_ok m ["type"; "version"; "actor_id"; "packet_seq"; "conversation_id"];
      actor_id ← get_bstr m "actor_id";
      packet_seq ← get_u64 m "packet_seq";
      conversation_id ← get_cid m;
      Ok (Presence (mkPresence actor_id packet_seq conversation_id)));
   ("v1-packet-presence-active", λ m,
      _ ← extra_ok m ["type"; "version"; "actor_id"; "packet_seq"; "conversation_id";
                      "last_active"];
      actor_id ← get_bstr m "actor_id";
      packet_seq ← get_u64 m "packet_seq";
      conversation_id ← get_cid m;
      last_active ← get_u64 m "last_active";
      Ok (PresenceActive (mkPresenceActive actor_id packet_seq conversation_id last_active)))].

Definition packet_from_json (value : Json) : result unit PacketPlain :=
  m ← parse_obj value;
  _ ← require_v1 m;
  ty ← get_str m "type";
  on_type ty (frag_arms ++ heal_arms ++ live_arms) m.

Definition packed_packet `{CanonicalJson, Compress} (packet : PacketPlain) :
    result EngineError bytes :=
  let packed := compress (json_encode (packet_to_json packet)) in
  if bool_decide (length packed ≤ PACKET_PAD_LEN)%nat then Ok packed else Err BodyTooLarge.

Definition packed_durable_body `{CanonicalJson, Compress} (body : DurableBody) : bytes :=
  compress (json_encode (durable_body_to_json body)).

End WithBase64Url.

#[global] Arguments lit : simpl never.
#[global] Arguments str_eqb : simpl never.
#[global] Arguments find_key : simpl never.
