(* ===== verification/CodecLaws.v ===== *)
(** Round trips of the JSON mapping, and the canonical bytes end to end. *)

From stdpp Require Import base tactics list numbers option strings countable gmap.
From Stdlib Require Import Strings.Byte.
From S2P Require Import Prelude Text Ids Channel Defaults Payload Json Ports Codec.

(** * Objects with literal keys *)

Fixpoint assoc (l : fields) (key : string) : option Json :=
  match l with
  | [] => None
  | (k, v) :: l' => if String.eqb k key then Some v else assoc l' key
  end.

Definition known (keys : list string) (l : fields) : bool :=
  forallb (λ kv, existsb (λ k, String.eqb k kv.1) keys) l.

Lemma find_key_lits l k : find_key (lits l) (lit k) = assoc l k.
Proof.
  induction l as [|[k' v] l IH]; [done|]. cbn [lits map fst snd assoc].
  unfold find_key; fold find_key. rewrite str_eqb_lit. by destruct (String.eqb k' k).
Qed.

Lemma get_lits l k v : assoc l k = Some v → get (lits l) k = Ok v.
Proof. unfold get. rewrite find_key_lits. by intros ->. Qed.

Lemma get_str_lits l k s : assoc l k = Some (JString s) → get_str (lits l) k = Ok s.
Proof. intros E. unfold get_str. by rewrite (get_lits _ _ _ E). Qed.

Lemma get_u64_lits l k n : assoc l k = Some (JNumber n) → get_u64 (lits l) k = Ok n.
Proof. intros E. unfold get_u64. by rewrite (get_lits _ _ _ E). Qed.

Lemma get_bool_lits l k b : assoc l k = Some (JBool b) → get_bool (lits l) k = Ok b.
Proof. intros E. unfold get_bool. by rewrite (get_lits _ _ _ E). Qed.

Lemma extra_ok_lits l keys : known keys l = true → extra_ok (lits l) keys = Ok tt.
Proof.
  unfold known, extra_ok. intros E.
  replace (forallb _ _) with true; [done|]. symmetry. rewrite <-E. clear E.
  unfold lits. induction l as [|[k v] l IH]; [done|]. cbn [map forallb fst snd]. rewrite IH.
  f_equal. clear. induction keys as [|k' keys IH]; [done|]. cbn [map existsb].
  by rewrite str_eqb_lit, IH.
Qed.

Lemma on_type_lit {A} ty (arms : list (string * (members → result unit A))) m :
  on_type (lit ty) arms m =
    match find (λ arm, String.eqb ty arm.1) arms with Some arm => arm.2 m | None => Err tt end.
Proof.
  unfold on_type. induction arms as [|arm arms IH]; [done|]. cbn [find].
  rewrite str_eqb_lit. by destruct (String.eqb ty arm.1).
Qed.

Lemma id32_bytes {r} (a : branded r) : id32 (cval (as_bytes a)) = Ok a.
Proof. unfold id32. rewrite try_into_cval. by destruct a. Qed.

Lemma map_err_ok {E F A} (f : E → F) (r : result E A) a : r = Ok a → map_err f r = Ok a.
Proof. by intros ->. Qed.

Section RoundTrip.
Context `{Base64UrlLaws}.

Lemma get_bstr_lits l k bs : assoc l k = Some (bstr bs) → get_bstr (lits l) k = Ok bs.
Proof.
  intros E. unfold get_bstr. rewrite (get_str_lits _ _ _ E). cbn. by rewrite b64_decode_encode.
Qed.

Lemma get_tag_lits l k (t : Tag) : assoc l k = Some (id_json t) → get_tag (lits l) k = Ok t.
Proof.
  intros E. unfold get_tag. rewrite (get_bstr_lits _ _ _ E). cbn. rewrite try_into_cval.
  by destruct t.
Qed.

Lemma get_id_lits {r} l k (t : branded r) :
  assoc l k = Some (id_json t) → get_id (lits l) k = Ok t.
Proof. intros E. unfold get_id. rewrite (get_bstr_lits _ _ _ E). cbn. apply id32_bytes. Qed.

Lemma take_enc_lits l k pk :
  assoc l k = Some (bstr (enc_bytes pk)) → take_enc (lits l) k = Ok pk.
Proof. intros E. unfold take_enc. rewrite (get_bstr_lits _ _ _ E). by destruct pk. Qed.

Lemma take_sign_lits l k pk :
  assoc l k = Some (bstr (sign_bytes pk)) → take_sign (lits l) k = Ok pk.
Proof. intros E. unfold take_sign. rewrite (get_bstr_lits _ _ _ E). by destruct pk. Qed.

(** Read the next member of an object with literal keys. *)
Ltac get_step :=
  first
  [ rewrite bind_ok
  | erewrite extra_ok_lits by reflexivity
  | erewrite get_id_lits by reflexivity
  | erewrite get_tag_lits by reflexivity
  | erewrite take_enc_lits by reflexivity
  | erewrite take_sign_lits by reflexivity
  | erewrite get_bstr_lits by reflexivity
  | erewrite get_str_lits by reflexivity
  | erewrite get_u64_lits by reflexivity
  | erewrite get_bool_lits by reflexivity
  | erewrite get_lits by reflexivity ].

Ltac members_of := cbn [parse_obj obj]; repeat (get_step; cbn beta iota).

Lemma parse_durable_json ch : parse_durable (durable_json ch) = Ok ch.
Proof.
  unfold parse_durable, durable_json. members_of.
  unfold Kind_try_from, Address_try_from. autorewrite with checked. by destruct ch.
Qed.

Lemma parse_ephemeral_json ch : parse_ephemeral (ephemeral_json ch) = Ok ch.
Proof.
  unfold parse_ephemeral, ephemeral_json. members_of.
  unfold Kind_try_from, Address_try_from. autorewrite with checked. by destruct ch.
Qed.

Lemma parse_durable_list_json l : parse_durable_list (JArray (map durable_json l)) = Ok l.
Proof. apply collect_map. intros ch _. apply parse_durable_json. Qed.

Lemma parse_ephemeral_list_json l : parse_ephemeral_list (JArray (map ephemeral_json l)) = Ok l.
Proof. apply collect_map. intros ch _. apply parse_ephemeral_json. Qed.

Lemma parse_hlc_json h : parse_hlc (hlc_json h) = Ok h.
Proof. unfold parse_hlc, hlc_json. members_of. by destruct h. Qed.

Lemma parse_opt_u64_json n : parse_opt_u64 (or_null JNumber n) = Ok n.
Proof. by destruct n. Qed.

Lemma parse_opt_str_json s : parse_opt_str (or_null JString s) = Ok s.
Proof. by destruct s. Qed.

Lemma parse_opt_tag_json t : parse_opt_tag (or_null id_json t) = Ok t.
Proof.
  destruct t as [t|]; [|done]. cbn. rewrite b64_decode_encode. cbn. by rewrite id32_bytes.
Qed.

Lemma parse_name_cval n : parse_name (cval n) = Ok n.
Proof. unfold parse_name, DisplayName_try_from. by autorewrite with checked. Qed.

Lemma parse_pic_json pic : parse_pic (pic_json pic) = Ok pic.
Proof.
  destruct pic as [pic|]; [|done]. cbn. rewrite b64_decode_encode. cbn.
  unfold ProfilePic_try_from. by autorewrite with checked.
Qed.

Lemma parse_wake_json w : parse_wake (wake_json w) = Ok w.
Proof.
  unfold parse_wake, wake_json. members_of.
  replace (match or_null bstr (w_vapid_pk w) with JNull => _ | _ => _ end)
    with (Ok (E := unit) (w_vapid_pk w)).
  2: { destruct (w_vapid_pk w); [|done]. cbn. by rewrite b64_decode_encode. }
  members_of. apply map_err_ok, Wake_try_new_fields.
Qed.

Lemma parse_prefs_object p : parse_prefs (prefs_object p) = Ok p.
Proof.
  unfold parse_prefs, prefs_object, prefs_fields. members_of.
  destruct p as [rr ov st da w]. cbn [p_wake p_disappear_after]. members_of.
  destruct da; cbn [or_null from_option]; members_of;
    (destruct w as [w|]; cbn [or_null from_option]; members_of; [|done]);
    change (match wake_json w with JNull => _ | _ => _ end)
      with (parse_wake (wake_json w) ≫= λ w, Ok (Some w));
    by rewrite parse_wake_json.
Qed.

Lemma parse_defaults_json d : parse_defaults (defaults_json d) = Ok d.
Proof.
  unfold parse_defaults, defaults_json. members_of.
  replace (match or_null JNumber (df_disappear_after d) with JNull => _ | _ => _ end)
    with (Ok (E := unit) (df_disappear_after d)) by (by destruct (df_disappear_after d)).
  members_of. rewrite NotificationPrivacy_parse_as_str, parse_durable_list_json. cbn [ok_or].
  members_of. rewrite parse_ephemeral_list_json. members_of.
  apply map_err_ok, Defaults_try_new_fields.
Qed.

(** The parsers of nested values, as the rewriting the payload arms need. *)
Create Rewrite HintDb codec.
#[local] Hint Rewrite parse_durable_list_json parse_ephemeral_list_json parse_opt_u64_json
  parse_opt_str_json parse_opt_tag_json parse_name_cval parse_pic_json parse_prefs_object
  parse_defaults_json parse_policy_str parse_hlc_json : codec.

Ltac read_members := members_of; repeat (autorewrite with codec; cbn [ok_or]; members_of).

Lemma parse_keypair_json k :
  parse_keypair (obj [("pk", bstr (kp_public k)); ("sk", bstr (kp_secret k))]) = Ok k.
Proof. unfold parse_keypair. members_of. by destruct k. Qed.

Lemma parse_sign_pair_json k :
  parse_sign_pair (obj [("pk", bstr (skp_public k)); ("sk", bstr (skp_secret k))]) = Ok k.
Proof. unfold parse_sign_pair. members_of. by destruct k. Qed.

Lemma parse_member_json m : parse_member (member_json m) = Ok m.
Proof. unfold parse_member, member_json. members_of. by destruct m. Qed.

(** The intro of a handshake, and of a sync handshake with its device id. *)
Lemma parse_intro_fields i ty :
  parse_intro (lits (("type", ty) :: intro_fields i)) false = Ok i ∧
  ∀ dev, parse_intro (lits (("type", ty) :: intro_fields i ++ [("device_id", dev)])) true = Ok i.
Proof.
  split; [|intros dev]; unfold parse_intro, intro_fields, sync_keys; cbn [app]; read_members;
    by destruct i.
Qed.

Lemma parse_invitee_fields i ty :
  parse_invitee (lits (("type", ty) :: invitee_fields i)) false = Ok i ∧
  ∀ dev,
    parse_invitee (lits (("type", ty) :: invitee_fields i ++ [("device_id", dev)])) true = Ok i.
Proof.
  split; [|intros dev]; unfold parse_invitee, invitee_fields, sync_keys; cbn [app]; read_members;
    by destruct i.
Qed.

Lemma parse_media_fields m ty : parse_media (lits (("type", ty) :: media_fields m)) = Ok m.
Proof.
  unfold parse_media, media_fields. read_members.
  unfold Kind_try_from, Address_try_from. rewrite !validate_cval. cbn [map_err]. read_members.
  by destruct m.
Qed.

Lemma parse_group_invite_fields g ty :
  parse_group_invite (lits (("type", ty) :: group_invite_fields g)) = Ok g.
Proof. unfold parse_group_invite, group_invite_fields. read_members. by destruct g. Qed.

Lemma parse_roster_fields r ty : parse_roster (lits (("type", ty) :: roster_fields r)) = Ok r.
Proof.
  unfold parse_roster, roster_fields. read_members.
  rewrite collect_map by (intros; apply parse_member_json). read_members. by destruct r.
Qed.

Lemma parse_prefs_filtered ty p :
  parse_prefs (JObject (List.filter (λ kv, negb (str_eqb kv.1 (lit "type")))
                          (lits (("type", ty) :: prefs_fields p)))) = Ok p.
Proof.
  replace (List.filter _ _) with (lits (prefs_fields p)); [apply parse_prefs_object|].
  unfold prefs_fields, lits. cbn [map List.filter fst snd]. by rewrite !str_eqb_lit.
Qed.

(** Select the arm of a literal type and read its members. *)
Ltac select_arm :=
  members_of; rewrite on_type_lit;
  cbn [find app payload_arms handshake_arms chat_arms group_arms engine_arms
       frag_arms heal_arms live_arms];
  cbn -[lits extra_ok assoc on_type get_str];
  read_members.

Lemma payload_roundtrip p : payload_from_json (payload_to_json p) = Ok p.
Proof.
  unfold payload_to_json, payload_from_json.
  destruct p; cbn [payload_type payload_fields]; select_arm; try done.
  - by destruct n.
  - by rewrite (proj1 (parse_intro_fields _ _)).
  - by rewrite (proj1 (parse_invitee_fields _ _)).
  - etrans; [apply bind_ext; [apply (proj2 (parse_intro_fields (si_intro s) _))|reflexivity]|].
    by destruct s.
  - etrans; [apply bind_ext; [apply (proj2 (parse_invitee_fields (se_intro s) _))|reflexivity]|].
    by destruct s.
  - by destruct t.
  - by destruct e.
  - by destruct r.
  - by rewrite parse_media_fields.
  - etrans; [apply bind_ext; [apply parse_prefs_filtered|reflexivity]|done].
  - by rewrite parse_group_invite_fields.
  - by rewrite parse_roster_fields.
  - by destruct w as [[] []].
  - rewrite parse_keypair_json. members_of. by rewrite parse_sign_pair_json.
Qed.

(** Fragment indices are below 64 and heal id lists hold at most 32 ids. *)
Definition packet_bounds (packet : PacketPlain) : bool :=
  match packet with
  | TxFragMore p => (cval (fm_frag_i p) <=? 62)%N
  | TxFragLast p => (cval (fl_frag_i p) <=? 63)%N
  | HealWant p => bool_decide (length (hw_ids p) ≤ 32)%nat
  | HealHave p => bool_decide (length (hh_ids p) ≤ 32)%nat
  | _ => true
  end.

Lemma get_ids_lits l ids :
  assoc l "ids" = Some (tags_json ids) →
  get_ids (lits l) = if bool_decide (length ids ≤ 32)%nat then Ok ids else Err tt.
Proof.
  intros E. unfold get_ids, tags_json in *. rewrite (get_lits _ _ _ E). cbn [mbind result_bind].
  rewrite length_map. case_bool_decide; [|done]. cbn [negb refuse_if mbind result_bind].
  apply collect_map. intros t _. cbn. rewrite b64_decode_encode. cbn. by rewrite id32_bytes.
Qed.

Lemma get_frag_i_lits l n max :
  assoc l "frag_i" = Some (JNumber n) →
  get_frag_i (lits l) max = if (cval n <=? max)%N then Ok n else Err tt.
Proof. intros E. unfold get_frag_i. by rewrite (get_u64_lits _ _ _ E). Qed.

Lemma packet_parse p :
  packet_from_json (packet_to_json p) = if packet_bounds p then Ok p else Err tt.
Proof.
  unfold packet_to_json, packet_from_json, require_v1.
  destruct p as [p|p|p|p|p|p|p|p|p|p]; cbn [packet_type packet_fields packet_bounds];
    members_of; (replace (cval (clamp64 1) =? 1)%N with true by (by vm_compute));
    members_of; rewrite on_type_lit; cbn -[lits extra_ok assoc on_type get_str get_cid];
    unfold get_cid; members_of;
    try (erewrite get_frag_i_lits by reflexivity; destruct (_ <=? _)%N; [|done]; members_of);
    try (erewrite get_ids_lits by reflexivity; case_bool_decide; [|done]; members_of);
    by destruct p.
Qed.

Lemma durable_body_roundtrip b : durable_body_from_json (durable_body_to_json b) = Ok b.
Proof.
  unfold durable_body_from_json, durable_body_to_json. members_of. rewrite str_eqb_refl.
  cbn [negb refuse_if]. read_members. rewrite payload_roundtrip. by destruct b.
Qed.

Lemma ticket_parse t :
  ticket_from_json (ticket_to_json t) =
    if bool_decide (1 ≤ length (tk_persistents t) ≤ 4)%nat then Ok t else Err tt.
Proof.
  unfold ticket_from_json, ticket_to_json. members_of. rewrite str_eqb_refl.
  cbn [negb refuse_if]. members_of. rewrite try_into_cval. cbn [ok_or]. read_members.
  destruct t as [[s] [|p ps] e]; cbn [tk_persistents]; [done|].
  rewrite bool_decide_false by done. cbn [orb]. cbn [length].
  repeat case_bool_decide; try lia; [done|]. cbn [refuse_if]. by read_members.
Qed.

End RoundTrip.

(** * Parsers do not observe the order of members

    A parser looks members up by key, checks the set of keys, and recurses, so it gives
    the same result on values equal up to the order of object members. *)

#[export] Instance members_equiv_equivalence : Equivalence members_equiv.
Proof.
  split.
  - intros m k. destruct (find_key m k); by constructor.
  - intros m1 m2 HE k. specialize (HE k). inversion HE; constructor. by symmetry.
  - intros m1 m2 m3 H1 H2 k. specialize (H1 k). specialize (H2 k).
    inversion H1 as [x y Hxy Ex Ey|Ex Ey]; rewrite <-Ey in H2; inversion H2; constructor.
    by etrans.
Qed.

Lemma parse_obj_bind {A} (f : members → result unit A) v w :
  Proper (members_equiv ==> eq) f → json_equiv v w →
  (parse_obj v ≫= f) = (parse_obj w ≫= f).
Proof. intros Hf HE. inversion HE; subst; try done. cbn. by apply Hf. Qed.

Lemma get_bind2 {A} (f g : Json → result unit A) m1 m2 k :
  (∀ v w, json_equiv v w → f v = g w) → members_equiv m1 m2 →
  (get m1 k ≫= f) = (get m2 k ≫= g).
Proof.
  intros Hf HE. unfold get. specialize (HE (lit k)). inversion HE; [|done]. cbn. by apply Hf.
Qed.

Lemma get_bind {A} (f : Json → result unit A) m1 m2 k :
  Proper (json_equiv ==> eq) f → members_equiv m1 m2 →
  (get m1 k ≫= f) = (get m2 k ≫= f).
Proof. apply get_bind2. Qed.

Lemma extra_ok_spec m keys :
  extra_ok m keys = Ok tt ↔ ∀ k, k ∈ Json.keys m → k ∈ map lit keys.
Proof.
  unfold extra_ok. transitivity (forallb (λ kv, existsb (λ k, str_eqb k kv.1) (map lit keys)) m
    = true); [by destruct (forallb _ _)|]. rewrite forallb_forall. split.
  - intros HF k Hk. apply list_elem_of_fmap in Hk as ([k' v] & -> & Hin%list_elem_of_In).
    apply HF, existsb_exists in Hin as (k & Hk & Heq).
    apply str_eqb_eq in Heq as ->. by apply list_elem_of_In.
  - intros HD [k v] Hin. apply existsb_exists. exists k. rewrite str_eqb_refl. split; [|done].
    apply list_elem_of_In, HD. apply list_elem_of_In in Hin.
    by apply (list_elem_of_fmap_2 fst) in Hin.
Qed.

#[export] Instance extra_ok_proper : Proper (members_equiv ==> eq ==> eq) extra_ok.
Proof.
  intros m1 m2 HE keys ? <-.
  assert (extra_ok m1 keys = Ok tt ↔ extra_ok m2 keys = Ok tt) as Hiff.
  { rewrite !extra_ok_spec. split; intros HK k Hk; apply HK;
      by apply (members_equiv_keys _ _ k HE). }
  unfold extra_ok in *. destruct (forallb _ m1), (forallb _ m2); naive_solver.
Qed.

#[export] Instance get_str_proper : Proper (members_equiv ==> eq ==> eq) get_str.
Proof. intros m1 m2 HE k ? <-. apply get_bind; [|done]. by intros ?? []. Qed.

#[export] Instance get_u64_proper : Proper (members_equiv ==> eq ==> eq) get_u64.
Proof. intros m1 m2 HE k ? <-. apply get_bind; [|done]. by intros ?? []. Qed.

#[export] Instance get_bool_proper : Proper (members_equiv ==> eq ==> eq) get_bool.
Proof. intros m1 m2 HE k ? <-. apply get_bind; [|done]. by intros ?? []. Qed.

Lemma collect_proper {A} (f : Json → result unit A) l1 l2 :
  Proper (json_equiv ==> eq) f → Forall2 json_equiv l1 l2 → collect f l1 = collect f l2.
Proof.
  intros Hf. induction 1 as [|x y l1 l2 Hxy _ IH]; [done|]. cbn. by rewrite (Hf _ _ Hxy), IH.
Qed.

#[export] Instance on_type_proper {A} ty (arms : list (string * (members → result unit A))) :
  Forall (λ arm, Proper (members_equiv ==> eq) arm.2) arms →
  Proper (members_equiv ==> eq) (on_type ty arms).
Proof.
  intros HF m1 m2 HE. unfold on_type. induction HF as [|arm arms Ha _ IH]; [done|].
  cbn [find]. destruct (str_eqb ty (lit arm.1)); [by apply Ha|done].
Qed.

#[export] Instance filter_keys_proper key :
  Proper (members_equiv ==> members_equiv)
    (List.filter (λ kv : str * Json, negb (str_eqb kv.1 key))).
Proof.
  assert (∀ m k, find_key (List.filter (λ kv : str * Json, negb (str_eqb kv.1 key)) m) k =
                 if str_eqb k key then None else find_key m k) as HF.
  { intros m k. induction m as [|[k' v] m IH]; [by destruct (str_eqb k key)|].
    cbn [List.filter fst]. destruct (str_eqb k' key) eqn:E1; cbn [negb].
    - rewrite IH. apply str_eqb_eq in E1 as ->. destruct (str_eqb k key) eqn:E2; [done|].
      unfold find_key at 2; fold find_key. destruct (str_eqb key k) eqn:E3; [|done].
      apply str_eqb_eq in E3 as ->. by rewrite str_eqb_refl in E2.
    - unfold find_key; fold find_key. destruct (str_eqb k' k) eqn:E2; [|done].
      apply str_eqb_eq in E2 as ->. by rewrite E1. }
  intros m1 m2 HE k. rewrite !HF. destruct (str_eqb k key); [constructor|apply HE].
Qed.

Section Invariance.
Context `{Base64Url}.

#[export] Instance get_bstr_proper : Proper (members_equiv ==> eq ==> eq) get_bstr.
Proof. intros m1 m2 HE k ? <-. unfold get_bstr. by rewrite HE. Qed.

#[export] Instance get_tag_proper : Proper (members_equiv ==> eq ==> eq) get_tag.
Proof. intros m1 m2 HE k ? <-. unfold get_tag. by rewrite HE. Qed.

#[export] Instance get_id_proper {r} : Proper (members_equiv ==> eq ==> eq) (@get_id _ r).
Proof. intros m1 m2 HE k ? <-. unfold get_id. by rewrite HE. Qed.

#[export] Instance take_enc_proper : Proper (members_equiv ==> eq ==> eq) take_enc.
Proof. intros m1 m2 HE k ? <-. unfold take_enc. by rewrite HE. Qed.

#[export] Instance take_sign_proper : Proper (members_equiv ==> eq ==> eq) take_sign.
Proof. intros m1 m2 HE k ? <-. unfold take_sign. by rewrite HE. Qed.

(** A parser that only tells the kinds of value apart. *)
Ltac leaf_proper :=
  let v := fresh "v" in let w := fresh "w" in let E := fresh "E" in
  intros v w E; destruct E; reflexivity.

(** A parser: bind by bind, each read of a member respecting the equivalence. *)
Ltac parser_proper :=
  repeat first
  [ reflexivity
  | match goal with
    | HE : members_equiv ?m1 ?m2 |- _ ?m1 _ = _ ?m2 _ => rewrite HE; reflexivity
    | HE : members_equiv ?m1 ?m2 |- _ ?m1 = _ ?m2 => rewrite HE; reflexivity
    end
  | apply parse_obj_bind; [intros ?m1 ?m2 ?HE|done]
  | apply get_bind; [|assumption]
  | apply bind_ext; [|intros]
  | apply _
  | leaf_proper ].

#[export] Instance parse_durable_proper : Proper (json_equiv ==> eq) parse_durable.
Proof. intros v w HE. unfold parse_durable. parser_proper. Qed.

#[export] Instance parse_ephemeral_proper : Proper (json_equiv ==> eq) parse_ephemeral.
Proof. intros v w HE. unfold parse_ephemeral. parser_proper. Qed.

#[export] Instance parse_durable_list_proper : Proper (json_equiv ==> eq) parse_durable_list.
Proof. intros v w HE. destruct HE; try done. apply collect_proper; [apply _|done]. Qed.

#[export] Instance parse_ephemeral_list_proper : Proper (json_equiv ==> eq) parse_ephemeral_list.
Proof. intros v w HE. destruct HE; try done. apply collect_proper; [apply _|done]. Qed.

#[export] Instance parse_hlc_proper : Proper (json_equiv ==> eq) parse_hlc.
Proof. intros v w HE. unfold parse_hlc. parser_proper. Qed.

#[export] Instance parse_opt_u64_proper : Proper (json_equiv ==> eq) parse_opt_u64.
Proof. leaf_proper. Qed.

#[export] Instance parse_opt_str_proper : Proper (json_equiv ==> eq) parse_opt_str.
Proof. leaf_proper. Qed.

#[export] Instance parse_opt_tag_proper : Proper (json_equiv ==> eq) parse_opt_tag.
Proof. leaf_proper. Qed.

#[export] Instance parse_pic_proper : Proper (json_equiv ==> eq) parse_pic.
Proof. leaf_proper. Qed.

#[export] Instance parse_keypair_proper : Proper (json_equiv ==> eq) parse_keypair.
Proof. intros v w HE. unfold parse_keypair. parser_proper. Qed.

#[export] Instance parse_sign_pair_proper : Proper (json_equiv ==> eq) parse_sign_pair.
Proof. intros v w HE. unfold parse_sign_pair. parser_proper. Qed.

#[export] Instance parse_defaults_proper : Proper (json_equiv ==> eq) parse_defaults.
Proof. intros v w HE. unfold parse_defaults. parser_proper. Qed.

#[export] Instance parse_wake_proper : Proper (json_equiv ==> eq) parse_wake.
Proof. intros v w HE. unfold parse_wake. parser_proper. Qed.

#[export] Instance parse_prefs_proper : Proper (json_equiv ==> eq) parse_prefs.
Proof.
  intros v w HE. unfold parse_prefs. parser_proper.
  intros v1 w1 HE1. assert (parse_wake v1 = parse_wake w1) as E by (by rewrite HE1).
  destruct HE1; try done; by rewrite E.
Qed.

#[export] Instance parse_intro_proper : Proper (members_equiv ==> eq ==> eq) parse_intro.
Proof. intros m1 m2 HE b ? <-. unfold parse_intro. parser_proper. Qed.

#[export] Instance parse_invitee_proper : Proper (members_equiv ==> eq ==> eq) parse_invitee.
Proof. intros m1 m2 HE b ? <-. unfold parse_invitee. parser_proper. Qed.

#[export] Instance parse_media_proper : Proper (members_equiv ==> eq) parse_media.
Proof. intros m1 m2 HE. unfold parse_media. parser_proper. Qed.

#[export] Instance parse_group_invite_proper : Proper (members_equiv ==> eq) parse_group_invite.
Proof. intros m1 m2 HE. unfold parse_group_invite. parser_proper. Qed.

#[export] Instance parse_member_proper : Proper (json_equiv ==> eq) parse_member.
Proof. intros v w HE. unfold parse_member. parser_proper. Qed.

#[export] Instance parse_roster_proper : Proper (members_equiv ==> eq) parse_roster.
Proof.
  intros m1 m2 HE. unfold parse_roster. apply bind_ext; [by rewrite HE|intros _].
  apply get_bind2; [|done]. intros v w HE1. destruct HE1; try done.
  rewrite !bind_ok. apply bind_ext; [|intros; parser_proper].
  apply collect_proper; [apply _|done].
Qed.

#[export] Instance get_cid_proper : Proper (members_equiv ==> eq) get_cid.
Proof. intros m1 m2 HE. unfold get_cid. by rewrite HE. Qed.

#[export] Instance get_frag_i_proper : Proper (members_equiv ==> eq ==> eq) get_frag_i.
Proof. intros m1 m2 HE max ? <-. unfold get_frag_i. by rewrite HE. Qed.

#[export] Instance get_ids_proper : Proper (members_equiv ==> eq) get_ids.
Proof.
  intros m1 m2 HE. unfold get_ids. apply get_bind2; [|done].
  intros v w HE1. destruct HE1 as [| | | |l1 l2 HF|]; try done. rewrite !bind_ok.
  rewrite (Forall2_length _ _ _ HF). apply bind_ext; [done|intros _].
  apply collect_proper; [|done]. intros x y []; done.
Qed.

(** Each arm respects the equivalence. *)
Ltac arms_proper :=
  repeat (apply Forall_cons; split;
    [intros m1 m2 HE; cbn [snd];
     first [apply bind_ext; [|done];
            by apply parse_prefs_proper, je_object, filter_keys_proper
           | parser_proper]|]);
  apply Forall_nil; done.

Lemma payload_arms_proper : Forall (λ arm, Proper (members_equiv ==> eq) arm.2) payload_arms.
Proof. unfold payload_arms. rewrite !Forall_app. split_and!; arms_proper. Qed.

Lemma packet_arms_proper :
  Forall (λ arm, Proper (members_equiv ==> eq) arm.2) (frag_arms ++ heal_arms ++ live_arms).
Proof.
  rewrite !Forall_app. split_and!.
  - arms_proper.
  - arms_proper.
  - arms_proper.
Qed.

#[export] Instance payload_from_json_proper : Proper (json_equiv ==> eq) payload_from_json.
Proof.
  intros v w HE. unfold payload_from_json. parser_proper.
  by apply on_type_proper; [apply payload_arms_proper|].
Qed.

#[export] Instance packet_from_json_proper : Proper (json_equiv ==> eq) packet_from_json.
Proof.
  intros v w HE. unfold packet_from_json, require_v1. parser_proper.
  by apply on_type_proper; [apply packet_arms_proper|].
Qed.

#[export] Instance durable_body_from_json_proper :
  Proper (json_equiv ==> eq) durable_body_from_json.
Proof. intros v w HE. unfold durable_body_from_json. parser_proper. Qed.

#[export] Instance ticket_from_json_proper : Proper (json_equiv ==> eq) ticket_from_json.
Proof. intros v w HE. unfold ticket_from_json. parser_proper. Qed.

End Invariance.
