(* ===== verification/Wire.v ===== *)
(** The bytes on the wire: what the canonical encoding of a ticket, a durable body or a
    packet decodes and parses to. *)

From stdpp Require Import base tactics list numbers option strings countable gmap.
From Stdlib Require Import Strings.Byte.
From S2P Require Import Prelude Text Ids Channel Defaults Payload Json Ports.
From S2P Require Import CanonicalJson TestDoubles Codec CodecLaws.

(** * Emitted objects repeat no key *)

Lemma json_nodup_obj l :
  json_nodup (obj l) =
    bool_decide (NoDup (map fst l)) && forallb (λ kv : string * Json, json_nodup kv.2) l.
Proof.
  unfold obj. cbn [json_nodup]. f_equal.
  - apply bool_decide_ext. unfold keys, lits. rewrite map_map. cbn.
    rewrite <-(map_map fst lit). split; [apply NoDup_fmap_1|].
    apply (NoDup_fmap_2_strong lit). intros a b _ _. apply lit_inj.
  - unfold lits. induction l as [|[k v] l IH]; [done|]. cbn. by rewrite IH.
Qed.

Lemma json_nodup_map {A} (f : A → Json) l :
  (∀ a, json_nodup (f a) = true) → json_nodup (JArray (map f l)) = true.
Proof. intros Hf. cbn. induction l as [|a l IH]; [done|]. cbn. by rewrite Hf. Qed.

Lemma json_nodup_or_null {A} (f : A → Json) o :
  (∀ a, json_nodup (f a) = true) → json_nodup (or_null f o) = true.
Proof. intros Hf. by destruct o; cbn. Qed.

Section NoRepeats.
Context `{Base64Url}.

Lemma durable_json_nodup ch : json_nodup (durable_json ch) = true.
Proof. unfold durable_json. by rewrite json_nodup_obj. Qed.

Lemma ephemeral_json_nodup ch : json_nodup (ephemeral_json ch) = true.
Proof. unfold ephemeral_json. by rewrite json_nodup_obj. Qed.

Lemma wake_json_nodup w : json_nodup (wake_json w) = true.
Proof. unfold wake_json. rewrite json_nodup_obj. by destruct (w_vapid_pk w). Qed.

Lemma pic_json_nodup pic : json_nodup (pic_json pic) = true.
Proof. by destruct pic. Qed.

Lemma id_or_null_nodup {r} (o : option (branded r)) : json_nodup (or_null id_json o) = true.
Proof. by destruct o. Qed.

Lemma bstr_or_null_nodup {A} (f : A → bytes) o : json_nodup (or_null (λ a, bstr (f a)) o) = true.
Proof. by destruct o. Qed.

Lemma number_or_null_nodup o : json_nodup (or_null JNumber o) = true.
Proof. by destruct o. Qed.

Lemma str_or_null_nodup o : json_nodup (or_null JString o) = true.
Proof. by destruct o. Qed.

Lemma wake_or_null_nodup o : json_nodup (or_null wake_json o) = true.
Proof. destruct o; [apply wake_json_nodup|done]. Qed.

Lemma durables_nodup l : json_nodup (JArray (map durable_json l)) = true.
Proof. apply json_nodup_map, durable_json_nodup. Qed.

Lemma ephemerals_nodup l : json_nodup (JArray (map ephemeral_json l)) = true.
Proof. apply json_nodup_map, ephemeral_json_nodup. Qed.

Lemma tags_nodup l : json_nodup (tags_json l) = true.
Proof. by apply json_nodup_map. Qed.

Lemma member_nodup m : json_nodup (member_json m) = true.
Proof. unfold member_json. by rewrite json_nodup_obj. Qed.

Lemma member_list_nodup l : json_nodup (JArray (map member_json l)) = true.
Proof. apply json_nodup_map, member_nodup. Qed.

Create Rewrite HintDb nodup.
#[local] Hint Rewrite json_nodup_obj wake_json_nodup pic_json_nodup @id_or_null_nodup
  @bstr_or_null_nodup number_or_null_nodup str_or_null_nodup wake_or_null_nodup
  durables_nodup ephemerals_nodup tags_nodup member_list_nodup : nodup.

Lemma prefs_nodup p : json_nodup (prefs_object p) = true.
Proof.
  unfold prefs_object, prefs_fields. rewrite json_nodup_obj. cbn [forallb snd].
  autorewrite with nodup. done.
Qed.

Lemma defaults_nodup d : json_nodup (defaults_json d) = true.
Proof.
  unfold defaults_json. rewrite json_nodup_obj. cbn [forallb snd]. autorewrite with nodup. done.
Qed.

#[local] Hint Rewrite prefs_nodup defaults_nodup : nodup.

Lemma payload_nodup p : json_nodup (payload_to_json p) = true.
Proof.
  unfold payload_to_json. rewrite json_nodup_obj.
  destruct p; cbn [payload_type payload_fields];
    unfold intro_fields, invitee_fields, media_fields, prefs_fields, group_invite_fields,
      roster_fields; cbn [app forallb snd map fst]; autorewrite with nodup; reflexivity.
Qed.

Lemma packet_nodup p : json_nodup (packet_to_json p) = true.
Proof.
  unfold packet_to_json. rewrite json_nodup_obj.
  destruct p; cbn [packet_type packet_fields forallb snd map fst]; autorewrite with nodup;
    reflexivity.
Qed.

Lemma durable_body_nodup b : json_nodup (durable_body_to_json b) = true.
Proof.
  unfold durable_body_to_json, hlc_json. rewrite json_nodup_obj. cbn [forallb snd].
  rewrite json_nodup_obj, payload_nodup. done.
Qed.

Lemma ticket_nodup t : json_nodup (ticket_to_json t) = true.
Proof.
  unfold ticket_to_json. rewrite json_nodup_obj. cbn [forallb snd]. autorewrite with nodup. done.
Qed.

Lemma vault_header_nodup h : json_nodup (vault_header_to_json h) = true.
Proof.
  unfold vault_header_to_json. rewrite json_nodup_obj. cbn [forallb snd].
  autorewrite with nodup. by destruct (vh_passphrase_wrapped_dek h), (vh_prf_wrapped_dek h).
Qed.

End NoRepeats.

(** * Texts *)

Section Texts.
Context `{Base64UrlLaws} `{CanonicalJsonLaws}.

(** [from_json(&json.decode(text)?)]. *)
Definition parse_text {A} (from_json : Json → result unit A) (text : bytes) : result unit A :=
  v ← ok_or tt (json_decode text); from_json v.

Lemma parse_text_encode {A} (from_json : Json → result unit A) v :
  Proper (json_equiv ==> eq) from_json → json_nodup v = true →
  parse_text from_json (json_encode v) = from_json v.
Proof.
  intros Hf Hv. unfold parse_text. destruct (json_decode_encode v Hv) as (w & -> & HE).
  cbn. by rewrite HE.
Qed.

(** C1. Every transaction payload, of all 39 kinds, survives the wire: parsing the JSON
    text of a durable body gives back the conversation id, the clock and the payload. *)
Theorem durable_body_text b :
  parse_text durable_body_from_json (json_encode (durable_body_to_json b)) = Ok b.
Proof.
  rewrite parse_text_encode; [apply durable_body_roundtrip|apply _|apply durable_body_nodup].
Qed.

(** Parsing the JSON text of a packet gives back the packet when its fragment index
    is at most 62 (63 on the last fragment) and it lists at most 32 ids, and refuses it
    otherwise. *)
Theorem packet_text p :
  parse_text packet_from_json (json_encode (packet_to_json p)) =
    if packet_bounds p then Ok p else Err tt.
Proof. rewrite parse_text_encode; [apply packet_parse|apply _|apply packet_nodup]. Qed.

(** Parsing the JSON text of a ticket gives back the ticket when it lists one to
    four channels, and refuses it otherwise. *)
Theorem ticket_text t :
  parse_text ticket_from_json (json_encode (ticket_to_json t)) =
    if bool_decide (1 ≤ length (tk_persistents t) ≤ 4)%nat then Ok t else Err tt.
Proof. rewrite parse_text_encode; [apply ticket_parse|apply _|apply ticket_nodup]. Qed.

End Texts.

Lemma durable_body_text_witness :
  let b := mkDurableBody (from_bytes (fill 32 x01)) (mkHlc (clamp64 5) (clamp64 0)) (PWrap [x2a]) in
  parse_text durable_body_from_json (json_encode (durable_body_to_json b)) = Ok b.
Proof. exact (durable_body_text _). Defined.

Lemma packet_text_witness :
  let p := TxFragMore (mkTxFragMore [] (clamp64 2) (from_bytes (fill 32 x01)) (clamp64 62) [x2a]) in
  parse_text packet_from_json (json_encode (packet_to_json p)) = Ok p.
Proof. exact (packet_text _). Defined.

Lemma ticket_text_witness :
  let t := mkTicket (from_bytes (fill 32 x01)) [] (clamp64 9) in
  parse_text ticket_from_json (json_encode (ticket_to_json t)) = Err tt.
Proof. exact (ticket_text _). Defined.
