(* ===== verification/Chain.v ===== *)
(** Sending chains, packet sealing and opening, the bounded skip-ahead search, and the
    fragmentation of durable bodies: [protocol/v1/chain.rs].

    A draw of the [Rng] port is an argument ([rnd]); the ports of the suite are the
    classes of [Ports.v]. *)

From stdpp Require Import base tactics list numbers option strings countable gmap.
From Stdlib Require Import Strings.Byte.
From S2P Require Import Prelude Text Ids Channel Defaults Payload Json Ports Codec.

Definition MK_LABEL : bytes := blit "chuchotez/1/packet-mk".
Definition STEP_LABEL : bytes := blit "chuchotez/1/packet-step".
Definition EPH_MK_LABEL : bytes := blit "chuchotez/1/eph-mk".
Definition SKIP_AHEAD : nat := 50.
Definition LATER_EPOCHS : nat := 8.
Definition MK_CACHE_SECS : N := 172800.
Definition MAX_FRAGS : N := 64.

(** [PacketAeadKey]: the roles whose bytes may key the AEAD. *)
Class PacketAeadKey (K : Type) : Type := as_aead_bytes : K → arr 32.
#[export] Instance MessageKey_aead : PacketAeadKey MessageKey := as_bytes.
#[export] Instance EphMessageKey_aead : PacketAeadKey EphMessageKey := as_bytes.

Record SendChain : Set := mkSendChain {
  sc_root : ChainRoot; sc_c : ChainKey; sc_epoch : PacketEpoch; sc_packet_seq : PacketSeq
}.

#[export] Instance SendChain_eq_dec : EqDecision SendChain.
Proof. solve_decision. Defined.

Record CachedMk : Set := mkCachedMk {
  cm_mk : MessageKey; cm_expires_at : UnixSeconds; cm_tx_id : option Tag
}.

Record Opened : Set := mkOpened {
  o_packet : PacketPlain; o_chain : SendChain; o_skipped : list CachedMk;
  o_from_cache : bool; o_mk : MessageKey
}.

(** [a ^ b] on 32-byte arrays, byte by byte. *)
Lemma xor32_ok (a b : arr 32) :
  Nat.eqb (length (zip_with byte_xor (cval a) (cval b))) 32 = true.
Proof. rewrite length_zip_with, !arr_length. done. Qed.

Definition xor32 (a b : arr 32) : arr 32 :=
  mkChecked (zip_with byte_xor (cval a) (cval b)) (xor32_ok a b).

(** [set_xor_for]. *)
Definition set_xor_for (txs : list (Tag * DurableBody)) (conversation_id : ConversationId) :
    Tag :=
  from_bytes
    (fold_left (λ acc '(id, body),
       if branded_eq (db_conversation_id body) conversation_id then xor32 acc (as_bytes id)
       else acc) txs (fill 32 x00)).

Section Derivation.
Context `{HmacSha256}.

Definition expand_mac (key : arr 32) (info : bytes) : arr 32 :=
  as_bytes (expand (from_bytes key) info).

Definition labeled_expand (c : ChainKey) (label : bytes) (epoch packet_seq : u64) : arr 32 :=
  expand_mac (as_bytes c) (label ++ to_be_bytes epoch ++ to_be_bytes packet_seq).

Definition join (conv_secret : Secret) (sort : ConversationSort) (actor_id : bytes) :
    result EngineError SendChain :=
  root_label ← ok_or WrongPhase (chain_root_label sort);
  let info := if omits_actor_id sort then root_label else root_label ++ actor_id in
  let root := expand_mac (as_bytes conv_secret) info in
  let c := expand_mac root (default [] (chain_c_label sort)) in
  Ok (mkSendChain (from_bytes root) (from_bytes c) (clamp64 0) (clamp64 0)).

Definition mk (chain : SendChain) : MessageKey :=
  from_bytes (labeled_expand (sc_c chain) MK_LABEL (sc_epoch chain) (sc_packet_seq chain)).

Definition eph_mk (chain : SendChain) : EphMessageKey :=
  from_bytes (labeled_expand (sc_c chain) EPH_MK_LABEL (sc_epoch chain) (sc_packet_seq chain)).

Definition mix (chain : SendChain) (sort : ConversationSort) (shared : Secret) :
    result EngineError SendChain :=
  mixl ← ok_or WrongPhase (mix_label sort);
  c_label ← ok_or WrongPhase (chain_c_label sort);
  let root := expand_mac (as_bytes (sc_root chain)) (mixl ++ cval (as_bytes shared)) in
  let c := expand_mac root c_label in
  Ok (mkSendChain (from_bytes root) (from_bytes c) (sat_add (sc_epoch chain) 1) (clamp64 0)).

Definition step (chain : SendChain) : SendChain :=
  mkSendChain (sc_root chain)
    (from_bytes (labeled_expand (sc_c chain) STEP_LABEL (sc_epoch chain) (sc_packet_seq chain)))
    (sc_epoch chain) (sat_add (sc_packet_seq chain) 1).

End Derivation.

Section Packets.
Context `{Suite}.

(** [nonce.copy_from_slice(&rnd.as_bytes()[..12])]. *)
Lemma nonce_ok (rnd : Random32) : Nat.eqb (length (take 12 (cval (as_bytes rnd)))) 12 = true.
Proof. rewrite length_take, arr_length. done. Qed.

Definition nonce_of (rnd : Random32) : arr 12 :=
  mkChecked (take 12 (cval (as_bytes rnd))) (nonce_ok rnd).

Definition seal_packet {K} `{PacketAeadKey K} (rnd : Random32) (key : K)
    (packet : PacketPlain) : result EngineError bytes :=
  packed ← packed_packet packet;
  let padded := pad_to PACKET_PAD_LEN packed in
  let nonce := nonce_of rnd in
  let ct := aead_seal (from_bytes (as_aead_bytes key)) nonce [] padded in
  let body := cval nonce ++ ct in
  if bool_decide (length body = PACKET_LEN) then Ok body else Err MalformedPayload.

Definition open_plain {K} `{PacketAeadKey K} (key : K) (body : bytes) :
    result EngineError PacketPlain :=
  _ ← refuse_if (negb (bool_decide (length body = PACKET_LEN))) UnknownTag;
  let nonce := default (fill 12 x00) (try_into 12 (take PACKET_NONCE_LEN body)) in
  pt ← ok_or UnknownTag (aead_open (from_bytes (as_aead_bytes key)) nonce []
                           (drop PACKET_NONCE_LEN body));
  let packed := unpad pt in
  let raw := match decompress packed PACKET_MAX_UNCOMPRESSED with Ok r => r | Err _ => [] end in
  json ← ok_or UnknownTag (json_decode raw);
  map_err (λ _, UnknownTag) (packet_from_json json).

(** The first loop of [open_skip_ahead]: unexpired cached keys, in order. *)
Fixpoint open_cached (start : SendChain) (cached : list CachedMk) (now : u64) (body : bytes) :
    option Opened :=
  match cached with
  | [] => None
  | entry :: rest =>
    if (cval now <? cval (cm_expires_at entry))%N then
      match open_plain (cm_mk entry) body with
      | Ok packet => Some (mkOpened packet start [] true (cm_mk entry))
      | Err _ => open_cached start rest now body
      end
    else open_cached start rest now body
  end.

(** The second loop: [n] more positions of this epoch. *)
Fixpoint open_walk (n : nat) (chain : SendChain) (skipped : list CachedMk) (now : u64)
    (body : bytes) : option Opened :=
  match n with
  | O => None
  | S n' =>
    let key := mk chain in
    match open_plain key body with
    | Ok packet => Some (mkOpened packet (step chain) skipped false key)
    | Err _ =>
      open_walk n' (step chain) (skipped ++ [mkCachedMk key (sat_add now MK_CACHE_SECS) None])
        now body
    end
  end.

(** The inner loop of the third: positions [seq..=SKIP_AHEAD] of a later epoch, under
    the stepping key still held. *)
Fixpoint open_epoch (start : SendChain) (de : nat) (seqs : list nat) (body : bytes) :
    option Opened :=
  match seqs with
  | [] => None
  | seq :: rest =>
    let probe := mkSendChain (sc_root start) (sc_c start)
                   (sat_add (sc_epoch start) (N.of_nat de)) (clamp64 (N.of_nat seq)) in
    let key := mk probe in
    match open_plain key body with
    | Ok packet => Some (mkOpened packet (step probe) [] false key)
    | Err _ => open_epoch start de rest body
    end
  end.

Fixpoint open_later (start : SendChain) (des : list nat) (body : bytes) : option Opened :=
  match des with
  | [] => None
  | de :: rest =>
    match open_epoch start de (seq 0 (S SKIP_AHEAD)) body with
    | Some o => Some o
    | None => open_later start rest body
    end
  end.

Definition open_skip_ahead (start : SendChain) (cached : list CachedMk) (now : u64)
    (body : bytes) : result EngineError Opened :=
  match open_cached start cached now body with
  | Some o => Ok o
  | None =>
    match open_walk (S SKIP_AHEAD) start [] now body with
    | Some o => Ok o
    | None => ok_or UnknownTag (open_later start (seq 1 LATER_EPOCHS) body)
    end
  end.

Definition open_at (start : SendChain) (mixed : option SendChain) (cached : list CachedMk)
    (now : u64) (body : bytes) : result EngineError Opened :=
  match mixed with
  | Some mixed =>
    let key := mk mixed in
    match open_plain key body with
    | Ok packet => Ok (mkOpened packet (step mixed) [] false key)
    | Err _ => open_skip_ahead start cached now body
    end
  | None => open_skip_ahead start cached now body
  end.

(** * Fragments *)

(** The binary search of [largest_frag]; each round shrinks [hi - lo]. *)
Fixpoint frag_search (fuel : nat) (build : bytes → PacketPlain) (lo hi : nat) : nat :=
  match fuel with
  | O => lo
  | S f =>
    if bool_decide (lo < hi)%nat then
      let mid := (lo + ((hi - lo) + 1) / 2)%nat in
      match packed_packet (build (replicate mid x5a)) with
      | Ok p => if bool_decide (length p ≤ PACKET_PAD_LEN)%nat then frag_search f build mid hi
                else frag_search f build lo (mid - 1)
      | Err _ => frag_search f build lo (mid - 1)
      end
    else lo
  end.

Definition largest_frag (build : bytes → PacketPlain) : nat :=
  frag_search PACKET_PAD_LEN build 0 PACKET_PAD_LEN.

Definition next_fragment (remaining : bytes) (tx_id set_xor : Tag) (packet_seq frag_i : u64)
    (actor_id : bytes) : result EngineError (PacketPlain * nat) :=
  if (MAX_FRAGS <=? cval frag_i)%N then Err BodyTooLarge
  else
    let last frag := TxFragLast (mkTxFragLast actor_id packet_seq tx_id frag_i frag set_xor) in
    let more frag := TxFragMore (mkTxFragMore actor_id packet_seq tx_id frag_i frag) in
    let max_last := largest_frag last in
    if bool_decide (length remaining ≤ max_last)%nat then
      Ok (last remaining, length remaining)
    else
      let max_more := largest_frag more in
      if bool_decide (max_more = 0)%nat then Err BodyTooLarge
      else
        let n := Nat.min (length remaining) max_more in
        Ok (more (take n remaining), n).

Definition is_last (packet : PacketPlain) : bool :=
  match packet with TxFragLast _ => true | _ => false end.

(** The loop of [fragment_body]; [None] when the fuel is out, which
    [fragment_fuel] in [ChainLaws.v] excludes. *)
Fixpoint fragment_loop (fuel : nat) (remaining : bytes) (packets : list PacketPlain)
    (tx_id set_xor : Tag) (start_seq : u64) (actor_id : bytes) :
    option (result EngineError (list PacketPlain)) :=
  match fuel with
  | O => None
  | S f =>
    let frag_i := clamp64 (N.of_nat (length packets)) in
    let packet_seq := sat_add start_seq (N.of_nat (length packets)) in
    match next_fragment remaining tx_id set_xor packet_seq frag_i actor_id with
    | Err e => Some (Err e)
    | Ok (packet, n) =>
      if is_last packet then Some (Ok (packets ++ [packet]))
      else fragment_loop f (drop n remaining) (packets ++ [packet]) tx_id set_xor start_seq
             actor_id
    end
  end.

Definition fragment_body (packed_body : bytes) (tx_id set_xor : Tag) (start_seq : u64)
    (actor_id : bytes) : result EngineError (list PacketPlain) :=
  default (Err BodyTooLarge)
    (fragment_loop (S (N.to_nat MAX_FRAGS)) packed_body [] tx_id set_xor start_seq actor_id).

Definition packed_tx (body : DurableBody) : bytes := packed_durable_body body.

(** * Folding a chain *)

Definition chain_to_json (conversation_id : ConversationId) (actor_id : Actor)
    (chain : SendChain) : Json :=
  obj [("conversation_id", id_json conversation_id);
       ("actor_id", bstr (Actor_as_bytes actor_id));
       ("actor_role", JString (Actor_role actor_id));
       ("root", id_json (sc_root chain));
       ("c", id_json (sc_c chain));
       ("epoch", JNumber (sc_epoch chain));
       ("packet_seq", JNumber (sc_packet_seq chain))].

Definition decode_bstr (value : Json) : result EngineError bytes :=
  match value with
  | JString s => ok_or MalformedPersist (b64_decode s)
  | _ => Err MalformedPersist
  end.

Definition decode32 (value : Json) : result EngineError (arr 32) :=
  bs ← decode_bstr value; ok_or MalformedPersist (try_into 32 bs).

Definition chain_from_json (value : Json) :
    result EngineError (ConversationId * Actor * SendChain) :=
  members ← match value with JObject m => Ok m | _ => Err MalformedPersist end;
  let field k := ok_or MalformedPersist (find_key members (lit k)) in
  cid ← (v ← field "conversation_id"; decode_bstr v);
  _ ← refuse_if (negb (bool_decide (length cid = 32%nat))) MalformedPersist;
  actor_id ← (v ← field "actor_id"; decode_bstr v);
  role ← match find_key members (lit "actor_role") with
         | Some (JString role) => Ok (Some role)
         | Some _ => Err MalformedPersist
         | None => Ok None
         end;
  root ← (v ← field "root"; decode32 v);
  c ← (v ← field "c"; decode32 v);
  epoch ← (v ← field "epoch";
    match v with JNumber n => Ok n | _ => Err MalformedPersist end);
  packet_seq ← (v ← field "packet_seq";
    match v with JNumber n => Ok n | _ => Err MalformedPersist end);
  cid ← ok_or MalformedPersist (try_into 32 cid);
  actor ← ok_or MalformedPersist (Actor_from_stored role actor_id);
  Ok (from_bytes cid, actor, mkSendChain (from_bytes root) (from_bytes c) epoch packet_seq).

End Packets.
