(* ===== verification/ChainLaws.v ===== *)
(** What sealing, opening, the skip-ahead search, fragmentation and the set fingerprint
    of [Chain.v] guarantee. *)

From stdpp Require Import base tactics list numbers option strings countable gmap.
From Stdlib Require Import Strings.Byte.
From S2P Require Import Prelude Text Ids Channel Defaults Payload Json Ports.
From S2P Require Import CanonicalJson TestDoubles Codec CodecLaws Wire Chain.

(** * The skip-ahead search as a search of a list of candidates *)

Section Search.
Context `{Suite}.

Definition chain_at (n : nat) (start : SendChain) : SendChain := Nat.iter n step start.

(** The keys remembered on the way to position [n]. *)
Definition skipped_to (n : nat) (start : SendChain) (now : u64) : list CachedMk :=
  map (λ i, mkCachedMk (mk (chain_at i start)) (sat_add now MK_CACHE_SECS) None) (seq 0 n).

Definition candidate : Type := MessageKey * (PacketPlain → Opened).

Definition cached_candidates (start : SendChain) (cached : list CachedMk) (now : u64) :
    list candidate :=
  map (λ e, (cm_mk e, λ p, mkOpened p start [] true (cm_mk e)))
    (List.filter (λ e, (cval now <? cval (cm_expires_at e))%N) cached).

Definition walk_candidate (start : SendChain) (now : u64) (n : nat) : candidate :=
  let key := mk (chain_at n start) in
  (key, λ p, mkOpened p (chain_at (S n) start) (skipped_to n start now) false key).

Definition later_candidate (start : SendChain) (de n : nat) : candidate :=
  let probe := mkSendChain (sc_root start) (sc_c start)
                 (sat_add (sc_epoch start) (N.of_nat de)) (clamp64 (N.of_nat n)) in
  (mk probe, λ p, mkOpened p (step probe) [] false (mk probe)).

(** Every key a receiver may try, in the order tried: the unexpired cached ones, the
    next 51 positions of the epoch, and 51 positions in each of the next 8 epochs. *)
Definition candidates (start : SendChain) (cached : list CachedMk) (now : u64) :
    list candidate :=
  cached_candidates start cached now
  ++ map (walk_candidate start now) (seq 0 51)
  ++ flat_map (λ de, map (later_candidate start de) (seq 0 51)) (seq 1 8).

Fixpoint first_open (cands : list candidate) (body : bytes) : option Opened :=
  match cands with
  | [] => None
  | (key, outcome) :: rest =>
    match open_plain key body with
    | Ok p => Some (outcome p)
    | Err _ => first_open rest body
    end
  end.

Lemma first_open_app l1 l2 body :
  first_open (l1 ++ l2) body =
    match first_open l1 body with Some o => Some o | None => first_open l2 body end.
Proof.
  induction l1 as [|[k f] l1 IH]; [done|]. cbn. by destruct (open_plain k body).
Qed.

Lemma chain_at_succ n start : chain_at (S n) start = step (chain_at n start).
Proof. done. Qed.

Lemma open_cached_first start cached now body :
  open_cached start cached now body = first_open (cached_candidates start cached now) body.
Proof.
  induction cached as [|e cached IH]; [done|]. cbn [open_cached cached_candidates List.filter].
  unfold cached_candidates in *. cbn [List.filter].
  destruct (_ <? _)%N; [|done]. cbn [map first_open]. by destruct (open_plain (cm_mk e) body).
Qed.

Lemma open_walk_first start now body n k :
  open_walk n (chain_at k start) (skipped_to k start now) now body =
    first_open (map (walk_candidate start now) (seq k n)) body.
Proof.
  revert k. induction n as [|n IH]; intros k; [done|]. cbn [open_walk seq map first_open].
  unfold walk_candidate at 1. destruct (open_plain _ body); [done|].
  rewrite <-IH, chain_at_succ. f_equal. unfold skipped_to. by rewrite seq_S, map_app.
Qed.

Lemma open_later_first start body des :
  open_later start des body =
    first_open (flat_map (λ de, map (later_candidate start de) (seq 0 51)) des) body.
Proof.
  induction des as [|de des IH]; [done|]. cbn [open_later flat_map].
  rewrite first_open_app, <-IH.
  enough (∀ l, open_epoch start de l body = first_open (map (later_candidate start de) l) body)
    as -> by done.
  induction l as [|n l IHl]; [done|]. cbn [open_epoch map first_open later_candidate].
  by destruct (open_plain _ body).
Qed.

Lemma open_skip_ahead_first start cached now body :
  open_skip_ahead start cached now body =
    ok_or UnknownTag (first_open (candidates start cached now) body).
Proof.
  unfold open_skip_ahead, candidates. rewrite !first_open_app.
  rewrite <-open_cached_first, <-open_later_first.
  change (open_walk (S SKIP_AHEAD) start [] now body)
    with (open_walk 51 (chain_at 0 start) (skipped_to 0 start now) now body).
  rewrite open_walk_first.
  destruct (open_cached start cached now body); [done|].
  by destruct (first_open (map _ _) body).
Qed.

(** The work for any body, garbage included, is bounded. *)
Lemma candidates_length start cached now :
  (length (candidates start cached now) ≤ length cached + 459)%nat.
Proof.
  unfold candidates, cached_candidates. rewrite !length_app, !length_map, length_seq.
  pose proof (List.filter_length_le (λ e, (cval now <? cval (cm_expires_at e))%N) cached).
  cbn [flat_map seq]. rewrite !length_app, !length_map. cbn [length]. lia.
Qed.

Lemma first_open_None l body :
  (∀ key f, (key, f) ∈ l → is_ok (open_plain key body) = false) → first_open l body = None.
Proof.
  induction l as [|[key f] l IH]; intros Hl; [done|]. cbn [first_open].
  pose proof (Hl key f ltac:(left)) as Hk. destruct (open_plain key body); [done|].
  apply IH. intros k g Hin. apply (Hl k g). by right.
Qed.

Lemma first_open_Some l body o :
  first_open l body = Some o →
  ∃ l1 key f l2 p, l = l1 ++ (key, f) :: l2 ∧ open_plain key body = Ok p ∧ o = f p ∧
    first_open l1 body = None.
Proof.
  induction l as [|[key f] l IH]; [done|]. cbn [first_open].
  destruct (open_plain key body) as [p|] eqn:E.
  - intros [= <-]. by exists [], key, f, l, p.
  - intros (l1 & k & g & l2 & p & -> & Hk & Ho & Hl1)%IH.
    exists ((key, f) :: l1), k, g, l2, p. split_and!; [done|done|done|]. cbn. by rewrite E.
Qed.

End Search.

(** * Sealing and opening *)

Section SealOpen.
Context `{Suite} `{!Base64UrlLaws, !AeadLaws, !CanonicalJsonLaws, !CompressLaws}.

Definition deflated (p : PacketPlain) : bytes := compress (json_encode (packet_to_json p)).

(** The JSON text of a packet fits the receiver's decompression cap. *)
Definition text_fits (p : PacketPlain) : Prop :=
  (N.of_nat (length (json_encode (packet_to_json p))) <= PACKET_MAX_UNCOMPRESSED)%N.

(** The receiver strips every zero byte at the end of the plaintext, those of the
    compressed stream with those of the padding.  A packet arrives when its text fits and
    its stream inflates the same without the zero bytes it ends in. *)
Definition arrives (p : PacketPlain) : Prop :=
  text_fits p ∧
  decompress (unpad (deflated p)) PACKET_MAX_UNCOMPRESSED =
    decompress (deflated p) PACKET_MAX_UNCOMPRESSED.

(** A stream that ends in no zero byte loses none. *)
Lemma arrives_nonzero p : text_fits p → last (deflated p) ≠ Some x00 → arrives p.
Proof. intros HF HL. split; [done|]. by rewrite unpad_kept. Qed.

(** What [open_plain] reads out of a plaintext once the padding is stripped. *)
Definition read_packet (src : bytes) : result EngineError PacketPlain :=
  let raw := match decompress src PACKET_MAX_UNCOMPRESSED with Ok r => r | Err _ => [] end in
  json ← ok_or UnknownTag (json_decode raw);
  map_err (λ _, UnknownTag) (packet_from_json json).

Lemma read_deflated p :
  arrives p → read_packet (unpad (deflated p)) = if packet_bounds p then Ok p else Err UnknownTag.
Proof.
  intros [Hfit Hunpad]. unfold read_packet. rewrite Hunpad. unfold deflated.
  rewrite decompress_compress by done.
  pose proof (packet_text p) as HT. unfold parse_text in HT.
  destruct (json_decode _) as [v|]; cbn in *.
  - rewrite HT. by destruct (packet_bounds p).
  - by destruct (packet_bounds p).
Qed.

Lemma seal_packet_ok {K} `{PacketAeadKey K} rnd (key : K) p :
  seal_packet rnd key p =
    packed ← packed_packet p;
    Ok (cval (nonce_of rnd)
        ++ aead_seal (from_bytes (as_aead_bytes key)) (nonce_of rnd) []
             (pad_to PACKET_PAD_LEN packed)).
Proof.
  unfold seal_packet, packed_packet. case_bool_decide as Hl; [|done]. rewrite !bind_ok.
  rewrite bool_decide_true; [done|].
  rewrite length_app, aead_seal_length, arr_length, pad_to_length by done. done.
Qed.

Lemma open_plain_sealed {K} `{PacketAeadKey K} (key : K) (nonce : arr 12) pt :
  length pt = PACKET_PAD_LEN →
  open_plain key (cval nonce ++ aead_seal (from_bytes (as_aead_bytes key)) nonce [] pt) =
    read_packet (unpad pt).
Proof.
  intros Hl. unfold open_plain.
  rewrite bool_decide_true by (rewrite length_app, aead_seal_length, arr_length, Hl; done).
  cbn [negb refuse_if mbind result_bind].
  assert (length (cval nonce) = PACKET_NONCE_LEN) as Hn by auto with widths.
  rewrite take_app_length', drop_app_length' by done.
  rewrite try_into_cval. cbn [default from_option id]. by rewrite aead_open_seal.
Qed.

(** The receiver reads the stream without the zero bytes it ends in. *)
Lemma seal_reads {K} `{PacketAeadKey K} rnd (key : K) p body :
  seal_packet rnd key p = Ok body →
  length body = PACKET_LEN ∧ open_plain key body = read_packet (unpad (deflated p)).
Proof.
  rewrite seal_packet_ok. unfold packed_packet.
  case_bool_decide as Hl; [|done]. rewrite bind_ok. intros <-%Ok_inj.
  split.
  { by rewrite length_app, aead_seal_length, arr_length, pad_to_length. }
  rewrite open_plain_sealed by by apply pad_to_length. unfold pad_to.
  by rewrite unpad_app_zeros.
Qed.

Lemma seal_open {K} `{PacketAeadKey K} rnd (key : K) p body :
  arrives p → seal_packet rnd key p = Ok body →
  length body = PACKET_LEN ∧
  open_plain key body = if packet_bounds p then Ok p else Err UnknownTag.
Proof. intros HA [HL ->]%seal_reads. by rewrite read_deflated. Qed.

End SealOpen.

(** * A concrete chain, to evaluate the theorems on *)

(** A concrete chain and packet. *)
Definition sample_chain : SendChain :=
  mkSendChain (from_bytes (fill 32 x07)) (from_bytes (fill 32 x09)) (clamp64 0) (clamp64 0).
Definition sample_packet : PacketPlain :=
  TxFragLast (mkTxFragLast [] (clamp64 2) (from_bytes (fill 32 x01)) (clamp64 0) [x2a]
                (from_bytes (fill 32 x02))).
Definition sample_body (n : nat) : bytes :=
  match seal_packet (from_bytes (fill 32 x05)) (mk (chain_at n sample_chain)) sample_packet with
  | Ok body => body
  | Err _ => []
  end.
Lemma sample_sealed n : is_ok (seal_packet (from_bytes (fill 32 x05)) (mk (chain_at n sample_chain)) sample_packet) = true →
  seal_packet (from_bytes (fill 32 x05)) (mk (chain_at n sample_chain)) sample_packet = Ok (sample_body n).
Proof. unfold sample_body. by destruct (seal_packet _ _ _). Qed.

Lemma sample_fits : text_fits sample_packet.
Proof. by vm_compute. Qed.

(** The streams of the test suite end in their marker. *)
Lemma marked_arrives p : @text_fits test_suite p → @arrives test_suite p.
Proof.
  intros HF. apply arrives_nonzero; [exact HF|].
  change (deflated p) with (json_encode (packet_to_json p) ++ [x01]). by rewrite last_snoc.
Qed.

Lemma sample_arrives : arrives sample_packet.
Proof. exact (marked_arrives sample_packet sample_fits). Qed.

(** C2. A sealed packet is always 512 bytes; opening it under the same key reads the
    compressed stream without the zero bytes at its end, which go with the padding.  When
    the stream ends in no zero byte, or inflates the same without them, opening gives back
    the packet if its fragment index and id count are within the protocol's bounds, and
    [UnknownTag] otherwise.  Sealing refuses exactly the packets whose compressed text is
    longer than 484 bytes. *)
Theorem seal_packet_open `{Suite} `{!Base64UrlLaws, !AeadLaws, !CanonicalJsonLaws, !CompressLaws}
    rnd (key : MessageKey) p :
  (∀ body, seal_packet rnd key p = Ok body →
     length body = PACKET_LEN ∧
     open_plain key body = read_packet (unpad (deflated p)) ∧
     (text_fits p →
      last (deflated p) ≠ Some x00 ∨
      decompress (unpad (deflated p)) PACKET_MAX_UNCOMPRESSED =
        decompress (deflated p) PACKET_MAX_UNCOMPRESSED →
      open_plain key body = if packet_bounds p then Ok p else Err UnknownTag)) ∧
  (seal_packet rnd key p = Err BodyTooLarge ∨ is_ok (seal_packet rnd key p) = true) ∧
  (is_ok (seal_packet rnd key p) = true ↔
     (length (compress (json_encode (packet_to_json p))) ≤ PACKET_PAD_LEN)%nat).
Proof.
  split.
  { intros body [HL HO]%seal_reads. split_and!; [done|done|]. rewrite HO.
    intros HF [HN|HE]; apply read_deflated; [by apply arrives_nonzero|by split]. }
  rewrite seal_packet_ok. unfold packed_packet. case_bool_decide; cbn; split_and!; auto; done.
Qed.

Lemma seal_packet_open_witness :
  length (sample_body 0) = PACKET_LEN ∧
  open_plain (mk sample_chain) (sample_body 0) = Ok sample_packet.
Proof.
  pose proof (seal_packet_open (from_bytes (fill 32 x05)) (mk sample_chain) sample_packet)
    as [H _].
  destruct (H (sample_body 0)) as (H1 & _ & H2); [by apply (sample_sealed 0); vm_compute|].
  split; [exact H1|]. rewrite H2; [by vm_compute|exact sample_fits|left; by vm_compute].
Defined.

(** A compressor that keeps the law and ends every stream in a zero byte it needs. *)
Definition ZeroMarked : Compress := {|
  compress bs := bs ++ [x00];
  decompress src max :=
    match rev src with
    | x00 :: rest =>
        if (N.of_nat (length rest) <=? max)%N then Ok (rev rest) else Err Compress_Oversize
    | _ => Err Compress_Codec
    end
|}.

Lemma ZeroMarked_lawful : @CompressLaws ZeroMarked.
Proof.
  intros bs max Hle. cbn [compress decompress ZeroMarked]. rewrite rev_app_distr. cbn [rev app].
  rewrite length_rev, rev_involutive. by apply N.leb_le in Hle as ->.
Qed.

Definition zero_suite : Suite := {|
  suite_hmac := XorHmac; suite_compress := ZeroMarked; suite_b64u := @suite_b64u test_suite;
  suite_aead := @suite_aead test_suite; suite_json := @suite_json test_suite;
  suite_kem := @suite_kem test_suite; suite_sign := @suite_sign test_suite;
  suite_hash := @suite_hash test_suite; suite_argon := @suite_argon test_suite
|}.

Definition sealed_sample `{Suite} : result EngineError bytes :=
  seal_packet (from_bytes (fill 32 x05)) (mk sample_chain) sample_packet.

(** The stripping can lose a packet: under a lawful compressor one that fits its bounds and
    seals does not open under its own key. *)
Lemma zero_end_lost :
  @CompressLaws (@suite_compress zero_suite) ∧ @text_fits zero_suite sample_packet ∧
  packet_bounds sample_packet = true ∧ is_ok (@sealed_sample zero_suite) = true ∧
  (body ← @sealed_sample zero_suite; let H := zero_suite in open_plain (mk sample_chain) body) =
    Err UnknownTag.
Proof. split_and!; [exact ZeroMarked_lawful|..]; by vm_compute. Qed.

(** C40. The skip-ahead search opens a body with the first key that opens it among the
    candidates (the unexpired cached keys in order, the next 51 positions of the epoch,
    and 51 positions under each of the next 8 epoch numbers), moves the chain past that
    position, remembers exactly the keys it skipped, and fails with [UnknownTag] when
    none opens it; at most 459 keys beyond the cached ones are tried. *)
Theorem open_skip_ahead_spec `{Suite} start cached now body :
  open_skip_ahead start cached now body =
    ok_or UnknownTag (first_open (candidates start cached now) body) ∧
  (length (candidates start cached now) ≤ length cached + 459)%nat ∧
  (∀ o, open_skip_ahead start cached now body = Ok o →
     open_plain (o_mk o) body = Ok (o_packet o) ∧
     (o_from_cache o = true → o_chain o = start ∧ o_skipped o = []) ∧
     (length (o_skipped o) ≤ 50)%nat).
Proof.
  split; [apply open_skip_ahead_first|]. split; [apply candidates_length|].
  intros o. rewrite open_skip_ahead_first.
  destruct (first_open _ _) as [o'|] eqn:E; [|done]. intros [= ->].
  apply first_open_Some in E as (l1 & key & f & l2 & p & Hl & Hk & -> & _).
  assert ((key, f) ∈ candidates start cached now) as Hin
    by (rewrite Hl; apply elem_of_app; right; left).
  unfold candidates in Hin. rewrite !elem_of_app in Hin. destruct Hin as [Hin|[Hin|Hin]].
  - apply list_elem_of_fmap in Hin as (e & [= -> ->] & _). cbn. split_and!; [done|done|lia].
  - apply list_elem_of_fmap in Hin as (n & [= -> ->] & Hn). cbn [o_mk o_packet o_from_cache o_skipped].
    split_and!; [done|done|]. unfold skipped_to. rewrite length_map, length_seq.
    apply elem_of_seq in Hn. lia.
  - apply list_elem_of_In, in_flat_map in Hin as (de & _ & Hin%list_elem_of_In).
    apply list_elem_of_fmap in Hin as (n & [= -> ->] & _). cbn. split_and!; [done|done|lia].
Qed.

(** C29. A receiver up to 50 packets behind catches up: the packet the sender sealed [n]
    positions ahead opens, the receiver's chain becomes the sender's next chain, and the
    keys of the [n] positions in between are kept; provided the packet's stream inflates
    without the zero bytes at its end, and no unexpired cached key and no key of an earlier
    position opens that body. *)
Theorem receiver_catches_up `{Suite} `{!Base64UrlLaws, !AeadLaws, !CanonicalJsonLaws, !CompressLaws}
    rnd start cached now n p body :
  (n ≤ 50)%nat → arrives p → packet_bounds p = true →
  seal_packet rnd (mk (chain_at n start)) p = Ok body →
  (∀ e, e ∈ cached → (cval now < cval (cm_expires_at e))%N →
     is_ok (open_plain (cm_mk e) body) = false) →
  (∀ i, (i < n)%nat → is_ok (open_plain (mk (chain_at i start)) body) = false) →
  open_skip_ahead start cached now body =
    Ok (mkOpened p (chain_at (S n) start) (skipped_to n start now) false (mk (chain_at n start))).
Proof.
  intros Hn Hfit Hb Hseal Hc Hi. apply seal_open in Hseal as [_ Hopen]; [|done].
  rewrite Hb in Hopen. rewrite open_skip_ahead_first. unfold candidates.
  rewrite first_open_app, first_open_None.
  2: { intros key f Hin. apply list_elem_of_fmap in Hin as (e & [= -> ->] & Hin).
       apply list_elem_of_In, filter_In in Hin as [Hin Hlt%N.ltb_lt].
       apply Hc; [by apply list_elem_of_In|done]. }
  replace (seq 0 51) with (seq 0 n ++ seq n (51 - n)) at 1
    by (rewrite <-seq_app; f_equal; lia).
  rewrite map_app, !first_open_app, first_open_None.
  2: { intros key f Hin. apply list_elem_of_fmap in Hin as (i & [= -> ->] & Hin).
       apply elem_of_seq in Hin. apply Hi. lia. }
  replace (51 - n)%nat with (S (50 - n)) by lia. cbn [seq map first_open walk_candidate].
  by rewrite Hopen.
Qed.

Lemma receiver_catches_up_witness :
  open_skip_ahead sample_chain [] (clamp64 100) (sample_body 2) =
    Ok (mkOpened sample_packet (chain_at 3 sample_chain)
          (skipped_to 2 sample_chain (clamp64 100)) false (mk (chain_at 2 sample_chain))).
Proof.
  apply (receiver_catches_up (from_bytes (fill 32 x05))).
  - lia.
  - exact sample_arrives.
  - by vm_compute.
  - by apply sample_sealed; vm_compute.
  - intros e He. by apply not_elem_of_nil in He.
  - intros [|[|i]] Hi; [by vm_compute|by vm_compute|lia].
Defined.

(** A packet that arrives late still opens: once the receiver skipped to position
    [n], a packet sealed at position [i < n] opens with a remembered key until that key
    expires two days later, without moving the chain. *)
Theorem late_packet_opens `{Suite} `{!Base64UrlLaws, !AeadLaws, !CanonicalJsonLaws, !CompressLaws}
    rnd start then_ now n i p body :
  (i < n)%nat → arrives p → packet_bounds p = true →
  (cval now < N.min (cval then_ + 172800) u64_max)%N →
  seal_packet rnd (mk (chain_at i start)) p = Ok body →
  (∀ j, (j < i)%nat → is_ok (open_plain (mk (chain_at j start)) body) = false) →
  open_skip_ahead (chain_at (S n) start) (skipped_to n start then_) now body =
    Ok (mkOpened p (chain_at (S n) start) [] true (mk (chain_at i start))).
Proof.
  intros Hi Hfit Hb Hnow Hseal Hj. apply seal_open in Hseal as [_ Hopen]; [|done].
  rewrite Hb in Hopen. unfold open_skip_ahead, skipped_to.
  replace (seq 0 n) with (seq 0 i ++ i :: seq (S i) (n - S i))
    by (change (i :: seq (S i) (n - S i)) with (seq i (S (n - S i))); rewrite <-seq_app;
        f_equal; lia).
  rewrite map_app, map_cons.
  assert ((cval now <? cval (sat_add then_ MK_CACHE_SECS))%N = true) as Hlt
    by (rewrite sat_add_val; by apply N.ltb_lt).
  assert (∀ l tl, (∀ j, j ∈ l → (j < i)%nat) →
    open_cached (chain_at (S n) start)
      (map (λ j, mkCachedMk (mk (chain_at j start)) (sat_add then_ MK_CACHE_SECS) None) l
       ++ mkCachedMk (mk (chain_at i start)) (sat_add then_ MK_CACHE_SECS) None :: tl) now body =
    Some (mkOpened p (chain_at (S n) start) [] true (mk (chain_at i start)))) as HW.
  { intros l tl. induction l as [|j l IH]; intros Hl;
      cbn [map app open_cached cm_mk cm_expires_at]; rewrite Hlt; [by rewrite Hopen|].
    specialize (Hj j (Hl j ltac:(left))).
    destruct (open_plain (mk (chain_at j start)) body); [done|].
    apply IH. intros k Hk. apply Hl. by right. }
  rewrite HW; [done|]. intros j Hin. apply elem_of_seq in Hin. lia.
Qed.

Lemma late_packet_opens_witness :
  open_skip_ahead (chain_at 3 sample_chain) (skipped_to 2 sample_chain (clamp64 100))
      (clamp64 200) (sample_body 1) =
    Ok (mkOpened sample_packet (chain_at 3 sample_chain) [] true (mk (chain_at 1 sample_chain))).
Proof.
  apply (late_packet_opens (from_bytes (fill 32 x05))).
  - lia.
  - exact sample_arrives.
  - by vm_compute.
  - by vm_compute.
  - by apply sample_sealed; vm_compute.
  - intros [|j] Hj; [by vm_compute|lia].
Defined.

(** * Fragments *)

Definition frag_of (packet : PacketPlain) : bytes :=
  match packet with TxFragMore p => fm_frag p | TxFragLast p => fl_frag p | _ => [] end.

Section Fragments.
Context `{Suite}.

(** The packet built at size [n] packs into one padded packet. *)
Definition fits (build : bytes → PacketPlain) (n : nat) : bool :=
  is_ok (packed_packet (build (replicate n x5a))).

Lemma frag_search_spec build fuel lo hi :
  (hi - lo ≤ fuel)%nat → (lo ≤ hi)%nat → (lo = 0%nat ∨ fits build lo = true) →
  let r := frag_search fuel build lo hi in
  (lo ≤ r ≤ hi)%nat ∧ (r = 0%nat ∨ fits build r = true) ∧
  ((∀ m n, (m ≤ n)%nat → fits build n = true → fits build m = true) →
   ∀ m, (m ≤ hi)%nat → fits build m = true → (m ≤ r)%nat).
Proof.
  revert lo hi. induction fuel as [|f IH]; intros lo hi Hf Hle Hlo; cbn [frag_search].
  { split_and!; [lia|lia|done|]. intros _ m Hm _. lia. }
  case_bool_decide as Hlt; [|split_and!; [lia|lia|done|intros _ m Hm _; lia]].
  set (mid := (lo + (hi - lo + 1) / 2)%nat).
  assert (lo < mid ≤ hi)%nat as Hmid.
  { unfold mid. pose proof (Nat.div_mod (hi - lo + 1) 2 ltac:(lia)).
    pose proof (Nat.mod_upper_bound (hi - lo + 1) 2 ltac:(lia)). lia. }
  clearbody mid.
  assert (fits build mid = match packed_packet (build (replicate mid x5a)) with
    | Ok p => bool_decide (length p ≤ PACKET_PAD_LEN)%nat | Err _ => false end) as Hfit.
  { unfold fits, packed_packet. case_bool_decide as E; [|done]. cbn. by rewrite bool_decide_true. }
  destruct (packed_packet _) as [p|]; [destruct (bool_decide _)|].
  - destruct (IH mid hi ltac:(lia) ltac:(lia) ltac:(by right)) as (Hr & H1 & H2).
    split_and!; [lia|lia|done|done].
  - destruct (IH lo (mid - 1)%nat ltac:(lia) ltac:(lia) Hlo) as (Hr & H1 & H2).
    split_and!; [lia|lia|done|]. intros Hm m Hle' Hf'.
    destruct (decide (m ≤ mid - 1)%nat); [by apply H2|].
    specialize (Hm mid m ltac:(lia) Hf'). congruence.
  - destruct (IH lo (mid - 1)%nat ltac:(lia) ltac:(lia) Hlo) as (Hr & H1 & H2).
    split_and!; [lia|lia|done|]. intros Hm m Hle' Hf'.
    destruct (decide (m ≤ mid - 1)%nat); [by apply H2|].
    specialize (Hm mid m ltac:(lia) Hf'). congruence.
Qed.
End Fragments.

(** The search for the fragment budget ends with a size of at most 484 that packs
    with the filler byte, or zero; when packing is monotone in the size it is the largest
    size that packs. *)
Theorem largest_frag_spec `{Suite} build :
  let r := largest_frag build in
  (r ≤ 484)%nat ∧ (r = 0%nat ∨ fits build r = true) ∧
  ((∀ m n, (m ≤ n)%nat → fits build n = true → fits build m = true) →
   ∀ m, (m ≤ 484)%nat → fits build m = true → (m ≤ r)%nat).
Proof.
  destruct (frag_search_spec build PACKET_PAD_LEN 0 PACKET_PAD_LEN) as (Hr & H1 & H2);
    [done|unfold PACKET_PAD_LEN; lia|by left|].
  unfold largest_frag. cbv zeta. split_and!; [|done|done]. exact (proj2 Hr).
Qed.

Section FragmentBody.
Context `{Suite}.
Context (tx_id set_xor : Tag) (start_seq : u64) (actor_id : bytes).

(** The packet a body is cut into at position [i]. *)
Definition more_at (i : nat) (frag : bytes) : PacketPlain :=
  TxFragMore (mkTxFragMore actor_id (sat_add start_seq (N.of_nat i)) tx_id
                (clamp64 (N.of_nat i)) frag).
Definition last_at (i : nat) (frag : bytes) : PacketPlain :=
  TxFragLast (mkTxFragLast actor_id (sat_add start_seq (N.of_nat i)) tx_id
                (clamp64 (N.of_nat i)) frag set_xor).

Lemma clamp64_small n : (N.of_nat n < 2 ^ 64)%N → cval (clamp64 (N.of_nat n)) = N.of_nat n.
Proof. intros Hn. rewrite clamp64_val. apply N.min_l. unfold u64_max. lia. Qed.

(** One cut: the last packet takes everything; otherwise a nonempty prefix is taken. *)
Lemma next_fragment_spec remaining i p n :
  next_fragment remaining tx_id set_xor (sat_add start_seq (N.of_nat i)) (clamp64 (N.of_nat i))
    actor_id = Ok (p, n) →
  (i < 64)%nat ∧
  ((p = last_at i remaining ∧ n = length remaining) ∨
   (p = more_at i (take n remaining) ∧ (1 ≤ n ≤ length remaining)%nat)).
Proof.
  unfold next_fragment. destruct (_ <=? _)%N eqn:E; [done|].
  apply N.leb_gt in E. intros HO. split.
  { rewrite clamp64_val in E. unfold MAX_FRAGS, u64_max in E. lia. }
  revert HO. cbv zeta. case_bool_decide as Hl; [intros [= <- <-]; by left|].
  case_bool_decide as Hm; [done|]. intros [= <- <-]. right. split; [done|]. lia.
Qed.

Lemma fragment_loop_fuel fuel remaining packets :
  (length packets ≤ 64)%nat → (64 - length packets < fuel)%nat →
  fragment_loop fuel remaining packets tx_id set_xor start_seq actor_id ≠ None.
Proof.
  revert remaining packets. induction fuel as [|f IH]; intros remaining packets Hl Hf; [lia|].
  cbn [fragment_loop].
  destruct (next_fragment _ _ _ _ _ _) as [[p n]|e] eqn:E; [|done].
  apply next_fragment_spec in E as [Hi _]. destruct (is_last p); [done|].
  apply IH; rewrite length_app; cbn [length]; lia.
Qed.

(** The first packets are [TxFragMore]s at their positions, none empty. *)
Definition cut_from (packets : list PacketPlain) : Prop :=
  ∀ i p, packets !! i = Some p → ∃ frag, p = more_at i frag ∧ frag ≠ [].

Lemma fragment_loop_spec fuel remaining packets ps :
  cut_from packets →
  fragment_loop fuel remaining packets tx_id set_xor start_seq actor_id = Some (Ok ps) →
  ∃ init frag, ps = init ++ [last_at (length init) frag] ∧ cut_from init ∧
    (length init < 64)%nat ∧
    concat (map frag_of ps) = concat (map frag_of packets) ++ remaining.
Proof.
  revert remaining packets. induction fuel as [|f IH]; intros remaining packets Hc; [done|].
  cbn [fragment_loop].
  destruct (next_fragment _ _ _ _ _ _) as [[p n]|e] eqn:E; [|done].
  apply next_fragment_spec in E as [Hi [[-> ->]|[-> Hn]]]; cbn [is_last].
  - cbn [last_at is_last]. intros [= <-]. exists packets, remaining. split_and!; try done.
    rewrite map_app, concat_app. cbn. by rewrite app_nil_r.
  - cbn [more_at is_last]. intros HL. apply IH in HL as (init & frag & -> & Hci & Hlt & HC).
    + exists init, frag. split_and!; try done. rewrite HC, map_app, concat_app. cbn.
      rewrite app_nil_r, <-(assoc_L (++)), take_drop. done.
    + intros j q Hq. apply lookup_app_Some in Hq as [Hq|[Hj Hq]]; [by apply Hc|].
      apply list_lookup_singleton_Some in Hq as [Hj' <-].
      replace j with (length packets) by lia. exists (take n remaining). split; [done|].
      intros Hnil%(f_equal length). rewrite length_take in Hnil. cbn in Hnil. lia.
Qed.

End FragmentBody.

(** The loop of [fragment_body] ends within its fuel: it never needs a 66th round. *)
Lemma fragment_fuel `{Suite} body tx_id set_xor start_seq actor_id :
  fragment_loop (S (N.to_nat MAX_FRAGS)) body [] tx_id set_xor start_seq actor_id ≠ None.
Proof. apply fragment_loop_fuel; cbn [length]; unfold MAX_FRAGS; lia. Qed.

Lemma fragment_body_cut `{Suite} body tx_id set_xor start_seq actor_id ps :
  fragment_loop (S (N.to_nat MAX_FRAGS)) body [] tx_id set_xor start_seq actor_id ≠ None ∧
  (fragment_body body tx_id set_xor start_seq actor_id = Ok ps →
  concat (map frag_of ps) = body ∧ (1 ≤ length ps ≤ 64)%nat ∧
  (∃ init frag,
     ps = init ++ [last_at tx_id set_xor start_seq actor_id (length init) frag] ∧
     ∀ i p, init !! i = Some p →
       ∃ frag, p = more_at tx_id start_seq actor_id i frag ∧ frag ≠ []) ∧
  Forall (λ p, packet_bounds p = true) ps).
Proof.
  split; [apply fragment_fuel|]. unfold fragment_body. destruct (fragment_loop _ _ _ _ _ _ _) as [r|] eqn:E; [|done].
  cbn [default from_option id]. intros ->.
  apply fragment_loop_spec in E as (init & frag & -> & Hc & Hlt & HC); [|by intros i p Hp].
  split_and!; [done|rewrite length_app; cbn [length]; lia..| |].
  - exists init, frag. split; [done|]. intros i p Hp. by apply Hc.
  - apply Forall_app. split.
    + apply Forall_lookup. intros i p Hp. pose proof (lookup_lt_Some _ _ _ Hp) as Hi.
      destruct (Hc i p Hp) as (f & -> & _). cbn. apply N.leb_le. rewrite clamp64_small; lia.
    + apply Forall_singleton. cbn. apply N.leb_le. rewrite clamp64_small; lia.
Qed.

(** C30. Cutting a packed body ends, and loses nothing: when it succeeds, the fragments joined in
    order are the body; there are between 1 and 64 packets, numbered from zero with
    consecutive packet sequence numbers, none but the last empty; only the last is a
    [TxFragLast], carrying the set fingerprint; and every index is one the packet parser
    accepts. *)
Theorem fragment_body_spec `{Suite} body tx_id set_xor start_seq actor_id ps :
  fragment_loop (S (N.to_nat MAX_FRAGS)) body [] tx_id set_xor start_seq actor_id ≠ None ∧
  (fragment_body body tx_id set_xor start_seq actor_id = Ok ps →
  concat (map frag_of ps) = body ∧ (1 ≤ length ps ≤ 64)%nat ∧
  (∃ init frag,
     ps = init ++ [last_at tx_id set_xor start_seq actor_id (length init) frag] ∧
     ∀ i p, init !! i = Some p →
       ∃ frag, p = more_at tx_id start_seq actor_id i frag ∧ frag ≠ []) ∧
  Forall (λ p, packet_bounds p = true) ps).
Proof. apply fragment_body_cut. Qed.

(** A body of 200 bytes takes several packets. *)
Lemma fragment_body_spec_witness :
  let ps := fragment_body (replicate 200 x2a) (from_bytes (fill 32 x01)) (from_bytes (fill 32 x02))
              (clamp64 7) [x03] in
  match ps with
  | Ok ps => (2 ≤ length ps)%nat ∧ concat (map frag_of ps) = replicate 200 x2a
  | Err _ => False
  end.
Proof.
  cbv zeta. destruct (fragment_body _ _ _ _ _) as [ps|e] eqn:E.
  - pose proof (proj2 (fragment_body_spec _ _ _ _ _ ps) E) as [HC _]. split; [|exact HC].
    assert (match fragment_body (replicate 200 x2a) (from_bytes (fill 32 x01))
              (from_bytes (fill 32 x02)) (clamp64 7) [x03] with
            | Ok ps => (2 <=? length ps)%nat | Err _ => false end = true) as HL by by vm_compute.
    rewrite E in HL. by apply Nat.leb_le.
  - assert (is_ok (fragment_body (replicate 200 x2a) (from_bytes (fill 32 x01))
              (from_bytes (fill 32 x02)) (clamp64 7) [x03]) = true) as HL by by vm_compute.
    by rewrite E in HL.
Defined.

(** * The set fingerprint *)

Lemma zip_xor_comm (a b : bytes) : zip_with byte_xor a b = zip_with byte_xor b a.
Proof.
  revert b. induction a as [|x a IH]; intros [|y b]; cbn; try done. by rewrite byte_xor_comm, IH.
Qed.

Lemma xor32_comm a b : xor32 a b = xor32 b a.
Proof. apply checked_eq, zip_xor_comm. Qed.

Lemma zip_xor_assoc (a b c : bytes) :
  zip_with byte_xor a (zip_with byte_xor b c) = zip_with byte_xor (zip_with byte_xor a b) c.
Proof.
  revert b c. induction a as [|x a IH]; intros [|y b] [|z c]; cbn; try done.
  by rewrite byte_xor_assoc, IH.
Qed.

Lemma xor32_assoc a b c : xor32 a (xor32 b c) = xor32 (xor32 a b) c.
Proof. apply checked_eq. apply zip_xor_assoc. Qed.

Lemma zip_xor_zero_r (l : bytes) n : length l = n → zip_with byte_xor l (replicate n x00) = l.
Proof.
  intros <-. induction l as [|x l IH]; cbn; [done|]. by rewrite byte_xor_0_r, IH.
Qed.

Lemma xor32_zero_r a : xor32 a (fill 32 x00) = a.
Proof. apply checked_eq, zip_xor_zero_r, arr_length. Qed.

Lemma zip_xor_eq_zero (l l' : bytes) n :
  length l = n → length l' = n → zip_with byte_xor l l' = replicate n x00 ↔ l = l'.
Proof.
  revert l' n. induction l as [|x l IH]; intros [|y l'] [|n] Ha Hb; try done.
  injection Ha as Ha. injection Hb as Hb. cbn [zip_with replicate].
  specialize (IH l' n Ha Hb).
  split; intros [= H1 H2]; f_equal; try (by apply byte_xor_zero); by apply IH.
Qed.

Lemma xor32_eq_zero a b : xor32 a b = fill 32 x00 ↔ a = b.
Proof.
  rewrite <-!checked_eq_iff. apply zip_xor_eq_zero; apply arr_length.
Qed.

Lemma xor32_self a : xor32 a a = fill 32 x00.
Proof. by apply xor32_eq_zero. Qed.

Lemma set_xor_fold txs c acc :
  fold_left (λ acc '(id, body),
    if branded_eq (db_conversation_id body) c then xor32 acc (as_bytes id) else acc) txs acc
  = xor32 acc (as_bytes (set_xor_for txs c)).
Proof.
  unfold set_xor_for. revert acc.
  enough (∀ txs acc, fold_left (λ acc '((id, body) : Tag * DurableBody),
    if branded_eq (db_conversation_id body) c then xor32 acc (as_bytes id) else acc) txs acc
    = xor32 acc (fold_left (λ acc '((id, body) : Tag * DurableBody),
    if branded_eq (db_conversation_id body) c then xor32 acc (as_bytes id) else acc) txs
      (fill 32 x00))) as HE by apply HE.
  clear txs. intros txs. induction txs as [|[id body] txs IH]; intros acc; cbn [fold_left].
  - by rewrite xor32_zero_r.
  - destruct (branded_eq _ _); [|apply IH].
    rewrite IH, (IH (xor32 (fill 32 x00) (as_bytes id))).
    by rewrite (xor32_comm (fill 32 x00)), xor32_zero_r, xor32_assoc.
Qed.

Lemma set_xor_cons id body txs c :
  set_xor_for ((id, body) :: txs) c =
    if branded_eq (db_conversation_id body) c
    then from_bytes (xor32 (as_bytes id) (as_bytes (set_xor_for txs c)))
    else set_xor_for txs c.
Proof.
  unfold set_xor_for at 1. cbn [fold_left]. rewrite set_xor_fold.
  destruct (branded_eq _ _).
  - by rewrite (xor32_comm (fill 32 x00)), xor32_zero_r.
  - rewrite xor32_comm, xor32_zero_r. by destruct (set_xor_for txs c).
Qed.

(** The set fingerprint of a conversation depends only on which transactions are
    stored, not on their order, ignores other conversations, and one id more or less,
    unless it is all zeros, changes it. *)
Theorem set_xor_for_spec txs txs' c :
  (txs ≡ₚ txs' → set_xor_for txs c = set_xor_for txs' c) ∧
  (∀ id body, db_conversation_id body ≠ c → set_xor_for ((id, body) :: txs) c = set_xor_for txs c) ∧
  (∀ id body, db_conversation_id body = c →
     set_xor_for ((id, body) :: txs) c = set_xor_for txs c ↔ as_bytes id = fill 32 x00) ∧
  (∀ id body body', db_conversation_id body = c → db_conversation_id body' = c →
     set_xor_for ((id, body) :: (id, body') :: txs) c = set_xor_for txs c).
Proof.
  split_and!.
  - induction 1 as [|[id body] l l' _ IH|[id body] [id' body'] l|l1 l2 l3 _ IH1 _ IH2].
    + done.
    + rewrite !set_xor_cons. by rewrite IH.
    + rewrite !set_xor_cons. destruct (branded_eq _ _), (branded_eq _ _); try done.
      f_equal. cbn [as_bytes]. by rewrite !xor32_assoc, (xor32_comm (as_bytes id)).
    + by rewrite IH1.
  - intros id body Hne. rewrite set_xor_cons. destruct (branded_eq _ _) eqn:E; [|done].
    by apply branded_eq_spec in E.
  - intros id body <-. rewrite set_xor_cons, (proj2 (branded_eq_spec _ _) eq_refl).
    split.
    + intros HE%(f_equal as_bytes). cbn [as_bytes] in HE.
      apply (f_equal (λ x, xor32 x (as_bytes (set_xor_for txs (db_conversation_id body))))) in HE.
      by rewrite <-xor32_assoc, xor32_self, xor32_zero_r in HE.
    + intros ->. rewrite xor32_comm, xor32_zero_r. by destruct (set_xor_for _ _).
  - intros id body body' <- HE. rewrite !set_xor_cons, HE, !(proj2 (branded_eq_spec _ _) eq_refl).
    cbn [as_bytes]. rewrite xor32_assoc, xor32_self, xor32_comm, xor32_zero_r.
    by destruct (set_xor_for _ _).
Qed.

(** * Folding a chain *)

(** A chain folded to JSON reads back with its conversation, actor, keys, epoch and
    sequence; the one exception is an actor with an empty signing key, which reads back
    as the handshake actor. *)
Theorem chain_json_roundtrip `{Suite} `{!Base64UrlLaws} cid actor chain :
  chain_from_json (chain_to_json cid actor chain) =
    Ok (cid, if bool_decide (Actor_as_bytes actor = []) then Actor_Handshake else actor, chain).
Proof.
  unfold chain_from_json, chain_to_json, obj, decode32. rewrite bind_ok.
  rewrite !find_key_lits. cbn [assoc String.eqb Ascii.eqb Bool.eqb ok_or].
  unfold id_json, bstr. rewrite !bind_ok. cbn [decode_bstr].
  rewrite !b64_decode_encode. cbn [ok_or]. rewrite !bind_ok.
  rewrite bool_decide_true by apply arr_length. cbn [negb refuse_if]. rewrite !bind_ok.
  autorewrite with checked. cbn [ok_or]. autorewrite with checked.
  rewrite Actor_from_stored_role. cbn [ok_or]. rewrite bind_ok.
  by destruct cid, chain as [[] [] e s].
Qed.

Lemma chain_json_roundtrip_witness :
  chain_from_json (chain_to_json (from_bytes (fill 32 x01)) Actor_Handshake sample_chain) =
    Ok (from_bytes (fill 32 x01), Actor_Handshake, sample_chain).
Proof. exact (chain_json_roundtrip (from_bytes (fill 32 x01)) Actor_Handshake sample_chain). Defined.
