(* ===== verification/RowLog.v ===== *)
(** The payloads a conversation row may store ([engine/row_log.rs]): one type per kind of
    row, each a part of the wire payloads.

    [RowTx] is what a row's log needs of its transaction type: a partial injection out of
    the wire payloads and back, whose two laws the instances discharge. *)

From stdpp Require Import base tactics list numbers option strings countable gmap.
From Stdlib Require Import Strings.Byte.
From S2P Require Import Prelude Text Ids Channel Defaults Payload.

Record TxRow (T : Type) : Type := mkTxRow {
  tr_conversation_id : ConversationId; tr_hlc : Hlc; tr_payload : T
}.
Arguments mkTxRow {T} tr_conversation_id tr_hlc tr_payload.
Arguments tr_conversation_id {T} t.
Arguments tr_hlc {T} t.
Arguments tr_payload {T} t.

(** [from_payload] and [to_payload] of a row's transaction type. *)
Class RowTx (T : Type) : Type := {
  from_payload : TxPayload → option T;
  to_payload : T → TxPayload
}.

Class RowTxLaws (T : Type) `{RowTx T} : Prop := {
  from_to_payload : ∀ t, from_payload (to_payload t) = Some t;
  to_from_payload : ∀ p t, from_payload p = Some t → to_payload t = p
}.

Definition durable (conversation_id : ConversationId) (hlc : Hlc) (payload : TxPayload) :
    DurableBody := mkDurableBody conversation_id hlc payload.

(** * Simple rows *)

(** DM handshake transactions. *)
Inductive DmHandshakeTx : Set :=
| DmH_Notice (x : TxNotice)
| DmH_InviterIntro (x : TxInviterIntro)
| DmH_InviteeIntro (x : TxInviteeIntro)
| DmH_Confirm
| DmH_Reject.

Definition DmHandshakeTx_from_payload (payload : TxPayload) : option DmHandshakeTx :=
  match payload with
  | PNotice x => Some (DmH_Notice x)
  | PInviterIntro x => Some (DmH_InviterIntro x)
  | PInviteeIntro x => Some (DmH_InviteeIntro x)
  | PConfirm => Some DmH_Confirm
  | PReject => Some DmH_Reject
  | _ => None
  end.

Definition DmHandshakeTx_to_payload (t : DmHandshakeTx) : TxPayload :=
  match t with
  | DmH_Notice x => PNotice x
  | DmH_InviterIntro x => PInviterIntro x
  | DmH_InviteeIntro x => PInviteeIntro x
  | DmH_Confirm => PConfirm
  | DmH_Reject => PReject
  end.

#[export] Instance DmHandshakeTx_row : RowTx DmHandshakeTx :=
  {| from_payload := DmHandshakeTx_from_payload; to_payload := DmHandshakeTx_to_payload |}.

(** Sync handshake transactions, including the sealed vault key. *)
Inductive SyncHandshakeTx : Set :=
| SyncH_Notice (x : TxNotice)
| SyncH_InviterIntro (x : SyncInviterIntro)
| SyncH_InviteeIntro (x : SyncInviteeIntro)
| SyncH_Confirm
| SyncH_Reject
| SyncH_Dek (ct : bytes).

Definition SyncHandshakeTx_from_payload (payload : TxPayload) : option SyncHandshakeTx :=
  match payload with
  | PNotice x => Some (SyncH_Notice x)
  | PSyncInviterIntro x => Some (SyncH_InviterIntro x)
  | PSyncInviteeIntro x => Some (SyncH_InviteeIntro x)
  | PConfirm => Some SyncH_Confirm
  | PReject => Some SyncH_Reject
  | PSyncDek ct => Some (SyncH_Dek ct)
  | _ => None
  end.

Definition SyncHandshakeTx_to_payload (t : SyncHandshakeTx) : TxPayload :=
  match t with
  | SyncH_Notice x => PNotice x
  | SyncH_InviterIntro x => PSyncInviterIntro x
  | SyncH_InviteeIntro x => PSyncInviteeIntro x
  | SyncH_Confirm => PConfirm
  | SyncH_Reject => PReject
  | SyncH_Dek ct => PSyncDek ct
  end.

#[export] Instance SyncHandshakeTx_row : RowTx SyncHandshakeTx :=
  {| from_payload := SyncHandshakeTx_from_payload; to_payload := SyncHandshakeTx_to_payload |}.

(** Chat transactions on an established direct message or a live group. *)
Inductive ChatTx : Set :=
| Chat_Text (x : TxText)
| Chat_Edit (x : TxEdit)
| Chat_Remove (target : Tag)
| Chat_Reaction (x : TxReaction)
| Chat_Read (up_to : Tag)
| Chat_Delivered (up_to : Tag)
| Chat_Media (x : TxMedia)
| Chat_Name (name : DisplayName)
| Chat_Photo (profile_pic : option ProfilePic)
| Chat_Prefs (x : OnWirePrefs).

Definition ChatTx_from_payload (payload : TxPayload) : option ChatTx :=
  match payload with
  | PText x => Some (Chat_Text x)
  | PEdit x => Some (Chat_Edit x)
  | PRemove target => Some (Chat_Remove target)
  | PReaction x => Some (Chat_Reaction x)
  | PRead up_to => Some (Chat_Read up_to)
  | PDelivered up_to => Some (Chat_Delivered up_to)
  | PMedia x => Some (Chat_Media x)
  | PName name => Some (Chat_Name name)
  | PPhoto profile_pic => Some (Chat_Photo profile_pic)
  | PPrefs x => Some (Chat_Prefs x)
  | _ => None
  end.

Definition ChatTx_to_payload (t : ChatTx) : TxPayload :=
  match t with
  | Chat_Text x => PText x
  | Chat_Edit x => PEdit x
  | Chat_Remove target => PRemove target
  | Chat_Reaction x => PReaction x
  | Chat_Read up_to => PRead up_to
  | Chat_Delivered up_to => PDelivered up_to
  | Chat_Media x => PMedia x
  | Chat_Name name => PName name
  | Chat_Photo profile_pic => PPhoto profile_pic
  | Chat_Prefs x => PPrefs x
  end.

#[export] Instance ChatTx_row : RowTx ChatTx :=
  {| from_payload := ChatTx_from_payload; to_payload := ChatTx_to_payload |}.

(** Ratchet advertise, wrap, and ack. *)
Inductive RatchetTx : Set :=
| Ratchet_Advertise (encaps_pk : EncryptionPublicKey)
| Ratchet_Wrap (kem_ct : bytes)
| Ratchet_Ack (ratchet_ack : Tag).

Definition RatchetTx_from_payload (payload : TxPayload) : option RatchetTx :=
  match payload with
  | PAdvertise encaps_pk => Some (Ratchet_Advertise encaps_pk)
  | PWrap kem_ct => Some (Ratchet_Wrap kem_ct)
  | PAck ratchet_ack => Some (Ratchet_Ack ratchet_ack)
  | _ => None
  end.

Definition RatchetTx_to_payload (t : RatchetTx) : TxPayload :=
  match t with
  | Ratchet_Advertise encaps_pk => PAdvertise encaps_pk
  | Ratchet_Wrap kem_ct => PWrap kem_ct
  | Ratchet_Ack ratchet_ack => PAck ratchet_ack
  end.

#[export] Instance RatchetTx_row : RowTx RatchetTx :=
  {| from_payload := RatchetTx_from_payload; to_payload := RatchetTx_to_payload |}.

(** Group roster, wrap, leave, and kick. *)
Inductive GroupTx : Set :=
| GroupTx_Roster (x : TxGroupRoster)
| GroupTx_Wrap (x : TxGroupWrap)
| GroupTx_Leave
| GroupTx_Kick (signing_pk : SigningPublicKey).

Definition GroupTx_from_payload (payload : TxPayload) : option GroupTx :=
  match payload with
  | PGroupRoster x => Some (GroupTx_Roster x)
  | PGroupWrap x => Some (GroupTx_Wrap x)
  | PGroupLeave => Some GroupTx_Leave
  | PGroupKick signing_pk => Some (GroupTx_Kick signing_pk)
  | _ => None
  end.

Definition GroupTx_to_payload (t : GroupTx) : TxPayload :=
  match t with
  | GroupTx_Roster x => PGroupRoster x
  | GroupTx_Wrap x => PGroupWrap x
  | GroupTx_Leave => PGroupLeave
  | GroupTx_Kick signing_pk => PGroupKick signing_pk
  end.

#[export] Instance GroupTx_row : RowTx GroupTx :=
  {| from_payload := GroupTx_from_payload; to_payload := GroupTx_to_payload |}.

(** Vault transactions. *)
Inductive EngineTx : Set :=
| Engine_Init
| Engine_SetDefaults (defaults : Defaults)
| Engine_CreateUser (user_id : UserId)
| Engine_CreateIdentity (user_id : UserId) (identity_id : IdentityId) (policy : Policy) (encryption : KeyPair) (signing : SigningKeyPair)
| Engine_DeleteUser (user_id : UserId)
| Engine_DeleteIdentity (user_id : UserId) (identity_id : IdentityId)
| Engine_SetDisplayName (user_id : UserId) (identity_id : IdentityId) (name : DisplayName)
| Engine_UnsetDisplayName (user_id : UserId) (identity_id : IdentityId)
| Engine_SetProfilePic (user_id : UserId) (identity_id : IdentityId) (profile_pic : option ProfilePic)
| Engine_SetDeviceName (name : DisplayName)
| Engine_KickDevice (device_id : DeviceId).

Definition EngineTx_from_payload (payload : TxPayload) : option EngineTx :=
  match payload with
  | PEngineInit => Some Engine_Init
  | PEngineSetDefaults defaults => Some (Engine_SetDefaults defaults)
  | PEngineCreateUser user_id => Some (Engine_CreateUser user_id)
  | PEngineCreateIdentity user_id identity_id policy encryption signing =>
      Some (Engine_CreateIdentity user_id identity_id policy encryption signing)
  | PEngineDeleteUser user_id => Some (Engine_DeleteUser user_id)
  | PEngineDeleteIdentity user_id identity_id => Some (Engine_DeleteIdentity user_id identity_id)
  | PEngineSetDisplayName user_id identity_id name =>
      Some (Engine_SetDisplayName user_id identity_id name)
  | PEngineUnsetDisplayName user_id identity_id =>
      Some (Engine_UnsetDisplayName user_id identity_id)
  | PEngineSetProfilePic user_id identity_id profile_pic =>
      Some (Engine_SetProfilePic user_id identity_id profile_pic)
  | PEngineSetDeviceName name => Some (Engine_SetDeviceName name)
  | PEngineKickDevice device_id => Some (Engine_KickDevice device_id)
  | _ => None
  end.

Definition EngineTx_to_payload (t : EngineTx) : TxPayload :=
  match t with
  | Engine_Init => PEngineInit
  | Engine_SetDefaults defaults => PEngineSetDefaults defaults
  | Engine_CreateUser user_id => PEngineCreateUser user_id
  | Engine_CreateIdentity user_id identity_id policy encryption signing =>
      PEngineCreateIdentity user_id identity_id policy encryption signing
  | Engine_DeleteUser user_id => PEngineDeleteUser user_id
  | Engine_DeleteIdentity user_id identity_id => PEngineDeleteIdentity user_id identity_id
  | Engine_SetDisplayName user_id identity_id name =>
      PEngineSetDisplayName user_id identity_id name
  | Engine_UnsetDisplayName user_id identity_id => PEngineUnsetDisplayName user_id identity_id
  | Engine_SetProfilePic user_id identity_id profile_pic =>
      PEngineSetProfilePic user_id identity_id profile_pic
  | Engine_SetDeviceName name => PEngineSetDeviceName name
  | Engine_KickDevice device_id => PEngineKickDevice device_id
  end.

#[export] Instance EngineTx_row : RowTx EngineTx :=
  {| from_payload := EngineTx_from_payload; to_payload := EngineTx_to_payload |}.

(** * Rows of several families *)

(** Transactions on an established direct message. *)
Inductive DmTx : Set :=
| Dm_Chat (chat : ChatTx)
| Dm_Ratchet (ratchet : RatchetTx)
| Dm_GroupInvite (invite : TxGroupInvite)
| Dm_GroupAccept (group_id : ConversationId)
| Dm_GroupReject (group_id : ConversationId).

Definition DmTx_from_payload (payload : TxPayload) : option DmTx :=
  match ChatTx_from_payload payload with
  | Some chat => Some (Dm_Chat chat)
  | None =>
    match RatchetTx_from_payload payload with
    | Some ratchet => Some (Dm_Ratchet ratchet)
    | None =>
      match payload with
      | PGroupInvite invite => Some (Dm_GroupInvite invite)
      | PGroupAccept group_id => Some (Dm_GroupAccept group_id)
      | PGroupReject group_id => Some (Dm_GroupReject group_id)
      | _ => None
      end
    end
  end.

Definition DmTx_to_payload (t : DmTx) : TxPayload :=
  match t with
  | Dm_Chat chat => ChatTx_to_payload chat
  | Dm_Ratchet ratchet => RatchetTx_to_payload ratchet
  | Dm_GroupInvite invite => PGroupInvite invite
  | Dm_GroupAccept group_id => PGroupAccept group_id
  | Dm_GroupReject group_id => PGroupReject group_id
  end.

#[export] Instance DmTx_row : RowTx DmTx :=
  {| from_payload := DmTx_from_payload; to_payload := DmTx_to_payload |}.

(** Transactions on a live group. *)
Inductive LiveGroupTx : Set :=
| Live_Chat (chat : ChatTx)
| Live_Ratchet (ratchet : RatchetTx)
| Live_Group (group : GroupTx).

Definition LiveGroupTx_from_payload (payload : TxPayload) : option LiveGroupTx :=
  match ChatTx_from_payload payload with
  | Some chat => Some (Live_Chat chat)
  | None =>
    match RatchetTx_from_payload payload with
    | Some ratchet => Some (Live_Ratchet ratchet)
    | None => Live_Group <$> GroupTx_from_payload payload
    end
  end.

Definition LiveGroupTx_to_payload (t : LiveGroupTx) : TxPayload :=
  match t with
  | Live_Chat chat => ChatTx_to_payload chat
  | Live_Ratchet ratchet => RatchetTx_to_payload ratchet
  | Live_Group group => GroupTx_to_payload group
  end.

#[export] Instance LiveGroupTx_row : RowTx LiveGroupTx :=
  {| from_payload := LiveGroupTx_from_payload; to_payload := LiveGroupTx_to_payload |}.

(** Transactions stored on an established sync row. *)
Inductive SyncTx : Set :=
| Sync_Engine (engine : EngineTx)
| Sync_Name (name : DisplayName).

Definition SyncTx_from_payload (payload : TxPayload) : option SyncTx :=
  match EngineTx_from_payload payload with
  | Some engine => Some (Sync_Engine engine)
  | None =>
    match payload with
    | PName name => Some (Sync_Name name)
    | _ => None
    end
  end.

Definition SyncTx_to_payload (t : SyncTx) : TxPayload :=
  match t with
  | Sync_Engine engine => EngineTx_to_payload engine
  | Sync_Name name => PName name
  end.

#[export] Instance SyncTx_row : RowTx SyncTx :=
  {| from_payload := SyncTx_from_payload; to_payload := SyncTx_to_payload |}.

(** * Laws *)

(** Case analysis on the payload, then computation. *)
Ltac to_from := intros p t HE; destruct p; try discriminate HE; by injection HE as <-.

#[export] Instance DmHandshakeTx_laws : RowTxLaws DmHandshakeTx.
Proof. split; [by intros []|to_from]. Qed.

#[export] Instance SyncHandshakeTx_laws : RowTxLaws SyncHandshakeTx.
Proof. split; [by intros []|to_from]. Qed.

#[export] Instance ChatTx_laws : RowTxLaws ChatTx.
Proof. split; [by intros []|to_from]. Qed.

#[export] Instance RatchetTx_laws : RowTxLaws RatchetTx.
Proof. split; [by intros []|to_from]. Qed.

#[export] Instance GroupTx_laws : RowTxLaws GroupTx.
Proof. split; [by intros []|to_from]. Qed.

#[export] Instance EngineTx_laws : RowTxLaws EngineTx.
Proof. split; [by intros []|to_from]. Qed.

#[export] Instance DmTx_laws : RowTxLaws DmTx.
Proof. split; [by intros [[]|[]| | |]|to_from]. Qed.

#[export] Instance LiveGroupTx_laws : RowTxLaws LiveGroupTx.
Proof. split; [by intros [[]|[]|[]]|to_from]. Qed.

#[export] Instance SyncTx_laws : RowTxLaws SyncTx.
Proof. split; [by intros [[]|]|to_from]. Qed.

(** The payload kinds a row's log takes. *)
Definition stores (T : Type) `{RowTx T} (p : TxPayload) : bool := bool_decide (is_Some (from_payload p)).

(** C33. Each of the nine row types gives back every transaction it stored: the wire payload
    of a transaction reads as that transaction, and a transaction read from a wire payload
    writes that payload; a confirmation and a rejection are read as what they are.  The
    families are kept apart: no payload is both an engine transaction and a chat, ratchet or
    group one; direct messages and live groups share exactly the chat and ratchet kinds; a
    display name is the one kind that chats and sync rows share; the two handshakes share
    exactly notices, confirmations and rejections; and all 39 kinds are stored by some row. *)
Theorem row_families :
  (RowTxLaws DmHandshakeTx ∧ RowTxLaws SyncHandshakeTx ∧ RowTxLaws ChatTx ∧ RowTxLaws RatchetTx ∧
   RowTxLaws GroupTx ∧ RowTxLaws EngineTx ∧ RowTxLaws DmTx ∧ RowTxLaws LiveGroupTx ∧
   RowTxLaws SyncTx) ∧
  (∀ p, (from_payload p = Some DmH_Confirm ↔ p = PConfirm) ∧
        (from_payload p = Some DmH_Reject ↔ p = PReject) ∧
        (from_payload p = Some SyncH_Confirm ↔ p = PConfirm) ∧
        (from_payload p = Some SyncH_Reject ↔ p = PReject)) ∧
  (∀ p, stores EngineTx p = true →
     stores ChatTx p || stores RatchetTx p || stores GroupTx p = false) ∧
  (∀ p, stores DmTx p && stores LiveGroupTx p = stores ChatTx p || stores RatchetTx p) ∧
  (∀ p, stores ChatTx p && stores SyncTx p = true ↔ ∃ name, p = PName name) ∧
  (∀ p, stores DmHandshakeTx p && stores SyncHandshakeTx p = true ↔
     (∃ x, p = PNotice x) ∨ p = PConfirm ∨ p = PReject) ∧
  (∀ p, stores DmHandshakeTx p || stores SyncHandshakeTx p || stores DmTx p
        || stores LiveGroupTx p || stores SyncTx p = true).
Proof.
  split_and!; try apply _.
  - intros p. split_and!; (split; [destruct p; by intros [=]|by intros ->]).
  - by intros [].
  - by intros [].
  - intros p. split; [|by intros [name ->]]. destruct p; try done. by exists name.
  - intros p. split; [|by intros [[x ->]|[-> | ->]]].
    destruct p; try done; eauto.
  - by intros [].
Qed.
