(* ===== verification/Party.v ===== *)
(** Handshake phases and parties: [engine/party.rs].

    A phase holds the secrets that exist in it.  The transitions are the phase's methods;
    a method that does not apply leaves the phase as it is (and answers [false] where it
    answers).  [DmParty] and [SyncParty], stamped out by one macro, are [Party k] at the
    two kinds of handshake. *)

From stdpp Require Import base tactics list numbers option strings countable gmap relations.
From Stdlib Require Import Strings.Byte.
From S2P Require Import Prelude Text Ids Channel Defaults Payload.

Inductive HandshakeFailure : Set :=
| PolicyNotAccepted (policy : Policy)
| InviteExpired (expires : UnixSeconds)
| NoticeUnlockFailed | NoticeConflict | IntroUnlockFailed | IntroVerifyFailed
| DuplicateIntro | ConfirmationRejected | HandshakeEquivocation.

#[export] Instance HandshakeFailure_eq_dec : EqDecision HandshakeFailure.
Proof. solve_decision. Defined.

(** * The inviter *)

Inductive InviterPhase : Set :=
| InviteCreated (ticket : Ticket) (intake : KeyPair) (list_from : TimeBin)
| NoticePinned (ticket : Ticket) (intake : KeyPair) (list_from : TimeBin)
| InviterMinted (ticket : Ticket) (intake : KeyPair) (shared_inviter shared_invitee : Secret)
    (list_from : TimeBin)
| InviterConfirming (ticket : Ticket) (intake : KeyPair)
    (shared_inviter shared_invitee : Secret) (list_from : TimeBin)
| InviterFailed (ticket : Ticket) (list_from : TimeBin) (reason : HandshakeFailure).

Module Inviter.

Definition ticket (p : InviterPhase) : Ticket :=
  match p with
  | InviteCreated ticket _ _ | NoticePinned ticket _ _ | InviterMinted ticket _ _ _ _
  | InviterConfirming ticket _ _ _ _ | InviterFailed ticket _ _ => ticket
  end.

Definition list_from (p : InviterPhase) : TimeBin :=
  match p with
  | InviteCreated _ _ list_from | NoticePinned _ _ list_from
  | InviterMinted _ _ _ _ list_from | InviterConfirming _ _ _ _ list_from
  | InviterFailed _ list_from _ => list_from
  end.

Definition intake (p : InviterPhase) : option KeyPair :=
  match p with
  | InviteCreated _ intake _ | NoticePinned _ intake _ | InviterMinted _ intake _ _ _
  | InviterConfirming _ intake _ _ _ => Some intake
  | InviterFailed _ _ _ => None
  end.

Definition shared_inviter (p : InviterPhase) : option Secret :=
  match p with
  | InviterMinted _ _ s _ _ | InviterConfirming _ _ s _ _ => Some s
  | _ => None
  end.

Definition shared_invitee (p : InviterPhase) : option Secret :=
  match p with
  | InviterMinted _ _ _ s _ | InviterConfirming _ _ _ s _ => Some s
  | _ => None
  end.

Definition failure (p : InviterPhase) : option HandshakeFailure :=
  match p with InviterFailed _ _ reason => Some reason | _ => None end.

Definition ack_notice (p : InviterPhase) : InviterPhase :=
  match p with
  | InviteCreated ticket intake list_from => NoticePinned ticket intake list_from
  | _ => p
  end.

Definition ack_intro (p : InviterPhase) : InviterPhase :=
  match p with
  | InviterMinted ticket intake si se list_from => InviterConfirming ticket intake si se list_from
  | _ => p
  end.

Definition mint_intro (si se : Secret) (p : InviterPhase) : bool * InviterPhase :=
  match p with
  | NoticePinned ticket intake list_from => (true, InviterMinted ticket intake si se list_from)
  | _ => (false, p)
  end.

Definition fail (reason : HandshakeFailure) (p : InviterPhase) : InviterPhase :=
  match p with
  | InviterFailed _ _ _ => p
  | _ => InviterFailed (ticket p) (list_from p) reason
  end.

End Inviter.

(** * The invitee *)

Inductive InviteePhase : Set :=
| TicketReceived (ticket : Ticket) (list_from : TimeBin)
| InviteReceived (ticket : Ticket) (list_from : TimeBin) (policy : Policy)
| InviteeMinted (ticket : Ticket) (list_from : TimeBin) (policy : Policy) (intake : KeyPair)
    (shared_inviter : Secret)
| IntroductionSent (ticket : Ticket) (list_from : TimeBin) (policy : Policy) (intake : KeyPair)
    (shared_inviter : Secret)
| InviteeConfirming (ticket : Ticket) (list_from : TimeBin) (policy : Policy)
    (intake : KeyPair) (shared_inviter shared_invitee : Secret)
| InviteeFailed (ticket : Ticket) (list_from : TimeBin) (reason : HandshakeFailure).

Module Invitee.

Definition ticket (p : InviteePhase) : Ticket :=
  match p with
  | TicketReceived ticket _ | InviteReceived ticket _ _ | InviteeMinted ticket _ _ _ _
  | IntroductionSent ticket _ _ _ _ | InviteeConfirming ticket _ _ _ _ _
  | InviteeFailed ticket _ _ => ticket
  end.

Definition list_from (p : InviteePhase) : TimeBin :=
  match p with
  | TicketReceived _ list_from | InviteReceived _ list_from _
  | InviteeMinted _ list_from _ _ _ | IntroductionSent _ list_from _ _ _
  | InviteeConfirming _ list_from _ _ _ _ | InviteeFailed _ list_from _ => list_from
  end.

Definition policy (p : InviteePhase) : option Policy :=
  match p with
  | InviteReceived _ _ policy | InviteeMinted _ _ policy _ _
  | IntroductionSent _ _ policy _ _ | InviteeConfirming _ _ policy _ _ _ => Some policy
  | _ => None
  end.

Definition intake (p : InviteePhase) : option KeyPair :=
  match p with
  | InviteeMinted _ _ _ intake _ | IntroductionSent _ _ _ intake _
  | InviteeConfirming _ _ _ intake _ _ => Some intake
  | _ => None
  end.

Definition shared_inviter (p : InviteePhase) : option Secret :=
  match p with
  | InviteeMinted _ _ _ _ s | IntroductionSent _ _ _ _ s
  | InviteeConfirming _ _ _ _ s _ => Some s
  | _ => None
  end.

Definition shared_invitee (p : InviteePhase) : option Secret :=
  match p with InviteeConfirming _ _ _ _ _ s => Some s | _ => None end.

Definition failure (p : InviteePhase) : option HandshakeFailure :=
  match p with InviteeFailed _ _ reason => Some reason | _ => None end.

Definition receive_notice (policy : Policy) (p : InviteePhase) : bool * InviteePhase :=
  match p with
  | TicketReceived ticket list_from => (true, InviteReceived ticket list_from policy)
  | _ => (false, p)
  end.

Definition ack_intro (p : InviteePhase) : InviteePhase :=
  match p with
  | InviteeMinted ticket list_from policy intake si =>
      IntroductionSent ticket list_from policy intake si
  | _ => p
  end.

Definition mint_intro (intake : KeyPair) (si : Secret) (p : InviteePhase) :
    bool * InviteePhase :=
  match p with
  | InviteReceived ticket list_from policy =>
      (true, InviteeMinted ticket list_from policy intake si)
  | _ => (false, p)
  end.

Definition confirm_peer (se : Secret) (p : InviteePhase) : bool * InviteePhase :=
  match p with
  | InviteeMinted ticket list_from policy intake si
  | IntroductionSent ticket list_from policy intake si =>
      (true, InviteeConfirming ticket list_from policy intake si se)
  | _ => (false, p)
  end.

Definition fail (reason : HandshakeFailure) (p : InviteePhase) : InviteePhase :=
  match p with
  | InviteeFailed _ _ _ => p
  | _ => InviteeFailed (ticket p) (list_from p) reason
  end.

End Invitee.

(** * Parties *)

Inductive handshake : Set := DmKind | SyncKind.

Inductive Party (k : handshake) : Set :=
| PartyInviter (p : InviterPhase)
| PartyInvitee (p : InviteePhase).
Arguments PartyInviter {k} p.
Arguments PartyInvitee {k} p.

Abbreviation DmParty := (Party DmKind).
Abbreviation SyncParty := (Party SyncKind).

(** [PhaseKind]: the phase without its secrets. *)
Inductive PhaseKind : Set :=
| K_InviteCreated | K_NoticePinned | K_InviterIntroMinted | K_Confirming
| K_TicketReceived | K_InviteReceived | K_InviteeIntroMinted | K_IntroductionSent
| K_Failed (reason : HandshakeFailure).

Section Parties.
Context {k : handshake}.
Implicit Types p : Party k.

Definition party_ticket (p : Party k) : Ticket :=
  match p with PartyInviter p => Inviter.ticket p | PartyInvitee p => Invitee.ticket p end.

Definition party_list_from (p : Party k) : TimeBin :=
  match p with PartyInviter p => Inviter.list_from p | PartyInvitee p => Invitee.list_from p end.

Definition party_intake (p : Party k) : option KeyPair :=
  match p with PartyInviter p => Inviter.intake p | PartyInvitee p => Invitee.intake p end.

Definition party_shared_inviter (p : Party k) : option Secret :=
  match p with PartyInviter p => Inviter.shared_inviter p | PartyInvitee p => Invitee.shared_inviter p end.

Definition party_shared_invitee (p : Party k) : option Secret :=
  match p with PartyInviter p => Inviter.shared_invitee p | PartyInvitee p => Invitee.shared_invitee p end.

Definition party_failure (p : Party k) : option HandshakeFailure :=
  match p with PartyInviter p => Inviter.failure p | PartyInvitee p => Invitee.failure p end.

Definition is_inviter (p : Party k) : bool :=
  match p with PartyInviter _ => true | PartyInvitee _ => false end.

Definition ack_posted (p : Party k) : Party k :=
  match p with
  | PartyInviter p => PartyInviter (Inviter.ack_intro (Inviter.ack_notice p))
  | PartyInvitee p => PartyInvitee (Invitee.ack_intro p)
  end.

Definition party_fail (reason : HandshakeFailure) (p : Party k) : Party k :=
  match p with
  | PartyInviter p => PartyInviter (Inviter.fail reason p)
  | PartyInvitee p => PartyInvitee (Invitee.fail reason p)
  end.

(** [inviter_mut] and [invitee_mut] give access to the phase of that side; the mutation
    done through them is [f]. *)
Definition on_inviter (f : InviterPhase → bool * InviterPhase) (p : Party k) :
    option (bool * Party k) :=
  match p with
  | PartyInviter p => let '(b, p') := f p in Some (b, PartyInviter p')
  | PartyInvitee _ => None
  end.

Definition on_invitee (f : InviteePhase → bool * InviteePhase) (p : Party k) :
    option (bool * Party k) :=
  match p with
  | PartyInvitee p => let '(b, p') := f p in Some (b, PartyInvitee p')
  | PartyInviter _ => None
  end.

Definition invitee_policy (p : Party k) : option Policy :=
  match p with PartyInvitee p => Invitee.policy p | PartyInviter _ => None end.

Definition kind (p : Party k) : PhaseKind :=
  match p with
  | PartyInviter p =>
    match p with
    | InviteCreated _ _ _ => K_InviteCreated
    | NoticePinned _ _ _ => K_NoticePinned
    | InviterMinted _ _ _ _ _ => K_InviterIntroMinted
    | InviterConfirming _ _ _ _ _ => K_Confirming
    | InviterFailed _ _ reason => K_Failed reason
    end
  | PartyInvitee p =>
    match p with
    | TicketReceived _ _ => K_TicketReceived
    | InviteReceived _ _ _ => K_InviteReceived
    | InviteeMinted _ _ _ _ _ => K_InviteeIntroMinted
    | IntroductionSent _ _ _ _ _ => K_IntroductionSent
    | InviteeConfirming _ _ _ _ _ _ => K_Confirming
    | InviteeFailed _ _ reason => K_Failed reason
    end
  end.

End Parties.

(** * The state machine

    One step of a party: any transition the engine may call, whether or not it applies. *)
Inductive party_event : Set :=
| E_ack
| E_notice (policy : Policy)
| E_inviter_mint (si se : Secret)
| E_invitee_mint (intake : KeyPair) (si : Secret)
| E_confirm (se : Secret)
| E_fail (reason : HandshakeFailure).

Definition apply_event {k} (e : party_event) (p : Party k) : Party k :=
  match e with
  | E_ack => ack_posted p
  | E_notice policy => from_option snd p (on_invitee (Invitee.receive_notice policy) p)
  | E_inviter_mint si se => from_option snd p (on_inviter (Inviter.mint_intro si se) p)
  | E_invitee_mint intake si => from_option snd p (on_invitee (Invitee.mint_intro intake si) p)
  | E_confirm se => from_option snd p (on_invitee (Invitee.confirm_peer se) p)
  | E_fail reason => party_fail reason p
  end.

Definition run {k} (es : list party_event) (p : Party k) : Party k :=
  fold_left (λ p e, apply_event e p) es p.

Inductive party_step {k} : Party k → Party k → Prop :=
| party_step_event e p : party_step p (apply_event e p).

(** * Invariants *)

Lemma run_cons {k} e es (p : Party k) : run (e :: es) p = run es (apply_event e p).
Proof. done. Qed.

(** What one step may change, for either side. *)
Definition party_advances {k} (p q : Party k) : Prop :=
  party_ticket q = party_ticket p ∧ party_list_from q = party_list_from p ∧
  is_inviter q = is_inviter p ∧
  (party_failure p ≠ None → q = p) ∧
  (party_failure q = None →
     party_failure p = None ∧
     (∀ s, party_shared_inviter p = Some s → party_shared_inviter q = Some s) ∧
     (∀ s, party_shared_invitee p = Some s → party_shared_invitee q = Some s) ∧
     (∀ i, party_intake p = Some i → party_intake q = Some i) ∧
     (∀ pol, invitee_policy p = Some pol → invitee_policy q = Some pol)).

#[export] Instance party_advances_preorder {k} : PreOrder (@party_advances k).
Proof.
  split.
  - intros p. unfold party_advances. naive_solver.
  - intros p q r (H1 & H2 & H3 & H4 & H5) (G1 & G2 & G3 & G4 & G5).
    unfold party_advances. split_and!; try congruence.
    + intros Hf. assert (q = p) as -> by auto. auto.
    + intros Hr. destruct (G5 Hr) as (Hq & ? & ? & ? & ?).
      destruct (H5 Hq) as (Hp & ? & ? & ? & ?). split_and!; auto.
Qed.

Lemma party_step_advances {k} (p q : Party k) : party_step p q → party_advances p q.
Proof.
  destruct 1 as [e p]. destruct p as [p|p], p, e; unfold party_advances; cbn; naive_solver.
Qed.

(** C32. Whatever transitions a handshake goes through, its ticket, its listing bin and its
    side never change; a secret, an intake pair or a policy once set is never replaced
    or dropped except by failing; and a failed handshake never changes again. *)
Theorem party_reachable {k} (p q : Party k) :
  rtc party_step p q → party_advances p q.
Proof.
  induction 1 as [p|p q r Hstep _ IH]; [done|].
  etrans; [by apply party_step_advances|done].
Qed.

Lemma party_reachable_witness :
  let t := mkTicket (from_bytes (fill 32 x01)) [] (clamp64 9) in
  let p : Party DmKind := PartyInvitee (TicketReceived t (clamp64 3)) in
  party_advances p (run [E_notice Hybrid; E_ack] p).
Proof.
  cbv zeta. apply party_reachable. eapply rtc_l; [apply (party_step_event (E_notice Hybrid))|].
  eapply rtc_l; [apply (party_step_event E_ack)|]. apply rtc_refl.
Defined.

Lemma run_failed {k} es (p : Party k) : party_failure p ≠ None → run es p = p.
Proof.
  revert p. induction es as [|e es IH]; intros p Hp; [done|].
  rewrite run_cons. pose proof (party_step_advances _ _ (party_step_event e p)) as (_&_&_&Hf&_).
  rewrite (Hf Hp). by apply IH.
Qed.

Definition no_fail (es : list party_event) : Prop := ∀ r, E_fail r ∉ es.

Lemma no_fail_nil : no_fail [].
Proof. intros r. apply not_elem_of_nil. Qed.

Lemma no_fail_cons e es : (∀ r, e ≠ E_fail r) → no_fail es → no_fail (e :: es).
Proof. intros He Hes r [Heq|Hin]%elem_of_cons; [by apply (He r)|by apply (Hes r)]. Qed.

Section History.
Context {k : handshake}.
Implicit Types es : list party_event.

(** The trace [es] splits around the events [marks], in order. *)
Fixpoint passes (marks es : list party_event) : Prop :=
  match marks with
  | [] => True
  | m :: marks => ∃ e1 e2, es = e1 ++ m :: e2 ∧ passes marks e2
  end.

Lemma passes_cons marks e es : passes marks es → passes marks (e :: es).
Proof. destruct marks as [|m marks]; [done|]. intros (e1 & e2 & -> & H). by exists (e :: e1), e2. Qed.

Lemma passes_here m marks es : passes marks es → passes (m :: marks) (m :: es).
Proof. intros H. by exists [], es. Qed.

(** Induction on a trace: an event that leaves the phase alone uses the induction
    hypothesis, a failure reaches no other phase, and what is left is the event that
    advances the phase, for which the next lemma speaks. *)
Ltac trace IH :=
  rewrite run_cons;
  cbn [apply_event party_fail ack_posted on_inviter on_invitee from_option snd
    Inviter.ack_intro Inviter.ack_notice Inviter.mint_intro Inviter.fail
    Invitee.ack_intro Invitee.receive_notice Invitee.mint_intro Invitee.confirm_peer Invitee.fail];
  first
  [ rewrite run_failed by done; done
  | intros (? & ? & ?)%IH; split_and!; [done|by apply no_fail_cons|by apply passes_cons]
  | idtac ].

Lemma inviter_confirming es t i si se l t' i' si' se' l' :
  run es (PartyInviter (k := k) (InviterConfirming t i si se l)) =
    PartyInviter (InviterConfirming t' i' si' se' l') →
  (t', i', si', se', l') = (t, i, si, se, l) ∧ no_fail es ∧ passes [] es.
Proof.
  induction es as [|e es IH]; [intros [= -> -> -> -> ->]; split_and!; [done|apply no_fail_nil|done]|].
  destruct e; trace IH.
Qed.

Lemma inviter_minted es t i si se l t' i' si' se' l' :
  run es (PartyInviter (k := k) (InviterMinted t i si se l)) =
    PartyInviter (InviterConfirming t' i' si' se' l') →
  (t', i', si', se', l') = (t, i, si, se, l) ∧ no_fail es ∧ passes [E_ack] es.
Proof.
  induction es as [|e es IH]; [done|]. destruct e; trace IH.
  intros (? & ? & ?)%inviter_confirming. split_and!; [done|by apply no_fail_cons|].
  by apply passes_here.
Qed.

Lemma inviter_pinned es t i l t' i' si' se' l' :
  run es (PartyInviter (k := k) (NoticePinned t i l)) =
    PartyInviter (InviterConfirming t' i' si' se' l') →
  (t', i', l') = (t, i, l) ∧ no_fail es ∧ passes [E_inviter_mint si' se'; E_ack] es.
Proof.
  induction es as [|e es IH]; [done|]. destruct e; trace IH.
  intros (HE & ? & ?)%inviter_minted. injection HE as -> -> -> -> ->.
  split_and!; [done|by apply no_fail_cons|]. by apply passes_here.
Qed.

Lemma inviter_created es t i l t' i' si' se' l' :
  run es (PartyInviter (k := k) (InviteCreated t i l)) =
    PartyInviter (InviterConfirming t' i' si' se' l') →
  (t', i', l') = (t, i, l) ∧ no_fail es ∧ passes [E_ack; E_inviter_mint si' se'; E_ack] es.
Proof.
  induction es as [|e es IH]; [done|]. destruct e; trace IH.
  intros (HE & ? & ?)%inviter_pinned. injection HE as -> -> ->.
  split_and!; [done|by apply no_fail_cons|]. by apply passes_here.
Qed.

Lemma invitee_confirming es t l pol i si se t' l' pol' i' si' se' :
  run es (PartyInvitee (k := k) (InviteeConfirming t l pol i si se)) =
    PartyInvitee (InviteeConfirming t' l' pol' i' si' se') →
  (t', l', pol', i', si', se') = (t, l, pol, i, si, se) ∧ no_fail es ∧ passes [] es.
Proof.
  induction es as [|e es IH];
    [intros [= -> -> -> -> -> ->]; split_and!; [done|apply no_fail_nil|done]|].
  destruct e; trace IH.
Qed.

Lemma invitee_sent es t l pol i si t' l' pol' i' si' se' :
  run es (PartyInvitee (k := k) (IntroductionSent t l pol i si)) =
    PartyInvitee (InviteeConfirming t' l' pol' i' si' se') →
  (t', l', pol', i', si') = (t, l, pol, i, si) ∧ no_fail es ∧ passes [E_confirm se'] es.
Proof.
  induction es as [|e es IH]; [done|]. destruct e; trace IH.
  intros (HE & ? & ?)%invitee_confirming. injection HE as -> -> -> -> -> ->.
  split_and!; [done|by apply no_fail_cons|]. by apply passes_here.
Qed.

Lemma invitee_minted es t l pol i si t' l' pol' i' si' se' :
  run es (PartyInvitee (k := k) (InviteeMinted t l pol i si)) =
    PartyInvitee (InviteeConfirming t' l' pol' i' si' se') →
  (t', l', pol', i', si') = (t, l, pol, i, si) ∧ no_fail es ∧ passes [E_confirm se'] es.
Proof.
  induction es as [|e es IH]; [done|]. destruct e; trace IH.
  - intros (? & ? & ?)%invitee_sent. split_and!; [done|by apply no_fail_cons|].
    by apply passes_cons.
  - intros (HE & ? & ?)%invitee_confirming. injection HE as -> -> -> -> -> ->.
    split_and!; [done|by apply no_fail_cons|]. by apply passes_here.
Qed.

Lemma invitee_received es t l pol t' l' pol' i' si' se' :
  run es (PartyInvitee (k := k) (InviteReceived t l pol)) =
    PartyInvitee (InviteeConfirming t' l' pol' i' si' se') →
  (t', l', pol') = (t, l, pol) ∧ no_fail es ∧ passes [E_invitee_mint i' si'; E_confirm se'] es.
Proof.
  induction es as [|e es IH]; [done|]. destruct e; trace IH.
  intros (HE & ? & ?)%invitee_minted. injection HE as -> -> -> -> ->.
  split_and!; [done|by apply no_fail_cons|]. by apply passes_here.
Qed.

Lemma invitee_ticket es t l t' l' pol' i' si' se' :
  run es (PartyInvitee (k := k) (TicketReceived t l)) =
    PartyInvitee (InviteeConfirming t' l' pol' i' si' se') →
  (t', l') = (t, l) ∧ no_fail es ∧
  passes [E_notice pol'; E_invitee_mint i' si'; E_confirm se'] es.
Proof.
  induction es as [|e es IH]; [done|]. destruct e; trace IH.
  intros (HE & ? & ?)%invitee_received. injection HE as -> -> ->.
  split_and!; [done|by apply no_fail_cons|]. by apply passes_here.
Qed.

End History.

(** C31. Nobody confirms out of order.  An inviter is [Confirming] only after its notice
    was acknowledged, then its intro was minted with exactly the two secrets it holds,
    then that intro was acknowledged; an invitee only after it received the notice whose
    policy it holds, then minted its intro with the intake pair and secret it holds, then
    accepted the peer's secret; and neither passed a failure. *)
Theorem confirming_history {k} es t l :
  (∀ i t' i' si se l',
     run es (PartyInviter (k := k) (InviteCreated t i l)) =
       PartyInviter (InviterConfirming t' i' si se l') →
     (t', i', l') = (t, i, l) ∧ no_fail es ∧
     passes [E_ack; E_inviter_mint si se; E_ack] es) ∧
  (∀ t' l' pol i si se,
     run es (PartyInvitee (k := k) (TicketReceived t l)) =
       PartyInvitee (InviteeConfirming t' l' pol i si se) →
     (t', l') = (t, l) ∧ no_fail es ∧
     passes [E_notice pol; E_invitee_mint i si; E_confirm se] es).
Proof.
  split; intros.
  - by eapply inviter_created.
  - by eapply invitee_ticket.
Qed.
