(* ===== verification/HealRange.v ===== *)
(** The id ranges of the set-XOR search: the pure half of [engine/heal.rs].

    Ids are 32-byte big-endian integers in the order of [Tag]; an upper bound of all
    [0xff] bytes stands for +∞.  The byte loops are translated as loops over the bytes. *)

From stdpp Require Import base tactics list numbers option strings countable gmap.
From Stdlib Require Import Strings.Byte.
From S2P Require Import Prelude Text Ids Channel Defaults Payload Json Ports Codec Chain.
From S2P Require Import ChainLaws.

(** One outstanding heal range ([engine/chains.rs]). *)
Inductive HealProbe : Set :=
| Half (lo hi : Tag)
| Want (lo hi : Tag) (ids : list Tag)
| Have (lo hi : Tag) (ids : list Tag).

Definition ID_CAP : nat := 32.
Definition FALLBACK_SECS : N := 3.
Definition LIVE_SECS : N := 30.

(** [a < b] and [a <= b] on tags. *)
Definition tag_ltb (a b : Tag) : bool :=
  match branded_cmp a b with Lt => true | _ => false end.
Definition tag_leb (a b : Tag) : bool :=
  match branded_cmp a b with Gt => false | _ => true end.

Definition is_inf (hi : Tag) : bool := bool_decide (cval (as_bytes hi) = replicate 32 xff).

Definition in_range (id lo hi : Tag) : bool := tag_leb lo id && (is_inf hi || tag_ltb id hi).

Definition range_xor (ids : list Tag) (lo hi : Tag) : Tag :=
  from_bytes
    (fold_left (λ acc id, if in_range id lo hi then xor32 acc (as_bytes id) else acc) ids
       (fill 32 x00)).

(** The loop of [successor] over the bytes from the last to the first. *)
Fixpoint succ_rev (l : bytes) : option bytes :=
  match l with
  | [] => None
  | b :: l' =>
    if bool_decide (b = xff) then l'' ← succ_rev l'; Some (x00 :: l'')
    else Some (byte_of_N (Byte.to_N b + 1) :: l')
  end.

Lemma succ_rev_length l l' : succ_rev l = Some l' → length l' = length l.
Proof.
  revert l'. induction l as [|b l IH]; intros l'; cbn; [done|]. case_bool_decide.
  - destruct (succ_rev l) as [r|]; cbn; [|done]. intros [= <-]. cbn. by rewrite (IH r).
  - by intros [= <-].
Qed.

Definition successor (lo : Tag) : option Tag :=
  l ← succ_rev (rev (cval (as_bytes lo))); a ← try_into 32 (rev l); Some (from_bytes a).

Definition single_id (lo hi : Tag) : bool :=
  match successor lo with Some next => branded_eq next hi | None => false end.

(** [(v >> 1) | (carry << 7)] and [v & 1]. *)
Definition shr1 (v : byte) (carry : N) : byte :=
  byte_of_N (N.lor (N.shiftr (Byte.to_N v) 1) (N.shiftl carry 7)).
Definition low_bit (v : byte) : N := N.land (Byte.to_N v) 1.

(** The loop of the +∞ case, over the bytes of [lo] from the last to the first. *)
Fixpoint shift_rev (carry : N) (l : bytes) : bytes :=
  match l with
  | [] => []
  | v :: l' => shr1 v carry :: shift_rev (low_bit v) l'
  end.

(** The addition loop, from the last byte to the first; the final carry comes last. *)
Fixpoint add_rev (carry : N) (a b : bytes) : bytes :=
  match a, b with
  | x :: a', y :: b' =>
    let sum := (Byte.to_N x + Byte.to_N y + carry)%N in
    byte_of_N (N.land sum 255) :: add_rev (N.shiftr sum 8) a' b'
  | _, _ => [byte_of_N carry]
  end.

(** The halving loop over the 33 bytes, first to last. *)
Fixpoint halve (bit : N) (l : bytes) : bytes :=
  match l with
  | [] => []
  | v :: l' => shr1 v bit :: halve (low_bit v) l'
  end.

Definition mid_inf (lo : bytes) : bytes :=
  match rev (shift_rev 0 (rev lo)) with
  | [] => []
  | b :: out => byte_or b x80 :: out
  end.

Definition mid_sum (lo hi : bytes) : bytes :=
  match rev (add_rev 0 (rev lo) (rev hi)) with
  | [] => []
  | w :: wide => halve (low_bit w) wide
  end.

(** The result is rebuilt as an array; its length is 32 by construction. *)
Definition to_tag (l : bytes) : Tag := from_bytes (default (fill 32 x00) (try_into 32 l)).

Definition midpoint (lo hi : Tag) : option Tag :=
  let inf := is_inf hi in
  let mid := to_tag (if inf then mid_inf (cval (as_bytes lo))
                     else mid_sum (cval (as_bytes lo)) (cval (as_bytes hi))) in
  if tag_ltb lo mid && (inf || tag_ltb mid hi) then Some mid else None.

Definition probe_plain (probe : HealProbe) (packet_seq : u64) (actor_id : bytes) : PacketPlain :=
  match probe with
  | Half lo hi => HealHalfXor (mkHealHalfXor actor_id packet_seq lo hi (from_bytes (fill 32 x00)))
  | Want lo hi ids => HealWant (mkHealWant actor_id packet_seq lo hi ids)
  | Have lo hi ids => HealHave (mkHealHave actor_id packet_seq lo hi ids)
  end.

(** * Ids as numbers *)

Definition tag_val (t : Tag) : N := be_val (cval (as_bytes t)).

Lemma be_val_app l l' : be_val (l ++ l') = (be_val l * 256 ^ N.of_nat (length l') + be_val l')%N.
Proof.
  revert l. induction l' as [|b l' IH] using rev_ind; intros l.
  - rewrite app_nil_r. cbn. lia.
  - unfold be_val in *. rewrite app_assoc, (fold_left_app _ (l ++ l')), (fold_left_app _ l').
    cbn [fold_left].
    rewrite IH, length_app. cbn [length]. rewrite Nat.add_comm, Nat2N.inj_succ, N.pow_succ_r'. lia.
Qed.

Lemma be_val_cons b l : be_val (b :: l) = (Byte.to_N b * 256 ^ N.of_nat (length l) + be_val l)%N.
Proof. apply (be_val_app [b]). Qed.

Lemma be_val_lt l : (be_val l < 256 ^ N.of_nat (length l))%N.
Proof.
  induction l as [|b l IH]; [done|]. rewrite be_val_cons. cbn [length].
  rewrite Nat2N.inj_succ, N.pow_succ_r'. pose proof (byte_bound b). nia.
Qed.

Lemma be_val_compare l l' :
  length l = length l' → lex_compare (bytes_N l) (bytes_N l') = N.compare (be_val l) (be_val l').
Proof.
  revert l'. induction l as [|x l IH]; intros [|y l'] Hl; try done.
  injection Hl as Hl. cbn [bytes_N map lex_compare]. fold (bytes_N l) (bytes_N l').
  rewrite !be_val_cons, <-Hl. pose proof (be_val_lt l). pose proof (be_val_lt l').
  rewrite <-Hl in *. rewrite IH by done. symmetry.
  destruct (N.compare_spec (Byte.to_N x) (Byte.to_N y)) as [->|Hxy|Hxy].
  - destruct (N.compare_spec (be_val l) (be_val l')); [apply N.compare_eq_iff|
      apply N.compare_lt_iff|apply N.compare_gt_iff]; lia.
  - apply N.compare_lt_iff. nia.
  - apply N.compare_gt_iff. nia.
Qed.

Lemma tag_cmp_val a b : branded_cmp a b = N.compare (tag_val a) (tag_val b).
Proof. apply be_val_compare. by rewrite !arr_length. Qed.

Lemma tag_ltb_val a b : tag_ltb a b = (tag_val a <? tag_val b)%N.
Proof. unfold tag_ltb, N.ltb. by rewrite tag_cmp_val. Qed.

Lemma tag_leb_val a b : tag_leb a b = (tag_val a <=? tag_val b)%N.
Proof. unfold tag_leb, N.leb. by rewrite tag_cmp_val. Qed.

Lemma tag_val_lt t : (tag_val t < 2 ^ 256)%N.
Proof.
  unfold tag_val. pose proof (be_val_lt (cval (as_bytes t))) as H. rewrite arr_length in H.
  exact H.
Qed.

Lemma tag_val_inj a b : tag_val a = tag_val b → a = b.
Proof.
  intros HE. apply branded_cmp_eq. rewrite tag_cmp_val, HE. apply N.compare_refl.
Qed.

(** * The byte loops compute on numbers *)

Lemma shr1_val v bit : (bit < 2)%N → Byte.to_N (shr1 v bit) = (bit * 128 + Byte.to_N v / 2)%N.
Proof.
  intros Hb. assert (bit = 0 ∨ bit = 1)%N as [-> | ->] by lia; by destruct v; vm_compute.
Qed.

Lemma low_bit_val v : low_bit v = (Byte.to_N v mod 2)%N.
Proof. by destruct v; vm_compute. Qed.

Lemma low_bit_lt v : (low_bit v < 2)%N.
Proof. rewrite low_bit_val. by apply N.mod_lt. Qed.

Lemma halve_length bit l : length (halve bit l) = length l.
Proof. revert bit. induction l as [|v l IH]; intros bit; cbn; [done|]. by rewrite IH. Qed.

Lemma halve_val bit l :
  (bit < 2)%N → be_val (halve bit l) = ((bit * 256 ^ N.of_nat (length l) + be_val l) / 2)%N.
Proof.
  revert bit. induction l as [|v l IH]; intros bit Hb.
  { cbn. assert (bit = 0 ∨ bit = 1)%N as [-> | ->] by lia; done. }
  cbn [halve]. rewrite !be_val_cons, halve_length, shr1_val, IH by auto using low_bit_lt.
  rewrite low_bit_val. cbn [length]. rewrite Nat2N.inj_succ, N.pow_succ_r'.
  set (p := (256 ^ N.of_nat (length l))%N).
  destruct (divmod_ex (Byte.to_N v) 2 ltac:(done)) as (q & r & -> & -> & -> & Hr).
  replace (bit * (256 * p) + ((2 * q + r) * p + be_val l))%N
    with ((bit * 128 + q) * p * 2 + (r * p + be_val l))%N by lia.
  rewrite N.div_add_l by done. lia.
Qed.

Lemma N_land_255 n : N.land n 255 = (n mod 256)%N.
Proof. exact (N.land_ones n 8). Qed.

Lemma add_rev_length c a b :
  length a = length b → length (add_rev c a b) = S (length a).
Proof.
  revert c b. induction a as [|x a IH]; intros c [|y b] Hl; try done.
  cbn [add_rev length]. by rewrite IH by (by injection Hl).
Qed.

Lemma add_rev_val c a b :
  length a = length b → (c < 2)%N →
  be_val (rev (add_rev c a b)) = (be_val (rev a) + be_val (rev b) + c)%N.
Proof.
  revert c b. induction a as [|x a IH]; intros c [|y b] Hl Hc; try done.
  { cbn [add_rev rev app]. unfold be_val. cbn [fold_left]. rewrite byte_to_of_N.
    rewrite N.mod_small by lia. lia. }
  injection Hl as Hl. cbn [add_rev rev]. rewrite !be_val_app. cbn [length].
  change (N.of_nat 1) with 1%N. rewrite N.pow_1_r. unfold be_val at 2 4 6. cbn [fold_left].
  rewrite N_land_255, N.shiftr_div_pow2. change (2 ^ 8)%N with 256%N.
  set (s := (Byte.to_N x + Byte.to_N y + c)%N).
  destruct (divmod_ex s 256 ltac:(done)) as (q & r & Hq & Hr & Hs & Hlt).
  rewrite Hq, Hr, byte_to_of_N, N.mod_small by lia. rewrite IH; [|done|].
  - lia.
  - pose proof (byte_bound x). pose proof (byte_bound y). lia.
Qed.

Lemma mid_sum_val lo hi :
  length lo = 32%nat → length hi = 32%nat →
  length (mid_sum lo hi) = 32%nat ∧ be_val (mid_sum lo hi) = ((be_val lo + be_val hi) / 2)%N.
Proof.
  intros Hlo Hhi. unfold mid_sum.
  assert (length (rev lo) = length (rev hi)) as Hl by (rewrite !length_rev; congruence).
  pose proof (add_rev_val 0 (rev lo) (rev hi) Hl ltac:(done)) as HV.
  assert (length (rev (add_rev 0 (rev lo) (rev hi))) = 33%nat) as HL
    by (by rewrite length_rev, add_rev_length, length_rev, Hlo).
  rewrite !rev_involutive in HV.
  destruct (rev (add_rev 0 (rev lo) (rev hi))) as [|w wide]; [done|].
  injection HL as HL. split; [by rewrite halve_length|].
  rewrite halve_val by apply low_bit_lt. rewrite be_val_cons in HV.
  rewrite HL in *. pose proof (be_val_lt lo) as H1. pose proof (be_val_lt hi) as H2.
  rewrite Hlo in H1. rewrite Hhi in H2.
  assert (Byte.to_N w < 2)%N as Hw by nia.
  rewrite low_bit_val, N.mod_small by done. f_equal. lia.
Qed.

Lemma to_tag_val l : length l = 32%nat → cval (as_bytes (to_tag l)) = l.
Proof.
  intros Hl. unfold to_tag. destruct (try_into 32 l) as [a|] eqn:E.
  - cbn. by apply check_Some in E.
  - apply check_None in E. by apply Nat.eqb_neq in E.
Qed.

Lemma is_inf_val t : is_inf t = true ↔ tag_val t = (2 ^ 256 - 1)%N.
Proof.
  unfold is_inf. rewrite bool_decide_eq_true. split.
  - unfold tag_val. intros ->. by vm_compute.
  - intros HE. enough (t = from_bytes (fill 32 xff)) as -> by done.
    apply tag_val_inj. rewrite HE. by vm_compute.
Qed.

(** The split point of a bounded range is the integer midpoint, and exists exactly when
    the bounds are not adjacent. *)
Lemma midpoint_finite lo hi :
  is_inf hi = false →
  match midpoint lo hi with
  | Some mid =>
      tag_val mid = ((tag_val lo + tag_val hi) / 2)%N ∧
      (tag_val lo < tag_val mid < tag_val hi)%N
  | None => (tag_val hi < tag_val lo + 2)%N
  end.
Proof.
  intros Hinf. unfold midpoint. rewrite Hinf. cbn [orb].
  destruct (mid_sum_val (cval (as_bytes lo)) (cval (as_bytes hi))) as [Hl HV];
    [apply arr_length..|].
  set (mid := to_tag _).
  assert (tag_val mid = ((tag_val lo + tag_val hi) / 2)%N) as Hmid.
  { unfold mid, tag_val. rewrite to_tag_val by done. exact HV. }
  rewrite !tag_ltb_val, Hmid.
  destruct (divmod_ex (tag_val lo + tag_val hi) 2 ltac:(done)) as (q & r & Hq & _ & Hs & Hr).
  rewrite Hq in *.
  destruct (tag_val lo <? q)%N eqn:E1, (q <? tag_val hi)%N eqn:E2;
    rewrite ?N.ltb_lt, ?N.ltb_ge in *; cbn [andb]; lia.
Qed.

(** * The +∞ case *)

Lemma shift_rev_length c l : length (shift_rev c l) = length l.
Proof. revert c. induction l as [|v l IH]; intros c; cbn; [done|]. by rewrite IH. Qed.

Lemma shift_rev_snoc c l v :
  (c < 2)%N → ∃ c', (c' < 2)%N ∧ shift_rev c (l ++ [v]) = shift_rev c l ++ [shr1 v c'].
Proof.
  revert c. induction l as [|u l IH]; intros c Hc; [by exists c|].
  destruct (IH (low_bit u) (low_bit_lt u)) as (c' & Hc' & E).
  exists c'. split; [done|]. cbn. by rewrite E.
Qed.

Lemma mid_inf_length lo : length lo = 32%nat → length (mid_inf lo) = 32%nat.
Proof.
  intros Hl. unfold mid_inf.
  assert (length (rev (shift_rev 0 (rev lo))) = 32%nat) as HL
    by (by rewrite length_rev, shift_rev_length, length_rev).
  by destruct (rev _).
Qed.

(** The last byte of the split point is below [0x80], so it is never +∞. *)
Lemma mid_inf_not_inf lo : length lo = 32%nat → mid_inf lo ≠ replicate 32 xff.
Proof.
  intros Hl HE. destruct lo as [|b lo] using rev_ind; [done|]. clear IHlo.
  assert (last (mid_inf (lo ++ [b])) = Some xff) as HL by (rewrite HE; done).
  clear HE. unfold mid_inf in HL. rewrite rev_app_distr in HL. cbn [rev app shift_rev] in HL.
  destruct (rev (shift_rev (low_bit b) (rev lo))) as [|c out] eqn:E.
  - apply (f_equal length) in E. rewrite length_rev, shift_rev_length, length_rev in E.
    rewrite length_app in Hl. cbn in *. lia.
  - cbn [app] in HL. change (byte_or c x80 :: out ++ [shr1 b 0])
      with ((byte_or c x80 :: out) ++ [shr1 b 0]) in HL.
    rewrite last_snoc in HL. injection HL as HL. apply (f_equal Byte.to_N) in HL.
    rewrite shr1_val in HL by done. cbn in HL. pose proof (byte_bound b).
    destruct (divmod_ex (Byte.to_N b) 2 ltac:(done)) as (q & r & Hq & _ & Hs & _).
    rewrite Hq in HL. lia.
Qed.

Lemma midpoint_not_inf lo hi mid : midpoint lo hi = Some mid → is_inf mid = false.
Proof.
  intros HM. destruct (is_inf hi) eqn:Hinf.
  - unfold midpoint in HM. rewrite Hinf in HM. destruct (_ && _); [|done]. injection HM as <-.
    unfold is_inf. rewrite to_tag_val by apply mid_inf_length, arr_length.
    apply bool_decide_eq_false, mid_inf_not_inf, arr_length.
  - pose proof (midpoint_finite lo hi Hinf) as HF. rewrite HM in HF.
    apply not_true_is_false. intros H%is_inf_val. pose proof (tag_val_lt hi). lia.
Qed.

Lemma midpoint_between lo hi mid :
  midpoint lo hi = Some mid →
  (tag_val lo < tag_val mid)%N ∧ (is_inf hi = true ∨ (tag_val mid < tag_val hi)%N).
Proof.
  unfold midpoint. destruct (tag_ltb lo _ && _) eqn:E; [|done]. intros HM. injection HM as <-.
  apply andb_true_iff in E as [E1 E2]. rewrite !tag_ltb_val in *.
  apply N.ltb_lt in E1. split; [done|]. apply orb_true_iff in E2 as [E2|E2]; [by left|].
  apply N.ltb_lt in E2. by right.
Qed.

(** A range up to +∞ whose lower bound does not start with [0xff] is split. *)
Lemma midpoint_inf_progress lo hi b rest :
  is_inf hi = true → cval (as_bytes lo) = b :: rest → b ≠ xff → is_Some (midpoint lo hi).
Proof.
  intros Hinf Hlo Hb. unfold midpoint. rewrite Hinf, Hlo. cbn [orb]. rewrite andb_true_r.
  assert (length (b :: rest) = 32%nat) as Hlen by (rewrite <-Hlo; apply arr_length).
  rewrite tag_ltb_val. unfold tag_val. rewrite to_tag_val by by apply mid_inf_length.
  rewrite Hlo. unfold mid_inf. cbn [rev].
  destruct (shift_rev_snoc 0 (rev rest) b ltac:(done)) as (c & Hc & ->).
  rewrite rev_app_distr. cbn [rev app].
  replace (_ <? _)%N with true; [done|]. symmetry. apply N.ltb_lt. rewrite !be_val_cons.
  rewrite length_rev, shift_rev_length, length_rev.
  pose proof (be_val_lt rest). set (p := (256 ^ N.of_nat (length rest))%N) in *.
  assert (Byte.to_N b + 1 <= Byte.to_N (byte_or (shr1 b c) x80))%N as Hle.
  { assert (c = 0 ∨ c = 1)%N as [-> | ->] by lia; destruct b; try done; by vm_compute. }
  nia.
Qed.

(** * Fingerprints of ranges *)

Lemma range_fold ids lo hi acc :
  fold_left (λ acc id, if in_range id lo hi then xor32 acc (as_bytes id) else acc) ids acc
  = xor32 acc (as_bytes (range_xor ids lo hi)).
Proof.
  unfold range_xor. cbn [as_bytes]. revert acc.
  induction ids as [|id ids IH]; intros acc; cbn [fold_left]; [by rewrite xor32_zero_r|].
  destruct (in_range id lo hi); [|apply IH].
  rewrite IH, (IH (xor32 (fill 32 x00) _)).
  by rewrite (xor32_comm (fill 32 x00)), xor32_zero_r, xor32_assoc.
Qed.

Lemma range_xor_cons id ids lo hi :
  range_xor (id :: ids) lo hi =
    if in_range id lo hi then from_bytes (xor32 (as_bytes id) (as_bytes (range_xor ids lo hi)))
    else range_xor ids lo hi.
Proof.
  unfold range_xor at 1. cbn [fold_left]. rewrite range_fold. destruct (in_range _ _ _).
  - by rewrite (xor32_comm (fill 32 x00)), xor32_zero_r.
  - rewrite xor32_comm, xor32_zero_r. by destruct (range_xor ids lo hi).
Qed.

Lemma in_range_val id lo hi :
  in_range id lo hi = true ↔
  (tag_val lo <= tag_val id)%N ∧ (is_inf hi = true ∨ (tag_val id < tag_val hi)%N).
Proof.
  unfold in_range. rewrite andb_true_iff, orb_true_iff, tag_leb_val, tag_ltb_val.
  by rewrite N.leb_le, N.ltb_lt.
Qed.

Lemma in_range_split id lo hi mid :
  midpoint lo hi = Some mid →
  in_range id lo hi = xorb (in_range id lo mid) (in_range id mid hi) ∧
  in_range id lo mid && in_range id mid hi = false.
Proof.
  intros HM. pose proof (midpoint_between _ _ _ HM) as [H1 H2].
  pose proof (midpoint_not_inf _ _ _ HM) as H3.
  pose proof (in_range_val id lo hi) as Q1. pose proof (in_range_val id lo mid) as Q2.
  pose proof (in_range_val id mid hi) as Q3. rewrite H3 in Q2.
  destruct (in_range id lo hi), (in_range id lo mid), (in_range id mid hi); cbn; split;
    try done; exfalso; naive_solver lia.
Qed.

(** Splitting a range at [midpoint] loses and repeats nothing: the split point lies
    strictly inside, every id of the range is in exactly one half, and the fingerprint of
    the range is the XOR of the halves'; so when two devices disagree on the range, they
    disagree on one of the halves. *)
Theorem midpoint_splits lo hi mid ids ids' :
  midpoint lo hi = Some mid →
  (tag_val lo < tag_val mid)%N ∧ (is_inf hi = true ∨ (tag_val mid < tag_val hi)%N) ∧
  (∀ id, in_range id lo hi = true ↔
     (in_range id lo mid = true ∧ in_range id mid hi = false) ∨
     (in_range id lo mid = false ∧ in_range id mid hi = true)) ∧
  range_xor ids lo hi =
    from_bytes (xor32 (as_bytes (range_xor ids lo mid)) (as_bytes (range_xor ids mid hi))) ∧
  (range_xor ids lo hi ≠ range_xor ids' lo hi →
     range_xor ids lo mid ≠ range_xor ids' lo mid ∨ range_xor ids mid hi ≠ range_xor ids' mid hi).
Proof.
  intros HM. pose proof (midpoint_between _ _ _ HM) as [H1 H2].
  assert (∀ ids, range_xor ids lo hi =
    from_bytes (xor32 (as_bytes (range_xor ids lo mid)) (as_bytes (range_xor ids mid hi)))) as HX.
  { clear ids ids'. induction ids as [|id ids IH].
    - apply branded_ext. cbn [as_bytes range_xor fold_left]. by rewrite xor32_zero_r.
    - rewrite !range_xor_cons, IH. destruct (in_range_split id lo hi mid HM) as [-> HA].
      destruct (in_range id lo mid), (in_range id mid hi); try done; cbn [xorb as_bytes].
      + by rewrite xor32_assoc.
      + f_equal. by rewrite !xor32_assoc, (xor32_comm (as_bytes id)). }
  split_and!; [done|done| |apply HX|].
  - intros id. destruct (in_range_split id lo hi mid HM) as [-> HA].
    destruct (in_range id lo mid), (in_range id mid hi); naive_solver.
  - intros Hne. destruct (decide (range_xor ids lo mid = range_xor ids' lo mid)) as [E|]; [|by left].
    right. intros E'. apply Hne. by rewrite !HX, E, E'.
Qed.

Lemma midpoint_splits_witness :
  let lo : Tag := to_tag (replicate 32 x00) in
  let mid : Tag := to_tag (replicate 31 x00 ++ [x02]) in
  let hi : Tag := to_tag (replicate 31 x00 ++ [x04]) in
  midpoint lo hi = Some mid ∧
  range_xor [lo; mid] lo hi =
    from_bytes (xor32 (as_bytes (range_xor [lo; mid] lo mid))
                      (as_bytes (range_xor [lo; mid] mid hi))).
Proof.
  cbv zeta. assert (midpoint (to_tag (replicate 32 x00)) (to_tag (replicate 31 x00 ++ [x04])) =
    Some (to_tag (replicate 31 x00 ++ [x02]))) as HM by vm_decide.
  split; [exact HM|]. exact (proj1 (proj2 (proj2 (proj2 (midpoint_splits _ _ _ _ [] HM))))).
Defined.

(** The first byte of the split point of a range up to +∞. *)
Lemma midpoint_inf_first lo hi mid b rest :
  is_inf hi = true → cval (as_bytes lo) = b :: rest → midpoint lo hi = Some mid →
  ∃ m ms, cval (as_bytes mid) = m :: ms ∧ Byte.to_N m = (128 + Byte.to_N b / 2)%N.
Proof.
  intros Hinf Hlo. unfold midpoint. rewrite Hinf, Hlo. destruct (_ && _); [|done]. intros [= <-].
  assert (length (b :: rest) = 32%nat) as Hlen by (rewrite <-Hlo; apply arr_length).
  rewrite to_tag_val by by apply mid_inf_length. unfold mid_inf. cbn [rev].
  destruct (shift_rev_snoc 0 (rev rest) b ltac:(done)) as (c & Hc & ->).
  rewrite rev_app_distr. cbn [rev app]. do 2 eexists. split; [done|].
  assert (c = 0 ∨ c = 1)%N as [-> | ->] by lia; destruct b; by vm_compute.
Qed.

(** C39. The split point of a range with a finite bound is the integer midpoint, lies strictly
    between the bounds, and is absent exactly when at most one id fits.  The split point of a
    range up to +∞ is finite and above the lower bound, with half the lower bound's first byte
    plus 128 for its first byte, and is there whenever the lower bound does not start with
    the byte [0xff]. *)
Theorem midpoint_spec lo hi :
  (is_inf hi = false →
     (∀ mid, midpoint lo hi = Some mid →
        tag_val mid = ((tag_val lo + tag_val hi) / 2)%N ∧
        (tag_val lo < tag_val mid < tag_val hi)%N) ∧
     (midpoint lo hi = None ↔ (tag_val hi < tag_val lo + 2)%N)) ∧
  (is_inf hi = true → ∀ b rest, cval (as_bytes lo) = b :: rest →
     (∀ mid, midpoint lo hi = Some mid →
        is_inf mid = false ∧ (tag_val lo < tag_val mid)%N ∧
        ∃ m ms, cval (as_bytes mid) = m :: ms ∧ Byte.to_N m = (128 + Byte.to_N b / 2)%N) ∧
     (b ≠ xff → is_Some (midpoint lo hi))).
Proof.
  split.
  - intros Hinf. pose proof (midpoint_finite lo hi Hinf) as HF. split.
    + intros mid HM. by rewrite HM in HF.
    + destruct (midpoint lo hi); split; try done. lia.
  - intros Hinf b rest Hlo. split; [|by eapply midpoint_inf_progress]. intros mid HM. split_and!.
    + by eapply midpoint_not_inf.
    + by apply midpoint_between in HM as [? _].
    + by apply (midpoint_inf_first lo hi mid b rest).
Qed.

(** Both kinds of range on concrete bounds. *)
Lemma midpoint_spec_witness :
  let lo : Tag := to_tag (replicate 31 x00 ++ [x02]) in
  let hi : Tag := to_tag (replicate 31 x00 ++ [x07]) in
  let mid : Tag := to_tag (replicate 31 x00 ++ [x04]) in
  let inf : Tag := to_tag (replicate 32 xff) in
  tag_val mid = ((tag_val lo + tag_val hi) / 2)%N ∧ is_Some (midpoint lo inf).
Proof.
  cbv zeta. split.
  - apply (proj1 (midpoint_spec (to_tag (replicate 31 x00 ++ [x02]))
      (to_tag (replicate 31 x00 ++ [x07]))) eq_refl). vm_decide.
  - apply (proj2 (midpoint_spec (to_tag (replicate 31 x00 ++ [x02])) (to_tag (replicate 32 xff)))
      eq_refl x00 (replicate 30 x00 ++ [x02])); [by vm_compute|done].
Defined.

(** The search of the top of the id space gets stuck: the range from [ff00...] to +∞
    holds [2^248] ids but has no split point, because the carry of the halving loop runs
    from the last byte to the first. *)
Theorem midpoint_stuck :
  let lo : Tag := to_tag (xff :: replicate 31 x00) in
  let hi : Tag := to_tag (replicate 32 xff) in
  midpoint lo hi = None ∧ single_id lo hi = false ∧
  (tag_val hi + 1 - tag_val lo = 2 ^ 248)%N.
Proof. split_and!; vm_compute; reflexivity. Qed.

(** * Ranges of one id *)

Lemma succ_rev_val l :
  match succ_rev l with
  | Some l' => be_val (rev l') = (be_val (rev l) + 1)%N
  | None => (be_val (rev l) + 1)%N = (256 ^ N.of_nat (length l))%N
  end.
Proof.
  induction l as [|b l IH]; [done|]. cbn [succ_rev rev length].
  rewrite be_val_app. cbn [length]. change (N.of_nat 1) with 1%N. rewrite N.pow_1_r.
  assert (be_val [b] = Byte.to_N b) as Hb by done. rewrite Hb.
  case_bool_decide as Hff.
  - subst b. change (Byte.to_N xff) with 255%N. destruct (succ_rev l) as [l'|]; cbn [mbind option_bind rev].
    + rewrite be_val_app. cbn [length]. change (N.of_nat 1) with 1%N. rewrite N.pow_1_r, IH.
      change (be_val [x00]) with 0%N. lia.
    + rewrite Nat2N.inj_succ, N.pow_succ_r'. lia.
  - cbn [rev]. rewrite be_val_app. cbn [length]. change (N.of_nat 1) with 1%N. rewrite N.pow_1_r.
    assert (be_val [byte_of_N (Byte.to_N b + 1)] = (Byte.to_N b + 1)%N) as ->; [|lia].
    unfold be_val. cbn [fold_left]. rewrite byte_to_of_N. pose proof (byte_bound b).
    assert (Byte.to_N b ≠ 255)%N by (intros HE; by apply (inj Byte.to_N b xff) in HE).
    rewrite N.mod_small by lia. lia.
Qed.

Lemma successor_val lo :
  match successor lo with
  | Some next => tag_val next = (tag_val lo + 1)%N
  | None => is_inf lo = true
  end.
Proof.
  unfold successor. pose proof (succ_rev_val (rev (cval (as_bytes lo)))) as HV.
  pose proof (succ_rev_length (rev (cval (as_bytes lo)))) as HL.
  rewrite rev_involutive, length_rev, arr_length in *.
  destruct (succ_rev _) as [l|]; cbn [mbind option_bind].
  - destruct (try_into 32 (rev l)) as [a|] eqn:E; cbn.
    + apply check_Some in E. unfold tag_val. cbn [as_bytes]. by rewrite E, HV.
    + apply check_None, Nat.eqb_neq in E. by rewrite length_rev, (HL l) in E.
  - apply is_inf_val. unfold tag_val. change (2 ^ 256)%N with (256 ^ N.of_nat 32)%N. lia.
Qed.

Lemma single_id_val lo hi : single_id lo hi = true ↔ tag_val hi = (tag_val lo + 1)%N.
Proof.
  unfold single_id. pose proof (successor_val lo) as HS. destruct (successor lo) as [next|].
  - rewrite branded_eq_spec, <-HS. split; [by intros ->|]. intros HE. by apply tag_val_inj.
  - split; [done|]. apply is_inf_val in HS. intros HE. pose proof (tag_val_lt hi). lia.
Qed.

(** [single_id] holds exactly when the upper bound is the next id; a bounded range
    then holds its lower bound and nothing else.  Up to +∞ it does not: the range from
    [ff..fe] holds two ids, the last of which the search cannot name. *)
Theorem single_id_spec lo hi :
  (single_id lo hi = true ↔ tag_val hi = (tag_val lo + 1)%N) ∧
  (single_id lo hi = true → is_inf hi = false → ∀ id, in_range id lo hi = true ↔ id = lo) ∧
  (single_id lo hi = true → is_inf hi = true →
     lo ≠ hi ∧ in_range lo lo hi = true ∧ in_range hi lo hi = true).
Proof.
  split; [apply single_id_val|]. rewrite single_id_val. split.
  - intros HE Hinf id. rewrite in_range_val, Hinf. split.
    + intros [H1 [|H2]]; [done|]. apply tag_val_inj. lia.
    + intros ->. split; [lia|]. right. lia.
  - intros HE Hinf. rewrite !in_range_val, Hinf. split_and!; auto; try lia.
    intros ->. lia.
Qed.
