(* ===== verification/Bins.v ===== *)
(** List bins, invite tags, locators and the small pure helpers of [engine/helpers.rs],
    with the records of [engine/state.rs] and [engine/query.rs] they work on. *)

From stdpp Require Import base tactics list numbers option strings countable gmap sorting.
From Stdlib Require Import Strings.Byte.
From S2P Require Import Prelude Text Ids Order Channel Defaults Payload Json Ports Codec Chain.

(** [str::cmp]: the UTF-8 bytes. *)
Definition str_cmp (a b : str) : comparison := bytes_compare (utf8 a) (utf8 b).

(** * Locators and writes *)

Record DurableLocator : Set := mkDurableLocator { dl_channel : DurableChannel; dl_tag : Tag }.
Record DurableWrite : Set :=
  mkDurableWrite { dw_channel : DurableChannel; dw_tag : Tag; dw_body : bytes }.
Record EphemeralWrite : Set :=
  mkEphemeralWrite { ew_channel : EphemeralChannel; ew_tag : Tag; ew_body : bytes }.

#[export] Instance DurableLocator_eq_dec : EqDecision DurableLocator.
Proof. solve_decision. Defined.
#[export] Instance DurableWrite_eq_dec : EqDecision DurableWrite.
Proof. solve_decision. Defined.

Definition locator_ord (a b : DurableLocator) : comparison :=
  then_with (str_cmp (cval (d_kind (dl_channel a))) (cval (d_kind (dl_channel b))))
    (then_with (str_cmp (cval (d_address (dl_channel a))) (cval (d_address (dl_channel b))))
       (branded_cmp (dl_tag a) (dl_tag b))).

Definition sort_durable_locators (l : list DurableLocator) : list DurableLocator :=
  sort_by locator_ord l.

Definition write_locator (w : DurableWrite) : DurableLocator :=
  mkDurableLocator (dw_channel w) (dw_tag w).

Definition sort_durable_writes (l : list DurableWrite) : list DurableWrite :=
  sort_by (λ a b, locator_ord (write_locator a) (write_locator b)) l.

Definition sort_ephemeral_writes (l : list EphemeralWrite) : list EphemeralWrite :=
  sort_by (λ a b,
    then_with (str_cmp (cval (e_kind (ew_channel a))) (cval (e_kind (ew_channel b))))
      (then_with (str_cmp (cval (e_address (ew_channel a))) (cval (e_address (ew_channel b))))
         (branded_cmp (ew_tag a) (ew_tag b)))) l.

(** * List bins *)

Record BinKey : Set := mkBinKey { bk_channel : DurableChannel; bk_tag_key : TagKey }.

Record BinProgress : Set := mkBinProgress {
  bp_channel : DurableChannel; bp_tag_key : TagKey;
  bp_watermark : option TimeBin; bp_completed : gset TimeBin
}.

Definition progress_key (channel : DurableChannel) (tag_key : TagKey) : BinKey :=
  mkBinKey channel tag_key.

Definition catch_up_start (progress : option BinProgress) (list_from : TimeBin) : TimeBin :=
  match progress ≫= bp_watermark with
  | Some w => sat_add w 1
  | None => list_from
  end.

Definition listen_bins (w : TimeBin) : list TimeBin := [sat_sub w 1; w; sat_add w 1].

Definition bin_complete (progress : option BinProgress) (bin : TimeBin) : bool :=
  match progress with
  | None => false
  | Some p =>
    match bp_watermark p with Some w => (cval bin <=? cval w)%N | None => false end
    || bool_decide (bin ∈ bp_completed p)
  end.

(** The next bin the watermark would move to. *)
Definition next_bin (p : BinProgress) (list_from : TimeBin) : TimeBin :=
  match bp_watermark p with None => list_from | Some w => sat_add w 1 end.

(** The loop of [advance_progress]: each round removes a completed bin. *)
Fixpoint advance_loop (fuel : nat) (p : BinProgress) (list_from : TimeBin) : BinProgress :=
  match fuel with
  | O => p
  | S f =>
    let next := next_bin p list_from in
    if decide (next ∈ bp_completed p) then
      advance_loop f
        (mkBinProgress (bp_channel p) (bp_tag_key p) (Some next) (bp_completed p ∖ {[next]}))
        list_from
    else p
  end.

Definition advance_progress (p : BinProgress) (list_from : TimeBin) : BinProgress :=
  advance_loop (S (size (bp_completed p))) p list_from.

(** * Tags and keys *)

Section Tags.
Context `{HmacSha256}.

Definition handshake_tag_key (secret : arr 32) : TagKey :=
  from_bytes (as_bytes (expand (from_bytes secret) (blit "chuchotez/1/handshake-invite"))).

Definition invite_tag (secret : arr 32) (bin : TimeBin) : Tag :=
  from_bytes (as_bytes (expand (from_bytes secret)
    (blit "chuchotez/1/handshake-invite" ++ to_be_bytes bin))).

End Tags.

Definition intro_keys_ok (policy : Policy) (encryption_pk signing_pk : bytes)
    (intake_pk : option bytes) (seed_ct : bytes) : bool :=
  Nat.eqb (length encryption_pk) (kem_pk_len policy)
  && Nat.eqb (length signing_pk) (sign_pk_len policy)
  && Nat.eqb (length seed_ct) (kem_ct_len policy)
  && match intake_pk with None => true | Some pk => Nat.eqb (length pk) (kem_pk_len policy) end.

Definition rekey_cid (cid from to : ConversationId) : ConversationId :=
  if branded_eq cid from then to else cid.

Definition sort32 (a b : arr 32) : bytes :=
  match bytes_compare (cval a) (cval b) with
  | Gt => cval b ++ cval a
  | _ => cval a ++ cval b
  end.

(** [out[..n].copy_from_slice(&shared[..n])] into 32 zero bytes. *)
Lemma shared32_ok (shared : bytes) :
  Nat.eqb (length (take 32 shared ++ replicate (32 - length (take 32 shared)) x00)) 32 = true.
Proof. rewrite length_app, length_replicate, length_take. apply Nat.eqb_eq. lia. Qed.

Definition take_shared32 (shared : bytes) : Secret :=
  from_bytes (mkChecked (take 32 shared ++ replicate (32 - length (take 32 shared)) x00)
                (shared32_ok shared)).

Record FragPart : Set := mkFragPart {
  fp_tx_id : Tag; fp_frag_i : FragIndex; fp_frag : bytes; fp_last_i : option FragIndex
}.

Definition frag_parts (packet : PacketPlain) : option FragPart :=
  match packet with
  | TxFragMore p => Some (mkFragPart (fm_tx_id p) (fm_frag_i p) (fm_frag p) None)
  | TxFragLast p => Some (mkFragPart (fl_tx_id p) (fl_frag_i p) (fl_frag p) (Some (fl_frag_i p)))
  | _ => None
  end.

(** * Folded values *)

Section Folded.
Context `{Base64Url}.

Definition decode_fold_bstr (value : Json) : result EngineError bytes :=
  match value with
  | JString s => ok_or MalformedPersist (b64_decode s)
  | _ => Err MalformedPersist
  end.

Definition decode_fold32 (value : Json) : result EngineError (arr 32) :=
  bs ← decode_fold_bstr value; ok_or MalformedPersist (try_into 32 bs).

Definition keypair_json (pk sk : bytes) : Json := obj [("pk", bstr pk); ("sk", bstr sk)].

Definition parse_fold_keypair (value : Json) : result EngineError (bytes * bytes) :=
  m ← match value with JObject m => Ok m | _ => Err MalformedPersist end;
  pk ← (v ← ok_or MalformedPersist (find_key m (lit "pk")); decode_fold_bstr v);
  sk ← (v ← ok_or MalformedPersist (find_key m (lit "sk")); decode_fold_bstr v);
  Ok (pk, sk).

End Folded.

Definition parse_fold_channel (value : Json) : result EngineError DurableChannel :=
  m ← match value with JObject m => Ok m | _ => Err MalformedPersist end;
  v ← ok_or MalformedPersist (find_key m (lit "kind"));
  kind ← match v with JString s => Ok s | _ => Err MalformedPersist end;
  v ← ok_or MalformedPersist (find_key m (lit "address"));
  address ← match v with JString s => Ok s | _ => Err MalformedPersist end;
  kind ← map_err (λ _, MalformedPersist) (Kind_try_from kind);
  address ← map_err (λ _, MalformedPersist) (Address_try_from address);
  Ok (DurableChannel_new kind address).

Definition actor_for (sort : ConversationSort) (bs : bytes) : option Actor :=
  match sort with
  | HandshakeDm | HandshakeSync =>
      if bool_decide (bs = []) then Some Actor_Handshake else None
  | DirectMessage | Group =>
      if bool_decide (bs = []) then None
      else Some (Actor_Signing (SigningPublicKey_from_bytes bs))
  | Synchronization => id ← try_into 32 bs; Some (Actor_Device (from_bytes id))
  | EngineSort => None
  end.

Definition payload_expire_at (payload : TxPayload) : option UnixSeconds :=
  match payload with
  | PText t => t_expire_at t
  | PMedia m => m_expire_at m
  | _ => None
  end.

(** * Progress of a bin list *)

Lemma advance_once_complete p lf b :
  next_bin p lf ∈ bp_completed p → (cval lf <= cval b)%N ∨ bp_watermark p ≠ None →
  bin_complete (Some (mkBinProgress (bp_channel p) (bp_tag_key p) (Some (next_bin p lf))
                        (bp_completed p ∖ {[next_bin p lf]}))) b = bin_complete (Some p) b.
Proof.
  intros Hin Hb. apply eq_true_iff_eq. unfold bin_complete. cbn [bp_watermark bp_completed].
  rewrite !orb_true_iff, !bool_decide_eq_true, N.leb_le, elem_of_difference, elem_of_singleton.
  unfold next_bin in *. destruct (bp_watermark p) as [w|]; rewrite ?N.leb_le.
  - split.
    + intros [Hle|[Hc _]]; [|by right].
      destruct (decide (cval b <= cval w)%N); [by left|]. right.
      replace b with (sat_add w 1); [done|]. apply checked_eq. rewrite sat_add_val in *.
      pose proof (u64_le_max b). lia.
    + intros [Hle|Hc].
      * left. rewrite sat_add_val. pose proof (u64_le_max b). lia.
      * destruct (decide (b = sat_add w 1)) as [->|]; [left; lia|by right].
  - split.
    + intros [Hle|[Hc _]]; [|by right]. right. destruct Hb as [Hb|]; [|done].
      replace b with lf; [done|]. apply checked_eq. lia.
    + intros [|Hc]; [done|]. destruct (decide (b = lf)) as [->|]; [left; lia|by right].
Qed.

Lemma advance_loop_spec fuel p lf :
  size (bp_completed p) < fuel →
  let q := advance_loop fuel p lf in
  next_bin q lf ∉ bp_completed q ∧
  bp_channel q = bp_channel p ∧ bp_tag_key q = bp_tag_key p ∧
  (∀ b, (cval lf <= cval b)%N ∨ bp_watermark p ≠ None →
     bin_complete (Some q) b = bin_complete (Some p) b).
Proof.
  revert p. induction fuel as [|f IH]; intros p Hf; [lia|]. cbn [advance_loop].
  destruct (decide (next_bin p lf ∈ bp_completed p)) as [Hin|Hni]; [|done].
  assert (size ({[next_bin p lf]} : gset TimeBin) ≤ size (bp_completed p)) as Hle
    by (apply subseteq_size; set_solver).
  rewrite size_singleton in Hle.
  set (p' := mkBinProgress _ _ _ _).
  assert (size (bp_completed p') < f) as Hsz.
  { cbn. rewrite size_difference by set_solver. rewrite size_singleton. lia. }
  destruct (IH p' Hsz) as (H1 & H2 & H3 & H4). split_and!; [done..|].
  intros b Hb. rewrite H4 by (right; done). by apply advance_once_complete.
Qed.

Lemma advance_progress_key p list_from :
  progress_key (bp_channel (advance_progress p list_from)) (bp_tag_key (advance_progress p list_from))
  = progress_key (bp_channel p) (bp_tag_key p).
Proof.
  destruct (advance_loop_spec (S (size (bp_completed p))) p list_from) as (_ & H2 & H3 & _); [lia|].
  unfold advance_progress. by rewrite H2, H3.
Qed.

(** Advancing the watermark of a bin list ends, changes which bins from the list's
    origin on count as complete in nothing, and moves the catch-up start past every bin
    listed without a gap: the bin it would fetch next is not complete, unless the
    watermark is the last bin there is. *)
Theorem advance_progress_spec p list_from :
  let q := advance_progress p list_from in
  (∀ b, (cval list_from <= cval b)%N ∨ bp_watermark p ≠ None →
     bin_complete (Some q) b = bin_complete (Some p) b) ∧
  (bin_complete (Some q) (catch_up_start (Some q) list_from) = true →
     bp_watermark q = Some (clamp64 u64_max)) ∧
  progress_key (bp_channel q) (bp_tag_key q) = progress_key (bp_channel p) (bp_tag_key p).
Proof.
  destruct (advance_loop_spec (S (size (bp_completed p))) p list_from) as (H1 & H2 & H3 & H4);
    [lia|]. cbv zeta. split_and!; [done| |unfold advance_progress; by rewrite H2, H3].
  set (q := advance_progress p list_from) in *. unfold advance_progress in q. fold q in H1.
  change (catch_up_start (Some q) list_from) with (next_bin q list_from).
  unfold bin_complete. rewrite orb_true_iff, bool_decide_eq_true. intros [Hle|]; [|done].
  unfold next_bin in Hle. destruct (bp_watermark q) as [w|]; [|done].
  apply N.leb_le in Hle. f_equal. apply checked_eq. rewrite sat_add_val in Hle.
  rewrite clamp64_val. pose proof (u64_le_max w). unfold u64_max in *. lia.
Qed.

(** * Order of locators *)

Lemma str_cmp_eq a b : str_cmp a b = Eq ↔ a = b.
Proof.
  unfold str_cmp. rewrite bytes_compare_eq. split; [apply utf8_inj|by intros ->].
Qed.

Lemma locator_ord_eq a b : locator_ord a b = Eq ↔ a = b.
Proof.
  unfold locator_ord. rewrite !then_with_eq, !str_cmp_eq, !checked_eq_iff, branded_cmp_eq.
  destruct a as [[ka aa] ta], b as [[kb ab] tb]; cbn.
  split; [by intros (-> & -> & ->)|by intros [= -> -> ->]].
Qed.

Lemma locator_ord_total : total_cmp locator_ord.
Proof.
  apply (total_cmp_then (λ a b, str_cmp _ _)); [apply total_cmp_bytes|].
  apply (total_cmp_then (λ a b, str_cmp _ _)); [apply total_cmp_bytes|].
  apply (total_cmp_bytes (λ a, cval (as_bytes (dl_tag a)))).
Qed.

(** The locators handed to the mapper are listed once each, in the order of channel
    kind, address and tag, whatever order they were collected in; the outstanding writes
    are only reordered. *)
Theorem sorted_locators_spec l ws :
  (∀ x, x ∈ dedup (sort_durable_locators l) ↔ x ∈ l) ∧
  NoDup (dedup (sort_durable_locators l)) ∧
  StronglySorted (cmp_le locator_ord) (sort_durable_locators l) ∧
  sort_durable_locators l ≡ₚ l ∧ sort_durable_writes ws ≡ₚ ws.
Proof.
  pose proof (sort_by_sorted locator_ord (tc_antisym _ locator_ord_total)
    (tc_trans _ locator_ord_total) l) as HS.
  split_and!.
  - intros x. rewrite elem_of_dedup. unfold sort_durable_locators. by rewrite sort_by_perm.
  - apply (dedup_NoDup locator_ord); [apply locator_ord_eq|apply (tc_antisym _ locator_ord_total)|].
    exact HS.
  - exact HS.
  - apply sort_by_perm.
  - apply sort_by_perm.
Qed.

(** * Small helpers *)

Lemma sort32_comm a b : sort32 a b = sort32 b a.
Proof.
  unfold sort32. rewrite (bytes_compare_antisym (cval a) (cval b)).
  destruct (bytes_compare (cval a) (cval b)) eqn:E; cbn; [|done|done].
  apply bytes_compare_eq in E. by rewrite E.
Qed.

(** The two parties of a handshake derive the same bytes from their two secrets,
    whichever is whose, and from no other pair. *)
Theorem sort32_spec a b c d :
  length (sort32 a b) = 64%nat ∧
  (sort32 a b = sort32 c d ↔ (a = c ∧ b = d) ∨ (a = d ∧ b = c)).
Proof.
  split.
  { unfold sort32. destruct (bytes_compare _ _); by rewrite length_app, !arr_length. }
  split.
  - assert (∀ x y z w : arr 32, cval x ++ cval y = cval z ++ cval w → x = z ∧ y = w) as HI.
    { intros x y z w HE. apply app_inj_1 in HE as [H1 H2]; [|by rewrite !arr_length].
      split; by apply checked_eq. }
    unfold sort32. intros HE.
    destruct (bytes_compare (cval a) (cval b)), (bytes_compare (cval c) (cval d));
      apply HI in HE as [-> ->]; auto.
  - intros [[-> ->]|[-> ->]]; [done|apply sort32_comm].
Qed.
