(* ===== verification/State.v ===== *)
(** The engine state: chains ([engine/chains.rs]), conversation rows (end of
    [engine/party.rs]), the identity directory and its operations ([engine/state.rs]).

    The nested [BTreeMap]s are [gmap]s, iterated in key order through [entries].  A method
    that returns [&mut T] is modelled by the function that applies a change to the [T] it
    finds ([chains_mut], [party_mut], ...).  [IdentityNode] and [DeviceNode] have one
    field, [kind], and stand for it. *)

From stdpp Require Import base tactics list numbers option strings countable gmap.
From Stdlib Require Import Strings.Byte.
From S2P Require Import Prelude Text Ids Order Channel Defaults Payload Json Ports Codec.
From S2P Require Import Chain RowLog Party HealRange Bins.

(** * Key orders and instances *)

#[export] Instance Actor_countable : Countable Actor.
Proof.
  apply (inj_countable'
    (λ a, match a with
          | Actor_Handshake => inl ()
          | Actor_Signing pk => inr (inl (sign_bytes pk))
          | Actor_Device id => inr (inr id)
          end)
    (λ s, match s with
          | inl _ => Actor_Handshake
          | inr (inl bs) => Actor_Signing (SigningPublicKey_from_bytes bs)
          | inr (inr id) => Actor_Device id
          end)).
  by intros [|[]|].
Defined.

(** [derive(Ord)]: the variants in order, then their contents. *)
Definition actor_index (a : Actor) : N :=
  match a with Actor_Handshake => 0 | Actor_Signing _ => 1 | Actor_Device _ => 2 end.

#[export] Instance Actor_ord : Ord Actor := λ a b,
  then_with (N.compare (actor_index a) (actor_index b))
    (bytes_compare (Actor_as_bytes a) (Actor_as_bytes b)).

#[export] Instance DurableChannel_countable : Countable DurableChannel.
Proof.
  apply (inj_countable' (λ c, (d_kind c, d_address c)) (λ p, DurableChannel_new p.1 p.2)).
  by intros [].
Defined.

#[export] Instance BinKey_eq_dec : EqDecision BinKey.
Proof. solve_decision. Defined.
#[export] Instance BinKey_countable : Countable BinKey.
Proof.
  apply (inj_countable' (λ k, (bk_channel k, bk_tag_key k)) (λ p, mkBinKey p.1 p.2)).
  by intros [].
Defined.

#[export] Instance BinKey_ord : Ord BinKey := λ a b,
  then_with (str_cmp (cval (d_kind (bk_channel a))) (cval (d_kind (bk_channel b))))
    (then_with (str_cmp (cval (d_address (bk_channel a))) (cval (d_address (bk_channel b))))
       (branded_cmp (bk_tag_key a) (bk_tag_key b))).

(** * Chains ([chains.rs]) *)

Record UnusedSk : Type := mkUnusedSk {
  us_tx_id : Tag; us_pk : EncryptionPublicKey; us_sk : bytes
}.

Record KnownShared : Type := mkKnownShared {
  ks_wrap_tx : Tag; ks_shared : Secret; ks_ct_hash : Tag; ks_from_us : bool;
  ks_encaps_pk : EncryptionPublicKey
}.

Record Ratchet : Type := mkRatchet {
  rt_since : u64; rt_minted : gset Tag; rt_unused : list UnusedSk; rt_known : list KnownShared
}.

Abbreviation u8 := (uint 8).

Record LivePending : Type := mkLivePending {
  lp_set_xor : Tag; lp_sent_at : UnixSeconds; lp_bodies : list bytes;
  lp_sealed_to : SendChain; lp_actor : Actor; lp_acks : u8; lp_needed : u8
}.

Record Heal : Type := mkHeal {
  hl_probes : list HealProbe; hl_sent_at : option UnixSeconds; hl_on_ephemeral : bool;
  hl_fell_back : bool; hl_ready : list bytes; hl_sealed_from : option SendChain;
  hl_sealed_to : option SendChain; hl_needs_reseal : bool
}.

Record TypingNote : Type := mkTypingNote { tn_composing : bool; tn_at : UnixSeconds }.

Record PacketChains : Type := mkPacketChains {
  pc_send : gmap Actor SendChain; pc_recv : gmap Actor SendChain;
  pc_skipped_mks : gmap Actor (list CachedMk); pc_last_acks : gmap Actor (gset Tag);
  pc_heal : Heal; pc_live_until : option UnixSeconds; pc_live_pending : list LivePending
}.

Record EstablishedChains : Type := mkEstablishedChains {
  ec_packet : PacketChains; ec_ratchet : Ratchet; ec_presence_sent : bool;
  ec_chat_senders : gmap Tag Actor; ec_typing : option TypingNote;
  ec_presence_at : option UnixSeconds
}.

(** [derive(Default)]. *)
Definition Ratchet_default : Ratchet := mkRatchet (clamp64 0) ∅ [] [].
Definition Heal_default : Heal := mkHeal [] None false false [] None None false.
Definition PacketChains_default : PacketChains := mkPacketChains ∅ ∅ ∅ ∅ Heal_default None [].
Definition EstablishedChains_default : EstablishedChains :=
  mkEstablishedChains PacketChains_default Ratchet_default false ∅ None None.

(** * Conversation rows ([party.rs]) *)

Abbreviation TxLog T := (gmap Tag (TxRow T)).

Inductive GroupEnd : Set := OfferRejected | Kicked | Left_.

Record GroupOffer : Type := mkGroupOffer {
  go_secret : Secret; go_name : DisplayName; go_photo : option ProfilePic;
  go_owner_signing_pk : SigningPublicKey; go_from_conversation_id : ConversationId
}.

Record GroupPending : Type := mkGroupPending {
  gp_signing_pk : SigningPublicKey; gp_encryption_pk : EncryptionPublicKey;
  gp_from_conversation_id : ConversationId; gp_name : DisplayName; gp_photo : option ProfilePic
}.

Record GroupLive : Type := mkGroupLive {
  gl_secret : Secret; gl_name : DisplayName; gl_photo : option ProfilePic;
  gl_owner_signing_pk : SigningPublicKey; gl_persistents : list DurableChannel;
  gl_ephemerals : list EphemeralChannel; gl_members : list GroupMember;
  gl_pending : list GroupPending; gl_epoch : u64; gl_log : TxLog LiveGroupTx;
  gl_chains : EstablishedChains
}.

Inductive GroupPhase : Type :=
| GroupIsLive (live : GroupLive)
| GroupIsOffer (offer : GroupOffer)
| GroupIsFailed (reason : GroupEnd).

Inductive IdentityConversation : Type :=
| RowDmHandshake (party : DmParty) (log : TxLog DmHandshakeTx) (chains : PacketChains)
| RowDirectMessage (secret : Secret) (parent : ConversationId) (log : TxLog DmTx)
    (chains : EstablishedChains)
| RowGroup (phase : GroupPhase).

Inductive DeviceConversation : Type :=
| RowSyncHandshake (party : SyncParty) (log : TxLog SyncHandshakeTx) (chains : PacketChains)
| RowSynchronization (secret : Secret) (parent : ConversationId) (peer : DeviceId)
    (log : TxLog SyncTx) (chains : EstablishedChains).

Abbreviation IdentityNode := IdentityConversation.
Abbreviation DeviceNode := DeviceConversation.

Definition IdentityNode_handshake (party : DmParty) : IdentityNode :=
  RowDmHandshake party ∅ PacketChains_default.
Definition IdentityNode_direct (secret : Secret) (parent : ConversationId) : IdentityNode :=
  RowDirectMessage secret parent ∅ EstablishedChains_default.
Definition DeviceNode_handshake (party : SyncParty) : DeviceNode :=
  RowSyncHandshake party ∅ PacketChains_default.
Definition DeviceNode_sync (secret : Secret) (parent : ConversationId) (peer : DeviceId) :
    DeviceNode := RowSynchronization secret parent peer ∅ EstablishedChains_default.

(** * The state ([state.rs]) *)

Record FragSet : Type := mkFragSet {
  fs_conversation_id : ConversationId; fs_parts : gmap FragIndex bytes;
  fs_last_i : option FragIndex
}.

Record Identity : Type := mkIdentity {
  id_name : option DisplayName; id_pic : option ProfilePic;
  id_conversations : gmap ConversationId IdentityNode
}.

Record User : Type := mkUser { us_identities : gmap IdentityId Identity }.

Record DeviceKeys : Type := mkDeviceKeys {
  dk_id : DeviceId; dk_enc : KeyPair; dk_sign : SigningKeyPair
}.

Record Device : Type := mkDevice {
  dv_name : option DisplayName; dv_keys : option DeviceKeys;
  dv_conversations : gmap ConversationId DeviceNode; dv_dek_ct : option bytes;
  dv_kicked : list DeviceId
}.

Record BlobPut : Type := mkBlobPut {
  bput_kind : Kind; bput_address : Address; bput_tag : Tag; bput_body : bytes
}.

Inductive SpawnPeer : Set := Direct | Sync (id : DeviceId).

Inductive ConversationScope : Set :=
| ScopeIdentity (user : UserId) (identity : IdentityId)
| ScopeDevice.

Inductive TxPlace : Set :=
| PlaceEngine
| PlaceIdentity (user : UserId) (identity : IdentityId) (cid : ConversationId)
| PlaceDevice (cid : ConversationId).

#[export] Instance TxPlace_eq_dec : EqDecision TxPlace.
Proof. solve_decision. Defined.

Record EngineState : Type := mkEngineState {
  es_engine_log : TxLog EngineTx;
  es_tx_place : gmap Tag TxPlace;
  es_next_seq : PersistSeq;
  es_ticked : option UnixSeconds;
  es_writes : list DurableWrite;
  es_eph_writes : list EphemeralWrite;
  es_blob_puts : list BlobPut;
  es_frags : gmap Tag FragSet;
  es_bin_progress : gmap BinKey BinProgress;
  es_persist_log : gmap PersistSeq Tag;
  es_users : gmap UserId User;
  es_device : Device
}.

Definition Identity_default : Identity := mkIdentity None None ∅.
Definition User_default : User := mkUser ∅.
Definition Device_default : Device := mkDevice None None ∅ None [].

(** [EngineState::new]. *)
Definition EngineState_new : EngineState :=
  mkEngineState ∅ ∅ (clamp64 0) None [] [] [] ∅ ∅ ∅ ∅ Device_default.

(** Assignments to one field. *)
Definition with_conversations (c : gmap ConversationId IdentityNode) (i : Identity) : Identity :=
  mkIdentity (id_name i) (id_pic i) c.
Definition with_dv_conversations (c : gmap ConversationId DeviceNode) (d : Device) : Device :=
  mkDevice (dv_name d) (dv_keys d) c (dv_dek_ct d) (dv_kicked d).

Definition with_store (log : TxLog EngineTx) (places : gmap Tag TxPlace)
    (users : gmap UserId User) (device : Device) (st : EngineState) : EngineState :=
  mkEngineState log places (es_next_seq st) (es_ticked st) (es_writes st) (es_eph_writes st)
    (es_blob_puts st) (es_frags st) (es_bin_progress st) (es_persist_log st) users device.

Definition with_engine_log log st :=
  with_store log (es_tx_place st) (es_users st) (es_device st) st.
Definition with_tx_place places st :=
  with_store (es_engine_log st) places (es_users st) (es_device st) st.
Definition with_users users st :=
  with_store (es_engine_log st) (es_tx_place st) users (es_device st) st.
Definition with_device device st :=
  with_store (es_engine_log st) (es_tx_place st) (es_users st) device st.

Definition with_rest (next_seq : PersistSeq) (ticked : option UnixSeconds)
    (writes : list DurableWrite) (eph_writes : list EphemeralWrite) (blob_puts : list BlobPut)
    (frags : gmap Tag FragSet) (bins : gmap BinKey BinProgress)
    (persist_log : gmap PersistSeq Tag) (st : EngineState) : EngineState :=
  mkEngineState (es_engine_log st) (es_tx_place st) next_seq ticked writes eph_writes blob_puts
    frags bins persist_log (es_users st) (es_device st).

Definition with_ticked ticked st :=
  with_rest (es_next_seq st) ticked (es_writes st) (es_eph_writes st) (es_blob_puts st)
    (es_frags st) (es_bin_progress st) (es_persist_log st) st.
Definition with_writes writes st :=
  with_rest (es_next_seq st) (es_ticked st) writes (es_eph_writes st) (es_blob_puts st)
    (es_frags st) (es_bin_progress st) (es_persist_log st) st.
Definition with_eph_writes eph_writes st :=
  with_rest (es_next_seq st) (es_ticked st) (es_writes st) eph_writes (es_blob_puts st)
    (es_frags st) (es_bin_progress st) (es_persist_log st) st.
Definition with_frags frags st :=
  with_rest (es_next_seq st) (es_ticked st) (es_writes st) (es_eph_writes st)
    (es_blob_puts st) frags (es_bin_progress st) (es_persist_log st) st.
Definition with_bin_progress bins st :=
  with_rest (es_next_seq st) (es_ticked st) (es_writes st) (es_eph_writes st)
    (es_blob_puts st) (es_frags st) bins (es_persist_log st) st.
Definition with_persist seq log st :=
  with_rest seq (es_ticked st) (es_writes st) (es_eph_writes st)
    (es_blob_puts st) (es_frags st) (es_bin_progress st) log st.

(** * Chains of a row *)

Definition packet_of_identity (kind : IdentityConversation) : option PacketChains :=
  match kind with
  | RowDmHandshake _ _ chains => Some chains
  | RowDirectMessage _ _ _ chains => Some (ec_packet chains)
  | RowGroup (GroupIsLive live) => Some (ec_packet (gl_chains live))
  | RowGroup _ => None
  end.

Definition with_packet (f : PacketChains → PacketChains) (c : EstablishedChains) :
    EstablishedChains :=
  mkEstablishedChains (f (ec_packet c)) (ec_ratchet c) (ec_presence_sent c)
    (ec_chat_senders c) (ec_typing c) (ec_presence_at c).

Definition with_gl_chains (f : EstablishedChains → EstablishedChains) (g : GroupLive) :
    GroupLive :=
  mkGroupLive (gl_secret g) (gl_name g) (gl_photo g) (gl_owner_signing_pk g)
    (gl_persistents g) (gl_ephemerals g) (gl_members g) (gl_pending g) (gl_epoch g)
    (gl_log g) (f (gl_chains g)).

Definition with_gl_log (f : TxLog LiveGroupTx → TxLog LiveGroupTx) (g : GroupLive) : GroupLive :=
  mkGroupLive (gl_secret g) (gl_name g) (gl_photo g) (gl_owner_signing_pk g)
    (gl_persistents g) (gl_ephemerals g) (gl_members g) (gl_pending g) (gl_epoch g)
    (f (gl_log g)) (gl_chains g).

Definition packet_mut_of_identity (f : PacketChains → PacketChains)
    (kind : IdentityConversation) : IdentityConversation :=
  match kind with
  | RowDmHandshake party log chains => RowDmHandshake party log (f chains)
  | RowDirectMessage secret parent log chains =>
      RowDirectMessage secret parent log (with_packet f chains)
  | RowGroup (GroupIsLive live) => RowGroup (GroupIsLive (with_gl_chains (with_packet f) live))
  | RowGroup _ => kind
  end.

Definition established_of_identity (kind : IdentityConversation) : option EstablishedChains :=
  match kind with
  | RowDirectMessage _ _ _ chains => Some chains
  | RowGroup (GroupIsLive live) => Some (gl_chains live)
  | RowDmHandshake _ _ _ | RowGroup _ => None
  end.

Definition established_mut_of_identity (f : EstablishedChains → EstablishedChains)
    (kind : IdentityConversation) : IdentityConversation :=
  match kind with
  | RowDirectMessage secret parent log chains => RowDirectMessage secret parent log (f chains)
  | RowGroup (GroupIsLive live) => RowGroup (GroupIsLive (with_gl_chains f live))
  | RowDmHandshake _ _ _ | RowGroup _ => kind
  end.

Definition packet_of_device (kind : DeviceConversation) : option PacketChains :=
  match kind with
  | RowSyncHandshake _ _ chains => Some chains
  | RowSynchronization _ _ _ _ chains => Some (ec_packet chains)
  end.

Definition packet_mut_of_device (f : PacketChains → PacketChains) (kind : DeviceConversation) :
    DeviceConversation :=
  match kind with
  | RowSyncHandshake party log chains => RowSyncHandshake party log (f chains)
  | RowSynchronization secret parent peer log chains =>
      RowSynchronization secret parent peer log (with_packet f chains)
  end.

Definition established_of_device (kind : DeviceConversation) : option EstablishedChains :=
  match kind with
  | RowSynchronization _ _ _ _ chains => Some chains
  | RowSyncHandshake _ _ _ => None
  end.

Definition established_mut_of_device (f : EstablishedChains → EstablishedChains)
    (kind : DeviceConversation) : DeviceConversation :=
  match kind with
  | RowSynchronization secret parent peer log chains =>
      RowSynchronization secret parent peer log (f chains)
  | RowSyncHandshake _ _ _ => kind
  end.

(** * Finding and changing rows *)

(** [for user in users.values() { for ident in user.identities.values() { .. } }]. *)
Definition idents (st : EngineState) : list (UserId * IdentityId * Identity) :=
  flat_map (λ '(u, user), map (λ '(i, ident), (u, i, ident)) (entries (us_identities user)))
    (entries (es_users st)).

(** The first identity, in that order, for which [f] finds something. *)
Definition scan {B} (f : Identity → option B) (st : EngineState) :
    option (UserId * IdentityId * B) :=
  find_map (λ '(u, i, ident), b ← f ident; Some (u, i, b)) (idents st).

(** [f] of the row [cid] of an identity. *)
Definition row {B} (cid : ConversationId) (f : IdentityConversation → option B)
    (ident : Identity) : option B := id_conversations ident !! cid ≫= f.

Definition device_row {B} (cid : ConversationId) (f : DeviceConversation → option B)
    (st : EngineState) : option B := dv_conversations (es_device st) !! cid ≫= f.

Definition identity (st : EngineState) (user : UserId) (identity_id : IdentityId) :
    option Identity := u ← es_users st !! user; us_identities u !! identity_id.

Definition alter_identity (user : UserId) (identity_id : IdentityId) (f : Identity → Identity)
    (st : EngineState) : EngineState :=
  with_users (alter (λ u, mkUser (alter f identity_id (us_identities u))) user (es_users st)) st.

Definition alter_row (user : UserId) (identity_id : IdentityId) (cid : ConversationId)
    (f : IdentityConversation → IdentityConversation) (st : EngineState) : EngineState :=
  alter_identity user identity_id
    (λ i, with_conversations (alter f cid (id_conversations i)) i) st.

Definition alter_device_row (cid : ConversationId) (f : DeviceConversation → DeviceConversation)
    (st : EngineState) : EngineState :=
  with_device
    (with_dv_conversations (alter f cid (dv_conversations (es_device st))) (es_device st)) st.

Definition ensure_user (user : UserId) (st : EngineState) : EngineState :=
  match es_users st !! user with
  | Some _ => st
  | None => with_users (<[user := User_default]> (es_users st)) st
  end.

Definition ensure_identity (user : UserId) (identity_id : IdentityId) (st : EngineState) :
    EngineState :=
  let st := ensure_user user st in
  match identity st user identity_id with
  | Some _ => st
  | None =>
      with_users
        (alter (λ u, mkUser (<[identity_id := Identity_default]> (us_identities u))) user
           (es_users st)) st
  end.

Definition display_name (st : EngineState) (identity_id : IdentityId) : option DisplayName :=
  find_map (λ u, us_identities u !! identity_id ≫= id_name) (values (es_users st)).

Definition profile_pic (st : EngineState) (identity_id : IdentityId) : option ProfilePic :=
  find_map (λ u, us_identities u !! identity_id ≫= id_pic) (values (es_users st)).

Definition put_dm (user : UserId) (identity_id : IdentityId) (cid : ConversationId)
    (node : IdentityNode) (st : EngineState) : EngineState :=
  alter_identity user identity_id
    (λ i, with_conversations (<[cid := node]> (id_conversations i)) i)
    (ensure_identity user identity_id st).

Definition put_sync (cid : ConversationId) (node : DeviceNode) (st : EngineState) : EngineState :=
  with_device
    (with_dv_conversations (<[cid := node]> (dv_conversations (es_device st))) (es_device st)) st.

Definition put_dm_inviter user identity_id cid (phase : InviterPhase) st :=
  put_dm user identity_id cid (IdentityNode_handshake (PartyInviter phase)) st.
Definition put_dm_invitee user identity_id cid (phase : InviteePhase) st :=
  put_dm user identity_id cid (IdentityNode_handshake (PartyInvitee phase)) st.
Definition put_sync_inviter cid (phase : InviterPhase) st :=
  put_sync cid (DeviceNode_handshake (PartyInviter phase)) st.
Definition put_sync_invitee cid (phase : InviteePhase) st :=
  put_sync cid (DeviceNode_handshake (PartyInvitee phase)) st.

Definition scope_of (st : EngineState) (cid : ConversationId) : option ConversationScope :=
  match scan (row cid Some) st with
  | Some (user, identity_id, _) => Some (ScopeIdentity user identity_id)
  | None => device_row cid (λ _, Some ScopeDevice) st
  end.

(** ** Parties *)

Inductive PartyRef : Type := PRDm (p : DmParty) | PRSync (p : SyncParty).

Definition on_party {A} (f : ∀ k, Party k → A) (p : PartyRef) : A :=
  match p with PRDm p => f DmKind p | PRSync p => f SyncKind p end.

Definition dm_party_of (kind : IdentityConversation) : option DmParty :=
  match kind with RowDmHandshake party _ _ => Some party | _ => None end.
Definition sync_party_of (kind : DeviceConversation) : option SyncParty :=
  match kind with RowSyncHandshake party _ _ => Some party | _ => None end.

Definition dm_party (st : EngineState) (cid : ConversationId) : option DmParty :=
  snd <$> scan (row cid dm_party_of) st.
Definition sync_party (st : EngineState) (cid : ConversationId) : option SyncParty :=
  device_row cid sync_party_of st.

Definition party (st : EngineState) (cid : ConversationId) : option PartyRef :=
  match dm_party st cid with
  | Some p => Some (PRDm p)
  | None => PRSync <$> sync_party st cid
  end.

(** [if let Some(mut party) = state.party_mut(cid) { f }]. *)
Definition party_mut (cid : ConversationId) (f : ∀ k, Party k → Party k) (st : EngineState) :
    EngineState :=
  match scan (row cid dm_party_of) st with
  | Some (user, identity_id, _) =>
      alter_row user identity_id cid
        (λ kind, match kind with
                 | RowDmHandshake party log chains => RowDmHandshake (f DmKind party) log chains
                 | _ => kind
                 end) st
  | None =>
      alter_device_row cid
        (λ kind, match kind with
                 | RowSyncHandshake party log chains => RowSyncHandshake (f SyncKind party) log chains
                 | _ => kind
                 end) st
  end.

(** ** Chains *)

(** [chains]: the first row named [cid] decides, whatever its kind. *)
Definition chains (st : EngineState) (cid : ConversationId) : option PacketChains :=
  match scan (row cid Some) st with
  | Some (_, _, kind) => packet_of_identity kind
  | None => device_row cid packet_of_device st
  end.

Definition established (st : EngineState) (cid : ConversationId) : option EstablishedChains :=
  match scan (row cid Some) st with
  | Some (_, _, kind) => established_of_identity kind
  | None => device_row cid established_of_device st
  end.

(** [if let Some(chains) = state.chains_mut(cid) { f }]: the first row named [cid] that
    has chains. *)
Definition chains_mut (cid : ConversationId) (f : PacketChains → PacketChains)
    (st : EngineState) : EngineState :=
  match scan (row cid packet_of_identity) st with
  | Some (user, identity_id, _) =>
      alter_row user identity_id cid (packet_mut_of_identity f) st
  | None => alter_device_row cid (packet_mut_of_device f) st
  end.

Definition established_mut (cid : ConversationId) (f : EstablishedChains → EstablishedChains)
    (st : EngineState) : EngineState :=
  match scan (row cid established_of_identity) st with
  | Some (user, identity_id, _) =>
      alter_row user identity_id cid (established_mut_of_identity f) st
  | None => alter_device_row cid (established_mut_of_device f) st
  end.

(** [for_each_chains]: what the closure sees, in order. *)
Definition each_chains (st : EngineState) : list (ConversationId * PacketChains) :=
  flat_map (λ '(_, _, ident),
      flat_map (λ '(cid, kind), from_option (λ c, [(cid, c)]) [] (packet_of_identity kind))
        (entries (id_conversations ident))) (idents st)
  ++ flat_map (λ '(cid, kind), from_option (λ c, [(cid, c)]) [] (packet_of_device kind))
       (entries (dv_conversations (es_device st))).

Definition map_identities (f : Identity → Identity) (st : EngineState) : EngineState :=
  with_users ((λ u, mkUser (f <$> us_identities u)) <$> es_users st) st.

(** [each_chains_mut(f)] of a closure without state. *)
Definition each_chains_mut (f : PacketChains → PacketChains) (st : EngineState) : EngineState :=
  let st := map_identities
    (λ i, with_conversations (packet_mut_of_identity f <$> id_conversations i) i) st in
  with_device
    (with_dv_conversations (packet_mut_of_device f <$> dv_conversations (es_device st))
       (es_device st)) st.

(** ** Queries *)

Definition ticket (st : EngineState) (cid : ConversationId) : option Ticket :=
  match dm_party st cid with
  | Some p => Some (party_ticket p)
  | None => party_ticket <$> sync_party st cid
  end.

Definition intake_secret (st : EngineState) (cid : ConversationId) : option bytes :=
  p ← party st cid; kp_secret <$> on_party (λ k, party_intake) p.

Definition list_from (st : EngineState) (cid : ConversationId) : option TimeBin :=
  on_party (λ k, party_list_from) <$> party st cid.

Definition is_sync (st : EngineState) (cid : ConversationId) : bool :=
  bool_decide (is_Some (dv_conversations (es_device st) !! cid)).

Definition sort_of (st : EngineState) (cid : ConversationId) : option ConversationSort :=
  match dv_conversations (es_device st) !! cid with
  | Some (RowSyncHandshake _ _ _) => Some HandshakeSync
  | Some (RowSynchronization _ _ _ _ _) => Some Synchronization
  | None =>
    match scan (row cid Some) st with
    | Some (_, _, RowDmHandshake _ _ _) => Some HandshakeDm
    | Some (_, _, RowDirectMessage _ _ _ _) => Some DirectMessage
    | Some (_, _, RowGroup _) => Some Group
    | None => None
    end
  end.

Definition has_sync_handshake (st : EngineState) : bool :=
  existsb (λ kind, match kind with RowSyncHandshake _ _ _ => true | _ => false end)
    (values (dv_conversations (es_device st))).

Definition state_is_inviter (st : EngineState) (cid : ConversationId) : bool :=
  from_option (on_party (λ k, is_inviter)) false (party st cid).

Definition secret_of_identity (kind : IdentityConversation) : option Secret :=
  match kind with
  | RowDirectMessage secret _ _ _ => Some secret
  | RowGroup (GroupIsLive live) => Some (gl_secret live)
  | _ => None
  end.
Definition secret_of_device (kind : DeviceConversation) : option Secret :=
  match kind with RowSynchronization secret _ _ _ _ => Some secret | _ => None end.

Definition established_secret (st : EngineState) (cid : ConversationId) : option Secret :=
  match scan (row cid secret_of_identity) st with
  | Some (_, _, secret) => Some secret
  | None => device_row cid secret_of_device st
  end.

Definition parent_of_identity (kind : IdentityConversation) : option ConversationId :=
  match kind with RowDirectMessage _ parent _ _ => Some parent | _ => None end.
Definition parent_of_device (kind : DeviceConversation) : option ConversationId :=
  match kind with RowSynchronization _ parent _ _ _ => Some parent | _ => None end.

Definition child_of (st : EngineState) (handshake : ConversationId) : option ConversationId :=
  match scan (λ ident, find_map
      (λ '(cid, kind), p ← parent_of_identity kind;
         if branded_eq p handshake then Some cid else None)
      (entries (id_conversations ident))) st with
  | Some (_, _, cid) => Some cid
  | None =>
      find_map (λ '(cid, kind), p ← parent_of_device kind;
          if branded_eq p handshake then Some cid else None)
        (entries (dv_conversations (es_device st)))
  end.

Definition established_parent (st : EngineState) (cid : ConversationId) :
    option ConversationId :=
  match scan (row cid parent_of_identity) st with
  | Some (_, _, parent) => Some parent
  | None => device_row cid parent_of_device st
  end.

Definition owner (st : EngineState) (cid : ConversationId) : option (UserId * IdentityId) :=
  match scope_of st cid with
  | Some (ScopeIdentity user identity_id) => Some (user, identity_id)
  | _ => None
  end.

Definition failed (st : EngineState) (cid : ConversationId) : option HandshakeFailure :=
  party st cid ≫= on_party (λ k, party_failure).

Definition state_fail (cid : ConversationId) (reason : HandshakeFailure) (st : EngineState) :
    EngineState := party_mut cid (λ k, party_fail reason) st.

Definition state_ack_posted (cid : ConversationId) (st : EngineState) : EngineState :=
  party_mut cid (λ k, ack_posted) st.

Definition spawn_established (handshake child : ConversationId) (secret : Secret)
    (peer : SpawnPeer) (st : EngineState) : EngineState :=
  match child_of st handshake with
  | Some _ => st
  | None =>
    match scope_of st handshake, peer with
    | Some (ScopeIdentity user identity_id), Direct =>
        put_dm user identity_id child (IdentityNode_direct secret handshake) st
    | Some ScopeDevice, Sync peer => put_sync child (DeviceNode_sync secret handshake peer) st
    | _, _ => st
    end
  end.

Record HandshakeEntry : Type := mkHandshakeEntry {
  hse_cid : ConversationId; hse_party : PartyRef; hse_sort : ConversationSort
}.

Definition handshake_entries (st : EngineState) : list HandshakeEntry :=
  flat_map (λ '(_, _, ident),
      flat_map (λ '(cid, kind),
          from_option (λ p, [mkHandshakeEntry cid (PRDm p) HandshakeDm]) []
            (dm_party_of kind))
        (entries (id_conversations ident))) (idents st)
  ++ flat_map (λ '(cid, kind),
         from_option (λ p, [mkHandshakeEntry cid (PRSync p) HandshakeSync]) []
           (sync_party_of kind))
       (entries (dv_conversations (es_device st))).

Definition conversation_ids_for (st : EngineState) (user : UserId) (identity_id : IdentityId) :
    list ConversationId :=
  from_option (λ i, map fst (entries (id_conversations i))) [] (identity st user identity_id)
  ++ map fst (entries (dv_conversations (es_device st))).

(** ** Renaming and dropping rows *)

Definition rekey_map {V} (m : gmap ConversationId V) (from to : ConversationId) :
    gmap ConversationId V :=
  match m !! from with Some v => <[to := v]> (delete from m) | None => m end.

Definition rekey_parent_identity (from to : ConversationId) (kind : IdentityConversation) :
    IdentityConversation :=
  match kind with
  | RowDirectMessage secret parent log chains =>
      RowDirectMessage secret (rekey_cid parent from to) log chains
  | _ => kind
  end.
Definition rekey_parent_device (from to : ConversationId) (kind : DeviceConversation) :
    DeviceConversation :=
  match kind with
  | RowSynchronization secret parent peer log chains =>
      RowSynchronization secret (rekey_cid parent from to) peer log chains
  | _ => kind
  end.

Definition rekey_row (from to : ConversationId) (st : EngineState) : EngineState :=
  let st := map_identities
    (λ i, with_conversations
            (rekey_parent_identity from to <$> rekey_map (id_conversations i) from to) i) st in
  with_device
    (with_dv_conversations
       (rekey_parent_device from to <$> rekey_map (dv_conversations (es_device st)) from to)
       (es_device st)) st.

(** [any] stops at the first identity whose row was removed. *)
Definition drop_conversation (cid : ConversationId) (st : EngineState) : bool * EngineState :=
  let hit := scan (row cid Some) st in
  let st1 :=
    match hit with
    | Some (user, identity_id, _) =>
        alter_identity user identity_id
          (λ i, with_conversations (delete cid (id_conversations i)) i) st
    | None => st
    end in
  let device := dv_conversations (es_device st1) in
  (bool_decide (is_Some hit) || bool_decide (is_Some (device !! cid)),
   with_device (with_dv_conversations (delete cid device) (es_device st1)) st1).

(** * The transaction store

    Each row logs the transactions of its own type; [tx_place] says where each one is. *)

Definition tx_row {T} (conversation_id : ConversationId) (hlc : Hlc) (payload : T) : TxRow T :=
  mkTxRow conversation_id hlc payload.

Definition row_durable `{RowTx T} (r : TxRow T) : DurableBody :=
  durable (tr_conversation_id r) (tr_hlc r) (to_payload (tr_payload r)).

Definition log_body `{RowTx T} (log : TxLog T) (id : Tag) : option DurableBody :=
  row_durable <$> log !! id.

(** [push_log]. *)
Definition push_log `{RowTx T} (log : TxLog T) : list (Tag * DurableBody) :=
  map (λ '(id, r), (id, row_durable r)) (entries log).

(** [T::from_payload(payload)] and [log.insert(id, row(..))]. *)
Definition log_insert `{RowTx T} (id : Tag) (b : DurableBody) (log : TxLog T) :
    option (TxLog T) :=
  tx ← from_payload (db_payload b);
  Some (<[id := tx_row (db_conversation_id b) (db_hlc b) tx]> log).

Definition push_identity (kind : IdentityConversation) : list (Tag * DurableBody) :=
  match kind with
  | RowDmHandshake _ log _ => push_log log
  | RowDirectMessage _ _ log _ => push_log log
  | RowGroup (GroupIsLive live) => push_log (gl_log live)
  | RowGroup _ => []
  end.

Definition push_device (kind : DeviceConversation) : list (Tag * DurableBody) :=
  match kind with
  | RowSyncHandshake _ log _ => push_log log
  | RowSynchronization _ _ _ log _ => push_log log
  end.

Definition identity_body (kind : IdentityConversation) (id : Tag) : option DurableBody :=
  match kind with
  | RowDmHandshake _ log _ => log_body log id
  | RowDirectMessage _ _ log _ => log_body log id
  | RowGroup (GroupIsLive live) => log_body (gl_log live) id
  | RowGroup _ => None
  end.

Definition device_body (kind : DeviceConversation) (id : Tag) : option DurableBody :=
  match kind with
  | RowSyncHandshake _ log _ => log_body log id
  | RowSynchronization _ _ _ log _ => log_body log id
  end.

Definition identity_insert (id : Tag) (b : DurableBody) (kind : IdentityConversation) :
    option IdentityConversation :=
  match kind with
  | RowDmHandshake party log chains =>
      log ← log_insert id b log; Some (RowDmHandshake party log chains)
  | RowDirectMessage secret parent log chains =>
      log ← log_insert id b log; Some (RowDirectMessage secret parent log chains)
  | RowGroup (GroupIsLive live) =>
      log ← log_insert id b (gl_log live);
      Some (RowGroup (GroupIsLive (with_gl_log (λ _, log) live)))
  | RowGroup _ => None
  end.

Definition device_insert (id : Tag) (b : DurableBody) (kind : DeviceConversation) :
    option DeviceConversation :=
  match kind with
  | RowSyncHandshake party log chains =>
      log ← log_insert id b log; Some (RowSyncHandshake party log chains)
  | RowSynchronization secret parent peer log chains =>
      log ← log_insert id b log; Some (RowSynchronization secret parent peer log chains)
  end.

Definition identity_remove (id : Tag) (kind : IdentityConversation) : IdentityConversation :=
  match kind with
  | RowDmHandshake party log chains => RowDmHandshake party (delete id log) chains
  | RowDirectMessage secret parent log chains =>
      RowDirectMessage secret parent (delete id log) chains
  | RowGroup (GroupIsLive live) => RowGroup (GroupIsLive (with_gl_log (delete id) live))
  | RowGroup _ => kind
  end.

Definition device_remove (id : Tag) (kind : DeviceConversation) : DeviceConversation :=
  match kind with
  | RowSyncHandshake party log chains => RowSyncHandshake party (delete id log) chains
  | RowSynchronization secret parent peer log chains =>
      RowSynchronization secret parent peer (delete id log) chains
  end.

Definition place_of (st : EngineState) (cid : ConversationId) : option TxPlace :=
  match scan (row cid Some) st with
  | Some (user, identity_id, _) => Some (PlaceIdentity user identity_id cid)
  | None => device_row cid (λ _, Some (PlaceDevice cid)) st
  end.

(** The row at a place. *)
Definition identity_row (st : EngineState) (user : UserId) (identity_id : IdentityId)
    (cid : ConversationId) : option IdentityConversation :=
  i ← identity st user identity_id; id_conversations i !! cid.

Definition body_at (st : EngineState) (id : Tag) (place : TxPlace) : option DurableBody :=
  match place with
  | PlaceEngine => log_body (es_engine_log st) id
  | PlaceIdentity user identity_id cid =>
      kind ← identity_row st user identity_id cid; identity_body kind id
  | PlaceDevice cid => device_row cid (λ kind, device_body kind id) st
  end.

Definition body (st : EngineState) (id : Tag) : option DurableBody :=
  place ← es_tx_place st !! id; body_at st id place.

(** Every stored row, in the order [body_pairs] visits them. *)
Definition stored_rows (st : EngineState) : list (Tag * DurableBody) :=
  push_log (es_engine_log st)
  ++ flat_map (λ '(_, _, ident), flat_map push_identity (values (id_conversations ident)))
       (idents st)
  ++ flat_map push_device (values (dv_conversations (es_device st))).

(** The [BTreeMap] [body_pairs] fills: a later row replaces an earlier one. *)
Definition stored (st : EngineState) : gmap Tag DurableBody :=
  fold_left (λ out '(id, b), <[id := b]> out) (stored_rows st) ∅.

Definition body_pairs (st : EngineState) : list (Tag * DurableBody) := entries (stored st).
Definition bodies (st : EngineState) : list DurableBody := map snd (body_pairs st).
Definition tx_count (st : EngineState) : nat := length (body_pairs st).

Definition remove_body (id : Tag) (st : EngineState) : EngineState :=
  match es_tx_place st !! id with
  | None => st
  | Some place =>
    let st := with_tx_place (delete id (es_tx_place st)) st in
    match place with
    | PlaceEngine => with_engine_log (delete id (es_engine_log st)) st
    | PlaceIdentity user identity_id cid =>
        alter_row user identity_id cid (identity_remove id) st
    | PlaceDevice cid => alter_device_row cid (device_remove id) st
    end
  end.

(** The [match] of [insert_body]: [None] where it returns [WrongPhase]. *)
Definition write_row (id : Tag) (b : DurableBody) (st : EngineState) : option EngineState :=
  match place_of st (db_conversation_id b) with
  | Some (PlaceIdentity user identity_id cid as place) =>
      kind ← identity_row st user identity_id cid;
      kind ← identity_insert id b kind;
      Some (with_tx_place (<[id := place]> (es_tx_place st))
              (alter_row user identity_id cid (λ _, kind) st))
  | Some (PlaceDevice cid as place) =>
      kind ← device_row cid (device_insert id b) st;
      Some (with_tx_place (<[id := place]> (es_tx_place st))
              (alter_device_row cid (λ _, kind) st))
  | Some PlaceEngine | None =>
      log ← log_insert id b (es_engine_log st);
      Some (with_tx_place (<[id := PlaceEngine]> (es_tx_place st)) (with_engine_log log st))
  end.

Definition insert_body (id : Tag) (b : DurableBody) (st : EngineState) :
    EngineState * result EngineError unit :=
  let st := match es_tx_place st !! id with Some _ => remove_body id st | None => st end in
  match write_row id b st with
  | Some st => (st, Ok tt)
  | None => (st, Err WrongPhase)
  end.
