(* ===== verification/StateLaws.v ===== *)
(** What the operations of [State.v] guarantee: where a lookup of a changed state finds
    things, the store of transactions as a map, and renaming, dropping and spawning rows. *)

From stdpp Require Import base tactics list numbers option strings countable gmap.
From Stdlib Require Import Strings.Byte.
From S2P Require Import Prelude Text Ids Order Channel Defaults Payload Json Ports Codec.
From S2P Require Import Chain RowLog Party HealRange Bins State.

(** * Invariants of the state *)

(** Progress is filed under its own channel and key. *)
Definition bins_keyed (bins : gmap BinKey BinProgress) : Prop :=
  map_Forall (λ k p, k = progress_key (bp_channel p) (bp_tag_key p)) bins.

(** * Lookups after changes *)

Lemma identity_alter u i f st u' i' :
  identity (alter_identity u i f st) u' i' =
    if decide (u' = u ∧ i' = i) then f <$> identity st u i else identity st u' i'.
Proof.
  unfold identity, alter_identity. cbn [es_users with_users with_store].
  destruct (decide (u' = u)) as [->|Hu].
  - rewrite lookup_alter_eq. destruct (es_users st !! u) as [user|]; cbn.
    + destruct (decide (i' = i)) as [->|Hi].
      * rewrite lookup_alter_eq. by rewrite decide_True.
      * rewrite lookup_alter_ne by done. rewrite decide_False by naive_solver. done.
    + by destruct (decide _).
  - rewrite lookup_alter_ne by done. by rewrite decide_False by naive_solver.
Qed.

Lemma identity_row_alter u i c g st u' i' c' :
  identity_row (alter_row u i c g st) u' i' c' =
    if decide (u' = u ∧ i' = i ∧ c' = c) then g <$> identity_row st u i c
    else identity_row st u' i' c'.
Proof.
  unfold identity_row, alter_row. rewrite identity_alter.
  destruct (decide (u' = u ∧ i' = i)) as [[-> ->]|Hne].
  - destruct (identity st u i) as [ident|]; cbn; [|by destruct (decide _)].
    destruct (decide (c' = c)) as [->|Hc].
    + rewrite lookup_alter_eq. by rewrite decide_True.
    + rewrite lookup_alter_ne by done. by rewrite decide_False by naive_solver.
  - by rewrite decide_False by naive_solver.
Qed.

Lemma device_row_alter {B} c g st c' (f : DeviceConversation → option B) :
  device_row c' f (alter_device_row c g st) =
    if decide (c' = c) then device_row c (λ k, f (g k)) st else device_row c' f st.
Proof.
  unfold device_row, alter_device_row.
  cbn [es_device with_device with_store dv_conversations with_dv_conversations].
  case_decide as Hc.
  - subst. rewrite lookup_alter_eq. by destruct (_ !! c).
  - by rewrite lookup_alter_ne.
Qed.

Lemma elem_of_idents st u i ident : (u, i, ident) ∈ idents st ↔ identity st u i = Some ident.
Proof.
  unfold idents, identity. rewrite list_elem_of_In, in_flat_map. split.
  - intros ([u' user] & Hu & Hi). apply list_elem_of_In, elem_of_entries in Hu.
    apply list_elem_of_In, list_elem_of_fmap in Hi as ([i' ident'] & [= -> -> ->] & Hi).
    apply elem_of_entries in Hi. by rewrite Hu.
  - destruct (es_users st !! u) as [user|] eqn:Hu; [|done]. cbn. intros Hi.
    exists (u, user). split; [by apply list_elem_of_In, elem_of_entries|].
    apply list_elem_of_In, list_elem_of_fmap. exists (i, ident). split; [done|].
    by apply elem_of_entries.
Qed.

Lemma scan_Some {B} (f : Identity → option B) st u i b :
  scan f st = Some (u, i, b) → ∃ ident, identity st u i = Some ident ∧ f ident = Some b.
Proof.
  unfold scan. intros ([[u' i'] ident] & Hin & HE)%find_map_Some.
  destruct (f ident) as [b'|] eqn:E; [|done]. cbn in HE. injection HE as -> -> ->.
  apply elem_of_idents in Hin. eauto.
Qed.

Lemma scan_None {B} (f : Identity → option B) st :
  scan f st = None ↔ ∀ u i ident, identity st u i = Some ident → f ident = None.
Proof.
  unfold scan. rewrite find_map_None. split.
  - intros HN u i ident Hi%elem_of_idents. specialize (HN _ Hi). cbn in HN.
    by destruct (f ident).
  - intros HN [[u i] ident] Hin%elem_of_idents. by rewrite (HN u i).
Qed.

Lemma scan_row_Some {B} c (f : IdentityConversation → option B) st u i b :
  scan (row c f) st = Some (u, i, b) → ∃ kind, identity_row st u i c = Some kind ∧ f kind = Some b.
Proof.
  intros (ident & Hi & Hf)%scan_Some. unfold row in Hf. unfold identity_row. rewrite Hi. cbn.
  destruct (id_conversations ident !! c) as [kind|]; [|done]. eauto.
Qed.

Lemma scan_row_None {B} c (f : IdentityConversation → option B) st :
  scan (row c f) st = None ↔
  ∀ u i kind, identity_row st u i c = Some kind → f kind = None.
Proof.
  rewrite scan_None. unfold row, identity_row. split.
  - intros HN u i kind. destruct (identity st u i) as [ident|] eqn:Hi; [|done]. cbn.
    intros Hk. specialize (HN _ _ _ Hi). by rewrite Hk in HN.
  - intros HN u i ident Hi. destruct (id_conversations ident !! c) as [kind|] eqn:Hk; [|done].
    apply (HN u i). by rewrite Hi.
Qed.

(** ** Scans after changes *)

Lemma idents_alter u i h st :
  idents (alter_identity u i h st) =
    map (λ '(u', i', ident), (u', i', if decide (u' = u ∧ i' = i) then h ident else ident))
      (idents st).
Proof.
  unfold idents, alter_identity. cbn [es_users with_users with_store].
  rewrite entries_alter, flat_map_concat_map, flat_map_concat_map, map_map, concat_map, map_map.
  f_equal. apply map_ext. intros [u' user]. rewrite map_map.
  destruct (decide (u' = u)) as [->|Hu]; cbn [us_identities].
  - rewrite entries_alter, map_map. apply map_ext. intros [i' ident].
    by repeat case_decide; naive_solver.
  - apply map_ext. intros [i' ident]. by rewrite decide_False by naive_solver.
Qed.

Lemma find_map_map {A B C} (f : A → B) (g : B → option C) l :
  find_map g (map f l) = find_map (λ a, g (f a)) l.
Proof. induction l as [|a l IH]; cbn; [done|]. by destruct (g (f a)). Qed.

Lemma scan_alter {B} (f : Identity → option B) u i h (k : B → B) st :
  (∀ ident, f (h ident) = k <$> f ident) →
  scan f (alter_identity u i h st) =
    (λ '(u', i', b), (u', i', if decide (u' = u ∧ i' = i) then k b else b)) <$> scan f st.
Proof.
  intros HE. unfold scan. rewrite idents_alter, find_map_map, <-find_map_fmap.
  apply find_map_ext. intros [[u' i'] ident] _. case_decide as HD.
  - rewrite HE. destruct (f ident); cbn; [|done]. by rewrite decide_True.
  - destruct (f ident); cbn; [|done]. by rewrite decide_False.
Qed.

Lemma scan_row_alter {B} c' (f : IdentityConversation → option B) u i c g (k : B → B) st :
  (∀ kind, f (g kind) = k <$> f kind) →
  scan (row c' f) (alter_row u i c g st) =
    (λ '(u', i', b), (u', i', if decide (u' = u ∧ i' = i ∧ c' = c) then k b else b))
      <$> scan (row c' f) st.
Proof.
  intros HE. unfold alter_row. destruct (decide (c' = c)) as [->|Hc].
  - rewrite (scan_alter _ _ _ _ k).
    + destruct (scan (row c f) st) as [[[u' i'] b]|]; cbn; [|done].
      by repeat case_decide; naive_solver.
    + intros ident. unfold row. cbn. rewrite lookup_alter_eq.
      by destruct (id_conversations ident !! c); cbn.
  - rewrite (scan_alter _ _ _ _ id).
    + destruct (scan (row c' f) st) as [[[u' i'] b]|]; cbn; [|done].
      by repeat case_decide; naive_solver.
    + intros ident. unfold row. cbn. rewrite lookup_alter_ne by done.
      by destruct (id_conversations ident !! c') as [kind|]; cbn; [destruct (f kind)|].
Qed.

Lemma scan_users {B} (f : Identity → option B) st st' :
  es_users st' = es_users st → scan f st' = scan f st.
Proof. intros HE. unfold scan, idents. by rewrite HE. Qed.

Lemma place_of_alter_row u i c g st c' : place_of (alter_row u i c g st) c' = place_of st c'.
Proof.
  unfold place_of. rewrite (scan_row_alter _ Some _ _ _ g g) by done.
  by destruct (scan (row c' Some) st) as [[[u' i'] kind]|].
Qed.

Lemma place_of_alter_device c g st c' : place_of (alter_device_row c g st) c' = place_of st c'.
Proof.
  unfold place_of. rewrite (scan_users _ st) by done. rewrite device_row_alter.
  destruct (scan _ st); [done|]. unfold device_row.
  case_decide as Hc; [subst|done]. by destruct (dv_conversations _ !! c).
Qed.

(** * The transaction store *)

Section Logs.
Context `{RowTxLaws T}.

Lemma log_body_insert id b (log log' : TxLog T) id' :
  log_insert id b log = Some log' →
  log_body log' id' = if decide (id' = id) then Some b else log_body log id'.
Proof.
  unfold log_insert, log_body. destruct (from_payload (db_payload b)) as [tx|] eqn:E; [|done].
  cbn. intros [= <-]. apply to_from_payload in E. case_decide as Hid.
  - subst. rewrite lookup_insert_eq. cbn. unfold row_durable, durable. cbn. rewrite E.
    by destruct b.
  - by rewrite lookup_insert_ne.
Qed.

Lemma log_body_delete id (log : TxLog T) id' :
  log_body (delete id log) id' = if decide (id' = id) then None else log_body log id'.
Proof.
  unfold log_body. case_decide as Hid; [subst; by rewrite lookup_delete_eq|].
  by rewrite lookup_delete_ne.
Qed.

Lemma elem_of_push_log (log : TxLog T) id b : (id, b) ∈ push_log log ↔ log_body log id = Some b.
Proof.
  unfold push_log, log_body. rewrite list_elem_of_fmap, fmap_Some. split.
  - intros ([id' r] & [= -> ->] & Hin%elem_of_entries). eauto.
  - intros (r & Hr & ->). exists (id, r). split; [done|]. by apply elem_of_entries.
Qed.
End Logs.

Lemma identity_body_insert id b kind kind' id' :
  identity_insert id b kind = Some kind' →
  identity_body kind' id' = if decide (id' = id) then Some b else identity_body kind id'.
Proof.
  destruct kind as [p log c|s p log c|[live|o|r]]; cbn [identity_insert]; try done;
    (destruct (log_insert id b _) as [log'|] eqn:E; [|done]); cbn; intros [= <-]; cbn;
    by apply log_body_insert.
Qed.

Lemma device_body_insert id b kind kind' id' :
  device_insert id b kind = Some kind' →
  device_body kind' id' = if decide (id' = id) then Some b else device_body kind id'.
Proof.
  destruct kind as [p log c|s p peer log c]; cbn [device_insert];
    (destruct (log_insert id b _) as [log'|] eqn:E; [|done]); cbn; intros [= <-]; cbn;
    by apply log_body_insert.
Qed.

Lemma identity_body_remove id kind id' :
  identity_body (identity_remove id kind) id' =
    if decide (id' = id) then None else identity_body kind id'.
Proof.
  destruct kind as [p log c|s p log c|[live|o|r]]; cbn; try apply log_body_delete;
    by case_decide.
Qed.

Lemma device_body_remove id kind id' :
  device_body (device_remove id kind) id' =
    if decide (id' = id) then None else device_body kind id'.
Proof. destruct kind; apply log_body_delete. Qed.

(** A place is where [body_at] looks: a change of one row changes the bodies there. *)
Lemma body_at_alter_row u i c g st id p :
  body_at (alter_row u i c g st) id p =
    if decide (p = PlaceIdentity u i c) then
      kind ← identity_row st u i c; identity_body (g kind) id
    else body_at st id p.
Proof.
  destruct p as [|u' i' c'|c']; cbn [body_at].
  - by rewrite decide_False.
  - rewrite identity_row_alter. case_decide as HE; case_decide as HP; try naive_solver.
    + destruct HE as (-> & -> & ->). by destruct (identity_row st u i c).
  - by rewrite decide_False.
Qed.

Lemma body_at_alter_device c g st id p :
  body_at (alter_device_row c g st) id p =
    if decide (p = PlaceDevice c) then device_row c (λ kind, device_body (g kind) id) st
    else body_at st id p.
Proof.
  destruct p as [|u' i' c'|c']; cbn [body_at].
  - by rewrite decide_False.
  - by rewrite decide_False.
  - rewrite device_row_alter. case_decide as HE; case_decide as HP; naive_solver.
Qed.

Lemma body_at_tx_place places st id p : body_at (with_tx_place places st) id p = body_at st id p.
Proof. by destruct p. Qed.

Lemma body_at_engine_log log st id p :
  body_at (with_engine_log log st) id p =
    if decide (p = PlaceEngine) then log_body log id else body_at st id p.
Proof. by destruct p. Qed.

(** Every stored body has its place recorded, so no id is stored twice. *)
Definition Located (st : EngineState) : Prop :=
  ∀ id p b, body_at st id p = Some b → es_tx_place st !! id = Some p.

Lemma elem_of_stored_rows st id b : (id, b) ∈ stored_rows st ↔ ∃ p, body_at st id p = Some b.
Proof.
  unfold stored_rows. rewrite !elem_of_app, elem_of_push_log. split.
  - intros [HE|[HI|HD]].
    + by exists PlaceEngine.
    + apply list_elem_of_In, in_flat_map in HI as ([[u i] ident] & Hi & Hk).
      apply list_elem_of_In, elem_of_idents in Hi.
      apply in_flat_map in Hk as (kind & Hc & Hb). apply list_elem_of_In, elem_of_values in Hc as [c Hc].
      exists (PlaceIdentity u i c). cbn. unfold identity_row. rewrite Hi. cbn. rewrite Hc. cbn.
      apply list_elem_of_In in Hb.
      destruct kind as [p log ch|s p log ch|[live|o|r]]; cbn in *; try by apply elem_of_push_log.
      all: by apply not_elem_of_nil in Hb.
    + apply list_elem_of_In, in_flat_map in HD as (kind & Hc & Hb).
      apply list_elem_of_In, elem_of_values in Hc as [c Hc]. apply list_elem_of_In in Hb.
      exists (PlaceDevice c). cbn. unfold device_row. rewrite Hc. cbn.
      destruct kind; by apply elem_of_push_log.
  - intros [[|u i c|c] Hb]; cbn in Hb.
    + by left.
    + right; left. unfold identity_row in Hb. destruct (identity st u i) as [ident|] eqn:Hi; [|done].
      cbn in Hb. destruct (id_conversations ident !! c) as [kind|] eqn:Hc; [|done]. cbn in Hb.
      apply list_elem_of_In, in_flat_map. exists (u, i, ident).
      split; [by apply list_elem_of_In, elem_of_idents|].
      apply in_flat_map. exists kind. split; [apply list_elem_of_In, elem_of_values; eauto|].
      apply list_elem_of_In.
      destruct kind as [p log ch|s p log ch|[live|o|r]]; cbn in *; try done; by apply elem_of_push_log.
    + right; right. unfold device_row in Hb.
      destruct (dv_conversations (es_device st) !! c) as [kind|] eqn:Hc; [|done]. cbn in Hb.
      apply list_elem_of_In, in_flat_map. exists kind.
      split; [apply list_elem_of_In, elem_of_values; eauto|]. apply list_elem_of_In.
      destruct kind; by apply elem_of_push_log.
Qed.

(** A fold of insertions in which every key has one value. *)
Lemma fold_insert_lookup (l : list (Tag * DurableBody)) (m : gmap Tag DurableBody) id :
  (∀ b b', (id, b) ∈ l → (id, b') ∈ l → b = b') →
  fold_left (λ out '(id, b), <[id := b]> out) l m !! id =
    match List.find (λ kv, bool_decide (kv.1 = id)) l with Some kv => Some kv.2 | None => m !! id end.
Proof.
  revert m. induction l as [|[k b] l IH]; intros m HU; [done|]. cbn [fold_left List.find].
  rewrite IH by (intros b1 b2 H1 H2; apply HU; by right). cbn [fst].
  case_bool_decide as Hk; [subst k|].
  - destruct (List.find _ l) as [[k' b']|] eqn:E; cbn [snd]; [|by rewrite lookup_insert_eq].
    apply List.find_some in E as [Hin HE%bool_decide_eq_true]. cbn in HE. subst k'.
    f_equal. apply HU; [right; by apply list_elem_of_In|left].
  - destruct (List.find _ l) as [kv|]; [done|]. by rewrite lookup_insert_ne.
Qed.

Lemma located_body_at st id p b : Located st → body_at st id p = Some b → body st id = Some b.
Proof. intros HL Hb. unfold body. by rewrite (HL _ _ _ Hb). Qed.

Lemma located_stored_rows st id b : Located st → (id, b) ∈ stored_rows st ↔ body st id = Some b.
Proof.
  intros HL. rewrite elem_of_stored_rows. split.
  - intros [p Hb]. by eapply located_body_at.
  - unfold body. destruct (es_tx_place st !! id) as [p|]; [|done]. cbn. eauto.
Qed.

Lemma stored_lookup st id : Located st → stored st !! id = body st id.
Proof.
  intros HL. unfold stored. rewrite fold_insert_lookup.
  - destruct (List.find _ _) as [[k b]|] eqn:E.
    + apply List.find_some in E as [Hin HE%bool_decide_eq_true]. cbn in HE. subst k. symmetry.
      by apply located_stored_rows, list_elem_of_In.
    + rewrite lookup_empty. destruct (body st id) as [b|] eqn:Hb; [|done].
      apply located_stored_rows, list_elem_of_In in Hb; [|done].
      eapply List.find_none in E; [|exact Hb]. by rewrite bool_decide_true in E.
  - intros b b' H1%located_stored_rows H2%located_stored_rows; [congruence|done..].
Qed.

(** One body written at a place that held none. *)
Lemma located_write st st' id place b :
  Located st → es_tx_place st !! id = None →
  es_tx_place st' = <[id := place]> (es_tx_place st) →
  (∀ id' p, body_at st' id' p =
     if decide (p = place ∧ id' = id) then Some b else body_at st id' p) →
  Located st' ∧ ∀ id', body st' id' = if decide (id' = id) then Some b else body st id'.
Proof.
  intros HL HN Hpl HB. split.
  - intros id' p b' Hb. rewrite HB in Hb. rewrite Hpl. case_decide as HE.
    + destruct HE as [-> ->]. by rewrite lookup_insert_eq.
    + apply HL in Hb. destruct (decide (id' = id)) as [->|]; [congruence|].
      by rewrite lookup_insert_ne.
  - intros id'. unfold body. rewrite Hpl. case_decide as HE; [subst|].
    + rewrite lookup_insert_eq. cbn. rewrite HB. by rewrite decide_True.
    + rewrite lookup_insert_ne by done. destruct (_ !! id') as [p|]; [|done]. cbn. rewrite HB.
      by rewrite decide_False by naive_solver.
Qed.

Lemma remove_body_at st id id' p :
  body_at (remove_body id st) id' p =
    if decide (id' = id ∧ es_tx_place st !! id = Some p) then None else body_at st id' p.
Proof.
  unfold remove_body. destruct (es_tx_place st !! id) as [[|u i c|c]|] eqn:Hpl.
  - rewrite body_at_engine_log. case_decide as HP; [subst p|].
    + cbn [with_tx_place with_store es_engine_log]. rewrite log_body_delete.
      repeat case_decide; naive_solver.
    + rewrite body_at_tx_place. by rewrite decide_False by naive_solver.
  - rewrite body_at_alter_row. case_decide as HP; [subst p|].
    + change (identity_row (with_tx_place _ st) u i c) with (identity_row st u i c). cbn [body_at].
      destruct (identity_row st u i c) as [kind|]; cbn; [rewrite identity_body_remove|];
        repeat case_decide; naive_solver.
    + rewrite body_at_tx_place. by rewrite decide_False by naive_solver.
  - rewrite body_at_alter_device. case_decide as HP; [subst p|].
    + unfold device_row. cbn [body_at]. unfold device_row.
      change (es_device (with_tx_place _ st)) with (es_device st).
      destruct (_ !! c) as [kind|]; cbn; [rewrite device_body_remove|];
        repeat case_decide; naive_solver.
    + rewrite body_at_tx_place. by rewrite decide_False by naive_solver.
  - by rewrite decide_False by naive_solver.
Qed.

Lemma remove_body_place st id : es_tx_place (remove_body id st) = delete id (es_tx_place st).
Proof.
  unfold remove_body. destruct (es_tx_place st !! id) as [[]|] eqn:Hpl; try done.
  by rewrite delete_id.
Qed.

Lemma remove_body_located st id :
  Located st →
  Located (remove_body id st) ∧
  ∀ id', body (remove_body id st) id' = if decide (id' = id) then None else body st id'.
Proof.
  intros HL. split.
  - intros id' p b Hb. rewrite remove_body_at in Hb. rewrite remove_body_place.
    case_decide as HE; [done|]. apply HL in Hb.
    destruct (decide (id' = id)) as [->|]; [naive_solver|]. by rewrite lookup_delete_ne.
  - intros id'. unfold body. rewrite remove_body_place. case_decide as HE.
    + subst. by rewrite lookup_delete_eq.
    + rewrite lookup_delete_ne by done. destruct (_ !! id') as [p|]; [|done]. cbn.
      rewrite remove_body_at. by rewrite decide_False by naive_solver.
Qed.

(** The row type at a conversation's place takes the payload. *)
Definition row_takes (st : EngineState) (b : DurableBody) : bool :=
  match place_of st (db_conversation_id b) with
  | Some (PlaceIdentity u i c) =>
    match identity_row st u i c with
    | Some (RowDmHandshake _ _ _) => stores DmHandshakeTx (db_payload b)
    | Some (RowDirectMessage _ _ _ _) => stores DmTx (db_payload b)
    | Some (RowGroup (GroupIsLive _)) => stores LiveGroupTx (db_payload b)
    | _ => false
    end
  | Some (PlaceDevice c) =>
    match device_row c Some st with
    | Some (RowSyncHandshake _ _ _) => stores SyncHandshakeTx (db_payload b)
    | Some (RowSynchronization _ _ _ _ _) => stores SyncTx (db_payload b)
    | None => false
    end
  | _ => stores EngineTx (db_payload b)
  end.

Lemma remove_body_place_of st id c : place_of (remove_body id st) c = place_of st c.
Proof.
  unfold remove_body. destruct (es_tx_place st !! id) as [[|u i c'|c']|]; try done.
  - by rewrite place_of_alter_row.
  - by rewrite place_of_alter_device.
Qed.

Lemma remove_body_takes st id b : row_takes (remove_body id st) b = row_takes st b.
Proof.
  unfold row_takes. rewrite remove_body_place_of.
  destruct (place_of st _) as [[|u i c|c]|]; try done;
    unfold remove_body; destruct (es_tx_place st !! id) as [[|u' i' c'|c']|]; try done.
  - rewrite identity_row_alter. case_decide as HE; [|done]. destruct HE as (-> & -> & ->).
    change (identity_row (with_tx_place _ st)) with (identity_row st).
    by destruct (identity_row st u' i' c') as [[| |[]]|].
  - rewrite device_row_alter. case_decide as HE; [|done]. subst c'. unfold device_row.
    change (es_device (with_tx_place _ st)) with (es_device st).
    by destruct (_ !! c) as [[]|].
Qed.

Lemma log_insert_stores `{RowTx T} id b (log : TxLog T) :
  is_Some (log_insert id b log) ↔ stores T (db_payload b) = true.
Proof.
  unfold log_insert, stores. rewrite bool_decide_eq_true.
  destruct (from_payload (db_payload b)); cbn; split; intros []; eauto; done.
Qed.

(** What [insert_body] starts from: the id is stored nowhere. *)
Lemma remove_if_contained st id :
  let st0 := match es_tx_place st !! id with Some _ => remove_body id st | None => st end in
  Located st →
  Located st0 ∧ es_tx_place st0 !! id = None ∧
  (∀ id', body st0 id' = if decide (id' = id) then None else body st id') ∧
  (∀ b, row_takes st0 b = row_takes st b).
Proof.
  cbv zeta. intros HL. destruct (es_tx_place st !! id) as [p|] eqn:Hp.
  - destruct (remove_body_located st id HL) as [HL' HB]. split_and!; [done| |done|].
    + by rewrite remove_body_place, lookup_delete_eq.
    + intros b. apply remove_body_takes.
  - split_and!; [done|done| |done]. intros id'. case_decide as HE; [|done]. subst.
    unfold body. by rewrite Hp.
Qed.

Lemma is_Some_bind_Some {A B} (o : option A) (f : A → B) :
  is_Some (a ← o; Some (f a)) ↔ is_Some o.
Proof. destruct o; cbn; split; intros []; eauto; done. Qed.

Lemma identity_insert_takes id b kind :
  is_Some (identity_insert id b kind) ↔
  match kind with
  | RowDmHandshake _ _ _ => stores DmHandshakeTx (db_payload b)
  | RowDirectMessage _ _ _ _ => stores DmTx (db_payload b)
  | RowGroup (GroupIsLive _) => stores LiveGroupTx (db_payload b)
  | RowGroup _ => false
  end = true.
Proof.
  destruct kind as [p log c|s p log c|[live|o|r]]; cbn [identity_insert];
    try (by split; [intros []|]); by rewrite is_Some_bind_Some, log_insert_stores.
Qed.

Lemma device_insert_takes id b kind :
  is_Some (device_insert id b kind) ↔
  match kind with
  | RowSyncHandshake _ _ _ => stores SyncHandshakeTx (db_payload b)
  | RowSynchronization _ _ _ _ _ => stores SyncTx (db_payload b)
  end = true.
Proof.
  destruct kind; cbn [device_insert]; by rewrite is_Some_bind_Some, log_insert_stores.
Qed.

Lemma place_of_identity st cid u i c :
  place_of st cid = Some (PlaceIdentity u i c) → c = cid ∧ is_Some (identity_row st u i c).
Proof.
  unfold place_of. destruct (scan _ st) as [[[u' i'] kind]|] eqn:E.
  - intros [= <- <- <-]. apply scan_row_Some in E as (k & Hk & _). eauto.
  - unfold device_row. by destruct (_ !! cid).
Qed.

Lemma write_row_takes st id b : is_Some (write_row id b st) ↔ row_takes st b = true.
Proof.
  unfold write_row, row_takes. destruct (place_of st _) as [[|u i c|c]|].
  1, 4: by rewrite is_Some_bind_Some, log_insert_stores.
  - destruct (identity_row st u i c) as [kind|]; cbn; [|split; [by intros []|done]].
    rewrite is_Some_bind_Some, identity_insert_takes. by destruct kind as [| |[]].
  - unfold device_row. destruct (_ !! c) as [kind|]; cbn; [|split; [by intros []|done]].
    rewrite is_Some_bind_Some, device_insert_takes. by destruct kind.
Qed.

(** Writing into a state that does not hold the id. *)
Lemma write_row_spec st id b st' :
  Located st → es_tx_place st !! id = None → write_row id b st = Some st' →
  Located st' ∧ ∀ id', body st' id' = if decide (id' = id) then Some b else body st id'.
Proof.
  intros HL HN. unfold write_row.
  destruct (place_of st _) as [[|u i c|c]|] eqn:Hp.
  1, 4: destruct (log_insert id b _) as [log|] eqn:E; [|done]; intros [= <-];
    apply (located_write st _ id PlaceEngine); [done..|]; intros id' p;
    rewrite body_at_tx_place, body_at_engine_log; case_decide as HP;
    [subst p; rewrite (log_body_insert _ _ _ _ _ E); repeat case_decide; naive_solver|
     by rewrite decide_False by naive_solver].
  - destruct (identity_row st u i c) as [kind|] eqn:Hk; [|done]. cbn.
    destruct (identity_insert id b kind) as [kind'|] eqn:E; [|done]. intros [= <-].
    apply (located_write st _ id (PlaceIdentity u i c)); [done..|]. intros id' p.
    rewrite body_at_tx_place, body_at_alter_row.
    case_decide as HP; [subst p|by rewrite decide_False by naive_solver].
    cbn [body_at]. rewrite Hk. cbn. rewrite (identity_body_insert _ _ _ _ _ E).
    repeat case_decide; naive_solver.
  - unfold device_row at 1. destruct (_ !! c) as [kind|] eqn:Hk; [|done]. cbn.
    destruct (device_insert id b kind) as [kind'|] eqn:E; [|done]. intros [= <-].
    apply (located_write st _ id (PlaceDevice c)); [done..|]. intros id' p.
    rewrite body_at_tx_place, body_at_alter_device.
    case_decide as HP; [subst p|by rewrite decide_False by naive_solver].
    cbn [body_at]. unfold device_row. rewrite Hk. cbn. rewrite (device_body_insert _ _ _ _ _ E).
    repeat case_decide; naive_solver.
Qed.

(** ** A concrete state: a device with one direct message *)

Definition id_of {r} (b : byte) : branded r := from_bytes (fill 32 b).

Definition dm_state : EngineState :=
  put_dm (id_of x01) (id_of x02) (id_of x03)
    (IdentityNode_direct (id_of x04) (id_of x05)) EngineState_new.

Definition dm_body (payload : TxPayload) : DurableBody :=
  mkDurableBody (id_of x03) (mkHlc (clamp64 1) (clamp64 0)) payload.

Lemma located_new : Located EngineState_new.
Proof. intros id [|u i c|c] b; cbn; done. Qed.

Lemma insert_body_located st id b :
  Located st →
  let '(st', r) := insert_body id b st in
  Located st' ∧ r = (if row_takes st b then Ok tt else Err WrongPhase) ∧
  stored st' = if row_takes st b then <[id := b]> (stored st) else delete id (stored st).
Proof.
  intros HL. unfold insert_body. destruct (remove_if_contained st id HL) as (HL0 & HN & HB & HT).
  cbv zeta in *. set (st0 := match es_tx_place st !! id with Some _ => _ | None => _ end) in *.
  pose proof (write_row_takes st0 id b) as HW. rewrite HT in HW.
  destruct (write_row id b st0) as [st'|] eqn:E.
  + replace (row_takes st b) with true by (symmetry; apply HW; eauto).
    destruct (write_row_spec _ _ _ _ HL0 HN E) as [HL' HB']. split_and!; [done|done|].
    apply map_eq. intros id'. rewrite stored_lookup, HB', HB by done.
    case_decide as HE; [subst; by rewrite lookup_insert_eq|].
    by rewrite lookup_insert_ne, stored_lookup by done.
  + replace (row_takes st b) with false
      by (symmetry; apply not_true_iff_false; rewrite <-HW; by intros []).
    split_and!; [done|done|]. apply map_eq. intros id'. rewrite stored_lookup, HB by done.
    case_decide as HE; [subst; by rewrite lookup_delete_eq|].
    by rewrite lookup_delete_ne, stored_lookup by done.
Qed.

(** C7. The transaction store refines a map from ids to bodies.  While every body has its
    place recorded (so that no id is stored twice), looking an id up is looking it up in
    that map; storing a body replaces the id's binding and keeps the store so, when the
    row of the body's conversation takes such payloads; otherwise it is refused with
    [WrongPhase] (and whatever the id was bound to is gone); removing an id deletes its
    binding. *)
Theorem store_refines_map st id b :
  Located st →
  (∀ id', body st id' = stored st !! id') ∧
  (let '(st', r) := insert_body id b st in
   Located st' ∧ r = (if row_takes st b then Ok tt else Err WrongPhase) ∧
   stored st' = if row_takes st b then <[id := b]> (stored st) else delete id (stored st)) ∧
  Located (remove_body id st) ∧ stored (remove_body id st) = delete id (stored st).
Proof.
  intros HL. split; [intros id'; by rewrite stored_lookup|]. split.
  - by apply insert_body_located.
  - destruct (remove_body_located st id HL) as [HL' HB]. split; [done|].
    apply map_eq. intros id'. rewrite stored_lookup, HB by done.
    case_decide as HE; [subst; by rewrite lookup_delete_eq|].
    by rewrite lookup_delete_ne, stored_lookup by done.
Qed.

(** * Changes of rows that keep the store *)

Definition same_store (st st' : EngineState) : Prop :=
  es_tx_place st' = es_tx_place st ∧ ∀ id p, body_at st' id p = body_at st id p.

#[export] Instance same_store_preorder : PreOrder same_store.
Proof.
  split; [by split|]. intros a b c [H1 H2] [G1 G2]. split; [by rewrite G1|].
  intros id p. by rewrite G2.
Qed.

Lemma same_store_located st st' :
  same_store st st' → Located st → Located st' ∧ stored st' = stored st.
Proof.
  intros [Hp Hb] HL. assert (Located st') as HL'.
  { intros id p b. rewrite Hb, Hp. apply HL. }
  split; [done|]. apply map_eq. intros id. rewrite !stored_lookup by done. unfold body.
  rewrite Hp. destruct (_ !! id); cbn; auto.
Qed.

Lemma alter_row_same_store u i c g st :
  (∀ kind id, identity_body (g kind) id = identity_body kind id) →
  same_store st (alter_row u i c g st).
Proof.
  intros Hg. split; [done|]. intros id p. rewrite body_at_alter_row.
  case_decide as HP; [subst p|done]. cbn [body_at].
  destruct (identity_row st u i c); cbn; auto.
Qed.

Lemma alter_device_same_store c g st :
  (∀ kind id, device_body (g kind) id = device_body kind id) →
  same_store st (alter_device_row c g st).
Proof.
  intros Hg. split; [done|]. intros id p. rewrite body_at_alter_device.
  case_decide as HP; [subst p|done]. cbn [body_at]. unfold device_row.
  destruct (_ !! c); cbn; auto.
Qed.

Lemma party_mut_same_store cid f st : same_store st (party_mut cid f st).
Proof.
  unfold party_mut. destruct (scan _ st) as [[[u i] p]|].
  - apply alter_row_same_store. by intros [].
  - apply alter_device_same_store. by intros [].
Qed.

Lemma chains_mut_same_store cid f st : same_store st (chains_mut cid f st).
Proof.
  unfold chains_mut. destruct (scan _ st) as [[[u i] p]|].
  - apply alter_row_same_store. by intros [| |[]].
  - apply alter_device_same_store. by intros [].
Qed.

Lemma established_mut_same_store cid f st : same_store st (established_mut cid f st).
Proof.
  unfold established_mut. destruct (scan _ st) as [[[u i] p]|].
  - apply alter_row_same_store. by intros [| |[]].
  - apply alter_device_same_store. by intros [].
Qed.

Lemma identity_map f st u i : identity (map_identities f st) u i = f <$> identity st u i.
Proof.
  unfold identity, map_identities. cbn [es_users with_users with_store].
  rewrite lookup_fmap. destruct (es_users st !! u) as [user|]; cbn; [|done].
  by rewrite lookup_fmap.
Qed.

Lemma each_chains_mut_same_store f st : same_store st (each_chains_mut f st).
Proof.
  split; [done|]. intros id [|u i c|c]; cbn [body_at].
  - done.
  - unfold identity_row.
    change (identity (each_chains_mut f st) u i) with
      (identity (map_identities (λ i, with_conversations
         (packet_mut_of_identity f <$> id_conversations i) i) st) u i).
    rewrite identity_map.
    destruct (identity st u i) as [ident|]; cbn; [|done]. rewrite lookup_fmap.
    by destruct (id_conversations ident !! c) as [[| |[]]|].
  - unfold device_row. cbn. rewrite lookup_fmap.
    by destruct (dv_conversations (es_device st) !! c) as [[]|].
Qed.

(** * Parties *)

Definition map_party (f : ∀ k, Party k → Party k) (p : PartyRef) : PartyRef :=
  match p with PRDm p => PRDm (f DmKind p) | PRSync p => PRSync (f SyncKind p) end.

Lemma dm_party_mut cid f st c :
  dm_party (party_mut cid f st) c =
    if decide (c = cid) then f DmKind <$> dm_party st cid else dm_party st c.
Proof.
  unfold party_mut, dm_party. destruct (scan (row cid dm_party_of) st) as [[[u i] p]|] eqn:E.
  - rewrite (scan_row_alter _ _ _ _ _ _ (f DmKind)) by by intros [].
    case_decide as Hc.
    + subst. rewrite E. cbn. by rewrite decide_True.
    + destruct (scan (row c dm_party_of) st) as [[[u' i'] p']|]; cbn; [|done].
      by rewrite decide_False by naive_solver.
  - rewrite (scan_users _ st) by done. case_decide; [subst; by rewrite E|done].
Qed.

Lemma sync_party_mut cid f st c :
  sync_party (party_mut cid f st) c =
    if decide (c = cid ∧ dm_party st cid = None) then f SyncKind <$> sync_party st cid
    else sync_party st c.
Proof.
  unfold party_mut, dm_party, sync_party.
  destruct (scan (row cid dm_party_of) st) as [[[u i] p]|] eqn:E; cbn [fmap option_fmap option_map].
  - by rewrite decide_False by naive_solver.
  - rewrite device_row_alter. case_decide as H1; case_decide as H2; try naive_solver.
    subst. unfold device_row. by destruct (_ !! cid) as [[]|].
Qed.

Lemma party_party_mut cid f st c :
  party (party_mut cid f st) c =
    if decide (c = cid) then map_party f <$> party st cid else party st c.
Proof.
  unfold party. rewrite dm_party_mut, sync_party_mut. destruct (decide (c = cid)) as [->|Hc].
  - destruct (dm_party st cid) as [p|]; cbn; [done|]. rewrite decide_True by done.
    by destruct (sync_party st cid).
  - destruct (dm_party st c); [done|]. by rewrite decide_False by naive_solver.
Qed.

Lemma party_mut_chains cid f st c : chains (party_mut cid f st) c = chains st c.
Proof.
  unfold party_mut, chains. destruct (scan (row cid dm_party_of) st) as [[[u i] p]|] eqn:E.
  - set (g := λ kind, _). rewrite (scan_row_alter _ Some _ _ _ g g) by done.
    destruct (scan (row c Some) st) as [[[u' i'] kind]|]; cbn; [|done].
    case_decide; [by destruct kind|done].
  - rewrite (scan_users _ st) by done. destruct (scan _ st); [done|]. rewrite device_row_alter.
    case_decide; [subst|done]. unfold device_row. by destruct (_ !! cid) as [[]|].
Qed.

Lemma party_mut_place_of cid f st c : place_of (party_mut cid f st) c = place_of st c.
Proof.
  unfold party_mut. destruct (scan _ st) as [[[u i] p]|]; [apply place_of_alter_row|].
  apply place_of_alter_device.
Qed.

Lemma party_failure_fail {k} r (p : Party k) :
  party_failure (party_fail r p) = Some (default r (party_failure p)).
Proof. by destruct p as [[]|[]]. Qed.

Lemma party_ticket_fail {k} r (p : Party k) : party_ticket (party_fail r p) = party_ticket p.
Proof. by destruct p as [[]|[]]. Qed.

Lemma party_list_from_fail {k} r (p : Party k) :
  party_list_from (party_fail r p) = party_list_from p.
Proof. by destruct p as [[]|[]]. Qed.

Lemma ticket_party st cid : ticket st cid = on_party (λ k, party_ticket) <$> party st cid.
Proof. unfold ticket, party. destruct (dm_party st cid); [done|]. by destruct (sync_party st cid). Qed.

(** Failing a handshake records the first reason and keeps it; it touches no other
    handshake, keeps every ticket, listing bin, chain and conversation scope, and every
    stored transaction. *)
Theorem state_fail_spec st cid reason :
  let st' := state_fail cid reason st in
  failed st' cid = (_ ← party st cid; Some (default reason (failed st cid))) ∧
  (∀ c, c ≠ cid → party st' c = party st c) ∧
  (∀ c, ticket st' c = ticket st c ∧ list_from st' c = list_from st c ∧
        chains st' c = chains st c ∧ place_of st' c = place_of st c) ∧
  (Located st → Located st' ∧ stored st' = stored st).
Proof.
  cbv zeta. unfold state_fail, failed. split_and!.
  - rewrite party_party_mut, decide_True by done.
    destruct (party st cid) as [[p|p]|]; cbn; [apply party_failure_fail..|done].
  - intros c Hc. by rewrite party_party_mut, decide_False.
  - intros c. rewrite party_mut_chains, party_mut_place_of, !ticket_party. unfold list_from.
    rewrite party_party_mut. case_decide as Hc; [subst|done].
    destruct (party st cid) as [[p|p]|]; cbn;
      by rewrite ?party_ticket_fail, ?party_list_from_fail.
  - apply same_store_located, party_mut_same_store.
Qed.

(** * Renaming rows *)

Lemma rekey_map_lookup {V} (m : gmap ConversationId V) from to c :
  rekey_map m from to !! c =
    match m !! from with
    | Some v => if decide (c = to) then Some v else if decide (c = from) then None else m !! c
    | None => m !! c
    end.
Proof.
  unfold rekey_map. destruct (m !! from) as [v|]; [|done].
  case_decide as Hto; [subst; by rewrite lookup_insert_eq|].
  rewrite lookup_insert_ne by done.
  case_decide; [subst; by rewrite lookup_delete_eq|by rewrite lookup_delete_ne].
Qed.

Lemma identity_row_rekey from to st u i c :
  identity_row (rekey_row from to st) u i c =
    rekey_parent_identity from to <$>
      match identity_row st u i from with
      | Some kind =>
          if decide (c = to) then Some kind else if decide (c = from) then None
          else identity_row st u i c
      | None => identity_row st u i c
      end.
Proof.
  unfold identity_row.
  change (identity (rekey_row from to st) u i) with
    (identity (map_identities (λ i, with_conversations
       (rekey_parent_identity from to <$> rekey_map (id_conversations i) from to) i) st) u i).
  rewrite identity_map. destruct (identity st u i) as [ident|]; cbn; [|done].
  by rewrite lookup_fmap, rekey_map_lookup.
Qed.

Lemma device_row_rekey {B} from to st c (f : DeviceConversation → option B) :
  device_row c f (rekey_row from to st) =
    kind ← match device_row from Some st with
           | Some kind =>
               if decide (c = to) then Some kind else if decide (c = from) then None
               else device_row c Some st
           | None => device_row c Some st
           end;
    f (rekey_parent_device from to kind).
Proof.
  unfold device_row. cbn [es_device rekey_row with_device with_store dv_conversations
    with_dv_conversations map_identities with_users].
  rewrite lookup_fmap, rekey_map_lookup.
  destruct (dv_conversations (es_device st) !! from); cbn.
  - repeat case_decide; cbn; try done. by destruct (_ !! c).
  - by destruct (_ !! c).
Qed.

Lemma identity_body_rekey_parent from to kind id :
  identity_body (rekey_parent_identity from to kind) id = identity_body kind id.
Proof. by destruct kind as [| |[]]. Qed.

(** Renaming a conversation moves the row and replaces whatever row of the same
    identity had the new name.  It does not move the places of the row's transactions: a
    transaction logged before the renaming stays in the row, is listed with the others,
    and can no longer be looked up by its id. *)
Theorem rekey_row_spec st from to u i kind id b :
  Located st → from ≠ to →
  identity_row st u i from = Some kind → identity_body kind id = Some b →
  let st' := rekey_row from to st in
  identity_row st' u i to = Some (rekey_parent_identity from to kind) ∧
  identity_row st' u i from = None ∧
  (id, b) ∈ stored_rows st' ∧ body st' id = None.
Proof.
  intros HL Hne Hk Hb st'. subst st'. split_and!.
  - rewrite identity_row_rekey, Hk. by rewrite decide_True.
  - rewrite identity_row_rekey, Hk, decide_False by done. by rewrite decide_True.
  - apply elem_of_stored_rows. exists (PlaceIdentity u i to). cbn [body_at].
    rewrite identity_row_rekey, Hk, decide_True by done. cbn.
    by rewrite identity_body_rekey_parent.
  - assert (es_tx_place st !! id = Some (PlaceIdentity u i from)) as Hp.
    { apply HL with b. cbn. by rewrite Hk. }
    unfold body. change (es_tx_place (rekey_row from to st)) with (es_tx_place st). rewrite Hp.
    cbn [mbind option_bind body_at]. rewrite identity_row_rekey, Hk, decide_False by done.
    by rewrite decide_True.
Qed.

(** * Dropping rows *)

Lemma identity_row_delete u i c st u' i' c' :
  identity_row (alter_identity u i
      (λ ident, with_conversations (delete c (id_conversations ident)) ident) st) u' i' c' =
    if decide (u' = u ∧ i' = i ∧ c' = c) then None else identity_row st u' i' c'.
Proof.
  unfold identity_row. rewrite identity_alter. case_decide as HE.
  - destruct HE as [-> ->]. destruct (identity st u i) as [ident|]; cbn; [|by case_decide].
    case_decide as HC; [destruct HC as (_ & _ & ->); by rewrite lookup_delete_eq|].
    by rewrite lookup_delete_ne by naive_solver.
  - by rewrite decide_False by naive_solver.
Qed.

Lemma scope_of_place st cid :
  scope_of st cid =
    p ← place_of st cid;
    match p with
    | PlaceIdentity u i _ => Some (ScopeIdentity u i)
    | PlaceDevice _ => Some ScopeDevice
    | PlaceEngine => None
    end.
Proof.
  unfold scope_of, place_of. destruct (scan _ st) as [[[u i] k]|]; [done|].
  unfold device_row. by destruct (_ !! cid).
Qed.

Lemma owner_scan st cid :
  owner st cid = (λ '(u, i, _), (u, i)) <$> scan (row cid Some) st.
Proof.
  unfold owner, scope_of. destruct (scan _ st) as [[[u i] k]|]; [done|].
  unfold device_row. by destruct (_ !! cid).
Qed.

Lemma drop_rows st cid u i c :
  identity_row (drop_conversation cid st).2 u i c =
    if decide (c = cid ∧ owner st cid = Some (u, i)) then None else identity_row st u i c.
Proof.
  rewrite owner_scan. unfold drop_conversation. cbn [snd].
  change (identity_row (with_device ?d ?s)) with (identity_row s).
  destruct (scan (row cid Some) st) as [[[u' i'] k]|]; cbn [fmap option_fmap option_map].
  - rewrite identity_row_delete. repeat case_decide; naive_solver.
  - by rewrite decide_False by naive_solver.
Qed.

Lemma drop_devices st cid :
  dv_conversations (es_device (drop_conversation cid st).2) =
    delete cid (dv_conversations (es_device st)).
Proof. unfold drop_conversation. by destruct (scan _ st) as [[[u i] k]|]. Qed.

(** Dropping a conversation removes its row from the first identity that has it and
    from the device, and nothing else; it says whether there was one.  The transactions of
    the removed rows are forgotten, the others are kept. *)
Theorem drop_conversation_spec st cid :
  let '(hit, st') := drop_conversation cid st in
  (hit = true ↔ is_Some (scope_of st cid)) ∧
  (∀ u i c, identity_row st' u i c =
     if decide (c = cid ∧ owner st cid = Some (u, i)) then None else identity_row st u i c) ∧
  dv_conversations (es_device st') = delete cid (dv_conversations (es_device st)) ∧
  (Located st → Located st' ∧ ∀ id b, stored st' !! id = Some b ↔
     stored st !! id = Some b ∧ es_tx_place st !! id ≠ Some (PlaceDevice cid) ∧
     (∀ u i, owner st cid = Some (u, i) → es_tx_place st !! id ≠ Some (PlaceIdentity u i cid))).
Proof.
  pose proof (drop_rows st cid) as HR. pose proof (drop_devices st cid) as HD.
  assert ((drop_conversation cid st).1 = true ↔ is_Some (scope_of st cid)) as HH.
  { unfold drop_conversation, scope_of. cbn [fst]. rewrite orb_true_iff, !bool_decide_eq_true.
    destruct (scan (row cid Some) st) as [[[u i] k]|]; cbn.
    - split; eauto.
    - unfold device_row. destruct (_ !! cid); cbn; split; try intros [[]|[]]; try intros []; eauto; done. }
  assert (es_tx_place (drop_conversation cid st).2 = es_tx_place st) as HP.
  { unfold drop_conversation. by destruct (scan _ st) as [[[u i] k]|]. }
  assert (es_engine_log (drop_conversation cid st).2 = es_engine_log st) as HE.
  { unfold drop_conversation. by destruct (scan _ st) as [[[u i] k]|]. }
  destruct (drop_conversation cid st) as [hit st']. cbn [fst snd] in *.
  split_and!; [done..|]. intros HL.
  assert (∀ id p b, body_at st' id p = Some b ↔ body_at st id p = Some b ∧
    p ≠ PlaceDevice cid ∧ ∀ u i, owner st cid = Some (u, i) → p ≠ PlaceIdentity u i cid) as HB.
  { intros id [|u i c|c] b; cbn [body_at].
    - rewrite HE. naive_solver.
    - rewrite HR. case_decide as HC; [naive_solver|]. split; [|naive_solver].
      intros Hb. split_and!; [done|done|]. intros u' i' Ho [= <- <- <-]. naive_solver.
    - unfold device_row. rewrite HD. destruct (decide (c = cid)) as [->|Hc].
      + rewrite lookup_delete_eq. naive_solver.
      + rewrite lookup_delete_ne by done. naive_solver. }
  assert (Located st') as HL'.
  { intros id p b [Hb _]%HB. rewrite HP. by apply HL in Hb. }
  split; [done|]. intros id b. rewrite !stored_lookup by done. unfold body. rewrite HP.
  destruct (es_tx_place st !! id) as [p|]; cbn; [|naive_solver]. rewrite HB.
  split; [intros (? & ? & ?); split_and!; [done|naive_solver|]|].
  - intros u i Ho [= ->]. naive_solver.
  - intros (Hb & H1 & H2). split_and!; [done|naive_solver|]. intros u i Ho ->. naive_solver.
Qed.

(** * Spawning the child of a handshake *)

Lemma identity_ensure u i st u' i' :
  identity (ensure_identity u i st) u' i' =
    if decide (u' = u ∧ i' = i) then Some (default Identity_default (identity st u i))
    else identity st u' i'.
Proof.
  unfold ensure_identity, ensure_user. set (st0 := match (es_users st !! u : option User) with Some _ => st | None => _ end).
  assert (∀ u' i', identity st0 u' i' = identity st u' i') as H0.
  { intros v j. unfold st0, identity. destruct (es_users st !! u) eqn:Hu; [done|].
    cbn [es_users with_users with_store]. destruct (decide (v = u)) as [->|].
    - by rewrite lookup_insert_eq, Hu.
    - by rewrite lookup_insert_ne. }
  assert (is_Some (es_users st0 !! u)) as [user Hu].
  { unfold st0. destruct (es_users st !! u) eqn:Hu; [eauto|]. cbn. by rewrite lookup_insert_eq. }
  rewrite H0. destruct (identity st u i) as [ident|] eqn:Hi; cbn [default from_option id].
  - rewrite H0. case_decide as HE; [by destruct HE as [-> ->]|done].
  - unfold identity at 1. cbn [es_users with_users with_store]. case_decide as HE.
    + destruct HE as [-> ->]. rewrite lookup_alter_eq, Hu. cbn. by rewrite lookup_insert_eq.
    + destruct (decide (u' = u)) as [->|Hne].
      * rewrite lookup_alter_eq, Hu. cbn. rewrite lookup_insert_ne by naive_solver.
        rewrite <-H0. unfold identity. by rewrite Hu.
      * rewrite lookup_alter_ne by done. rewrite <-H0. done.
Qed.

Lemma identity_row_put_dm u i c node st u' i' c' :
  identity_row (put_dm u i c node st) u' i' c' =
    if decide (u' = u ∧ i' = i ∧ c' = c) then Some node else identity_row st u' i' c'.
Proof.
  unfold identity_row, put_dm. rewrite identity_alter, !identity_ensure.
  destruct (decide (u' = u ∧ i' = i)) as [[-> ->]|Hne].
  - rewrite decide_True by done. cbn. destruct (decide (c' = c)) as [->|Hc].
    + rewrite lookup_insert_eq. by rewrite decide_True.
    + rewrite lookup_insert_ne by done. rewrite decide_False by naive_solver.
      destruct (identity st u i); cbn; [done|]. by rewrite lookup_empty.
  - by rewrite decide_False by naive_solver.
Qed.

Lemma dv_put_dm u i c node st : es_device (put_dm u i c node st) = es_device st.
Proof.
  unfold put_dm, ensure_identity, ensure_user. cbn.
  destruct (es_users st !! u); destruct (identity _ u i); done.
Qed.

Lemma store_put_dm u i c node st :
  es_tx_place (put_dm u i c node st) = es_tx_place st ∧
  es_engine_log (put_dm u i c node st) = es_engine_log st.
Proof.
  unfold put_dm, ensure_identity, ensure_user. cbn.
  destruct (es_users st !! u); destruct (identity _ u i); done.
Qed.

(** A new row with an empty log where there was none. *)
Lemma put_dm_same_store u i c node st :
  identity_row st u i c = None → (∀ id, identity_body node id = None) →
  same_store st (put_dm u i c node st).
Proof.
  intros HN HE. destruct (store_put_dm u i c node st) as [HP HL]. split; [done|].
  intros id [|u' i' c'|c']; cbn [body_at].
  - by rewrite HL.
  - rewrite identity_row_put_dm. case_decide as HC; [|done]. destruct HC as (-> & -> & ->).
    rewrite HN. cbn. apply HE.
  - unfold device_row. by rewrite dv_put_dm.
Qed.

Lemma put_sync_same_store c node st :
  dv_conversations (es_device st) !! c = None → (∀ id, device_body node id = None) →
  same_store st (put_sync c node st).
Proof.
  intros HN HE. split; [done|]. intros id [|u' i' c'|c']; cbn [body_at]; [done|done|].
  unfold device_row. cbn. destruct (decide (c' = c)) as [->|].
  - rewrite lookup_insert_eq, HN. cbn. apply HE.
  - by rewrite lookup_insert_ne.
Qed.

(** The rows whose parent is a handshake. *)
Definition has_child (st : EngineState) (hs cid : ConversationId) : Prop :=
  (∃ u i kind, identity_row st u i cid = Some kind ∧ parent_of_identity kind = Some hs) ∨
  (∃ kind, dv_conversations (es_device st) !! cid = Some kind ∧ parent_of_device kind = Some hs).

Lemma find_child {K} (parent : K → option ConversationId) (m : gmap ConversationId K) hs :
  let r := find_map (λ '(cid, kind), p ← parent kind;
             if branded_eq p hs then Some cid else None) (entries m) in
  (∀ cid, r = Some cid → ∃ kind, m !! cid = Some kind ∧ parent kind = Some hs) ∧
  (r = None → ∀ cid kind, m !! cid = Some kind → parent kind ≠ Some hs).
Proof.
  cbv zeta. split.
  - intros cid ([c kind] & Hin%elem_of_entries & HE)%find_map_Some.
    destruct (parent kind) as [p|] eqn:Hp; [|done]. cbn in HE.
    destruct (branded_eq p hs) eqn:Hb; [|done]. apply branded_eq_spec in Hb as ->.
    injection HE as ->. eauto.
  - intros HN cid kind Hc%elem_of_entries Hp. rewrite find_map_None in HN. specialize (HN _ Hc).
    cbn in HN. rewrite Hp in HN. cbn in HN. by rewrite (proj2 (branded_eq_spec hs hs)) in HN.
Qed.

Lemma child_of_spec st hs :
  (∀ cid, child_of st hs = Some cid → has_child st hs cid) ∧
  (child_of st hs = None ↔ ∀ cid, ¬ has_child st hs cid).
Proof.
  unfold child_of. destruct (find_child parent_of_device (dv_conversations (es_device st)) hs)
    as [HD HDN]. set (dev := find_map _ (entries (dv_conversations _))) in *. clearbody dev.
  destruct (scan _ st) as [[[u i] cid]|] eqn:E.
  - apply scan_Some in E as (ident & Hi & HF).
    apply (proj1 (find_child parent_of_identity (id_conversations ident) hs)) in HF as (k & Hk & Hp).
    assert (has_child st hs cid) as HC.
    { left. exists u, i, k. unfold identity_row. by rewrite Hi. }
    split; [by intros ? [= <-]|]. split; [done|]. intros HN. by destruct (HN cid).
  - assert (∀ cid u i kind, identity_row st u i cid = Some kind →
      parent_of_identity kind ≠ Some hs) as HI.
    { intros cid u i kind Hr. unfold identity_row in Hr.
      destruct (identity st u i) as [ident|] eqn:Hi; [|done]. rewrite scan_None in E.
      apply (proj2 (find_child parent_of_identity (id_conversations ident) hs)) with cid; [|done].
      by apply (E u i). }
    split; [intros cid Hc; right; by apply HD|]. split.
    + intros Hn cid [(u & i & k & Hr & Hp)|(k & Hk & Hp)]; [by apply HI in Hr|].
      by apply (HDN Hn cid k).
    + intros HN. destruct dev as [cid|]; [|done]. destruct (HN cid). right. by apply HD.
Qed.

Lemma place_of_None st c :
  place_of st c = None ↔
  (∀ u i, identity_row st u i c = None) ∧ dv_conversations (es_device st) !! c = None.
Proof.
  unfold place_of. destruct (scan _ st) as [[[u i] k]|] eqn:E.
  - apply scan_row_Some in E as (kind & Hk & _). split; [done|]. intros [HN _].
    by rewrite HN in Hk.
  - rewrite scan_row_None in E. unfold device_row. split.
    + intros HN. split; [|by destruct (_ !! c)]. intros u i.
      destruct (identity_row st u i c) as [kind|] eqn:Hk; [|done]. by apply E in Hk.
    + intros [_ ->]. done.
Qed.

(** The only row named [c], put in an identity, decides every scan for [c]. *)
Lemma scan_only {B} c (f : IdentityConversation → option B) st u i node b :
  identity_row st u i c = Some node → f node = Some b →
  (∀ u' i', (u', i') ≠ (u, i) → identity_row st u' i' c = None) →
  scan (row c f) st = Some (u, i, b).
Proof.
  intros Hr Hf HN. destruct (scan (row c f) st) as [[[u' i'] b']|] eqn:E.
  - apply scan_row_Some in E as (kind & Hk & Hf').
    destruct (decide ((u', i') = (u, i))) as [[= -> ->]|Hne]; [congruence|].
    by rewrite HN in Hk.
  - rewrite scan_row_None in E. apply E in Hr. congruence.
Qed.

Lemma child_of_put_dm st hs child u i secret :
  child_of st hs = None → place_of st child = None →
  let st' := put_dm u i child (IdentityNode_direct secret hs) st in
  child_of st' hs = Some child ∧ owner st' child = Some (u, i) ∧
  established_secret st' child = Some secret.
Proof.
  intros HC [HI _]%place_of_None st'.
  pose proof (proj1 (proj2 (child_of_spec st hs)) HC) as HN.
  assert (∀ u' i' c, identity_row st' u' i' c =
    if decide (u' = u ∧ i' = i ∧ c = child) then Some (IdentityNode_direct secret hs)
    else identity_row st u' i' c) as HR by (intros; apply identity_row_put_dm).
  assert (identity_row st' u i child = Some (IdentityNode_direct secret hs)) as HH
    by by rewrite HR, decide_True.
  assert (∀ u' i', (u', i') ≠ (u, i) → identity_row st' u' i' child = None) as HO.
  { intros u' i' Hne. rewrite HR, decide_False; [apply HI|]. naive_solver. }
  split_and!.
  - destruct (child_of st' hs) as [c|] eqn:E.
    + apply (proj1 (child_of_spec st' hs)) in E as [(u' & i' & k & Hk & Hp)|(k & Hk & Hp)].
      * rewrite HR in Hk. case_decide as HE; [naive_solver|]. destruct (HN c). left. eauto.
      * unfold st' in Hk. rewrite dv_put_dm in Hk. destruct (HN c). right. eauto.
    + rewrite (proj2 (child_of_spec st' hs)) in E. destruct (E child). left.
      exists u, i, (IdentityNode_direct secret hs). done.
  - rewrite owner_scan. by rewrite (scan_only _ Some _ _ _ _ _ HH eq_refl HO).
  - unfold established_secret.
    by rewrite (scan_only _ secret_of_identity _ _ _ _ secret HH eq_refl HO).
Qed.

Lemma child_of_put_sync st hs child id secret :
  child_of st hs = None → place_of st child = None →
  let st' := put_sync child (DeviceNode_sync secret hs id) st in
  child_of st' hs = Some child ∧ scope_of st' child = Some ScopeDevice ∧
  established_secret st' child = Some secret.
Proof.
  intros HC [HI _]%place_of_None st'.
  pose proof (proj1 (proj2 (child_of_spec st hs)) HC) as HN.
  assert (∀ c, dv_conversations (es_device st') !! c =
    if decide (c = child) then Some (DeviceNode_sync secret hs id)
    else dv_conversations (es_device st) !! c) as HR.
  { intros c. unfold st'. cbn. case_decide; [subst; by rewrite lookup_insert_eq|].
    by rewrite lookup_insert_ne. }
  assert (∀ {B} (f : IdentityConversation → option B), scan (row child f) st' = None) as HS.
  { intros B f. apply scan_row_None. intros u i kind Hk.
    change (identity_row st') with (identity_row st) in Hk. by rewrite HI in Hk. }
  split_and!.
  - destruct (child_of st' hs) as [c|] eqn:E.
    + apply (proj1 (child_of_spec st' hs)) in E as [(u' & i' & k & Hk & Hp)|(k & Hk & Hp)].
      * destruct (HN c). left. eauto.
      * rewrite HR in Hk. case_decide; [naive_solver|]. destruct (HN c). right. eauto.
    + rewrite (proj2 (child_of_spec st' hs)) in E. destruct (E child). right.
      exists (DeviceNode_sync secret hs id). by rewrite HR, decide_True.
  - unfold scope_of. rewrite HS. unfold device_row. rewrite HR. by rewrite decide_True.
  - unfold established_secret. rewrite HS. unfold device_row. rewrite HR. by rewrite decide_True.
Qed.

(** C36. A confirmed handshake gets one child.  Spawning does nothing when there is one
    already; otherwise, under a name not in use, it puts an empty established row with the
    spawn secret where the handshake lives (in its identity, or on the device with the
    peer), finds it as the handshake's child from then on, and touches no transaction. *)
Theorem spawn_established_spec st hs child secret peer :
  let st' := spawn_established hs child secret peer st in
  (is_Some (child_of st hs) → st' = st) ∧
  (child_of st hs = None → place_of st child = None →
   (Located st → Located st' ∧ stored st' = stored st) ∧
   (∀ u i, scope_of st hs = Some (ScopeIdentity u i) → peer = Direct →
      child_of st' hs = Some child ∧ owner st' child = Some (u, i) ∧
      established_secret st' child = Some secret) ∧
   (∀ id, scope_of st hs = Some ScopeDevice → peer = Sync id →
      child_of st' hs = Some child ∧ scope_of st' child = Some ScopeDevice ∧
      established_secret st' child = Some secret)).
Proof.
  cbv zeta. unfold spawn_established. split; [by intros [c ->]|].
  intros HC HP. rewrite HC. pose proof HP as [HI HD]%place_of_None. split_and!.
  - apply same_store_located. destruct (scope_of st hs) as [[u i|]|], peer; try done.
    + by apply put_dm_same_store.
    + by apply put_sync_same_store.
  - intros u i -> ->. by apply child_of_put_dm.
  - intros id -> ->. by apply child_of_put_sync.
Qed.

(** * The theorems on a concrete state *)

Lemma located_dm : Located dm_state.
Proof.
  apply (same_store_located EngineState_new); [|apply located_new].
  by apply put_dm_same_store.
Qed.

(** A wrap is stored on a direct message, a vault initialisation is not. *)
Lemma store_refines_map_witness :
  (let '(st', r) := insert_body (id_of x07) (dm_body (PWrap [x2a])) dm_state in
   Located st' ∧ r = Ok tt ∧
   stored st' = <[id_of x07 := dm_body (PWrap [x2a])]> (stored dm_state)) ∧
  (let '(st', r) := insert_body (id_of x07) (dm_body PEngineInit) dm_state in
   Located st' ∧ r = Err WrongPhase ∧ stored st' = delete (id_of x07) (stored dm_state)).
Proof.
  assert (row_takes dm_state (dm_body (PWrap [x2a])) = true) as E1 by by vm_compute.
  assert (row_takes dm_state (dm_body PEngineInit) = false) as E2 by by vm_compute.
  split.
  - pose proof (proj1 (proj2 (store_refines_map dm_state (id_of x07) (dm_body (PWrap [x2a]))
      located_dm))) as H. rewrite E1 in H. exact H.
  - pose proof (proj1 (proj2 (store_refines_map dm_state (id_of x07) (dm_body PEngineInit)
      located_dm))) as H. rewrite E2 in H. exact H.
Defined.

(** [dm_state] with one wrap logged. *)
Definition wrap_state : EngineState :=
  (insert_body (id_of x07) (dm_body (PWrap [x2a])) dm_state).1.

Lemma located_wrap : Located wrap_state.
Proof.
  assert (∃ st', write_row (id_of x07) (dm_body (PWrap [x2a])) dm_state = Some st') as [st' HW].
  { apply write_row_takes. by vm_compute. }
  unfold wrap_state, insert_body.
  assert (es_tx_place dm_state !! id_of x07 = None) as HN
    by (destruct (store_put_dm (id_of x01) (id_of x02) (id_of x03)
          (IdentityNode_direct (id_of x04) (id_of x05)) EngineState_new) as [HP _];
        unfold dm_state; by rewrite HP).
  rewrite HN, HW. cbn [fst]. by eapply write_row_spec; [apply located_dm|exact HN|exact HW].
Qed.

Lemma from_option_true {A} (o : option A) : from_option (λ _, true) false o = true → is_Some o.
Proof. by destruct o. Qed.

Lemma from_option_false {A} (o : option A) : from_option (λ _, false) true o = true → o = None.
Proof. by destruct o. Qed.

(** Renaming [03] to [08]: the wrap is listed and cannot be looked up. *)
Lemma rekey_row_spec_witness :
  body (rekey_row (id_of x03) (id_of x08) wrap_state) (id_of x07) = None ∧
  ∃ b, (id_of x07, b) ∈ stored_rows (rekey_row (id_of x03) (id_of x08) wrap_state).
Proof.
  destruct (identity_row wrap_state (id_of x01) (id_of x02) (id_of x03)) as [kind|] eqn:Hk.
  - destruct (identity_body kind (id_of x07)) as [b|] eqn:Hb.
    + destruct (rekey_row_spec wrap_state (id_of x03) (id_of x08) (id_of x01) (id_of x02) kind
        (id_of x07) b located_wrap) as (_ & _ & H1 & H2); [|done|done|split; [done|by exists b]].
      intros HE. by apply (f_equal (λ c, bytes_N (cval (as_bytes c)))) in HE.
    + exfalso. assert (is_Some (identity_row wrap_state (id_of x01) (id_of x02) (id_of x03)
        ≫= λ k, identity_body k (id_of x07))) as [b HH]; [|].
      { apply from_option_true. by vm_compute. }
      by rewrite Hk in HH; cbn in HH; rewrite Hb in HH.
  - exfalso. assert (is_Some (identity_row wrap_state (id_of x01) (id_of x02) (id_of x03))) as [b HH].
    { apply from_option_true. by vm_compute. }
    by rewrite Hk in HH.
Defined.
