(* ===== verification/Frags.v ===== *)
(** Reassembly of fragmented transactions: the fragment sets of
    [Engine::open_and_merge] ([engine/handshake.rs]) and [Engine::accept_fragment]
    ([engine/live.rs]), against the cutting of [Chain.v]. *)

From stdpp Require Import base tactics list numbers option strings countable gmap.
From Stdlib Require Import Strings.Byte.
From S2P Require Import Prelude Text Ids Order Channel Defaults Payload Json Ports.
From S2P Require Import CanonicalJson TestDoubles Codec CodecLaws Wire.
From S2P Require Import Chain ChainLaws RowLog Party HealRange Bins State.

Abbreviation FragSets := (gmap Tag FragSet).

(** [entry(tx_id).or_insert_with(..)]. *)
Definition frag_entry (cid : ConversationId) (tx_id : Tag) (frags : FragSets) : FragSet :=
  default (mkFragSet cid ∅ None) (frags !! tx_id).

(** The bytes of a complete set: every index up to the last is there. *)
Definition frag_complete (set : FragSet) : option bytes :=
  last ← fs_last_i set;
  parts ← mapM (λ n, fs_parts set !! clamp64 (N.of_nat n)) (seq 0 (S (N.to_nat (cval last))));
  Some (concat parts).

Definition frag_store (part : FragPart) (set : FragSet) : FragSet :=
  mkFragSet (fs_conversation_id set) (<[fp_frag_i part := fp_frag part]> (fs_parts set))
    (match fp_last_i part with Some n => Some n | None => fs_last_i set end).

(** Keep the set, or take its bytes out when it is complete. *)
Definition frag_settle (tx_id : Tag) (set : FragSet) (frags : FragSets) :
    FragSets * option bytes :=
  match frag_complete set with
  | Some packed => (delete tx_id frags, Some packed)
  | None => (<[tx_id := set]> frags, None)
  end.

(** [accept_fragment]: a later fragment replaces an earlier one. *)
Definition accept_part (cid : ConversationId) (part : FragPart) (frags : FragSets) :
    FragSets * option bytes :=
  frag_settle (fp_tx_id part) (frag_store part (frag_entry cid (fp_tx_id part) frags)) frags.

(** [open_and_merge]: a fragment that disagrees with one already held is an equivocation. *)
Definition merge_part (cid : ConversationId) (part : FragPart) (frags : FragSets) :
    result EngineError (FragSets * option bytes) :=
  let set := frag_entry cid (fp_tx_id part) frags in
  _ ← refuse_if
        (match fs_parts set !! fp_frag_i part with
         | Some existing => negb (bool_decide (existing = fp_frag part))
         | None => false
         end) Equivocation;
  _ ← refuse_if
        (match fs_last_i set, fp_last_i part with
         | Some prev, Some new => negb (bool_decide (prev = new))
         | _, _ => false
         end) Equivocation;
  Ok (accept_part cid part frags).

(** A run of arrivals and the bodies it completes. *)
Fixpoint merge_parts (cid : ConversationId) (parts : list FragPart) (frags : FragSets) :
    result EngineError (FragSets * list bytes) :=
  match parts with
  | [] => Ok (frags, [])
  | part :: parts =>
      '(frags, out) ← merge_part cid part frags;
      '(frags, outs) ← merge_parts cid parts frags;
      Ok (frags, option_list out ++ outs)
  end.

Lemma elem_of_rev {A} (x : A) l : x ∈ rev l ↔ x ∈ l.
Proof. by rewrite !list_elem_of_In, <-in_rev. Qed.

Section Reassembly.
Context (cid : ConversationId) (tx_id : Tag) (frs : list bytes).
Context (frs_nonempty : frs ≠ []) (frs_small : (N.of_nat (length frs) < 2 ^ 64)%N).

Definition last_index : nat := pred (length frs).

(** The fragment at position [i]. *)
Definition part_at (i : nat) : FragPart :=
  mkFragPart tx_id (clamp64 (N.of_nat i)) (nth i frs [])
    (if decide (i = last_index) then Some (clamp64 (N.of_nat i)) else None).

(** The set after the positions [seen] have arrived, latest first. *)
Definition set_of (seen : list nat) : FragSet :=
  mkFragSet cid (list_to_map (map (λ i, (clamp64 (N.of_nat i), nth i frs [])) seen))
    (if decide (last_index ∈ seen) then Some (clamp64 (N.of_nat last_index)) else None).

Definition covers (seen : list nat) : Prop := ∀ i, (i < length frs)%nat → i ∈ seen.

#[local] Instance covers_dec seen : Decision (covers seen).
Proof.
  refine (cast_if (decide (Forall (λ i, i ∈ seen) (seq 0 (length frs)))));
    rewrite Forall_forall in *; unfold covers in *.
  - intros i Hi. apply f. apply elem_of_seq. lia.
  - intros HC. apply n. intros i Hi%elem_of_seq. apply HC. lia.
Defined.

Lemma index_inj i j :
  (i < length frs)%nat → (j < length frs)%nat →
  clamp64 (N.of_nat i) = clamp64 (N.of_nat j) → i = j.
Proof.
  intros Hi Hj HE%(f_equal cval). rewrite !clamp64_val in HE. unfold u64_max in HE. lia.
Qed.

Lemma set_of_lookup seen i :
  Forall (λ i, (i < length frs)%nat) seen → (i < length frs)%nat →
  fs_parts (set_of seen) !! clamp64 (N.of_nat i) =
    if decide (i ∈ seen) then Some (nth i frs []) else None.
Proof.
  intros HF Hi. cbn [fs_parts set_of]. induction HF as [|j seen Hj HF IH]; cbn [map list_to_map foldr].
  - by rewrite decide_False by apply not_elem_of_nil.
  - cbn [uncurry]. destruct (decide (i = j)) as [->|Hne].
    + rewrite lookup_insert_eq. by rewrite decide_True by left.
    + rewrite lookup_insert_ne by (intros HE; by apply Hne, index_inj). rewrite IH.
      destruct (decide (i ∈ seen)); [by rewrite decide_True by by right|].
      rewrite decide_False; [done|]. by rewrite elem_of_cons; intros [].
Qed.

Lemma last_index_lt : (last_index < length frs)%nat.
Proof. unfold last_index. destruct frs; [done|]. cbn. lia. Qed.

Lemma set_of_complete seen :
  Forall (λ i, (i < length frs)%nat) seen →
  frag_complete (set_of seen) = if decide (covers seen) then Some (concat frs) else None.
Proof.
  intros HF. unfold frag_complete. pose proof last_index_lt as HL.
  change (fs_last_i (set_of seen)) with
    (if decide (last_index ∈ seen) then Some (clamp64 (N.of_nat last_index)) else None).
  case_decide as Hin; cbn [mbind option_bind].
  2: { rewrite decide_False; [done|]. intros HC. by apply Hin, HC. }
  replace (S (N.to_nat (cval (clamp64 (N.of_nat last_index))))) with (length frs)
    by (rewrite clamp64_val; unfold last_index, u64_max in *; lia).
  case_decide as HC.
  - replace (mapM _ _) with (Some frs); [done|]. symmetry. apply mapM_Some, Forall2_lookup.
    intros i. destruct (decide (i < length frs)%nat) as [Hi|Hi].
    + rewrite lookup_seq_lt by done. destruct (frs !! i) as [f|] eqn:Hf.
      * constructor. cbv beta. rewrite set_of_lookup by done. rewrite decide_True by by apply HC.
        f_equal. by apply nth_lookup_Some.
      * apply lookup_ge_None in Hf. lia.
    + rewrite lookup_seq_ge by lia. rewrite (proj2 (lookup_ge_None frs i)) by lia. constructor.
  - destruct (mapM _ _) as [parts|] eqn:E; [|done]. destruct HC. intros i Hi.
    apply mapM_Some in E. assert (seq 0 (length frs) !! i = Some i) as Hs
      by (by rewrite lookup_seq_lt).
    destruct (Forall2_lookup_l _ _ _ _ _ E Hs) as (f & _ & HE).
    rewrite set_of_lookup in HE by done. by case_decide.
Qed.

(** One arrival: a fragment of the body never disagrees with what is held. *)
Lemma merge_part_at seen i frags :
  Forall (λ i, (i < length frs)%nat) seen → (i < length frs)%nat →
  frag_entry cid tx_id frags = set_of seen →
  merge_part cid (part_at i) frags = Ok (frag_settle tx_id (set_of (i :: seen)) frags).
Proof.
  intros HF Hi HE. unfold merge_part. cbn [fp_tx_id part_at]. rewrite HE.
  cbn [fp_frag_i fp_frag fp_last_i part_at]. rewrite set_of_lookup by done.
  replace (match (if decide (i ∈ seen) then Some (nth i frs []) else None) with
           | Some existing => negb (bool_decide (existing = nth i frs []))
           | None => false end) with false
    by (case_decide; [by rewrite bool_decide_true|done]).
  replace (match fs_last_i (set_of seen) with
           | Some prev => match _ with Some new => negb (bool_decide (prev = new)) | None => false end
           | None => false end) with false.
  2: { cbn [fs_last_i set_of]. case_decide; [|done]. case_decide as Hl; [|done].
       subst i. by rewrite bool_decide_true. }
  cbn [refuse_if]. rewrite !bind_ok. do 2 f_equal. unfold accept_part. cbn [fp_tx_id part_at].
  rewrite HE. do 2 f_equal. unfold frag_store, set_of. cbn. f_equal.
  destruct (decide (i = last_index)) as [->|Hl].
  - by rewrite decide_True by left.
  - case_decide as H1; [by rewrite decide_True by by right|].
    rewrite decide_False; [done|]. rewrite elem_of_cons. naive_solver.
Qed.

(** Arrivals that do not yet cover the body keep a set of exactly what has arrived. *)
Lemma merge_parts_partial arrivals seen frags :
  Forall (λ i, (i < length frs)%nat) seen → Forall (λ i, (i < length frs)%nat) arrivals →
  frag_entry cid tx_id frags = set_of seen → ¬ covers (rev arrivals ++ seen) →
  merge_parts cid (map part_at arrivals) frags =
    Ok (match arrivals with [] => frags | _ => <[tx_id := set_of (rev arrivals ++ seen)]> frags end, []).
Proof.
  revert seen frags. induction arrivals as [|i arrivals IH]; intros seen frags HS HA HE HC; [done|].
  apply Forall_cons in HA as [Hi HA]. cbn [map merge_parts rev] in *.
  rewrite <-app_assoc in HC |- *. cbn [app] in *. rewrite (merge_part_at seen) by done.
  rewrite bind_ok. unfold frag_settle. rewrite set_of_complete by by constructor.
  rewrite decide_False.
  2: { intros HC'. apply HC. intros j Hj. apply elem_of_app. right. by apply HC'. }
  rewrite (IH (i :: seen)); [|by constructor|done| |done].
  - rewrite bind_ok. cbn. destruct arrivals; [done|]. by rewrite insert_insert_eq.
  - unfold frag_entry. by rewrite lookup_insert_eq.
Qed.

(** The arrival that completes the body takes it out and leaves no trace. *)
Lemma merge_parts_reassemble arrivals i frags :
  frags !! tx_id = None →
  Forall (λ i, (i < length frs)%nat) (arrivals ++ [i]) →
  ¬ covers (rev arrivals) → covers (i :: rev arrivals) →
  merge_parts cid (map part_at (arrivals ++ [i])) frags = Ok (frags, [concat frs]).
Proof.
  intros HN [HA Hi]%Forall_app HC HC'. rewrite Forall_singleton in Hi.
  assert (∀ l1 l2 frags, merge_parts cid (l1 ++ l2) frags =
    '(frags, outs) ← merge_parts cid l1 frags;
    '(frags, outs') ← merge_parts cid l2 frags; Ok (frags, outs ++ outs')) as HApp.
  { intros l1 l2. induction l1 as [|p l1 IH]; intros fr; cbn [app merge_parts].
    - rewrite bind_ok. destruct (merge_parts cid l2 fr) as [[fr' o]|e]; done.
    - destruct (merge_part cid p fr) as [[fr' o]|e]; [|done]. rewrite !bind_ok, IH.
      destruct (merge_parts cid l1 fr') as [[fr'' o']|e]; [|done]. rewrite !bind_ok.
      destruct (merge_parts cid l2 fr'') as [[fr3 o'']|e]; [|done]. rewrite !bind_ok.
      by rewrite app_assoc. }
  rewrite map_app, HApp, (merge_parts_partial _ []) by
    (try done; rewrite ?app_nil_r; try done; unfold frag_entry; by rewrite HN).
  rewrite bind_ok, app_nil_r. cbn [map merge_parts].
  set (fr := match arrivals with [] => frags | _ => _ end).
  assert (frag_entry cid tx_id fr = set_of (rev arrivals)) as HE.
  { unfold fr, frag_entry. destruct arrivals; [by rewrite HN|]. by rewrite lookup_insert_eq. }
  assert (Forall (λ i, (i < length frs)%nat) (rev arrivals)) as HR by by apply Forall_rev.
  rewrite (merge_part_at _ _ _ HR Hi HE), bind_ok. unfold frag_settle.
  rewrite set_of_complete, decide_True by (try done; by constructor). rewrite !bind_ok.
  cbn. do 2 f_equal. unfold fr. destruct arrivals; [by rewrite delete_id|].
  by rewrite delete_insert_id.
Qed.

End Reassembly.

(** * Cutting and reassembling *)

Definition packet_index (q : PacketPlain) : nat :=
  match frag_parts q with Some part => N.to_nat (cval (fp_frag_i part)) | None => 0%nat end.

Lemma fragment_body_parts `{Suite} body tx_id set_xor start_seq actor_id ps :
  fragment_body body tx_id set_xor start_seq actor_id = Ok ps →
  ∀ i q, ps !! i = Some q →
    frag_parts q = Some (part_at tx_id (map frag_of ps) i) ∧ packet_index q = i.
Proof.
  intros HF. pose proof (proj2 (fragment_body_cut body tx_id set_xor start_seq actor_id ps) HF)
    as (_ & Hlen & (init & frag & -> & Hinit) & _). rewrite length_app in Hlen. cbn in Hlen.
  assert (last_index (map frag_of (init ++ [last_at tx_id set_xor start_seq actor_id (length init) frag]))
    = length init) as HL by (unfold last_index; rewrite length_map, length_app; cbn; lia).
  intros i q Hq. assert (i ≤ length init)%nat as Hi.
  { apply lookup_lt_Some in Hq. rewrite length_app in Hq. cbn in Hq. lia. }
  assert (frag_parts q = Some (part_at tx_id
    (map frag_of (init ++ [last_at tx_id set_xor start_seq actor_id (length init) frag])) i)) as HP.
  { unfold part_at. rewrite HL.
    rewrite (nth_lookup_Some _ _ _ (frag_of q)) by (rewrite list_lookup_fmap; by rewrite Hq).
    apply lookup_app_Some in Hq as [Hq|[Hge Hq]].
    - destruct (Hinit i q Hq) as (f & -> & _). apply lookup_lt_Some in Hq.
      by rewrite decide_False by lia.
    - apply list_lookup_singleton_Some in Hq as [Hz <-]. replace i with (length init) by lia.
      by rewrite decide_True. }
  split; [done|]. unfold packet_index. rewrite HP. cbn. rewrite clamp64_val. unfold u64_max. lia.
Qed.

Lemma reassemble_arrivals `{Suite} cid body tx_id set_xor start_seq actor_id ps
    arrivals p frags :
  fragment_body body tx_id set_xor start_seq actor_id = Ok ps →
  frags !! tx_id = None →
  (∀ q, q ∈ arrivals ++ [p] ↔ q ∈ ps) → (∃ q, q ∈ ps ∧ q ∉ arrivals) →
  merge_parts cid (omap frag_parts (arrivals ++ [p])) frags = Ok (frags, [body]).
Proof.
  intros HF HN Hin (q & Hq & Hqn). pose proof (fragment_body_parts _ _ _ _ _ _ HF) as HP.
  pose proof (proj2 (fragment_body_cut body tx_id set_xor start_seq actor_id ps) HF)
    as (HC & Hlen & _ & _).
  set (frs := map frag_of ps) in *.
  assert (∀ l, (∀ q, q ∈ l → q ∈ ps) →
    omap frag_parts l = map (part_at tx_id frs) (map packet_index l)) as HM.
  { intros l Hl. induction l as [|x l IH]; [done|]. cbn.
    assert (x ∈ ps) as [i Hi]%list_elem_of_lookup by (apply Hl; left).
    destruct (HP i x Hi) as [-> ->]. cbn. f_equal. apply IH. intros y Hy. apply Hl. by right. }
  assert (∀ l, (∀ q, q ∈ l → q ∈ ps) →
    Forall (λ i, (i < length frs)%nat) (map packet_index l)) as HB.
  { intros l Hl. apply Forall_forall. intros i (x & -> & Hx%Hl)%list_elem_of_fmap.
    apply list_elem_of_lookup in Hx as [j Hj]. rewrite (proj2 (HP j x Hj)).
    unfold frs. rewrite length_map. by apply lookup_lt_Some in Hj. }
  assert (∀ l i x, (∀ q, q ∈ l → q ∈ ps) → ps !! i = Some x →
    i ∈ map packet_index l ↔ x ∈ l) as HI.
  { intros l i x Hl Hi. rewrite list_elem_of_fmap. split.
    - intros (y & -> & Hy). pose proof (Hl y Hy) as [j Hj]%list_elem_of_lookup.
      rewrite (proj2 (HP j y Hj)) in Hi. by simplify_eq.
    - intros Hx. exists x. by rewrite (proj2 (HP i x Hi)). }
  assert (∀ q, q ∈ arrivals → q ∈ ps) as HA.
  { intros x Hx. apply Hin, elem_of_app. by left. }
  rewrite HM by (intros x; apply Hin). rewrite map_app. cbn [map].
  rewrite (merge_parts_reassemble cid tx_id frs); [by rewrite HC| | |done| | |].
  - intros HE. apply (f_equal length) in HE. unfold frs in HE. rewrite length_map in HE.
    cbn in HE. lia.
  - unfold frs. rewrite length_map. lia.
  - change [packet_index p] with (map packet_index [p]). rewrite <-map_app. apply HB, Hin.
  - intros HCov. apply Hqn. apply list_elem_of_lookup in Hq as [i Hi].
    apply (HI arrivals i q HA Hi). rewrite <-elem_of_rev. apply HCov. unfold frs.
    rewrite length_map. by apply lookup_lt_Some in Hi.
  - intros i Hi. unfold frs in Hi. rewrite length_map in Hi.
    destruct (lookup_lt_is_Some_2 ps i Hi) as [x Hx].
    assert (x ∈ arrivals ++ [p]) as Hx' by (by apply Hin, (list_elem_of_lookup_2 _ i)).
    assert (i ∈ map packet_index (arrivals ++ [p])) as HH by (apply (HI _ i x); [apply Hin|done..]).
    rewrite map_app, elem_of_app in HH. rewrite elem_of_cons, elem_of_rev.
    destruct HH as [|HH]; [by right|]. left. by apply list_elem_of_singleton in HH.
Qed.

(** C28. What one device cuts another puts back together: whatever the order in which the
    fragments of a body arrive, and however often each is repeated before the last
    missing one comes, the body comes out once, when the last missing one comes, and the
    held fragments are as before. *)
Theorem fragments_reassemble `{Suite} cid body tx_id set_xor start_seq actor_id ps
    arrivals p frags :
  fragment_body body tx_id set_xor start_seq actor_id = Ok ps →
  frags !! tx_id = None →
  (∀ q, q ∈ arrivals ++ [p] ↔ q ∈ ps) → (∃ q, q ∈ ps ∧ q ∉ arrivals) →
  merge_parts cid (omap frag_parts (arrivals ++ [p])) frags = Ok (frags, [body]).
Proof. apply reassemble_arrivals. Qed.

(** The last fragment arrives first, everything after it twice. *)
Lemma fragments_reassemble_witness :
  match fragment_body (replicate 200 x2a) (from_bytes (fill 32 x01)) (from_bytes (fill 32 x02))
          (clamp64 7) [x03] with
  | Ok (p :: rest) =>
      merge_parts (from_bytes (fill 32 x04)) (omap frag_parts ((rev rest ++ rest) ++ [p])) ∅ =
        Ok (∅, [replicate 200 x2a])
  | _ => False
  end.
Proof.
  destruct (fragment_body _ _ _ _ _) as [[|p rest]|e] eqn:E.
  - apply fragment_body_cut in E as (_ & Hlen & _). cbn in Hlen. lia.
  - apply (fragments_reassemble _ _ _ _ _ _ _ _ _ _ E); [apply lookup_empty| |].
    + intros q. rewrite !elem_of_app, elem_of_rev, !elem_of_cons. pose proof (not_elem_of_nil q).
      tauto.
    + exists p. split; [left|]. rewrite elem_of_app, elem_of_rev.
      intros Hin. assert (p ∈ rest) as [j Hj]%list_elem_of_lookup by tauto.
      pose proof (fragment_body_parts _ _ _ _ _ _ E) as HP.
      pose proof (proj2 (HP 0%nat p eq_refl)) as H0. pose proof (proj2 (HP (S j) p Hj)) as HS.
      by rewrite H0 in HS.
  - assert (is_ok (fragment_body (replicate 200 x2a) (from_bytes (fill 32 x01))
      (from_bytes (fill 32 x02)) (clamp64 7) [x03]) = true) as HL by by vm_compute.
    by rewrite E in HL.
Defined.

(** On a handshake a fragment is refused as an equivocation exactly when a different
    fragment is held at its index or another index is held as the last one.  On an
    established conversation nothing is refused: the fragment that came later replaces the
    one held. *)
Theorem merge_part_equivocation cid part frags :
  let set := frag_entry cid (fp_tx_id part) frags in
  (merge_part cid part frags = Err Equivocation ↔
     (∃ f, fs_parts set !! fp_frag_i part = Some f ∧ f ≠ fp_frag part) ∨
     (∃ n n', fs_last_i set = Some n ∧ fp_last_i part = Some n' ∧ n ≠ n')) ∧
  (merge_part cid part frags ≠ Err Equivocation →
     merge_part cid part frags = Ok (accept_part cid part frags)) ∧
  (frag_complete (frag_store part set) = None → ∃ set',
     (accept_part cid part frags).1 !! fp_tx_id part = Some set' ∧
     fs_parts set' !! fp_frag_i part = Some (fp_frag part)).
Proof.
  cbv zeta. unfold merge_part. set (set := frag_entry cid (fp_tx_id part) frags). split_and!.
  - destruct (fs_parts set !! fp_frag_i part) as [f|] eqn:Hf; cbn [refuse_if].
    + case_bool_decide as HE; cbn; [|naive_solver].
      destruct (fs_last_i set) as [n|], (fp_last_i part) as [n'|]; cbn;
        try case_bool_decide; cbn; naive_solver.
    + destruct (fs_last_i set) as [n|], (fp_last_i part) as [n'|]; cbn;
        try case_bool_decide; cbn; naive_solver.
  - destruct (refuse_if _ _) as [[]|e] eqn:E1; cbn; destruct (refuse_if _ _) as [[]|e'] eqn:E2;
      cbn in *; try done; unfold refuse_if in *; repeat case_match; naive_solver.
  - unfold accept_part, frag_settle. fold set. intros ->. cbn.
    exists (frag_store part set). rewrite lookup_insert_eq. split; [done|]. cbn.
    by rewrite lookup_insert_eq.
Qed.
