(* ===== verification/Helpers.v ===== *)
(** The helpers of [engine/helpers.rs] that read or change the engine state: handshake
    transactions, watermarks and persistent acknowledgements, remembered message keys. *)

From stdpp Require Import base tactics list numbers option strings countable gmap.
From Stdlib Require Import Strings.Byte.
From S2P Require Import Prelude Text Ids Order Channel Defaults Payload Json Ports Codec.
From S2P Require Import Chain RowLog Party HealRange Bins State StateLaws.

(** * Assignments to the chains of a row *)

Definition with_send m (c : PacketChains) :=
  mkPacketChains m (pc_recv c) (pc_skipped_mks c) (pc_last_acks c) (pc_heal c)
    (pc_live_until c) (pc_live_pending c).
Definition with_recv m (c : PacketChains) :=
  mkPacketChains (pc_send c) m (pc_skipped_mks c) (pc_last_acks c) (pc_heal c)
    (pc_live_until c) (pc_live_pending c).
Definition with_skipped m (c : PacketChains) :=
  mkPacketChains (pc_send c) (pc_recv c) m (pc_last_acks c) (pc_heal c)
    (pc_live_until c) (pc_live_pending c).
Definition with_last_acks m (c : PacketChains) :=
  mkPacketChains (pc_send c) (pc_recv c) (pc_skipped_mks c) m (pc_heal c)
    (pc_live_until c) (pc_live_pending c).
Definition with_heal h (c : PacketChains) :=
  mkPacketChains (pc_send c) (pc_recv c) (pc_skipped_mks c) (pc_last_acks c) h
    (pc_live_until c) (pc_live_pending c).
Definition with_live_until u (c : PacketChains) :=
  mkPacketChains (pc_send c) (pc_recv c) (pc_skipped_mks c) (pc_last_acks c) (pc_heal c)
    u (pc_live_pending c).
Definition with_live_pending l (c : PacketChains) :=
  mkPacketChains (pc_send c) (pc_recv c) (pc_skipped_mks c) (pc_last_acks c) (pc_heal c)
    (pc_live_until c) l.

(** * Transactions of a handshake *)

Definition dm_log_of (kind : IdentityConversation) : option (TxLog DmHandshakeTx) :=
  match kind with RowDmHandshake _ log _ => Some log | _ => None end.
Definition sync_log_of (kind : DeviceConversation) : option (TxLog SyncHandshakeTx) :=
  match kind with RowSyncHandshake _ log _ => Some log | _ => None end.

Definition dm_handshake_log (st : EngineState) (cid : ConversationId) :
    option (TxLog DmHandshakeTx) := snd <$> scan (row cid dm_log_of) st.
Definition sync_handshake_log (st : EngineState) (cid : ConversationId) :
    option (TxLog SyncHandshakeTx) := device_row cid sync_log_of st.

(** [log.values().find_map(|row| f(&row.payload))]. *)
Definition log_find {T B} (f : T → option B) (log : TxLog T) : option B :=
  find_map (λ r, f (tr_payload r)) (values log).

Definition handshake_find {B} (dm : DmHandshakeTx → option B) (sync : SyncHandshakeTx → option B)
    (st : EngineState) (cid : ConversationId) : option B :=
  match dm_handshake_log st cid with
  | Some log => log_find dm log
  | None => log ← sync_handshake_log st cid; log_find sync log
  end.

Definition notice_for : EngineState → ConversationId → option TxNotice :=
  handshake_find (λ t, match t with DmH_Notice notice => Some notice | _ => None end)
    (λ t, match t with SyncH_Notice notice => Some notice | _ => None end).

Definition invitee_intro_for : EngineState → ConversationId → option TxInviteeIntro :=
  handshake_find (λ t, match t with DmH_InviteeIntro intro => Some intro | _ => None end)
    (λ t, match t with SyncH_InviteeIntro intro => Some (se_intro intro) | _ => None end).

Definition inviter_intro_for : EngineState → ConversationId → option TxInviterIntro :=
  handshake_find (λ t, match t with DmH_InviterIntro intro => Some intro | _ => None end)
    (λ t, match t with SyncH_InviterIntro intro => Some (si_intro intro) | _ => None end).

Definition invitee_intro_tx_id (st : EngineState) (cid : ConversationId) : option Tag :=
  find_map (λ '(id, t),
      match db_payload t with
      | PInviteeIntro _ | PSyncInviteeIntro _ =>
          if branded_eq (db_conversation_id t) cid then Some id else None
      | _ => None
      end) (body_pairs st).

Definition sync_peer_device (st : EngineState) (handshake : ConversationId) : option DeviceId :=
  let ours := dk_id <$> dv_keys (es_device st) in
  let other id := if decide (ours = Some id) then None else Some id in
  find_map (λ tx,
      if branded_eq (db_conversation_id tx) handshake then
        match db_payload tx with
        | PSyncInviterIntro intro => other (si_device_id intro)
        | PSyncInviteeIntro intro => other (se_device_id intro)
        | _ => None
        end
      else None) (bodies st).

Definition store_unlock_failed (cid : ConversationId) (st : EngineState) : EngineState :=
  match failed st cid with
  | Some _ => st
  | None =>
    let reason :=
      if bool_decide (is_Some (notice_for st cid)) || state_is_inviter st cid
      then IntroUnlockFailed else NoticeUnlockFailed in
    state_fail cid reason st
  end.

Definition handshake_rows (st : EngineState) : list (ConversationId * Ticket * ConversationSort) :=
  map (λ row, (hse_cid row, on_party (λ k, party_ticket) (hse_party row), hse_sort row))
    (handshake_entries st).

Definition rekey_conversation (from to : ConversationId) (st : EngineState) : EngineState :=
  let st := rekey_row from to st in
  with_frags
    ((λ f, mkFragSet (rekey_cid (fs_conversation_id f) from to) (fs_parts f) (fs_last_i f))
       <$> es_frags st) st.

(** * Watermarks *)

Definition conversation_tx_ids (st : EngineState) (cid : ConversationId) : gset Tag :=
  list_to_set (map fst
    (filter (λ p, db_conversation_id p.2 = cid) (body_pairs st))).

(** The ids every device that has acknowledged anything has acknowledged. *)
Definition watermark_of (st : EngineState) (cid : ConversationId) : gset Tag :=
  match chains st cid with
  | None => conversation_tx_ids st cid
  | Some c =>
    match filter (λ s, s ≠ ∅) (values (pc_last_acks c)) with
    | [] => conversation_tx_ids st cid
    | first :: rest => fold_left (λ acc s, acc ∩ s) rest first
    end
  end.

Definition tx_watermarked (st : EngineState) (tx_id : Tag) : bool :=
  match body st tx_id with
  | Some b => bool_decide (tx_id ∈ watermark_of st (db_conversation_id b))
  | None => false
  end.

(** [state.ticked.unwrap_or_default()]. *)
Definition ticked_or_zero (st : EngineState) : UnixSeconds := default (clamp64 0) (es_ticked st).

Definition expired_at (payload : TxPayload) (now : UnixSeconds) : bool :=
  match payload_expire_at payload with
  | Some expires => (cval expires <=? cval now)%N
  | None => false
  end.

Definition persist_outside_watermark (st : EngineState) : bool :=
  let now := ticked_or_zero st in
  existsb (λ tx_id,
      match body st tx_id with
      | None => false
      | Some b =>
          if expired_at (db_payload b) now then false else negb (tx_watermarked st tx_id)
      end) (values (es_persist_log st)).

Definition store_durable_last_ack (cid : ConversationId) (actor_id : bytes) (set_xor : Tag)
    (st : EngineState) : EngineState :=
  if branded_eq (set_xor_for (body_pairs st) cid) set_xor then
    match sort_of st cid ≫= λ sort, actor_for sort actor_id with
    | Some actor =>
        let ids := conversation_tx_ids st cid in
        chains_mut cid (λ c, with_last_acks (<[actor := ids]> (pc_last_acks c)) c) st
    | None => st
    end
  else st.

Definition intro_watermarked (st : EngineState) (cid : ConversationId) : bool :=
  match invitee_intro_tx_id st cid with
  | None => false
  | Some tx_id =>
      match chains st cid with
      | Some c => existsb (λ s, negb (bool_decide (s = ∅))) (values (pc_last_acks c))
      | None => false
      end
      && bool_decide (tx_id ∈ watermark_of st cid)
  end.

(** * Remembered message keys *)

(** [retain] on the entries of every actor, then drop the actors left without any. *)
Definition retain_mks (keep : CachedMk → bool) (c : PacketChains) : PacketChains :=
  with_skipped
    (filter (λ p, p.2 ≠ []) (filter (λ e, keep e = true) <$> pc_skipped_mks c)) c.

(** The remembered transactions that are watermarked. *)
Definition cached_watermarked (st : EngineState) : gset Tag :=
  list_to_set (filter (λ id, tx_watermarked st id = true)
    (flat_map (λ '(_, c), omap cm_tx_id (concat (values (pc_skipped_mks c)))) (each_chains st))).

Definition prune_cached_mks (st : EngineState) : EngineState :=
  let drop := cached_watermarked st in
  each_chains_mut
    (retain_mks (λ e, match cm_tx_id e with
                      | None => true
                      | Some id => negb (bool_decide (id ∈ drop))
                      end)) st.

Definition annotate_cached_mk (cid : ConversationId) (actor : Actor) (mk : MessageKey)
    (tx_id : Tag) (st : EngineState) : EngineState :=
  chains_mut cid (λ c, with_skipped
    (alter (map (λ e, if branded_eq (cm_mk e) mk
                      then mkCachedMk (cm_mk e) (cm_expires_at e) (Some tx_id) else e))
       actor (pc_skipped_mks c)) c) st.
