(* ===== verification/HelpersLaws.v ===== *)
(** Watermarks, persistent acknowledgements and remembered message keys ([Helpers.v]):
    what they mean on the store of transactions, and what changing them leaves alone. *)

From stdpp Require Import base tactics list numbers option strings countable gmap.
From Stdlib Require Import Strings.Byte.
From S2P Require Import Prelude Text Ids Order Channel Defaults Payload Json Ports Codec.
From S2P Require Import Chain RowLog Party HealRange Bins State StateLaws Helpers.

(** * The chains of a changed row *)

Lemma scan_row_refine {B} c (f : IdentityConversation → option B) st u i k b :
  scan (row c Some) st = Some (u, i, k) → f k = Some b → scan (row c f) st = Some (u, i, b).
Proof.
  unfold scan. induction (idents st) as [|[[u' i'] ident] l IH]; cbn; [done|].
  unfold row at 1 3. destruct (id_conversations ident !! c) as [k'|]; cbn.
  - intros [= -> -> ->] ->. done.
  - apply IH.
Qed.

Lemma packet_mut_packet f kind :
  packet_of_identity (packet_mut_of_identity f kind) = f <$> packet_of_identity kind.
Proof. by destruct kind as [| |[]]. Qed.

Lemma packet_mut_packet_device f kind :
  packet_of_device (packet_mut_of_device f kind) = f <$> packet_of_device kind.
Proof. by destruct kind. Qed.

Lemma chains_mut_same cid f st c :
  chains st cid = Some c → chains (chains_mut cid f st) cid = Some (f c).
Proof.
  unfold chains at 1. destruct (scan (row cid Some) st) as [[[u i] kind]|] eqn:E.
  - intros HP. unfold chains_mut. rewrite (scan_row_refine _ _ _ _ _ _ _ E HP).
    unfold chains. rewrite (scan_row_alter _ Some _ _ _ _ (packet_mut_of_identity f)) by done.
    rewrite E. cbn. rewrite decide_True by done. by rewrite packet_mut_packet, HP.
  - intros HP. unfold chains_mut.
    assert (scan (row cid packet_of_identity) st = None) as ->.
    { apply scan_row_None. intros u i kind Hk. pose proof (proj1 (scan_row_None _ _ _) E u i kind Hk).
      done. }
    unfold chains. rewrite (scan_users _ st), E by done.
    rewrite device_row_alter, decide_True by done. unfold device_row in *.
    destruct (dv_conversations (es_device st) !! cid) as [kind|]; [|done]. cbn in *.
    by rewrite packet_mut_packet_device, HP.
Qed.

Lemma chains_mut_other cid f st c' : c' ≠ cid → chains (chains_mut cid f st) c' = chains st c'.
Proof.
  intros Hc. unfold chains_mut. destruct (scan (row cid packet_of_identity) st) as [[[u i] p]|].
  - unfold chains. rewrite (scan_row_alter _ Some _ _ _ _ (packet_mut_of_identity f)) by done.
    destruct (scan (row c' Some) st) as [[[u' i'] kind]|]; cbn; [|done].
    by rewrite decide_False by naive_solver.
  - unfold chains. rewrite (scan_users _ st) by done. destruct (scan _ st); [done|].
    by rewrite device_row_alter, decide_False.
Qed.

(** The same for the chains of established rows. *)

Lemma established_mut_established f kind :
  established_of_identity (established_mut_of_identity f kind) = f <$> established_of_identity kind.
Proof. by destruct kind as [| |[]]. Qed.

Lemma established_mut_established_device f kind :
  established_of_device (established_mut_of_device f kind) = f <$> established_of_device kind.
Proof. by destruct kind. Qed.

Lemma established_scan cid st c :
  established st cid = Some c →
  (∃ u i, scan (row cid established_of_identity) st = Some (u, i, c)) ∨
  (scan (row cid established_of_identity) st = None ∧ scan (row cid Some) st = None ∧
   device_row cid established_of_device st = Some c).
Proof.
  unfold established. destruct (scan (row cid Some) st) as [[[u i] kind]|] eqn:E; intros HP.
  - left. exists u, i. by apply (scan_row_refine _ _ _ _ _ kind).
  - right. split_and!; [|done..]. apply scan_row_None. intros u i kind Hk.
    by pose proof (proj1 (scan_row_None _ _ _) E u i kind Hk).
Qed.

Lemma established_mut_same cid f st c :
  established st cid = Some c → established (established_mut cid f st) cid = Some (f c).
Proof.
  intros HP. unfold established_mut. destruct (established_scan _ _ _ HP) as [(u & i & E)|(E & E' & HD)].
  - rewrite E. unfold established in *.
    rewrite (scan_row_alter _ Some _ _ _ _ (established_mut_of_identity f)) by done.
    destruct (scan (row cid Some) st) as [[[u' i'] kind]|] eqn:E2; cbn.
    + rewrite (scan_row_refine _ _ _ _ _ _ _ E2 HP) in E. injection E as -> ->.
      rewrite decide_True by done. by rewrite established_mut_established, HP.
    + apply scan_row_Some in E as (kind & Hk & _).
      by pose proof (proj1 (scan_row_None _ _ _) E2 u i kind Hk).
  - rewrite E. unfold established. rewrite (scan_users _ st), E' by done.
    rewrite device_row_alter, decide_True by done. unfold device_row in *.
    destruct (dv_conversations (es_device st) !! cid) as [kind|]; [|done]. cbn in *.
    by rewrite established_mut_established_device, HD.
Qed.

Lemma established_mut_other cid f st c' :
  c' ≠ cid → established (established_mut cid f st) c' = established st c'.
Proof.
  intros Hc. unfold established_mut.
  destruct (scan (row cid established_of_identity) st) as [[[u i] p]|].
  - unfold established.
    rewrite (scan_row_alter _ Some _ _ _ _ (established_mut_of_identity f)) by done.
    destruct (scan (row c' Some) st) as [[[u' i'] kind]|]; cbn; [|done].
    by rewrite decide_False by naive_solver.
  - unfold established. rewrite (scan_users _ st) by done. destruct (scan _ st); [done|].
    by rewrite device_row_alter, decide_False.
Qed.

(** Parties do not see a change of chains. *)

Lemma scan_row_alter_same {B} c (f : IdentityConversation → option B) u i c' g st :
  (∀ kind, f (g kind) = f kind) → scan (row c f) (alter_row u i c' g st) = scan (row c f) st.
Proof.
  intros HE. rewrite (scan_row_alter _ _ _ _ _ _ id) by (intros; rewrite HE; by destruct (f kind)).
  destruct (scan (row c f) st) as [[[u' i'] b]|]; cbn; [|done]. by case_decide.
Qed.

Lemma device_row_alter_same {B} c g st c' (f : DeviceConversation → option B) :
  (∀ kind, f (g kind) = f kind) → device_row c' f (alter_device_row c g st) = device_row c' f st.
Proof.
  intros HE. rewrite device_row_alter. case_decide as Hc; [|done]. subst. unfold device_row.
  destruct (_ !! c); cbn; auto.
Qed.

Lemma party_chains_mut cid f st cid' : party (chains_mut cid f st) cid' = party st cid'.
Proof.
  unfold party, dm_party, sync_party, chains_mut. destruct (scan (row cid packet_of_identity) st) as [[[u i] p]|].
  - rewrite scan_row_alter_same by by intros [| |[]]. done.
  - rewrite (scan_users _ st) by done. rewrite device_row_alter_same by by intros []. done.
Qed.

Lemma ticket_chains_mut cid f st cid' : ticket (chains_mut cid f st) cid' = ticket st cid'.
Proof. by rewrite !ticket_party, party_chains_mut. Qed.

(** Storing a transaction changes the log of one row and nothing else of it. *)

Lemma alter_row_ext u i c g g' st :
  (∀ kind, identity_row st u i c = Some kind → g kind = g' kind) →
  alter_row u i c g st = alter_row u i c g' st.
Proof.
  intros HE. unfold alter_row, alter_identity. f_equal. apply map_eq. intros u'.
  destruct (decide (u' = u)) as [->|Hu]; [|by rewrite !lookup_alter_ne].
  rewrite !lookup_alter_eq. unfold identity_row, identity in HE.
  destruct (es_users st !! u) as [user|]; cbn in *; [|done]. do 2 f_equal. apply map_eq. intros i'.
  destruct (decide (i' = i)) as [->|Hi]; [|by rewrite !lookup_alter_ne].
  rewrite !lookup_alter_eq. destruct (us_identities user !! i) as [ident|]; cbn in *; [|done].
  do 2 f_equal. apply map_eq. intros c'. destruct (decide (c' = c)) as [->|Hc]; [|by rewrite !lookup_alter_ne].
  rewrite !lookup_alter_eq. destruct (id_conversations ident !! c) as [kind|]; cbn in *; [|done].
  f_equal. by apply HE.
Qed.

Lemma alter_device_row_ext c g g' st :
  (∀ kind, dv_conversations (es_device st) !! c = Some kind → g kind = g' kind) →
  alter_device_row c g st = alter_device_row c g' st.
Proof.
  intros HE. unfold alter_device_row. do 2 f_equal. apply map_eq. intros c'.
  destruct (decide (c' = c)) as [->|Hc]; [|by rewrite !lookup_alter_ne].
  rewrite !lookup_alter_eq. destruct (_ !! c) as [kind|]; cbn; [|done]. f_equal. by apply HE.
Qed.

(** ** Rows without their logs *)

Definition logless (kind : IdentityConversation) : IdentityConversation :=
  match kind with
  | RowDmHandshake party _ chains => RowDmHandshake party ∅ chains
  | RowDirectMessage secret parent _ chains => RowDirectMessage secret parent ∅ chains
  | RowGroup (GroupIsLive live) => RowGroup (GroupIsLive (with_gl_log (λ _, ∅) live))
  | RowGroup phase => RowGroup phase
  end.

Definition logless_device (kind : DeviceConversation) : DeviceConversation :=
  match kind with
  | RowSyncHandshake party _ chains => RowSyncHandshake party ∅ chains
  | RowSynchronization secret parent peer _ chains => RowSynchronization secret parent peer ∅ chains
  end.

Ltac log_only :=
  intros; repeat match goal with
  | k : IdentityConversation |- _ => destruct k as [| |[]]
  | k : DeviceConversation |- _ => destruct k
  end; cbn in *; repeat case_match; simplify_option_eq; done.

Lemma logless_insert id b kind kind' : identity_insert id b kind = Some kind' → logless kind' = logless kind.
Proof. log_only. Qed.
Lemma logless_device_insert id b kind kind' :
  device_insert id b kind = Some kind' → logless_device kind' = logless_device kind.
Proof. log_only. Qed.
Lemma logless_remove id kind : logless (identity_remove id kind) = logless kind.
Proof. log_only. Qed.
Lemma logless_device_remove id kind : logless_device (device_remove id kind) = logless_device kind.
Proof. log_only. Qed.

(** Storing moves the state along every preorder that lets logs and places change. *)
Section Along.
Context (R : relation EngineState) `{!PreOrder R}.
Context (R_engine : ∀ log st, R st (with_engine_log log st)).
Context (R_places : ∀ places st, R st (with_tx_place places st)).
Context (R_row : ∀ u i c g st, (∀ kind, logless (g kind) = logless kind) → R st (alter_row u i c g st)).
Context (R_device : ∀ c g st,
  (∀ kind, logless_device (g kind) = logless_device kind) → R st (alter_device_row c g st)).

Lemma remove_body_along id st : R st (remove_body id st).
Proof.
  unfold remove_body. destruct (es_tx_place st !! id) as [place|]; [|done].
  etrans; [apply (R_places (delete id (es_tx_place st)))|].
  destruct place; [apply R_engine|apply R_row, logless_remove|apply R_device, logless_device_remove].
Qed.

Lemma write_row_along id b st st' : write_row id b st = Some st' → R st st'.
Proof.
  unfold write_row. destruct (place_of _ _) as [[|u i c|c]|].
  1, 4: destruct (log_insert id b (es_engine_log st)) as [log|]; cbn; [|done];
    intros [= <-]; etrans; [apply (R_engine log)|apply R_places].
  - destruct (identity_row st u i c) as [k|] eqn:Hk; [|done]. cbn.
    destruct (identity_insert id b k) as [k'|] eqn:HI; [|done]. cbn. intros [= <-]. etrans; [|apply R_places].
    rewrite (alter_row_ext _ _ _ _ (λ k, default k (identity_insert id b k))).
    + apply R_row. intros kind. destruct (identity_insert id b kind) as [kind'|] eqn:E; [|done].
      by eapply logless_insert.
    + intros kind. rewrite Hk. intros [= <-]. by rewrite HI.
  - unfold device_row. destruct (dv_conversations (es_device st) !! c) as [k|] eqn:Hk; [|done]. cbn.
    destruct (device_insert id b k) as [k'|] eqn:HI; [|done]. cbn. intros [= <-]. etrans; [|apply R_places].
    rewrite (alter_device_row_ext _ _ (λ k, default k (device_insert id b k))).
    + apply R_device. intros kind. destruct (device_insert id b kind) as [kind'|] eqn:E; [|done].
      by eapply logless_device_insert.
    + intros kind. rewrite Hk. intros [= <-]. by rewrite HI.
Qed.

Lemma insert_body_along id b st : R st (insert_body id b st).1.
Proof.
  unfold insert_body. cbv zeta. etrans.
  - instantiate (1 := match es_tx_place st !! id with Some _ => remove_body id st | None => st end).
    case_match; [apply remove_body_along|done].
  - destruct (write_row id b _) as [st'|] eqn:E; [|done]. by eapply write_row_along.
Qed.
End Along.

(** What a row shows besides its log. *)
Section Views.
Context {B : Type} (f : IdentityConversation → option B) (fd : DeviceConversation → option B).

Definition view (st : EngineState) (cid : ConversationId) : option B :=
  match scan (row cid Some) st with
  | Some (_, _, kind) => f kind
  | None => device_row cid fd st
  end.

Lemma view_alter_row u i c g st cid :
  (∀ kind, f (g kind) = f kind) → view (alter_row u i c g st) cid = view st cid.
Proof.
  intros HE. unfold view. rewrite (scan_row_alter _ Some _ _ _ g g) by done.
  destruct (scan (row cid Some) st) as [[[u' i'] kind]|]; cbn; [|done]. by case_decide.
Qed.

Lemma view_alter_device c g st cid :
  (∀ kind, fd (g kind) = fd kind) → view (alter_device_row c g st) cid = view st cid.
Proof.
  intros HE. unfold view. rewrite (scan_users _ st) by done. destruct (scan _ st); [done|].
  rewrite device_row_alter. case_decide as Hc; [|done]. subst. unfold device_row.
  destruct (_ !! c); cbn; auto.
Qed.

Context (f_logless : ∀ kind, f (logless kind) = f kind).
Context (fd_logless : ∀ kind, fd (logless_device kind) = fd kind).

Lemma view_insert_body id b st cid : view (insert_body id b st).1 cid = view st cid.
Proof.
  apply (insert_body_along (keeps (λ st, view st cid))); try done.
  - intros u i c g st' HG. apply view_alter_row. intros kind. by rewrite <-f_logless, HG, f_logless.
  - intros c g st' HG. apply view_alter_device. intros kind. by rewrite <-fd_logless, HG, fd_logless.
Qed.
End Views.

Lemma established_insert_body id b st cid :
  established (insert_body id b st).1 cid = established st cid.
Proof.
  apply (view_insert_body established_of_identity established_of_device); log_only.
Qed.

Lemma chains_insert_body id b st cid : chains (insert_body id b st).1 cid = chains st cid.
Proof. apply (view_insert_body packet_of_identity packet_of_device); log_only. Qed.

(** * The transactions of a conversation *)

Lemma elem_of_body_pairs st id b : (id, b) ∈ body_pairs st ↔ stored st !! id = Some b.
Proof. apply elem_of_entries. Qed.

Lemma elem_of_conversation_tx_ids st cid id :
  id ∈ conversation_tx_ids st cid ↔ ∃ b, stored st !! id = Some b ∧ db_conversation_id b = cid.
Proof.
  unfold conversation_tx_ids. rewrite elem_of_list_to_set, list_elem_of_fmap. split.
  - intros ([id' b] & -> & [Hc Hin]%list_elem_of_filter). apply elem_of_body_pairs in Hin. eauto.
  - intros (b & Hb & Hc). exists (id, b). split; [done|]. apply list_elem_of_filter.
    split; [done|]. by apply elem_of_body_pairs.
Qed.

(** The acknowledgement sets on record for a conversation. *)
Definition acks_of (st : EngineState) (cid : ConversationId) : gmap Actor (gset Tag) :=
  default ∅ (pc_last_acks <$> chains st cid).

Lemma elem_of_fold_inter (l : list (gset Tag)) s0 (id : Tag) :
  id ∈ fold_left (λ acc s, acc ∩ s) l s0 ↔ id ∈ s0 ∧ ∀ s, s ∈ l → id ∈ s.
Proof.
  revert s0. induction l as [|s l IH]; intros s0; cbn.
  - split; [|by intros []]. intros H. split; [done|]. intros s Hs. by apply not_elem_of_nil in Hs.
  - rewrite IH, elem_of_intersection. split.
    + intros [[H1 H2] H3]. split; [done|]. intros s' [->|Hs]%elem_of_cons; auto.
    + intros [H1 H2]. split_and!; [done|apply H2; left|]. intros s' Hs. apply H2. by right.
Qed.

(** C34. The watermark of a conversation.  While no device has acknowledged a transaction it
    is every transaction of the conversation; from then on it is the transactions that
    every device that has acknowledged any has acknowledged. *)
Theorem watermark_spec st cid :
  ((∀ actor s, acks_of st cid !! actor = Some s → s = ∅) →
   ∀ id, id ∈ watermark_of st cid ↔
     ∃ b, stored st !! id = Some b ∧ db_conversation_id b = cid) ∧
  ((∃ actor s, acks_of st cid !! actor = Some s ∧ s ≠ ∅) →
   ∀ id, id ∈ watermark_of st cid ↔
     ∀ actor s, acks_of st cid !! actor = Some s → s ≠ ∅ → id ∈ s).
Proof.
  assert (∀ s : gset Tag, s ∈ filter (λ s, s ≠ ∅) (values (acks_of st cid)) ↔
    s ≠ ∅ ∧ ∃ actor, acks_of st cid !! actor = Some s) as HF.
  { intros s. by rewrite list_elem_of_filter, elem_of_values. }
  unfold watermark_of, acks_of in *.
  destruct (chains st cid) as [c|]; cbn [fmap option_fmap option_map default] in *.
  - destruct (filter _ _) as [|first rest].
    + split.
      * intros _ id. apply elem_of_conversation_tx_ids.
      * intros (actor & s & Hs & Hne). exfalso. apply (not_elem_of_nil s), HF. eauto.
    + split.
      * intros HE. exfalso. assert (first ∈ first :: rest) as [Hne [a Ha]]%HF by left.
        by apply Hne, (HE a).
      * intros _ id. rewrite elem_of_fold_inter. split.
        -- intros [H1 H2] actor s Hs Hne.
           assert (s ∈ first :: rest) as [->|]%elem_of_cons by (apply HF; eauto); auto.
        -- intros HA. split.
           ++ assert (first ∈ first :: rest) as [Hne [a Ha]]%HF by left. by apply (HA a).
           ++ intros s Hs. assert (s ∈ first :: rest) as [Hne [a Ha]]%HF by by right.
              by apply (HA a).
  - split; [intros _ id; apply elem_of_conversation_tx_ids|].
    intros (actor & s & Hs & _). by rewrite lookup_empty in Hs.
Qed.

(** Folding is refused exactly while the log of persist records holds a transaction that
    is stored, has not expired, and that some device is not known to have. *)
Theorem persist_outside_watermark_spec st :
  persist_outside_watermark st = false ↔
  ∀ seq id b, es_persist_log st !! seq = Some id → body st id = Some b →
    expired_at (db_payload b) (ticked_or_zero st) = true ∨
    id ∈ watermark_of st (db_conversation_id b).
Proof.
  unfold persist_outside_watermark. rewrite <-not_true_iff_false, existsb_exists. split.
  - intros HN seq id b Hid Hb. destruct (expired_at _ _) eqn:He; [by left|]. right.
    destruct (decide (id ∈ watermark_of st (db_conversation_id b))) as [|Hni]; [done|].
    exfalso. apply HN. exists id. split; [apply list_elem_of_In, elem_of_values; eauto|].
    rewrite Hb, He. unfold tx_watermarked. by rewrite Hb, bool_decide_eq_false_2.
  - intros HA (id & [seq Hid]%list_elem_of_In%elem_of_values & Hx).
    destruct (body st id) as [b|] eqn:Hb; [|done].
    destruct (HA _ _ _ Hid Hb) as [He|Hw]; [by rewrite He in Hx|].
    destruct (expired_at _ _); [done|]. unfold tx_watermarked in Hx.
    by rewrite Hb, bool_decide_eq_true_2 in Hx.
Qed.

(** * Persistent acknowledgements *)

Definition ack_accepted (st : EngineState) (cid : ConversationId) (actor_id : bytes)
    (set_xor : Tag) : option Actor :=
  if decide (set_xor_for (body_pairs st) cid = set_xor)
  then sort_of st cid ≫= λ sort, actor_for sort actor_id else None.

Lemma store_durable_last_ack_cases cid actor_id set_xor st :
  store_durable_last_ack cid actor_id set_xor st =
    match ack_accepted st cid actor_id set_xor with
    | Some actor => chains_mut cid
        (λ c, with_last_acks (<[actor := conversation_tx_ids st cid]> (pc_last_acks c)) c) st
    | None => st
    end.
Proof.
  unfold store_durable_last_ack, ack_accepted.
  destruct (branded_eq _ _) eqn:E; case_decide as HD; try done.
  - by apply branded_eq_spec in E.
  - rewrite <-branded_eq_spec in HD. congruence.
Qed.

(** A persistent acknowledgement counts only when its fingerprint is that of the
    transactions stored here and its sender is named the way the conversation names its
    actors.  It then records, for that actor, exactly the transactions stored here; it
    touches no other actor, conversation or transaction. *)
Theorem durable_last_ack_spec cid actor_id set_xor st c :
  chains st cid = Some c →
  let st' := store_durable_last_ack cid actor_id set_xor st in
  acks_of st' cid =
    match ack_accepted st cid actor_id set_xor with
    | Some actor => <[actor := conversation_tx_ids st cid]> (acks_of st cid)
    | None => acks_of st cid
    end ∧
  (∀ c', c' ≠ cid → chains st' c' = chains st c') ∧
  (Located st → Located st' ∧ stored st' = stored st).
Proof.
  intros Hc. cbv zeta. rewrite store_durable_last_ack_cases.
  destruct (ack_accepted _ _ _ _) as [actor|]; [|done]. split_and!.
  - unfold acks_of. by rewrite (chains_mut_same _ _ _ _ Hc), Hc.
  - intros c' Hc'. by apply chains_mut_other.
  - apply same_store_located, chains_mut_same_store.
Qed.

(** * Remembered message keys *)

Lemma entries_fmap {K V} `{Countable K, !Ord K, !OrdLaws K} (f : V → V) (m : gmap K V) :
  entries (f <$> m) = map (λ '(k, v), (k, f v)) (entries m).
Proof. apply (entries_change _ _ (λ _, f)). intros k. apply lookup_fmap. Qed.

Lemma idents_map h st :
  idents (map_identities h st) = map (λ '(u, i, ident), (u, i, h ident)) (idents st).
Proof.
  unfold idents, map_identities. cbn [es_users with_users with_store].
  rewrite entries_fmap, !flat_map_concat_map, map_map, concat_map, map_map. f_equal.
  apply map_ext. intros [u user]. cbn. rewrite entries_fmap, !map_map. apply map_ext.
  by intros [].
Qed.

Lemma scan_map_identities {B} (f : Identity → option B) (k : B → B) h st :
  (∀ ident, f (h ident) = k <$> f ident) →
  scan f (map_identities h st) = (λ '(u, i, b), (u, i, k b)) <$> scan f st.
Proof.
  intros HE. unfold scan. rewrite idents_map.
  induction (idents st) as [|[[u i] ident] l IH]; cbn; [done|]. rewrite HE.
  by destruct (f ident).
Qed.

Lemma chains_each_mut f st cid : chains (each_chains_mut f st) cid = f <$> chains st cid.
Proof.
  unfold chains, each_chains_mut. set (st1 := map_identities _ st).
  assert (scan (row cid Some) st1 =
    (λ '(u, i, k), (u, i, packet_mut_of_identity f k)) <$> scan (row cid Some) st) as HS.
  { apply scan_map_identities. intros ident. unfold row. cbn. rewrite lookup_fmap.
    by destruct (_ !! cid). }
  rewrite (scan_users _ st1) by done. rewrite HS.
  destruct (scan _ st) as [[[u i] kind]|]; cbn; [apply packet_mut_packet|].
  unfold device_row. cbn. rewrite lookup_fmap.
  destruct (_ !! cid) as [kind|]; cbn; [apply packet_mut_packet_device|done].
Qed.

Lemma flat_map_map {A B C} (f : A → B) (g : B → list C) l :
  flat_map g (map f l) = flat_map (λ a, g (f a)) l.
Proof. induction l as [|a l IH]; cbn; [done|]. by rewrite IH. Qed.

Lemma map_flat_map {A B C} (f : A → list B) (g : B → C) l :
  map g (flat_map f l) = flat_map (λ a, map g (f a)) l.
Proof. induction l as [|a l IH]; cbn; [done|]. by rewrite map_app, IH. Qed.

Lemma each_chains_each_mut f st :
  each_chains (each_chains_mut f st) = map (λ '(cid, c), (cid, f c)) (each_chains st).
Proof.
  unfold each_chains. rewrite map_app. f_equal.
  - unfold each_chains_mut.
    replace (idents (with_device _ _)) with
      (idents (map_identities (λ i, with_conversations
         (packet_mut_of_identity f <$> id_conversations i) i) st)) by done.
    rewrite idents_map, flat_map_map, map_flat_map. apply flat_map_ext. intros [[u i] ident].
    cbn. rewrite entries_fmap, flat_map_map, map_flat_map. apply flat_map_ext.
    intros [cid kind]. rewrite packet_mut_packet. by destruct (packet_of_identity kind).
  - cbn. rewrite entries_fmap, flat_map_map, map_flat_map. apply flat_map_ext.
    intros [cid kind]. rewrite packet_mut_packet_device. by destruct (packet_of_device kind).
Qed.

Lemma filter_ext_in {A} (p q : A → bool) (l : list A) :
  (∀ a, a ∈ l → p a = q a) → filter (λ a, p a = true) l = filter (λ a, q a = true) l.
Proof.
  induction l as [|a l IH]; intros HE; [done|].
  rewrite !filter_cons, (HE a) by left. rewrite IH by (intros; apply HE; by right). done.
Qed.

Lemma retain_mks_ext keep keep' c :
  (∀ actor es e, pc_skipped_mks c !! actor = Some es → e ∈ es → keep e = keep' e) →
  retain_mks keep c = retain_mks keep' c.
Proof.
  intros HE. unfold retain_mks. f_equal. f_equal. apply map_eq. intros actor.
  rewrite !lookup_fmap. destruct (_ !! actor) as [es|] eqn:Ha; cbn; [|done]. f_equal.
  apply filter_ext_in. intros e. by apply (HE actor).
Qed.

(** Pruning changes no acknowledgement and no transaction, so it moves no watermark. *)
Lemma watermark_each_mut f st :
  (∀ c, pc_last_acks (f c) = pc_last_acks c) → Located st →
  ∀ id, tx_watermarked (each_chains_mut f st) id = tx_watermarked st id.
Proof.
  intros Hf HL id. pose proof (each_chains_mut_same_store f st) as HS.
  destruct (same_store_located _ _ HS HL) as [HL' HE].
  unfold tx_watermarked. rewrite <-!stored_lookup, HE by done.
  destruct (stored st !! id) as [b|]; [|done]. f_equal. unfold watermark_of.
  rewrite chains_each_mut.
  assert (conversation_tx_ids (each_chains_mut f st) = conversation_tx_ids st) as ->
    by (unfold conversation_tx_ids, body_pairs; by rewrite HE).
  destruct (chains st _) as [c|]; cbn; [|done]. by rewrite Hf.
Qed.

Definition unacknowledged (st : EngineState) (e : CachedMk) : bool :=
  match cm_tx_id e with None => true | Some id => negb (tx_watermarked st id) end.

Lemma elem_of_cached_watermarked st cid c actor es e id :
  (cid, c) ∈ each_chains st → pc_skipped_mks c !! actor = Some es → e ∈ es →
  cm_tx_id e = Some id → id ∈ cached_watermarked st ↔ tx_watermarked st id = true.
Proof.
  intros Hc Ha He Hid. unfold cached_watermarked.
  rewrite elem_of_list_to_set, list_elem_of_filter. split; [by intros []|]. intros Hw.
  split; [done|]. apply list_elem_of_In, in_flat_map. exists (cid, c).
  split; [by apply list_elem_of_In|]. apply list_elem_of_In, list_elem_of_omap.
  exists e. split; [|done]. apply list_elem_of_In, in_concat. exists es.
  split; apply list_elem_of_In; [|done]. apply elem_of_values. eauto.
Qed.

(** Pruning drops exactly the remembered message keys whose transaction every device
    is known to have, keeps the others in their order, leaves no empty list behind and
    moves no watermark. *)
Theorem prune_cached_mks_spec st :
  Located st →
  each_chains (prune_cached_mks st) =
    map (λ '(cid, c), (cid, retain_mks (unacknowledged st) c)) (each_chains st) ∧
  (∀ cid c actor es, (cid, c) ∈ each_chains (prune_cached_mks st) →
     pc_skipped_mks c !! actor = Some es → es ≠ []) ∧
  (∀ id, tx_watermarked (prune_cached_mks st) id = tx_watermarked st id).
Proof.
  intros HL. assert (each_chains (prune_cached_mks st) =
    map (λ '(cid, c), (cid, retain_mks (unacknowledged st) c)) (each_chains st)) as HE.
  { unfold prune_cached_mks. rewrite each_chains_each_mut. apply map_ext_in. intros [cid c].
    rewrite <-list_elem_of_In. intros Hin. f_equal. apply retain_mks_ext.
    intros actor es e Ha He. unfold unacknowledged. destruct (cm_tx_id e) as [id|] eqn:Hid; [|done].
    f_equal. apply eq_true_iff_eq. rewrite bool_decide_eq_true.
    by apply (elem_of_cached_watermarked _ cid c actor es e). }
  split_and!; [done| |by apply watermark_each_mut].
  intros cid c actor es. rewrite HE. intros ([cid' c'] & [= -> ->] & _)%list_elem_of_fmap.
  cbn. rewrite map_lookup_filter_Some. by intros [_ Hne].
Qed.

(** * The theorems on a concrete state *)

Lemma dm_chains : chains dm_state (id_of x03) = Some PacketChains_default.
Proof. reflexivity. Qed.

(** An acknowledgement of no transactions, from a peer with a one-byte key. *)
Lemma durable_last_ack_spec_witness :
  acks_of (store_durable_last_ack (id_of x03) [x2a] (from_bytes (fill 32 x00)) dm_state)
    (id_of x03) =
  <[Actor_Signing (SigningPublicKey_from_bytes [x2a]) := conversation_tx_ids dm_state (id_of x03)]>
    (acks_of dm_state (id_of x03)).
Proof.
  pose proof (durable_last_ack_spec (id_of x03) [x2a] (from_bytes (fill 32 x00)) dm_state _ dm_chains)
    as [H _].
  assert (ack_accepted dm_state (id_of x03) [x2a] (from_bytes (fill 32 x00)) =
    Some (Actor_Signing (SigningPublicKey_from_bytes [x2a]))) as E by reflexivity.
  rewrite E in H. exact H.
Defined.

(** One remembered key, of the wrap stored in [wrap_state]: nothing was acknowledged, so
    the wrap is watermarked and the key is dropped; a key of no known transaction stays. *)
Definition cached_key (b : byte) (tx_id : option Tag) : CachedMk :=
  mkCachedMk (from_bytes (fill 32 b)) (clamp64 100) tx_id.

Definition cached_state : EngineState :=
  chains_mut (id_of x03)
    (λ c, with_skipped {[ Actor_Handshake :=
       [cached_key x01 (Some (id_of x07)); cached_key x02 None] ]} c) wrap_state.

Lemma located_cached : Located cached_state.
Proof.
  apply (same_store_located wrap_state); [apply chains_mut_same_store|apply located_wrap].
Qed.

Lemma prune_cached_mks_spec_witness :
  each_chains (prune_cached_mks cached_state) =
    map (λ '(cid, c), (cid, retain_mks (unacknowledged cached_state) c))
      (each_chains cached_state) ∧
  unacknowledged cached_state (cached_key x01 (Some (id_of x07))) = false ∧
  unacknowledged cached_state (cached_key x02 None) = true.
Proof.
  split; [|by vm_compute].
  exact (proj1 (prune_cached_mks_spec cached_state located_cached)).
Defined.
