(* ===== verification/Engine.v ===== *)
(** The engine handle ([engine/mod.rs]), the threading of its state, draws and errors, and
    the transaction core of [engine/vault.rs]: secrets, transaction ids, persist records
    and merging.

    A method that takes [&mut self], [&mut EngineState] or [&dyn Rng] is a computation in
    [M]: it reads and changes a [World] and ends with a value, with an [EngineError], or
    with a panic ([expect] on [None]).  A method that takes the state by value and returns
    it in [MutateOk] works on the world's state; its caller sees that state only in the
    case [Ok] ([mutation] below). *)

From stdpp Require Import base tactics list numbers option strings countable gmap.
From Stdlib Require Import Strings.Byte.
From S2P Require Import Prelude Text Ids Order Channel Defaults Payload Json Ports Codec.
From S2P Require Import Chain RowLog Party HealRange Bins State Helpers.

(** * The handle *)

Record Engine : Type := mkEngine { en_defaults : Defaults; en_dek : option AeadKey }.

Definition Engine_new (defaults : Defaults) : Engine := mkEngine defaults None.

(** [Rng]: the [n]-th draw of the host's generator. *)
Class Rng : Type := draw : nat → Random32.

Definition PERSIST_VERSION : N := 1.
Definition FOLD_VERSION : N := 1.
Definition SPAWN_SECRET_INFO : bytes := blit "chuchotez/1/spawn-secret".
Definition SPAWN_CONVERSATION_ID_INFO : bytes := blit "chuchotez/1/spawn-conversation-id".
Definition HANDSHAKE_DM_ESTABLISHED_INFO : bytes := blit "chuchotez/1/handshake-dm-established".
Definition HANDSHAKE_SYNC_ESTABLISHED_INFO : bytes :=
  blit "chuchotez/1/handshake-sync-established".

(** * Computations *)

Record World : Type := mkWorld { w_engine : Engine; w_state : EngineState; w_draws : nat }.

Inductive fault : Set := Refuse (e : EngineError) | Panic.

#[export] Instance fault_eq_dec : EqDecision fault.
Proof. solve_decision. Defined.

Definition M (A : Type) : Type := World → World * result fault A.

#[export] Instance M_ret : MRet M := λ A a w, (w, Ok a).
#[export] Instance M_bind : MBind M := λ A B f m w,
  match m w with
  | (w', Ok a) => f a w'
  | (w', Err e) => (w', Err e)
  end.

Definition gets {A} (f : EngineState → A) : M A := λ w, (w, Ok (f (w_state w))).
Definition get_state : M EngineState := gets id.
Definition get_engine : M Engine := λ w, (w, Ok (w_engine w)).

Definition modify (f : EngineState → EngineState) : M unit := λ w,
  (mkWorld (w_engine w) (f (w_state w)) (w_draws w), Ok tt).

Definition set_dek (dek : option AeadKey) : M unit := λ w,
  (mkWorld (mkEngine (en_defaults (w_engine w)) dek) (w_state w) (w_draws w), Ok tt).

(** [rng.random32()]. *)
Definition random32 `{Rng} : M Random32 := λ w,
  (mkWorld (w_engine w) (w_state w) (S (w_draws w)), Ok (draw (w_draws w))).

(** [KemSeed::from_pair(rng.random32(), rng.random32())]. *)
Definition random_seed `{Rng} : M (arr 64) :=
  a ← random32; b ← random32; mret (from_pair a b).

(** [r?]. *)
Definition lift {A} (r : result EngineError A) : M A := λ w, (w, map_err Refuse r).
Definition refuse {A} (e : EngineError) : M A := λ w, (w, Err (Refuse e)).
(** [o.expect(..)]. *)
Definition expect {A} (o : option A) : M A := λ w, (w, ok_or Panic o).

(** [for a in l { f(a)? }]. *)
Fixpoint for_each {A} (f : A → M unit) (l : list A) : M unit :=
  match l with
  | [] => mret tt
  | a :: l' => _ ← f a; for_each f l'
  end.

(** [iter.map(f).collect::<Result<Vec<_>, _>>()]. *)
Fixpoint map_m {A B} (f : A → M B) (l : list A) : M (list B) :=
  match l with
  | [] => mret []
  | a :: l' => b ← f a; bs ← map_m f l'; mret (b :: bs)
  end.

(** Running a computation step by step. *)
Section Run.
Context {A B : Type} (f : A → M B) (w : World).

Lemma bind_run (m : M A) :
  (m ≫= f) w = match m w with (w', Ok a) => f a w' | (w', Err e) => (w', Err e) end.
Proof. done. Qed.

Lemma bind_assoc {C} (m : M C) (g : C → M A) :
  ((m ≫= g) ≫= f) w = (m ≫= λ c, g c ≫= f) w.
Proof. rewrite bind_run. unfold mbind, M_bind. by destruct (m w) as [w' []]. Qed.

Lemma mret_bind a : (mret (M := M) a ≫= f) w = f a w.
Proof. done. Qed.
Lemma gets_bind g : (gets g ≫= f) w = f (g (w_state w)) w.
Proof. done. Qed.
Lemma lift_Ok_bind a : (lift (Ok a) ≫= f) w = f a w.
Proof. done. Qed.
Lemma lift_Err_bind e : (lift (Err e) ≫= f) w = (w, Err (Refuse e)).
Proof. done. Qed.
Lemma lift_Some_bind e a : (lift (ok_or e (Some a)) ≫= f) w = f a w.
Proof. done. Qed.
Lemma lift_None_bind e : (lift (ok_or e None) ≫= f) w = (w, Err (Refuse e)).
Proof. done. Qed.
Lemma refuse_bind e : (refuse e ≫= f) w = (w, Err (Refuse e)).
Proof. done. Qed.
Lemma expect_Some_bind a : (expect (Some a) ≫= f) w = f a w.
Proof. done. Qed.
Lemma expect_None_bind : (expect None ≫= f) w = (w, Err Panic).
Proof. done. Qed.
End Run.

Lemma get_state_bind {B} (f : EngineState → M B) w : (get_state ≫= f) w = f (w_state w) w.
Proof. done. Qed.
Lemma get_engine_bind {B} (f : Engine → M B) w : (get_engine ≫= f) w = f (w_engine w) w.
Proof. done. Qed.
Lemma modify_bind {B} g (f : unit → M B) w :
  (modify g ≫= f) w = f tt (mkWorld (w_engine w) (g (w_state w)) (w_draws w)).
Proof. done. Qed.
Lemma random32_bind `{Rng} {B} (f : Random32 → M B) w :
  (random32 ≫= f) w = f (draw (w_draws w)) (mkWorld (w_engine w) (w_state w) (S (w_draws w))).
Proof. done. Qed.
Lemma set_dek_bind {B} dek (f : unit → M B) w :
  (set_dek dek ≫= f) w =
    f tt (mkWorld (mkEngine (en_defaults (w_engine w)) dek) (w_state w) (w_draws w)).
Proof. done. Qed.
(** A fallible pure step, by cases on what it gives. *)
Lemma lift_bind {A B} (r : result EngineError A) (f : A → M B) w :
  (lift r ≫= f) w = match r with Ok a => f a w | Err e => (w, Err (Refuse e)) end.
Proof. by destruct r. Qed.
Lemma mret_run {A} (a : A) w : mret (M := M) a w = (w, Ok a).
Proof. done. Qed.

Create Rewrite HintDb run.
#[export] Hint Rewrite @bind_assoc @mret_bind @gets_bind @lift_Ok_bind @lift_Err_bind @lift_Some_bind
  @lift_None_bind  @refuse_bind @expect_Some_bind @expect_None_bind @get_state_bind @get_engine_bind
  @modify_bind @set_dek_bind @random32_bind @mret_run : run.

(** Run the computation in the goal as far as its cases are known. *)
Ltac run := repeat (progress (autorewrite with run; cbn [w_engine w_state w_draws])).

(** * Secrets, ids and records ([vault.rs]) *)

Definition require_dek (en : Engine) : result EngineError AeadKey := ok_or Locked (en_dek en).

Definition require_tick (st : EngineState) : result EngineError UnixSeconds :=
  ok_or NotTicked (es_ticked st).

Section Records.
Context `{Suite}.

Definition engine_secret (en : Engine) : result EngineError Secret :=
  dek ← require_dek en;
  Ok (from_bytes (as_bytes (expand (from_bytes (as_bytes dek)) (blit "chuchotez/1/engine")))).

Definition engine_conversation_id (en : Engine) : result EngineError ConversationId :=
  secret ← engine_secret en;
  Ok (from_bytes (as_bytes
        (expand (from_bytes (as_bytes secret)) (blit "chuchotez/1/engine-id")))).

Definition tx_id (conv_secret : Secret) (payload : TxPayload) : Tag :=
  let key := expand (from_bytes (as_bytes conv_secret)) (blit "chuchotez/1/tx-id") in
  from_bytes (as_bytes (mac (from_bytes (as_bytes key)) (json_encode (payload_to_json payload)))).

(** [nonce_bytes[..4] = version; nonce_bytes[4..] = seq]. *)
Lemma record_nonce_ok (version : N) (seq : u64) :
  Nat.eqb (length (be_bytes 4 version ++ to_be_bytes seq)) 12 = true.
Proof. reflexivity. Qed.

Definition record_nonce (version : N) (seq : PersistSeq) : arr 12 :=
  mkChecked (be_bytes 4 version ++ to_be_bytes seq) (record_nonce_ok version seq).

(** [nonce || seal(dek, nonce, packed)]. *)
Definition sealed_record (dek : AeadKey) (nonce : arr 12) (packed : bytes) : bytes :=
  cval nonce ++ aead_seal dek nonce [] packed.

Definition persist_record (en : Engine) (seq : PersistSeq) (body : DurableBody) :
    result EngineError bytes :=
  dek ← require_dek en;
  _ ← refuse_if (cval seq =? u64_max)%N MalformedPersist;
  let canonical := json_encode (durable_body_to_json body) in
  _ ← refuse_if (negb (N.of_nat (length canonical) <=? PERSIST_MAX_UNCOMPRESSED)%N) BodyTooLarge;
  Ok (sealed_record dek (record_nonce PERSIST_VERSION seq) (compress canonical)).

(** [Hlc { wall_ms: now * 1000, counter: 0 }], saturating. *)
Definition hlc_at (now : UnixSeconds) : Hlc := mkHlc (clamp64 (cval now * 1000)) (clamp64 0).

(** [insert_body(id, body)?]. *)
Definition insert_body_m (id : Tag) (body : DurableBody) : M unit := λ w,
  let '(st, r) := insert_body id body (w_state w) in
  (mkWorld (w_engine w) st (w_draws w), map_err Refuse r).

(** [persist_log.insert(next_seq, id); next_seq += 1], saturating. *)
Definition log_persist (id : Tag) (st : EngineState) : EngineState :=
  with_persist (sat_add (es_next_seq st) 1) (<[es_next_seq st := id]> (es_persist_log st)) st.

(** [let seq = next_seq; let rec = persist_record(seq, body)?; log_persist; insert_body(id, body)?]. *)
Definition store_new (id : Tag) (body : DurableBody) : M bytes :=
  st ← get_state;
  en ← get_engine;
  persist ← lift (persist_record en (es_next_seq st) body);
  _ ← modify (log_persist id);
  _ ← insert_body_m id body;
  mret persist.

Definition merge_tx (conv_secret : Secret) (cid : ConversationId) (payload : TxPayload) :
    M (Tag * DurableBody * bytes) :=
  st ← get_state;
  en ← get_engine;
  now ← lift (require_tick st);
  let id := tx_id conv_secret payload in
  let b := mkDurableBody cid (hlc_at now) payload in
  match body st id with
  | Some existing =>
      if decide (db_payload existing = payload) then
        persist ← lift (persist_record en (es_next_seq st) existing);
        mret (id, existing, persist)
      else refuse Equivocation
  | None => persist ← store_new id b; mret (id, b, persist)
  end.

Definition mutate_on (conv_secret : Secret) (cid : ConversationId) (payloads : list TxPayload) :
    M (list bytes) :=
  map_m (λ payload, '(_, _, rec) ← merge_tx conv_secret cid payload; mret rec) payloads.

End Records.

(** * Results of mutations ([query.rs]) *)

Record PingTarget : Set := mkPingTarget {
  pt_endpoint : str; pt_p256dh : arr 65; pt_auth : arr 16; pt_vapid_pk : option bytes
}.

Record MutateOk : Type := mkMutateOk {
  mo_state : EngineState; mo_persist : list bytes; mo_pings : list PingTarget
}.

(** A public operation: the state goes in by value and comes out in [MutateOk]. *)
Definition mutation (m : M (list bytes * list PingTarget)) (w : World) : result fault MutateOk :=
  match m w with
  | (w', Ok (persist, pings)) => Ok (mkMutateOk (w_state w') persist pings)
  | (_, Err e) => Err e
  end.

#[global] Arguments sealed_record : simpl never.
#[global] Arguments record_nonce : simpl never.
#[global] Arguments be_bytes : simpl never.
