(* ===== verification/Frame.v ===== *)
(** Frame reasoning for engine computations: a preorder on worlds that every primitive
    respects is respected by everything composed of them, whatever branch is taken and
    whether it ends with a value, an error or a panic.

    [Evolves R m] says that running [m] moves the world along [R].  [forward] is the
    preorder of the sending paths: queued writes are never withdrawn or reordered, the
    clock and the handle stay, and the persist log only gains entries at fresh sequence
    numbers.  [outbox] is the part of the state it looks at; a change of rows, chains or
    fragment sets leaves it alone (hint database [outbox]). *)

From stdpp Require Import base tactics list numbers option strings countable gmap.
From Stdlib Require Import Strings.Byte.
From S2P Require Import Prelude Text Ids Order Channel Defaults Payload Json Ports Codec.
From S2P Require Import Chain RowLog Party HealRange Bins State StateLaws Helpers Engine.

(** * Computations along a preorder *)

Class Evolves (R : relation World) {A} (m : M A) : Prop := evolves : ∀ w, R w (m w).1.

Section Evolves.
Context (R : relation World) `{!PreOrder R}.

#[export] Instance evolves_mret {A} (a : A) : Evolves R (mret (M := M) a).
Proof. intros w. by cbn. Qed.
#[export] Instance evolves_gets {A} (f : EngineState → A) : Evolves R (gets f).
Proof. intros w. by cbn. Qed.
#[export] Instance evolves_get_engine : Evolves R get_engine.
Proof. intros w. by cbn. Qed.
#[export] Instance evolves_lift {A} (r : result EngineError A) : Evolves R (lift r).
Proof. intros w. by cbn. Qed.
#[export] Instance evolves_refuse {A} e : Evolves R (@refuse A e).
Proof. intros w. by cbn. Qed.
#[export] Instance evolves_expect {A} (o : option A) : Evolves R (expect o).
Proof. intros w. by cbn. Qed.

Lemma evolves_bind {A B} (m : M A) (f : A → M B) :
  Evolves R m → (∀ a, Evolves R (f a)) → Evolves R (m ≫= f).
Proof.
  intros Hm Hf w. rewrite bind_run. specialize (Hm w). destruct (m w) as [w' [a|e]]; cbn in *; [|done].
  etrans; [done|]. apply Hf.
Qed.

Lemma evolves_for_each {A} (f : A → M unit) l : (∀ a, Evolves R (f a)) → Evolves R (for_each f l).
Proof.
  intros Hf. induction l as [|a l IH]; cbn [for_each]; [apply _|]. apply evolves_bind; [done|by intros _].
Qed.

Lemma evolves_map_m {A B} (f : A → M B) l : (∀ a, Evolves R (f a)) → Evolves R (map_m f l).
Proof.
  intros Hf. induction l as [|a l IH]; cbn [map_m]; [apply _|].
  apply evolves_bind; [done|]. intros b. apply evolves_bind; [done|]. intros bs. apply _.
Qed.
End Evolves.

Create HintDb evolve.

(** Decompose a computation down to its primitives; what is left is looked up in [evolve]. *)
Ltac evolve_step :=
  lazymatch goal with
  | |- Evolves _ (mbind _ _) => apply (evolves_bind _)
  | |- Evolves _ (for_each _ _) => apply (evolves_for_each _)
  | |- Evolves _ (map_m _ _) => apply (evolves_map_m _)
  | |- Evolves _ (match ?x with _ => _ end) => destruct x
  | |- ∀ _, _ => intros ?
  | |- Evolves _ _ => first [apply _ | solve [auto with evolve]]
  end.
Ltac evolve := cbv zeta; repeat (evolve_step; cbv zeta).

(** * Computations without a panic *)

(** Whatever state [m] starts from, it ends with a value or an [EngineError]. *)
Class Calm {A} (m : M A) : Prop := calm : ∀ w, (m w).2 ≠ Err Panic.

#[export] Instance calm_mret {A} (a : A) : Calm (mret (M := M) a).
Proof. by intros w. Qed.
#[export] Instance calm_gets {A} (f : EngineState → A) : Calm (gets f).
Proof. by intros w. Qed.
#[export] Instance calm_get_engine : Calm get_engine.
Proof. by intros w. Qed.
#[export] Instance calm_modify f : Calm (modify f).
Proof. by intros w. Qed.
#[export] Instance calm_set_dek dek : Calm (set_dek dek).
Proof. by intros w. Qed.
#[export] Instance calm_refuse {A} e : Calm (@refuse A e).
Proof. by intros w. Qed.
#[export] Instance calm_random32 `{Rng} : Calm random32.
Proof. by intros w. Qed.
#[export] Instance calm_lift {A} (r : result EngineError A) : Calm (lift r).
Proof. intros w. by destruct r. Qed.
#[export] Instance calm_insert id b : Calm (insert_body_m id b).
Proof. intros w. unfold insert_body_m. by destruct (insert_body _ _ _) as [st []]. Qed.

Lemma calm_bind {A B} (m : M A) (f : A → M B) : Calm m → (∀ a, Calm (f a)) → Calm (m ≫= f).
Proof.
  intros Hm Hf w. rewrite bind_run. specialize (Hm w). destruct (m w) as [w' [a|e]]; [apply Hf|].
  cbn in *. congruence.
Qed.

Lemma calm_for_each {A} (f : A → M unit) l : (∀ a, Calm (f a)) → Calm (for_each f l).
Proof. intros Hf. induction l as [|a l IH]; cbn [for_each]; [apply _|]. by apply calm_bind. Qed.

Lemma calm_map_m {A B} (f : A → M B) l : (∀ a, Calm (f a)) → Calm (map_m f l).
Proof.
  intros Hf. induction l as [|a l IH]; cbn [map_m]; [apply _|].
  apply calm_bind; [done|]. intros b. apply calm_bind; [done|]. intros bs. apply _.
Qed.

(** Running past a step that cannot panic. *)
Lemma calm_step {A B} (m : M A) (f : A → M B) w :
  Calm m → (∀ w' a, m w = (w', Ok a) → (f a w').2 ≠ Err Panic) → ((m ≫= f) w).2 ≠ Err Panic.
Proof.
  intros Hm Hf. rewrite bind_run. specialize (Hm w). destruct (m w) as [w' [a|e]]; [by apply Hf|].
  cbn in *. congruence.
Qed.

Ltac calm_step :=
  lazymatch goal with
  | |- Calm (mbind _ _) => apply calm_bind
  | |- Calm (for_each _ _) => apply calm_for_each
  | |- Calm (map_m _ _) => apply calm_map_m
  | |- Calm (match ?x with _ => _ end) => destruct x
  | |- ∀ _, _ => intros ?
  | |- Calm _ => apply _
  end.
Ltac calm := cbv zeta; repeat (calm_step; cbv zeta).

#[export] Instance calm_seed `{Rng} : Calm random_seed.
Proof. unfold random_seed. calm. Qed.
#[export] Instance calm_store_new `{Suite} id b : Calm (store_new id b).
Proof. unfold store_new, get_state. calm. Qed.
#[export] Instance calm_merge_tx `{Suite} secret cid payload : Calm (merge_tx secret cid payload).
Proof. unfold merge_tx, get_state. calm. Qed.

(** * Drawing only *)

Definition idle (w w' : World) : Prop :=
  w_engine w' = w_engine w ∧ w_state w' = w_state w.

#[export] Instance idle_preorder : PreOrder idle.
Proof. split; [done|]. intros w1 w2 w3 [] []. split; congruence. Qed.

#[export] Instance random32_idle `{Rng} : Evolves idle random32.
Proof. by intros w. Qed.
#[export] Instance random_seed_idle `{Rng} : Evolves idle random_seed.
Proof. unfold random_seed. evolve. Qed.

(** * The sending paths *)

(** What the sending paths change in a known way, or not at all. *)
Definition outbox (st : EngineState) :=
  (es_ticked st, es_writes st, es_eph_writes st, es_blob_puts st, es_next_seq st,
   es_persist_log st, es_bin_progress st).

(** Every recorded sequence number has been used up. *)
Definition log_ok (st : EngineState) : Prop :=
  ∀ seq, is_Some (es_persist_log st !! seq) → (cval seq < cval (es_next_seq st))%N.

(** The log of [st'] has the entries of [st], and all others at numbers [st] has not used. *)
Definition log_grows (st st' : EngineState) : Prop :=
  log_ok st' ∧ es_persist_log st ⊆ es_persist_log st' ∧
  ∀ seq, is_Some (es_persist_log st' !! seq) →
    is_Some (es_persist_log st !! seq) ∨ (cval (es_next_seq st) ≤ cval seq)%N.

Record forward (w w' : World) : Prop := mkForward {
  fw_engine : w_engine w' = w_engine w;
  fw_draws : (w_draws w ≤ w_draws w')%nat;
  fw_ticked : es_ticked (w_state w') = es_ticked (w_state w);
  fw_writes : es_writes (w_state w) `prefix_of` es_writes (w_state w');
  fw_eph : es_eph_writes (w_state w) `prefix_of` es_eph_writes (w_state w');
  fw_blobs : es_blob_puts (w_state w) `prefix_of` es_blob_puts (w_state w');
  fw_seq : (cval (es_next_seq (w_state w)) ≤ cval (es_next_seq (w_state w')))%N;
  fw_log : log_ok (w_state w) → log_grows (w_state w) (w_state w');
  fw_bins : es_bin_progress (w_state w') = es_bin_progress (w_state w)
}.

Lemma log_grows_refl st : log_ok st → log_grows st st.
Proof. intros H. split_and!; [done|done|by left]. Qed.

Lemma log_grows_trans st1 st2 st3 :
  (cval (es_next_seq st1) ≤ cval (es_next_seq st2))%N →
  log_grows st1 st2 → log_grows st2 st3 → log_grows st1 st3.
Proof.
  intros Hs (_ & H1 & H2) (H3 & H4 & H5). split_and!; [done|by etrans|].
  intros seq [Hq|Hq]%H5; [by apply H2|right; lia].
Qed.

(** The log and its counter left alone. *)
Lemma log_grows_same st st' :
  es_next_seq st' = es_next_seq st → es_persist_log st' = es_persist_log st →
  log_ok st → log_grows st st'.
Proof.
  intros Hs Hl H. unfold log_grows, log_ok. rewrite Hs, Hl. split_and!; [done|done|by left].
Qed.

#[export] Instance forward_preorder : PreOrder forward.
Proof.
  split.
  - intros w. split; auto using log_grows_refl.
  - intros w1 w2 w3 [] []. split; try congruence; try lia; try (by etrans).
    intros Hw. apply fw_log0 in Hw as Hg. eapply log_grows_trans; [done..|]. apply fw_log1, Hg.
Qed.

Lemma forward_outbox en n n' st st' :
  outbox st' = outbox st → (n ≤ n')%nat → forward (mkWorld en st n) (mkWorld en st' n').
Proof.
  unfold outbox. intros [= H1 H2 H3 H4 H5 H6 H7] Hn.
  split; cbn; rewrite ?H1, ?H2, ?H3, ?H4, ?H5; try done. by apply log_grows_same.
Qed.

Lemma evolves_modify (f : EngineState → EngineState) :
  (∀ st, outbox (f st) = outbox st) → Evolves forward (modify f).
Proof. intros Hf [en st n]. by apply forward_outbox. Qed.

#[export] Instance evolves_random32 `{Rng} : Evolves forward random32.
Proof. intros [en st n]. apply forward_outbox; [done|cbn; lia]. Qed.

#[export] Instance evolves_random_seed `{Rng} : Evolves forward random_seed.
Proof. unfold random_seed. evolve. Qed.

(** Queueing at the end. *)
Lemma evolves_push_writes ws :
  Evolves forward (modify (λ st, with_writes (es_writes st ++ ws) st)).
Proof.
  intros [en st n]. split; cbn; first [done|lia|by apply prefix_app_r|by apply log_grows_same].
Qed.
Lemma evolves_push_eph ws :
  Evolves forward (modify (λ st, with_eph_writes (es_eph_writes st ++ ws) st)).
Proof.
  intros [en st n]. split; cbn; first [done|lia|by apply prefix_app_r|by apply log_grows_same].
Qed.

(** * Changes that leave the outbox alone *)

Lemma outbox_with_store log places users device st :
  outbox (with_store log places users device st) = outbox st.
Proof. done. Qed.

Lemma outbox_chains_mut cid f st : outbox (chains_mut cid f st) = outbox st.
Proof. unfold chains_mut. by destruct (scan _ _) as [[[]]|]. Qed.

Lemma outbox_established_mut cid f st : outbox (established_mut cid f st) = outbox st.
Proof. unfold established_mut. by destruct (scan _ _) as [[[]]|]. Qed.

Lemma outbox_party_mut cid f st : outbox (party_mut cid f st) = outbox st.
Proof. unfold party_mut. by destruct (scan _ _) as [[[]]|]. Qed.

Lemma outbox_each_chains_mut f st : outbox (each_chains_mut f st) = outbox st.
Proof. done. Qed.

Lemma outbox_with_frags frags st : outbox (with_frags frags st) = outbox st.
Proof. done. Qed.

Lemma outbox_put_dm user identity_id cid node st :
  outbox (put_dm user identity_id cid node st) = outbox st.
Proof. unfold put_dm, ensure_identity, ensure_user. by repeat case_match. Qed.

Lemma outbox_spawn handshake child secret peer st :
  outbox (spawn_established handshake child secret peer st) = outbox st.
Proof.
  unfold spawn_established. repeat case_match; try done. apply outbox_put_dm.
Qed.

Lemma outbox_drop cid st : outbox (drop_conversation cid st).2 = outbox st.
Proof. unfold drop_conversation. by destruct (scan _ _) as [[[]]|]. Qed.

Lemma outbox_rekey from to st : outbox (rekey_conversation from to st) = outbox st.
Proof. done. Qed.

Lemma outbox_store_durable cid actor xor st :
  outbox (store_durable_last_ack cid actor xor st) = outbox st.
Proof. unfold store_durable_last_ack. repeat case_match; [apply outbox_chains_mut|done..]. Qed.

Lemma outbox_remove id st : outbox (remove_body id st) = outbox st.
Proof. unfold remove_body. by destruct (es_tx_place st !! id) as [[]|]. Qed.

Lemma outbox_write_row id b st st' : write_row id b st = Some st' → outbox st' = outbox st.
Proof.
  unfold write_row. destruct (place_of _ _) as [[|u i c|c]|].
  1, 4: destruct (log_insert id b (es_engine_log st)); cbn; [by intros [= <-]|done].
  - destruct (identity_row st u i c) as [k|]; cbn; [|done].
    destruct (identity_insert id b k); cbn; [by intros [= <-]|done].
  - destruct (device_row c (device_insert id b) st); cbn; [by intros [= <-]|done].
Qed.

Lemma outbox_insert_body id b st : outbox (insert_body id b st).1 = outbox st.
Proof.
  unfold insert_body.
  assert (outbox (match es_tx_place st !! id with Some _ => remove_body id st | None => st end)
            = outbox st) as Ho by (case_match; auto using outbox_remove).
  cbv zeta. rewrite <-Ho. destruct (write_row id b _) as [st''|] eqn:E; [|done].
  by apply outbox_write_row in E.
Qed.

Create Rewrite HintDb outbox.
#[export] Hint Rewrite outbox_with_store outbox_chains_mut outbox_established_mut outbox_party_mut
  outbox_each_chains_mut outbox_with_frags outbox_put_dm outbox_spawn outbox_drop
  outbox_rekey outbox_store_durable outbox_remove outbox_insert_body : outbox.

Ltac quiet := intros; by autorewrite with outbox.
#[export] Hint Extern 4 (Evolves forward (modify _)) => apply evolves_modify; quiet : evolve.
#[export] Hint Resolve evolves_push_writes evolves_push_eph : evolve.

(** * Storing a new transaction *)

Lemma log_persist_forward en st n id :
  cval (es_next_seq st) ≠ u64_max →
  forward (mkWorld en st n) (mkWorld en (log_persist id st) n).
Proof.
  intros Hs. assert (cval (es_next_seq st) < cval (sat_add (es_next_seq st) 1))%N as Hlt
    by (pose proof (u64_le_max (es_next_seq st)); u64_lia).
  split; cbn; try done; [lia|]. intros Hl. split_and!.
  - intros seq Hseq. cbn in *. destruct (decide (seq = es_next_seq st)) as [->|Hne]; [done|].
    rewrite lookup_insert_ne in Hseq by done. apply Hl in Hseq. lia.
  - apply insert_subseteq. apply eq_None_not_Some. intros Hx. apply Hl in Hx. lia.
  - intros seq. cbn. destruct (decide (seq = es_next_seq st)) as [->|Hne]; [by right|].
    rewrite lookup_insert_ne by done. by left.
Qed.

Lemma persist_record_seq `{Suite} en seq b record :
  persist_record en seq b = Ok record → cval seq ≠ u64_max.
Proof.
  unfold persist_record, require_dek. destruct (en_dek en); [|done]. cbn.
  destruct (_ =? _)%N eqn:Hs; [done|]. intros _. by apply N.eqb_neq.
Qed.

#[export] Instance store_new_forward `{Suite} id b : Evolves forward (store_new id b).
Proof.
  intros [en st n]. unfold store_new. run.
  destruct (persist_record _ _ _) as [record|e] eqn:E; [|done]. run.
  apply persist_record_seq in E. etrans; [by apply (log_persist_forward _ _ _ id)|].
  rewrite bind_run. unfold insert_body_m. cbn [w_state w_engine w_draws].
  pose proof (outbox_insert_body id b (log_persist id st)) as Ho.
  destruct (insert_body _ _ _) as [st' [[]|e]]; cbn in *; by apply forward_outbox.
Qed.

#[export] Instance merge_tx_forward `{Suite} secret cid payload :
  Evolves forward (merge_tx secret cid payload).
Proof. unfold merge_tx. evolve. Qed.

#[export] Instance mutate_on_forward `{Suite} secret cid payloads :
  Evolves forward (mutate_on secret cid payloads).
Proof. unfold mutate_on. evolve. Qed.
