(* ===== verification/Ratchet.v ===== *)
(** Advertise, wrap, acknowledge and mix on a conversation's sending chain
    ([engine/ratchet.rs]). *)

From stdpp Require Import base tactics list numbers option strings countable gmap.
From Stdlib Require Import Strings.Byte.
From S2P Require Import Prelude Text Ids Order Channel Defaults Payload Json Ports Codec.
From S2P Require Import Chain RowLog Party HealRange Bins State StateLaws Helpers Engine.

Definition OWED_PACKETS : N := 50.
Definition MIX_STRIDE : N := 8.
Definition MIX_READY : N := 8.
Definition UNUSED_CAP : nat := 8.

(** * Chains that are there *)

(** The chains [established_mut] finds, and the change behind [established_mut(cid).expect(..)]. *)
Definition established_at (st : EngineState) (cid : ConversationId) : option EstablishedChains :=
  match scan (row cid established_of_identity) st with
  | Some (_, _, c) => Some c
  | None => device_row cid established_of_device st
  end.

Definition chains_at (st : EngineState) (cid : ConversationId) : option PacketChains :=
  match scan (row cid packet_of_identity) st with
  | Some (_, _, c) => Some c
  | None => device_row cid packet_of_device st
  end.

Definition expect_established_mut (cid : ConversationId)
    (f : EstablishedChains → EstablishedChains) : M unit :=
  st ← get_state; _ ← expect (established_at st cid); modify (established_mut cid f).

Definition expect_chains_mut (cid : ConversationId) (f : PacketChains → PacketChains) : M unit :=
  st ← get_state; _ ← expect (chains_at st cid); modify (chains_mut cid f).

Definition with_ratchet (f : Ratchet → Ratchet) (c : EstablishedChains) : EstablishedChains :=
  mkEstablishedChains (ec_packet c) (f (ec_ratchet c)) (ec_presence_sent c)
    (ec_chat_senders c) (ec_typing c) (ec_presence_at c).

(** [state.established(cid).map(|c| c.ratchet..)]. *)
Definition ratchet_of (st : EngineState) (cid : ConversationId) : option Ratchet :=
  ec_ratchet <$> established st cid.

(** * What is owed *)

Inductive Effect : Type :=
| EffectAdvertise (pk sk : bytes)
| EffectWrap (shared : Secret) (ct_hash : Tag) (encaps_pk : EncryptionPublicKey)
| EffectAck.

Record Minted : Type := mkMinted { mn_payload : TxPayload; mn_effect : Effect }.

Definition identity_policy_of (st : EngineState) (user : UserId) (identity_id : IdentityId) :
    option Policy :=
  find_map (λ b, match db_payload b with
                 | PEngineCreateIdentity u i policy _ _ =>
                     if branded_eq u user && branded_eq i identity_id then Some policy else None
                 | _ => None
                 end) (bodies st).

Definition conversation_policy (st : EngineState) (cid : ConversationId) : option Policy :=
  match notice_for st cid with
  | Some notice => Some (n_policy notice)
  | None =>
    match parent ← established_parent st cid; notice_for st parent with
    | Some notice => Some (n_policy notice)
    | None => '(user, identity_id) ← owner st cid; identity_policy_of st user identity_id
    end
  end.

Definition is_ack_of (cid : ConversationId) (tag : Tag) (b : DurableBody) : bool :=
  branded_eq (db_conversation_id b) cid
  && match db_payload b with PAck ratchet_ack => branded_eq ratchet_ack tag | _ => false end.

Definition ack_exists (st : EngineState) (cid : ConversationId) (tag : Tag) : bool :=
  existsb (is_ack_of cid tag) (bodies st).

Definition ack_watermarked (st : EngineState) (cid : ConversationId) (tag : Tag) : bool :=
  existsb (λ '(id, b), is_ack_of cid tag b && tx_watermarked st id) (body_pairs st).

(** The advertised keys of the peer that are watermarked, with their ids. *)
Definition peer_advertises (st : EngineState) (cid : ConversationId) (policy : Policy)
    (minted : gset Tag) : list EncryptionPublicKey :=
  omap (λ '(id, b),
      match db_payload b with
      | PAdvertise encaps_pk =>
          if negb (branded_eq (db_conversation_id b) cid) || bool_decide (id ∈ minted) then None
          else if negb (Nat.eqb (length (enc_bytes encaps_pk)) (kem_pk_len policy))
                  || negb (tx_watermarked st id) then None
          else Some encaps_pk
      | _ => None
      end) (body_pairs st).

Definition ack_of_wrap (st : EngineState) (cid : ConversationId) : option TxPayload :=
  r ← ratchet_of st cid;
  find_map (λ known,
      if ks_from_us known || negb (tx_watermarked st (ks_wrap_tx known)) then None
      else if ack_watermarked st cid (ks_ct_hash known) then None
      else if ack_exists st cid (ks_ct_hash known) then None
      else Some (PAck (ks_ct_hash known))) (rt_known r).

Section Ratchet.
Context `{Suite, Rng}.

Definition digest_tag (bs : bytes) : Tag := from_bytes (sha256 bs).

Definition ack_of_advertise (st : EngineState) (cid : ConversationId) (policy : Policy) :
    option TxPayload :=
  r ← ratchet_of st cid;
  find_map (λ encaps_pk,
      let tag := digest_tag (enc_bytes encaps_pk) in
      if ack_exists st cid tag then None else Some (PAck tag))
    (peer_advertises st cid policy (rt_minted r)).

(** The loop of [wrap_to_peer]: each candidate draws a seed. *)
Fixpoint wrap_first (policy : Policy) (candidates : list EncryptionPublicKey) :
    M (option Minted) :=
  match candidates with
  | [] => mret None
  | encaps_pk :: rest =>
      seed ← random_seed;
      match '(shared, kem_ct) ← kem_wrap policy (enc_bytes encaps_pk) seed;
            shared ← try_into 32 shared; Some (shared, kem_ct) with
      | Some (shared, kem_ct) =>
          mret (Some (mkMinted (PWrap kem_ct)
            (EffectWrap (from_bytes shared) (digest_tag kem_ct) encaps_pk)))
      | None => wrap_first policy rest
      end
  end.

Definition wrap_to_peer (cid : ConversationId) (policy : Policy) : M (option Minted) :=
  st ← get_state;
  match ratchet_of st cid with
  | None => mret None
  | Some r =>
      let wrapped := map ks_encaps_pk (filter (λ k, ks_from_us k = true) (rt_known r)) in
      wrap_first policy
        (filter (λ pk, pk ∉ wrapped) (peer_advertises st cid policy (rt_minted r)))
  end.

Definition advertise (policy : Policy) : M (option Minted) :=
  seed ← random_seed;
  mret (keys ← kem_generate policy seed;
        Some (mkMinted (PAdvertise (EncryptionPublicKey_from_bytes (kp_public keys)))
                (EffectAdvertise (kp_public keys) (kp_secret keys)))).

(** An acknowledgement, a wrap, or a fresh advertise, in that order. *)
Definition choose_owed (cid : ConversationId) (policy : Policy) : M (option Minted) :=
  st ← get_state;
  match ack_of_wrap st cid with
  | Some payload => mret (Some (mkMinted payload EffectAck))
  | None =>
    match ack_of_advertise st cid policy with
    | Some payload => mret (Some (mkMinted payload EffectAck))
    | None =>
        wrapped ← wrap_to_peer cid policy;
        match wrapped with
        | Some minted => mret (Some minted)
        | None => advertise policy
        end
    end
  end.

(** What minting leaves in the ratchet. *)
Definition ratchet_minted (tx_id : Tag) (effect : Effect) (r : Ratchet) : Ratchet :=
  let minted := {[tx_id]} ∪ rt_minted r in
  match effect with
  | EffectAdvertise pk sk =>
      let unused := if bool_decide (UNUSED_CAP ≤ length (rt_unused r))%nat
                    then drop 1 (rt_unused r) else rt_unused r in
      mkRatchet (clamp64 0) minted
        (unused ++ [mkUnusedSk tx_id (EncryptionPublicKey_from_bytes pk) sk]) (rt_known r)
  | EffectWrap shared ct_hash encaps_pk =>
      mkRatchet (clamp64 0) minted (rt_unused r)
        (rt_known r ++ [mkKnownShared tx_id shared ct_hash true encaps_pk])
  | EffectAck => mkRatchet (clamp64 0) minted (rt_unused r) (rt_known r)
  end.

Definition mint_if_owed (cid : ConversationId) (secret : Secret) : M (option Tag) :=
  st ← get_state;
  if is_sync st cid || negb (bool_decide (is_Some (established_secret st cid)))
  then mret None
  else
    let since := default (clamp64 0) (rt_since <$> ratchet_of st cid) in
    if (cval since <? OWED_PACKETS)%N then mret None
    else
      match conversation_policy st cid with
      | None => mret None
      | Some policy =>
          owed ← choose_owed cid policy;
          match owed with
          | None => mret None
          | Some minted =>
              '(tx_id, _, _) ← merge_tx secret cid (mn_payload minted);
              _ ← expect_established_mut cid
                    (with_ratchet (ratchet_minted tx_id (mn_effect minted)));
              mret (Some tx_id)
          end
      end.

(** * Wraps from the peer *)

(** The first unused secret key that opens the wrap to 32 bytes, with its place. *)
Fixpoint find_unwrapped (policy : Policy) (ct : bytes) (i : nat) (unused : list UnusedSk) :
    option (nat * arr 32) :=
  match unused with
  | [] => None
  | sk :: rest =>
      match shared ← kem_unwrap policy (us_sk sk) ct; try_into 32 shared with
      | Some shared => Some (i, shared)
      | None => find_unwrapped policy ct (S i) rest
      end
  end.

Definition ratchet_absorbed (wrap_tx : Tag) (ct : bytes) (i : nat) (shared : arr 32)
    (r : Ratchet) : Ratchet :=
  mkRatchet (rt_since r) (rt_minted r) (delete i (rt_unused r))
    (rt_known r ++ [mkKnownShared wrap_tx (from_bytes shared) (digest_tag ct) false
                      (EncryptionPublicKey_from_bytes [])]).

(** [None] is the panic of [unused.remove(index)]: the keys were read through [established]
    and are removed through [established_mut]. *)
Definition absorb_wrap (policy : Policy) (cid : ConversationId) (st : EngineState)
    (wrap : Tag * bytes) : option EngineState :=
  let '(wrap_tx, ct) := wrap in
  if negb (Nat.eqb (length ct) (kem_ct_len policy)) then Some st
  else
    match find_unwrapped policy ct 0 (default [] (rt_unused <$> ratchet_of st cid)) with
    | None => Some st
    | Some (i, shared) =>
      match established_at st cid with
      | None => Some st
      | Some c =>
          _ ← rt_unused (ec_ratchet c) !! i;
          Some (established_mut cid (with_ratchet (ratchet_absorbed wrap_tx ct i shared)) st)
      end
    end.

(** The wraps of the conversation that are neither ours nor known. *)
Definition peer_wraps (st : EngineState) (cid : ConversationId) : list (Tag * bytes) :=
  let minted := default ∅ (rt_minted <$> ratchet_of st cid) in
  let known := default [] ((λ r, map ks_wrap_tx (rt_known r)) <$> ratchet_of st cid) in
  omap (λ '(id, b),
      match db_payload b with
      | PWrap kem_ct =>
          if branded_eq (db_conversation_id b) cid && negb (bool_decide (id ∈ minted))
             && negb (bool_decide (id ∈ known))
          then Some (id, kem_ct) else None
      | _ => None
      end) (body_pairs st).

Definition absorb_wraps (policy : Policy) (cid : ConversationId)
    (wraps : list (Tag * bytes)) (st : EngineState) : option EngineState :=
  fold_left (λ acc wrap, st ← acc; absorb_wrap policy cid st wrap) wraps (Some st).

Definition absorb_peer_wraps (cid : ConversationId) (st : EngineState) : option EngineState :=
  match conversation_policy st cid with
  | None => Some st
  | Some policy => absorb_wraps policy cid (peer_wraps st cid) st
  end.

(** * Mixing *)

Definition mix_due (chain : SendChain) : bool :=
  let seq := cval (sc_packet_seq chain) in (0 <? seq)%N && (seq mod MIX_STRIDE =? 0)%N.

(** The agreed secrets with the transactions that carried them. *)
Definition agreed_rows (st : EngineState) (cid : ConversationId) (from_us : bool) :
    list (Tag * Secret) :=
  match ratchet_of st cid with
  | None => []
  | Some r =>
      map (λ k, (ks_wrap_tx k, ks_shared k))
        (filter (λ k, (Bool.eqb (ks_from_us k) from_us && tx_watermarked st (ks_wrap_tx k)
                       && ack_watermarked st cid (ks_ct_hash k)) = true) (rt_known r))
  end.

Definition agreed_shareds (st : EngineState) (cid : ConversationId) (from_us : bool) :
    list Secret :=
  map snd (sort_by (λ a b, branded_cmp a.1 b.1) (agreed_rows st cid from_us)).

Definition next_shared (st : EngineState) (cid : ConversationId) (from_us : bool)
    (epoch : u64) : option Secret :=
  let agreed := agreed_shareds st cid from_us in
  if (N.of_nat (length agreed) <? N.min (cval epoch + MIX_READY) u64_max)%N then None
  else agreed !! N.to_nat (cval epoch).

Definition mixed_chain (st : EngineState) (cid : ConversationId) (sort : ConversationSort)
    (chain : SendChain) (from_us : bool) : option SendChain :=
  if mix_due chain then
    shared ← next_shared st cid from_us (sc_epoch chain);
    match mix chain sort shared with Ok c => Some c | Err _ => None end
  else None.

Definition note_sent_packet (cid : ConversationId) (st : EngineState) : EngineState :=
  established_mut cid (with_ratchet (λ r,
    mkRatchet (sat_add (rt_since r) 1) (rt_minted r) (rt_unused r) (rt_known r))) st.

End Ratchet.
