(* ===== verification/RatchetLaws.v ===== *)
(** What the ratchet of [Ratchet.v] guarantees: absorbing wraps spends exactly the advertised
    keys that open them, minting is paced and capped, and two devices that have agreed on
    the same wraps mix the same secret. *)

From stdpp Require Import base tactics list numbers option strings countable gmap sorting.
From Stdlib Require Import Strings.Byte.
From S2P Require Import Prelude Text Ids Order Channel Defaults Payload Json Ports TestDoubles Codec.
From S2P Require Import Chain RowLog Party HealRange Bins State StateLaws Helpers HelpersLaws.
From S2P Require Import Engine Frame Ratchet.

(** [established] and [established_mut] find the same chains where the first finds any. *)
Lemma established_at_of st cid c : established st cid = Some c → established_at st cid = Some c.
Proof.
  intros HE. unfold established_at. destruct (established_scan _ _ _ HE) as [(u & i & E)|(E & _ & HD)].
  - by rewrite E.
  - by rewrite E, HD.
Qed.

Lemma ratchet_of_mut_same cid f st r :
  ratchet_of st cid = Some r →
  ratchet_of (established_mut cid (with_ratchet f) st) cid = Some (f r).
Proof.
  unfold ratchet_of. destruct (established st cid) as [c|] eqn:E; [|done]. cbn. intros [= <-].
  by rewrite (established_mut_same _ _ _ _ E).
Qed.

Lemma outbox_note_sent cid st : outbox (note_sent_packet cid st) = outbox st.
Proof. apply outbox_established_mut. Qed.
#[export] Hint Rewrite outbox_note_sent : outbox.

Section Absorb.
Context `{Suite}.

(** The key unwraps the ciphertext to the secret, of 32 bytes. *)
Definition opens (policy : Policy) (ct : bytes) (sk : UnusedSk) (shared : Secret) : Prop :=
  kem_unwrap policy (us_sk sk) ct = Some (cval (as_bytes shared)).

(** A wrap that teaches nothing: its ciphertext has the wrong length, or no unused key opens it. *)
Definition passed_over (policy : Policy) (ct : bytes) (r : Ratchet) : Prop :=
  length ct ≠ kem_ct_len policy ∨ ∀ sk shared, sk ∈ rt_unused r → ¬ opens policy ct sk shared.

(** The secret a wrap teaches. *)
Definition learned_from (wrap_tx : Tag) (ct : bytes) (shared : Secret) : KnownShared :=
  mkKnownShared wrap_tx shared (digest_tag ct) false (EncryptionPublicKey_from_bytes []).

(** What wraps, in order, do to a ratchet: each is passed over, or the first unused key that
    opens it goes and its secret comes; [learned] lists the secrets. *)
Inductive absorbing (policy : Policy) :
    list (Tag * bytes) → Ratchet → Ratchet → list KnownShared → Prop :=
| absorbing_nil r : absorbing policy [] r r []
| absorbing_pass wrap_tx ct wraps r r' learned :
    passed_over policy ct r → absorbing policy wraps r r' learned →
    absorbing policy ((wrap_tx, ct) :: wraps) r r' learned
| absorbing_spend wrap_tx ct wraps r r' learned before sk after shared :
    length ct = kem_ct_len policy → rt_unused r = before ++ sk :: after →
    (∀ sk' shared', sk' ∈ before → ¬ opens policy ct sk' shared') →
    opens policy ct sk shared →
    absorbing policy wraps
      (mkRatchet (rt_since r) (rt_minted r) (before ++ after)
         (rt_known r ++ [learned_from wrap_tx ct shared])) r' learned →
    absorbing policy ((wrap_tx, ct) :: wraps) r r' (learned_from wrap_tx ct shared :: learned).

Lemma opens_try policy ct sk :
  (shared ← kem_unwrap policy (us_sk sk) ct; try_into 32 shared) = None →
  ∀ shared, ¬ opens policy ct sk shared.
Proof. unfold opens. intros HN shared HO. rewrite HO in HN. cbn in HN. by rewrite try_into_cval in HN. Qed.

Lemma find_unwrapped_Some policy ct j l i shared :
  find_unwrapped policy ct j l = Some (i, shared) →
  ∃ before sk after, i = (j + length before)%nat ∧ l = before ++ sk :: after ∧
    (∀ sk' shared', sk' ∈ before → ¬ opens policy ct sk' shared') ∧
    opens policy ct sk (from_bytes shared).
Proof.
  revert j. induction l as [|sk l IH]; intros j; cbn [find_unwrapped]; [done|].
  destruct (shared ← _; _) as [a|] eqn:E.
  - intros [= <- <-]. exists [], sk, l. split_and!; [cbn; lia|done|intros ? ? []%not_elem_of_nil|].
    apply bind_Some in E as (bs & E & Ea%check_Some). unfold opens. rewrite E. by f_equal.
  - intros (before & sk' & after & -> & -> & HB & HO)%IH. exists (sk :: before), sk', after.
    split_and!; [cbn; lia|done| |done].
    intros sk2 shared' [->|Hin]%elem_of_cons; [by apply opens_try|by apply HB].
Qed.

Lemma find_unwrapped_None policy ct j l sk shared :
  find_unwrapped policy ct j l = None → sk ∈ l → ¬ opens policy ct sk shared.
Proof.
  revert j. induction l as [|sk' l IH]; intros j; [by intros _ []%not_elem_of_nil|]. cbn [find_unwrapped].
  destruct (shared ← _; _) as [a|] eqn:E; [done|].
  intros HN [->|Hin]%elem_of_cons; [by apply opens_try|by eapply IH].
Qed.

(** One wrap: nothing, or the first key that opens it spent for one secret. *)
Lemma absorb_wrap_spec policy cid st wrap_tx ct :
  ∃ st', absorb_wrap policy cid st (wrap_tx, ct) = Some st' ∧ same_store st st' ∧
    (∀ c', c' ≠ cid → established st' c' = established st c') ∧
    match ratchet_of st cid with
    | None => st' = st
    | Some r => ∃ r1, ratchet_of st' cid = Some r1 ∧ ∀ wraps r' learned,
        absorbing policy wraps r1 r' learned →
        ∃ learned', absorbing policy ((wrap_tx, ct) :: wraps) r r' learned'
    end.
Proof.
  unfold absorb_wrap. destruct (Nat.eqb_spec (length ct) (kem_ct_len policy)) as [HL|HL]; cbn [negb].
  2: { exists st. split_and!; [done..|]. destruct (ratchet_of st cid) as [r|]; [|done]. exists r. split; [done|].
       intros wraps r' learned HA. exists learned. constructor; [by left|done]. }
  destruct (ratchet_of st cid) as [r|] eqn:Hr; cbn [fmap option_fmap option_map default];
    [|exists st; by split_and!].
  destruct (find_unwrapped _ _ _ _) as [[i shared]|] eqn:Hf.
  2: { exists st. split_and!; [done..|]. exists r. split; [done|]. intros wraps r' learned HA. exists learned.
       constructor; [|done]. right. intros sk shared Hin. by eapply find_unwrapped_None. }
  apply find_unwrapped_Some in Hf as (before & sk & after & -> & Hl & HB & HO). cbn [Nat.add].
  unfold id in Hl.
  pose proof Hr as Hr'. unfold ratchet_of in Hr. destruct (established st cid) as [c|] eqn:Hc; [|done].
  cbn in Hr. injection Hr as <-. rewrite (established_at_of _ _ _ Hc), Hl, list_lookup_middle by done.
  cbn [mbind option_bind].
  eexists. split_and!; [done|apply established_mut_same_store|intros; by apply established_mut_other|].
  eexists. split; [by apply ratchet_of_mut_same|]. intros wraps r' learned HA. eexists.
  eapply absorbing_spend; [done..|]. unfold ratchet_absorbed in HA. rewrite Hl, delete_middle in HA. exact HA.
Qed.

Lemma absorb_wraps_spec policy cid wraps st :
  ∃ st', absorb_wraps policy cid wraps st = Some st' ∧ (Located st → Located st' ∧ stored st' = stored st) ∧
    (∀ c', c' ≠ cid → established st' c' = established st c') ∧
    match ratchet_of st cid with
    | None => st' = st
    | Some r => ∃ r' learned, ratchet_of st' cid = Some r' ∧ absorbing policy wraps r r' learned
    end.
Proof.
  unfold absorb_wraps. revert st. induction wraps as [|[wrap_tx ct] wraps IH]; intros st; cbn [fold_left].
  { exists st. split_and!; [done..|]. destruct (ratchet_of st cid) as [r|]; [|done].
    exists r, []. split; [done|constructor]. }
  destruct (absorb_wrap_spec policy cid st wrap_tx ct) as (st1 & H1 & HS & HO & HC).
  cbn [mbind option_bind]. rewrite H1.
  destruct (IH st1) as (st2 & H2 & HS2 & HO2 & HC2). exists st2. split_and!; [done| | |].
  - intros HL. destruct (same_store_located _ _ HS HL) as [HL1 HE]. destruct (HS2 HL1) as [HL2 HE2].
    split; [done|congruence].
  - intros c' Hc'. by rewrite HO2, HO.
  - destruct (ratchet_of st cid) as [r|] eqn:Hr; [|subst st1; by rewrite Hr in HC2].
    destruct HC as (r1 & Hr1 & HC). rewrite Hr1 in HC2. destruct HC2 as (r2 & l & Hr2 & HA).
    destruct (HC _ _ _ HA) as [l' HA']. by exists r2, l'.
Qed.

(** What comes of it: the count of keys and secrets, and where the secrets come from. *)
Lemma absorbing_known policy wraps r r' learned :
  absorbing policy wraps r r' learned →
  rt_since r' = rt_since r ∧ rt_minted r' = rt_minted r ∧ rt_known r' = rt_known r ++ learned ∧
  (length (rt_unused r') + length learned = length (rt_unused r))%nat ∧
  map ks_wrap_tx learned `sublist_of` map fst wraps.
Proof.
  induction 1 as [r|wrap_tx ct wraps r r' learned HP HA IH|wrap_tx ct wraps r r' learned before sk after
    shared HL HU HB HO HA IH].
  - split_and!; [done..|by rewrite app_nil_r|cbn; lia|done].
  - destruct IH as (H1 & H2 & H3 & H4 & H5). split_and!; [done..|]. by apply sublist_cons.
  - destruct IH as (H1 & H2 & H3 & H4 & H5). cbn in H1, H2, H3, H4. split_and!; [done..| | |].
    + by rewrite H3, <-app_assoc.
    + rewrite length_app in H4. rewrite HU, length_app. cbn. lia.
    + by apply sublist_skip.
Qed.

Lemma peer_wraps_NoDup st cid : NoDup (map fst (peer_wraps st cid)).
Proof.
  eapply sublist_NoDup; [apply (entries_keys_NoDup (stored st))|].
  change (entries (stored st)) with (body_pairs st). unfold peer_wraps.
  induction (body_pairs st) as [|[id b] l IH]; cbn [omap list_omap map fst]; [done|].
  destruct (match db_payload b with PWrap _ => _ | _ => _ end) as [[id' ct]|] eqn:E.
  - assert (id' = id) as -> by (destruct (db_payload b); try done; by case_match; simplify_eq).
    by apply sublist_skip.
  - by apply sublist_cons.
Qed.

(** The wraps looked at: those stored in the conversation that were neither made here nor known. *)
Lemma elem_of_peer_wraps st cid wrap_tx ct r :
  ratchet_of st cid = Some r →
  (wrap_tx, ct) ∈ peer_wraps st cid ↔
  ∃ b, (wrap_tx, b) ∈ body_pairs st ∧ db_conversation_id b = cid ∧ db_payload b = PWrap ct ∧
    wrap_tx ∉ rt_minted r ∧ wrap_tx ∉ map ks_wrap_tx (rt_known r).
Proof.
  intros Hr. unfold peer_wraps. rewrite Hr. cbn [fmap option_fmap option_map default from_option].
  rewrite list_elem_of_omap. split.
  - intros ([id b] & Hin & HE). exists b. destruct (db_payload b) eqn:HP; try done. cbn in HE.
    destruct (branded_eq _ _ && _ && _) eqn:HB; [|done]. injection HE as -> ->.
    apply andb_true_iff in HB as [[HC%branded_eq_spec HM%negb_true_iff]%andb_true_iff HK%negb_true_iff].
    by apply bool_decide_eq_false_1 in HM, HK.
  - intros (b & Hin & HC & HP & HM & HK). exists (wrap_tx, b). split; [done|]. rewrite HP, HC.
    rewrite (proj2 (branded_eq_spec _ _) eq_refl). unfold id.
    by rewrite !bool_decide_false by done.
Qed.

(** C22. Absorbing the wraps a peer sent always succeeds and changes the ratchet of this
    conversation only, and no transaction.  The wraps looked at are exactly those stored in
    the conversation that were neither made here nor known before.  Each in turn is passed
    over, when its ciphertext has the wrong length or no key still unused opens it, or is
    opened by the first unused key that opens it: exactly that key is spent, and exactly its
    secret is learned, under the wrap's id and the digest of its ciphertext, as the peer's.
    So as many keys are spent as secrets are learned, and no wrap teaches two.  Without an
    established conversation or a policy nothing changes. *)
Theorem absorb_peer_wraps_spec st cid :
  ∃ st', absorb_peer_wraps cid st = Some st' ∧
    (Located st → Located st' ∧ stored st' = stored st) ∧
    (∀ c', c' ≠ cid → established st' c' = established st c') ∧
    match ratchet_of st cid, conversation_policy st cid with
    | Some r, Some policy => ∃ r' learned, ratchet_of st' cid = Some r' ∧
        (∀ wrap_tx ct, (wrap_tx, ct) ∈ peer_wraps st cid ↔
           ∃ b, (wrap_tx, b) ∈ body_pairs st ∧ db_conversation_id b = cid ∧ db_payload b = PWrap ct ∧
             wrap_tx ∉ rt_minted r ∧ wrap_tx ∉ map ks_wrap_tx (rt_known r)) ∧
        absorbing policy (peer_wraps st cid) r r' learned ∧
        rt_known r' = rt_known r ++ learned ∧
        (length (rt_unused r') + length learned = length (rt_unused r))%nat ∧
        NoDup (map ks_wrap_tx learned)
    | _, _ => st' = st
    end.
Proof.
  unfold absorb_peer_wraps. destruct (conversation_policy st cid) as [policy|].
  2: { exists st. split_and!; [done..|]. by destruct (ratchet_of st cid). }
  destruct (absorb_wraps_spec policy cid (peer_wraps st cid) st) as (st' & H1 & H2 & H3 & H4).
  exists st'. split_and!; [done..|]. destruct (ratchet_of st cid) as [r|] eqn:Hr; [|done].
  destruct H4 as (r' & learned & Hr' & HA). exists r', learned.
  destruct (absorbing_known _ _ _ _ _ HA) as (_ & _ & HK & HC & HS). split_and!; [done| |done..|].
  - intros wrap_tx ct. by apply elem_of_peer_wraps.
  - eapply sublist_NoDup; [apply peer_wraps_NoDup|done].
Qed.

End Absorb.

(** * Agreement *)

(** C23. Two devices that agree on the same wraps mix alike: when the rows one device sent
    and the other received, each acknowledged and watermarked at both ends, are the same
    set, both compute the same next chain from the same chain, at every position. *)
Theorem mixed_chain_agrees `{Suite} st1 st2 cid sort chain :
  agreed_rows st1 cid true ≡ₚ agreed_rows st2 cid false →
  NoDup (map fst (agreed_rows st1 cid true)) →
  mixed_chain st1 cid sort chain true = mixed_chain st2 cid sort chain false.
Proof.
  intros HP HN. unfold mixed_chain, next_shared, agreed_shareds.
  assert (∀ l : list (Tag * Secret), StronglySorted key_le (sort_by (λ a b, branded_cmp a.1 b.1) l)) as HS.
  { intros l. apply (sort_by_sorted (λ a b : Tag * Secret, ord a.1 b.1)).
    - intros x y. apply (tc_antisym _ (ord_total (K := Tag)) x.1 y.1).
    - intros x y z. apply (tc_trans _ (ord_total (K := Tag)) x.1 y.1 z.1). }
  replace (sort_by (λ a b, branded_cmp a.1 b.1) (agreed_rows st1 cid true))
    with (sort_by (λ a b : Tag * Secret, branded_cmp a.1 b.1) (agreed_rows st2 cid false)); [done|].
  symmetry. apply key_sorted_unique; [apply HS..| |].
  - by rewrite sort_by_perm.
  - by rewrite !sort_by_perm.
Qed.

(** * Minting *)

Section Mint.
Context `{Suite, Rng}.

#[export] Instance wrap_first_forward policy candidates :
  Evolves forward (wrap_first policy candidates).
Proof. induction candidates; cbn [wrap_first]; evolve. Qed.

#[export] Instance wrap_first_idle policy candidates : Evolves idle (wrap_first policy candidates).
Proof. induction candidates; cbn [wrap_first]; evolve. Qed.

(** Choosing what is owed draws randomness and changes nothing else. *)
#[export] Instance choose_owed_idle cid policy : Evolves idle (choose_owed cid policy).
Proof. unfold choose_owed, advertise, wrap_to_peer. evolve. Qed.

#[export] Instance wrap_first_calm policy candidates : Calm (wrap_first policy candidates).
Proof. induction candidates; cbn [wrap_first]; calm. Qed.
#[export] Instance choose_owed_calm cid policy : Calm (choose_owed cid policy).
Proof. unfold choose_owed, advertise, wrap_to_peer, get_state. calm. Qed.

(** A merge that succeeds leaves the transaction stored and every chain as it was. *)
Lemma merge_tx_ok secret cid payload w w' id b record :
  merge_tx secret cid payload w = (w', Ok (id, b, record)) →
  id = tx_id secret payload ∧ db_payload b = payload ∧
  (∀ c, established (w_state w') c = established (w_state w) c) ∧
  (Located (w_state w) → Located (w_state w') ∧ stored (w_state w') !! id = Some b).
Proof.
  unfold merge_tx, store_new, require_tick. run.
  destruct (es_ticked (w_state w)) as [now|]; cbn [ok_or]; run; [|done]. cbv zeta.
  destruct (body (w_state w) _) as [e|] eqn:Hb.
  - case_decide as Hp; [|by run]. destruct (persist_record _ _ _); run; [|done].
    intros [= <- <- <- <-]. split_and!; [done..|]. intros HL. split; [done|]. by rewrite stored_lookup.
  - run. destruct (persist_record _ _ _); run; [|done]. rewrite bind_run. unfold insert_body_m.
    cbn [w_engine w_state w_draws].
    pose proof (insert_body_located (log_persist (tx_id secret payload) (w_state w))
      (tx_id secret payload) (mkDurableBody cid (hlc_at now) payload)) as HI.
    pose proof (established_insert_body (tx_id secret payload) (mkDurableBody cid (hlc_at now) payload)
      (log_persist (tx_id secret payload) (w_state w))) as HE.
    destruct (insert_body _ _ _) as [st' [[]|e]]; cbn [map_err fst]; run; [|done].
    intros [= <- <- <- _]. cbn [w_state]. split_and!; [done..|]. intros HL.
    destruct (HI HL) as (HL' & HT & HS). split; [done|]. rewrite HS.
    destruct (row_takes _ _); [|done]. by rewrite lookup_insert_eq.
Qed.

(** The conversation is established, not between devices, and has sent enough. *)
Definition mint_due (st : EngineState) (cid : ConversationId) : bool :=
  negb (is_sync st cid) && bool_decide (is_Some (established_secret st cid))
  && (OWED_PACKETS <=? cval (default (clamp64 0) (rt_since <$> ratchet_of st cid)))%N
  && bool_decide (is_Some (conversation_policy st cid)).

Lemma ratchet_minted_spec id effect r :
  let r' := ratchet_minted id effect r in
  rt_since r' = clamp64 0 ∧ rt_minted r' = {[id]} ∪ rt_minted r ∧
  rt_known r `prefix_of` rt_known r' ∧
  (length (rt_unused r) ≤ UNUSED_CAP → length (rt_unused r') ≤ UNUSED_CAP)%nat.
Proof.
  destruct effect; cbn; split_and!; try done; try (by apply prefix_app_r).
  intros Hl. rewrite length_app. cbn. case_bool_decide; [rewrite length_drop|];
    unfold UNUSED_CAP in *; lia.
Qed.

(** The payloads the ratchet sends. *)
Definition ratchet_payload (p : TxPayload) : bool :=
  match p with PAdvertise _ | PWrap _ | PAck _ => true | _ => false end.

Lemma ack_of_wrap_payload st cid p : ack_of_wrap st cid = Some p → ratchet_payload p = true.
Proof.
  unfold ack_of_wrap. destruct (ratchet_of st cid); cbn; [|done].
  intros (known & _ & Hk)%find_map_Some. repeat case_match; by simplify_eq.
Qed.

Lemma ack_of_advertise_payload st cid policy p :
  ack_of_advertise st cid policy = Some p → ratchet_payload p = true.
Proof.
  unfold ack_of_advertise. destruct (ratchet_of st cid); cbn; [|done].
  intros (known & _ & Hk)%find_map_Some. cbv zeta in Hk. repeat case_match; by simplify_eq.
Qed.

Lemma wrap_first_payload policy l w w' minted :
  wrap_first policy l w = (w', Ok (Some minted)) → ratchet_payload (mn_payload minted) = true.
Proof.
  revert w. induction l as [|pk l IH]; intros w; cbn [wrap_first]; [done|]. unfold random_seed. run.
  destruct (kem_wrap _ _ _ ≫= _) as [[shared ct]|]; [by intros [= _ <-]|apply IH].
Qed.

Lemma choose_owed_payload cid policy w w' minted :
  choose_owed cid policy w = (w', Ok (Some minted)) → ratchet_payload (mn_payload minted) = true.
Proof.
  unfold choose_owed. run. destruct (ack_of_wrap _ _) eqn:E.
  { intros [= _ <-]. by apply ack_of_wrap_payload in E. }
  destruct (ack_of_advertise _ _ _) eqn:E2.
  { intros [= _ <-]. by apply ack_of_advertise_payload in E2. }
  rewrite bind_run. unfold wrap_to_peer. run. destruct (ratchet_of _ _) as [r|].
  - destruct (wrap_first _ _ w) as [w1 [[m|]|e]] eqn:EW; [|unfold advertise, random_seed; run|done].
    + intros [= _ <-]. by apply wrap_first_payload in EW.
    + destruct (kem_generate _ _); cbn; [by intros [= _ <-]|done].
  - unfold advertise, random_seed. run. destruct (kem_generate _ _); cbn; [by intros [= _ <-]|done].
Qed.

Lemma mint_not_due cid secret w :
  mint_due (w_state w) cid = false → mint_if_owed cid secret w = (w, Ok None).
Proof.
  unfold mint_if_owed, mint_due. run. destruct (is_sync _ cid); cbn [negb andb orb]; [by run|].
  destruct (bool_decide (is_Some (established_secret _ cid))); cbn [negb andb]; [|by run].
  destruct (_ <? _)%N eqn:Hlt; [by run|]. rewrite N.leb_antisym, Hlt. cbn [negb andb].
  destruct (conversation_policy _ cid); [|by run]. by rewrite bool_decide_eq_true_2 by eauto.
Qed.

(** A due mint chooses a payload, merges it and notes it in the ratchet. *)
Lemma mint_inv cid secret w w' r :
  mint_if_owed cid secret w = (w', Ok r) →
  match r with
  | None => idle w w'
  | Some id => ∃ w1 minted w2 b record,
      mint_due (w_state w) cid = true ∧ idle w w1 ∧ ratchet_payload (mn_payload minted) = true ∧
      merge_tx secret cid (mn_payload minted) w1 = (w2, Ok (id, b, record)) ∧
      w' = mkWorld (w_engine w2) (established_mut cid
             (with_ratchet (ratchet_minted id (mn_effect minted))) (w_state w2)) (w_draws w2)
  end.
Proof.
  destruct (mint_due (w_state w) cid) eqn:HD; [|rewrite mint_not_due by done; by intros [= <- <-]].
  unfold mint_if_owed, mint_due in *. run. destruct (is_sync _ cid); [done|]. cbn [negb andb orb] in *.
  destruct (bool_decide (is_Some (established_secret _ cid))); [|done]. cbn [negb andb] in *.
  rewrite N.leb_antisym in HD. destruct (_ <? _)%N; [done|]. cbn [negb andb] in HD.
  destruct (conversation_policy _ cid) as [policy|]; [|by rewrite bool_decide_eq_false_2 in HD by (by intros [])].
  rewrite bind_run. pose proof (evolves (R := idle) (m := choose_owed cid policy) w) as HI.
  destruct (choose_owed cid policy w) as [w1 [[minted|]|e]] eqn:HC; cbn [fst] in HI; run; [|by intros [= <- <-]|done].
  apply choose_owed_payload in HC. rewrite bind_run.
  destruct (merge_tx _ _ _ w1) as [w2 [[[id b] record]|e]] eqn:HM; run; [|done].
  unfold expect_established_mut. run. destruct (established_at _ cid); run; [|done].
  intros [= <- <-]. exists w1, minted, w2, b, record. by split_and!.
Qed.

(** A minted transaction is stored, and the count of its conversation starts again. *)
Lemma mint_stored cid secret w w' id :
  mint_if_owed cid secret w = (w', Ok (Some id)) → Located (w_state w) →
  ∃ rt effect payload b, Located (w_state w') ∧
    ratchet_of (w_state w) cid = Some rt ∧
    ratchet_of (w_state w') cid = Some (ratchet_minted id effect rt) ∧
    ratchet_payload payload = true ∧ id = tx_id secret payload ∧
    stored (w_state w') !! id = Some b ∧ db_payload b = payload ∧
    (OWED_PACKETS ≤ cval (rt_since rt))%N.
Proof.
  intros (w1 & minted & w2 & b & record & HD & [_ HS] & HP & HM & ->)%mint_inv HLoc.
  apply merge_tx_ok in HM as (-> & Hp & HC & HL). rewrite HS in HC, HL.
  destruct (HL HLoc) as [HL2 Hst]. cbn [w_state].
  destruct (same_store_located _ _ (established_mut_same_store cid
    (with_ratchet (ratchet_minted (tx_id secret (mn_payload minted)) (mn_effect minted))) (w_state w2)) HL2)
    as [HL3 HS3].
  unfold mint_due in HD. apply andb_true_iff in HD as [[_ HD%N.leb_le]%andb_true_iff _].
  destruct (ratchet_of (w_state w) cid) as [rt|] eqn:Hr; [|by cbn in HD].
  exists rt, (mn_effect minted), (mn_payload minted), b. rewrite HS3. split_and!; try done.
  apply ratchet_of_mut_same. unfold ratchet_of in *. by rewrite HC.
Qed.

(** C24. A ratchet transaction is minted at most once per fifty packets.  Unless fifty
    packets were sent since the last one, on an established conversation with a peer whose
    policy is known, nothing happens at all.  When one is minted it is stored, noted as made
    here, the count starts again at zero, and at most eight advertised keys are kept. *)
Theorem mint_if_owed_spec cid secret w :
  let '(w', r) := mint_if_owed cid secret w in
  (mint_due (w_state w) cid = false → w' = w ∧ r = Ok None) ∧
  (r = Ok None → idle w w') ∧
  (∀ id, r = Ok (Some id) → Located (w_state w) →
     ∃ rt rt' payload b, ratchet_of (w_state w) cid = Some rt ∧ ratchet_of (w_state w') cid = Some rt' ∧
       id = tx_id secret payload ∧ stored (w_state w') !! id = Some b ∧ db_payload b = payload ∧
       (OWED_PACKETS ≤ cval (rt_since rt))%N ∧ rt_since rt' = clamp64 0 ∧
       rt_minted rt' = {[id]} ∪ rt_minted rt ∧ rt_known rt `prefix_of` rt_known rt' ∧
       (length (rt_unused rt) ≤ UNUSED_CAP → length (rt_unused rt') ≤ UNUSED_CAP)%nat).
Proof.
  destruct (mint_if_owed cid secret w) as [w' r] eqn:HM. split_and!.
  - intros HD. rewrite mint_not_due in HM by done. by injection HM.
  - intros ->. by apply mint_inv in HM.
  - intros id -> HL. destruct (mint_stored _ _ _ _ _ HM HL) as (rt & effect & payload & b & _ & Hr & Hr' & _ & HI & Hb & Hp & HO).
    destruct (ratchet_minted_spec id effect rt) as (R1 & R2 & R3 & R4).
    eexists _, _, _, b. by split_and!.
Qed.

#[export] Instance mint_if_owed_forward cid secret : Evolves forward (mint_if_owed cid secret).
Proof. unfold mint_if_owed, expect_established_mut, choose_owed, advertise, wrap_to_peer. evolve. Qed.

End Mint.

(** * The theorems on a concrete conversation

    [03] stores two wraps, [07] and [08], and their acknowledgements; nobody has
    acknowledged packets, so all are watermarked.  One device made the wraps, the other
    received them, in the other order. *)

Definition agreed_log : EngineState :=
  fold_left (λ st '(id, payload), (insert_body id (dm_body payload) st).1)
    [(id_of x07, PWrap [x2a]); (id_of x08, PWrap [x2b]);
     (id_of x09, PAck (id_of x11)); (id_of x0a, PAck (id_of x12))] dm_state.

Definition known_row (from_us : bool) (tx shared hash : byte) : KnownShared :=
  mkKnownShared (id_of tx) (id_of shared) (id_of hash) from_us (EncryptionPublicKey_from_bytes []).

Definition with_known (known : list KnownShared) : EngineState :=
  established_mut (id_of x03)
    (with_ratchet (λ r, mkRatchet (rt_since r) (rt_minted r) (rt_unused r) known)) agreed_log.

Definition sender_state : EngineState :=
  with_known [known_row true x07 x21 x11; known_row true x08 x22 x12].
Definition receiver_state : EngineState :=
  with_known [known_row false x08 x22 x12; known_row false x07 x21 x11].

Lemma mixed_chain_agrees_witness :
  let chain := mkSendChain (id_of x31) (id_of x32) (clamp64 0) (clamp64 8) in
  length (agreed_shareds sender_state (id_of x03) true) = 2%nat ∧
  mixed_chain sender_state (id_of x03) DirectMessage chain true =
    mixed_chain receiver_state (id_of x03) DirectMessage chain false.
Proof.
  assert (agreed_rows sender_state (id_of x03) true =
    [(id_of x07, id_of x21); (id_of x08, id_of x22)]) as H1 by vm_decide.
  assert (agreed_rows receiver_state (id_of x03) false =
    [(id_of x08, id_of x22); (id_of x07, id_of x21)]) as H2 by vm_decide.
  cbv zeta. split; [by vm_compute|]. apply mixed_chain_agrees; rewrite H1.
  - rewrite H2. apply Permutation_swap.
  - apply (bool_decide_unpack _). by vm_compute.
Defined.
