(* ===== verification/Vault.v ===== *)
(** Wrapping and unwrapping the data key, and writing a transaction as handshake packets
    ([engine/vault.rs]; its transaction core is in [Engine.v]). *)

From stdpp Require Import base tactics list numbers option strings countable gmap.
From Stdlib Require Import Strings.Byte.
From S2P Require Import Prelude Text Ids Order Channel Defaults Payload Json Ports Codec.
From S2P Require Import Chain RowLog Party HealRange Bins State StateLaws Helpers Engine.
From S2P Require Import Ratchet.

(** * The vault header *)

Definition VAULT_M : u32 := clamp32 19456.
Definition VAULT_T : u32 := clamp32 2.
Definition VAULT_P : u32 := clamp32 1.
Definition VAULT_MAX_UNCOMPRESSED : N := 4096.

Inductive UnlockSecret : Set :=
| Passphrase (pass : str)
| Prf (prf : arr 32).

(** [random32().into_bytes()[..n].try_into().expect("..")]. *)
Lemma first_bytes_ok n (rnd : Random32) :
  Nat.eqb (length (take n (cval (as_bytes rnd) ++ replicate n x00))) n = true.
Proof. rewrite length_take, length_app, arr_length, length_replicate. apply Nat.eqb_eq. lia. Qed.

(** The first [n] bytes of a draw ([n] is 12 or 16, so no padding is taken). *)
Definition first_bytes (n : nat) (rnd : Random32) : arr n :=
  mkChecked (take n (cval (as_bytes rnd) ++ replicate n x00)) (first_bytes_ok n rnd).

Section Vault.
Context `{Suite, Rng}.

(** The key that wraps the data key. *)
Definition kek_of (secret : UnlockSecret) (salt : arr 16) : result EngineError AeadKey :=
  match secret with
  | Passphrase pass =>
      kek ← ok_or UnlockFailed (argon2id (utf8 pass) salt VAULT_M VAULT_T VAULT_P);
      Ok (from_bytes kek)
  | Prf prf => Ok (from_bytes prf)
  end.

(** [pass.len() < 8 || pass.len() > 1024]. *)
Definition pass_refused (secret : UnlockSecret) : bool :=
  match secret with
  | Passphrase pass => (str_len pass <? 8)%nat || (1024 <? str_len pass)%nat
  | Prf _ => false
  end.

Definition vault_header (salt : arr 16) (secret : UnlockSecret) (nonce : arr 12)
    (ct : bytes) : VaultHeader :=
  match secret with
  | Passphrase _ => mkVaultHeader salt VAULT_M VAULT_T VAULT_P (Some nonce) (Some ct) None None
  | Prf _ => mkVaultHeader salt VAULT_M VAULT_T VAULT_P None None (Some nonce) (Some ct)
  end.

(** [wrap_dek]: the bytes of [WrapDekOk]. *)
Definition wrap_dek (secret : UnlockSecret) : M bytes :=
  en ← get_engine;
  _ ← (match en_dek en with
       | Some _ => mret tt
       | None => rnd ← random32; set_dek (Some (from_bytes (as_bytes rnd)))
       end);
  en ← get_engine;
  dek ← expect (en_dek en);
  rnd ← random32;
  let salt := first_bytes 16 rnd in
  _ ← lift (refuse_if (pass_refused secret) UnlockFailed);
  kek ← lift (kek_of secret salt);
  rnd ← random32;
  let nonce := first_bytes 12 rnd in
  let ct := aead_seal kek nonce [] (cval (as_bytes dek)) in
  mret (compress (json_encode (vault_header_to_json (vault_header salt secret nonce ct)))).

(** The members of the header that belong to this kind of secret. *)
Definition nonce_key (secret : UnlockSecret) : string :=
  match secret with Passphrase _ => "passphrase_nonce" | Prf _ => "prf_nonce" end.
Definition wrapped_key (secret : UnlockSecret) : string :=
  match secret with Passphrase _ => "passphrase_wrapped_dek" | Prf _ => "prf_wrapped_dek" end.

(** [match get(k) { Some(Json::String(s)) => decode(s)?, _ => return Err(UnlockFailed) }]. *)
Definition header_bytes (m : members) (key : string) : result EngineError bytes :=
  match find_key m (lit key) with
  | Some (JString s) => ok_or UnlockFailed (b64_decode s)
  | _ => Err UnlockFailed
  end.

Definition unlock_dek (header : bytes) (secret : UnlockSecret) : result EngineError AeadKey :=
  raw ← map_err (λ _, UnlockFailed) (decompress header VAULT_MAX_UNCOMPRESSED);
  json ← ok_or UnlockFailed (json_decode raw);
  m ← match json with JObject m => Ok m | _ => Err UnlockFailed end;
  salt ← header_bytes m "salt";
  salt ← ok_or UnlockFailed (try_into 16 salt);
  kek ← kek_of secret salt;
  nonce ← header_bytes m (nonce_key secret);
  nonce ← ok_or UnlockFailed (try_into 12 nonce);
  ct ← header_bytes m (wrapped_key secret);
  dek ← ok_or UnlockFailed (aead_open kek nonce [] ct);
  dek ← ok_or UnlockFailed (try_into 32 dek);
  Ok (from_bytes dek).

Definition unlock (header : bytes) (secret : UnlockSecret) : M unit :=
  dek ← lift (unlock_dek header secret); set_dek (Some dek).

Definition lock : M unit := set_dek None.

End Vault.

(** * Handshake packets *)

(** [seal_packet(suite, rng, key, packet)?]: the draw comes after the packing. *)
Definition seal_packet_m `{Suite, Rng} {K} `{PacketAeadKey K} (key : K) (packet : PacketPlain) :
    M bytes :=
  _ ← lift (packed_packet packet);
  rnd ← random32;
  lift (seal_packet rnd key packet).

(** [for ch in channels { state.writes.push(..) }]. *)
Definition push_writes (channels : list DurableChannel) (tag : Tag) (body : bytes) : M unit :=
  modify (λ st, with_writes
    (es_writes st ++ map (λ ch, mkDurableWrite ch tag body) channels) st).

Definition push_eph_writes (channels : list EphemeralChannel) (tag : Tag) (body : bytes) : M unit :=
  modify (λ st, with_eph_writes
    (es_eph_writes st ++ map (λ ch, mkEphemeralWrite ch tag body) channels) st).

(** [chains.heal.ready.clear(); sealed_from = None; sealed_to = None]. *)
Definition heal_unseal (h : Heal) : Heal :=
  mkHeal (hl_probes h) (hl_sent_at h) (hl_on_ephemeral h) (hl_fell_back h) [] None None
    (hl_needs_reseal h).

Definition heal_with_reseal (needs : bool) (h : Heal) : Heal :=
  mkHeal (hl_probes h) (hl_sent_at h) (hl_on_ephemeral h) (hl_fell_back h) (hl_ready h)
    (hl_sealed_from h) (hl_sealed_to h) needs.

(** A durable packet moves the chain, so the durable copies of an ephemeral search no
    longer fit it. *)
Definition heal_interrupt (now : option UnixSeconds) (c : PacketChains) : PacketChains :=
  let h := pc_heal c in
  if hl_on_ephemeral h then
    let due := match now, hl_sent_at h with
               | Some now, Some sent => (cval (sat_add sent 3) <=? cval now)%N
               | _, _ => false
               end in
    with_heal (heal_with_reseal (due || hl_needs_reseal h) (heal_unseal h)) c
  else c.

Section Packets.
Context `{Suite, Rng}.

(** The loop of [write_chain_packets].  The 65th fragment is refused by [next_fragment], so
    [write_fuel] rounds are never used up. *)
Fixpoint write_fragments (fuel : nat) (cid : ConversationId) (persistents : list DurableChannel)
    (tag tx_id set_xor : Tag) (actor : Actor) (count_since : bool) (packed : bytes)
    (frag_i : u64) (chain : SendChain) : M SendChain :=
  match fuel with
  | O => expect None
  | S fuel =>
      '(packet, n) ← lift (next_fragment packed tx_id set_xor (sc_packet_seq chain) frag_i
                             (Actor_as_bytes actor));
      sealed ← seal_packet_m (mk chain) packet;
      _ ← push_writes persistents tag sealed;
      _ ← (if count_since then modify (note_sent_packet cid) else mret tt);
      if is_last packet then mret (step chain)
      else write_fragments fuel cid persistents tag tx_id set_xor actor count_since
             (drop n packed) (sat_add frag_i 1) (step chain)
  end.

Definition write_fuel : nat := S (N.to_nat MAX_FRAGS).

Definition write_chain_packets (cid : ConversationId) (sort : ConversationSort)
    (persistents : list DurableChannel) (tag tx_id : Tag) (actor : Actor) (count_since : bool) :
    M unit :=
  st ← get_state;
  secret ← lift (ok_or UnknownIds (tk_secret <$> ticket st cid));
  _ ← modify (λ st, chains_mut cid (heal_interrupt (es_ticked st)) st);
  st ← get_state;
  b ← lift (ok_or UnknownIds (body st tx_id));
  let set_xor := set_xor_for (body_pairs st) cid in
  chain ← match chains st cid ≫= λ c, pc_send c !! actor with
          | Some chain => mret chain
          | None => lift (join secret sort [])
          end;
  chain ← write_fragments write_fuel cid persistents tag tx_id set_xor actor count_since
            (packed_tx b) (clamp64 0) chain;
  modify (chains_mut cid (λ c, with_send (<[actor := chain]> (pc_send c)) c)).

Definition handshake_sort (st : EngineState) (cid : ConversationId) : ConversationSort :=
  if is_sync st cid then HandshakeSync else HandshakeDm.

(** [absorb_peer_wraps(state, cid)]: [None] would be a panic, which
    [absorb_peer_wraps_spec] excludes. *)
Definition absorb_peer_wraps_m (cid : ConversationId) : M unit :=
  st ← get_state; st ← expect (absorb_peer_wraps cid st); modify (λ _, st).

Definition post_handshake_packets (cid : ConversationId) (conv_secret : Secret) (tx_id : Tag) :
    M unit :=
  st ← get_state;
  now ← lift (require_tick st);
  t ← lift (ok_or UnknownIds (ticket st cid));
  let sort := handshake_sort st cid in
  let tag := invite_tag (as_bytes conv_secret) (time_bin now) in
  _ ← absorb_peer_wraps_m cid;
  write_chain_packets cid sort (tk_persistents t) tag tx_id Actor_Handshake true.

End Packets.
