(* ===== verification/VaultLaws.v ===== *)
(** What [Vault.v] guarantees: a wrapped data key unlocks again, and writing a transaction
    as packets is cutting it, sealing every piece at its own position and queueing it. *)

From stdpp Require Import base tactics list numbers option strings countable gmap.
From Stdlib Require Import Strings.Byte.
From S2P Require Import Prelude Text Ids Order Channel Defaults Payload Json Ports.
From S2P Require Import CanonicalJson TestDoubles Codec CodecLaws Wire.
From S2P Require Import Chain ChainLaws RowLog Party HealRange Bins State StateLaws.
From S2P Require Import Helpers HelpersLaws Engine Frame Ratchet RatchetLaws Vault.

(** * Frames *)

Section Frames.
Context `{Suite, Rng}.

#[export] Instance seal_packet_m_forward {K} `{PacketAeadKey K} (key : K) p :
  Evolves forward (seal_packet_m key p).
Proof. unfold seal_packet_m. evolve. Qed.

#[export] Instance push_writes_forward channels tag body :
  Evolves forward (push_writes channels tag body).
Proof. apply evolves_push_writes. Qed.

#[export] Instance push_eph_writes_forward channels tag body :
  Evolves forward (push_eph_writes channels tag body).
Proof. apply evolves_push_eph. Qed.

#[export] Instance write_fragments_forward fuel cid persistents tag tx_id set_xor actor since packed i chain :
  Evolves forward (write_fragments fuel cid persistents tag tx_id set_xor actor since packed i chain).
Proof.
  revert packed i chain. induction fuel as [|fuel IH]; intros packed i chain; cbn [write_fragments]; evolve.
Qed.

#[export] Instance write_chain_packets_forward cid sort persistents tag tx_id actor since :
  Evolves forward (write_chain_packets cid sort persistents tag tx_id actor since).
Proof. unfold write_chain_packets. evolve. Qed.

(** Absorbing is a run of changes of established chains. *)
Lemma absorb_along (R : relation EngineState) cid st st' :
  PreOrder R → (∀ f st, R st (established_mut cid f st)) → absorb_peer_wraps cid st = Some st' → R st st'.
Proof.
  intros HP HR. unfold absorb_peer_wraps. destruct (conversation_policy st cid) as [policy|]; [|by intros [= <-]].
  unfold absorb_wraps. generalize (peer_wraps st cid). intros l. revert st.
  induction l as [|[tx ct] l IH]; intros st; cbn [fold_left]; [by intros [= <-]|].
  cbn [mbind option_bind]. destruct (absorb_wrap policy cid st (tx, ct)) as [st1|] eqn:E.
  - intros HE. etrans; [|by apply IH]. revert E. unfold absorb_wrap. destruct (negb _); [by intros [= <-]|].
    destruct (find_unwrapped _ _ _ _) as [[i shared]|]; [|by intros [= <-]].
    destruct (established_at st cid) as [c|]; [|by intros [= <-]].
    destruct (rt_unused _ !! i); cbn; [|done]. by intros [= <-].
  - clear. intros HE. exfalso. induction l as [|w l IH]; [done|]. by apply IH.
Qed.

Lemma outbox_absorb cid st st' : absorb_peer_wraps cid st = Some st' → outbox st' = outbox st.
Proof.
  apply (absorb_along (λ a b, outbox b = outbox a)); [split; [done|intros ???; congruence]|].
  intros. apply outbox_established_mut.
Qed.

#[export] Instance absorb_peer_wraps_m_forward cid : Evolves forward (absorb_peer_wraps_m cid).
Proof.
  intros [en st n]. unfold absorb_peer_wraps_m. run.
  destruct (absorb_peer_wraps cid st) as [st'|] eqn:E; cbn; [|done].
  apply forward_outbox; [by apply outbox_absorb in E|done].
Qed.

#[export] Instance post_handshake_packets_forward cid secret tx_id :
  Evolves forward (post_handshake_packets cid secret tx_id).
Proof. unfold post_handshake_packets. evolve. Qed.

End Frames.

(** * Writing packets *)

(** Rows keep their packet chains while their ratchet changes. *)
Lemma chains_with_ratchet cid f st cid' :
  chains (established_mut cid (with_ratchet f) st) cid' = chains st cid'.
Proof.
  unfold established_mut. destruct (scan _ st) as [[[u i] e]|].
  - apply (view_alter_row packet_of_identity packet_of_device). by intros [| |[]].
  - apply (view_alter_device packet_of_identity packet_of_device). by intros [].
Qed.

Section Writing.
Context `{Suite, Rng}.

(** Each packet sealed with the message key of its own position, under its own draw. *)
Fixpoint sealed_run (chain : SendChain) (n : nat) (packets : list PacketPlain)
    (bodies : list bytes) : Prop :=
  match packets, bodies with
  | [], [] => True
  | packet :: packets, body :: bodies =>
      seal_packet (draw n) (mk chain) packet = Ok body ∧ sealed_run (step chain) (S n) packets bodies
  | _, _ => False
  end.

Definition queued (persistents : list DurableChannel) (tag : Tag) (bodies : list bytes) :
    list DurableWrite :=
  flat_map (λ body, map (λ ch, mkDurableWrite ch tag body) persistents) bodies.

(** The next fragment is numbered after the ones already cut. *)
Lemma sat_add_S (s : u64) i : sat_add (sat_add s (N.of_nat i)) 1 = sat_add s (N.of_nat (S i)).
Proof. apply checked_eq. pose proof (u64_le_max s). rewrite !sat_add_val. unfold u64_max in *. lia. Qed.

Lemma index_S i : sat_add (clamp64 (N.of_nat i)) 1 = clamp64 (N.of_nat (S i)).
Proof. apply checked_eq. rewrite sat_add_val, !clamp64_val. unfold u64_max. lia. Qed.

Lemma seal_packet_m_run {K} `{PacketAeadKey K} (key : K) packet w w' body :
  seal_packet_m key packet w = (w', Ok body) →
  seal_packet (draw (w_draws w)) key packet = Ok body ∧
  w' = mkWorld (w_engine w) (w_state w) (S (w_draws w)).
Proof.
  unfold seal_packet_m. rewrite bind_run. unfold lift at 1.
  destruct (packed_packet packet); cbn [map_err]; [|done]. run. unfold lift.
  destruct (seal_packet _ _ _); [|done]. by intros [= <- <-].
Qed.

#[export] Instance seal_packet_m_calm {K} `{PacketAeadKey K} (key : K) packet : Calm (seal_packet_m key packet).
Proof. unfold seal_packet_m. calm. Qed.

Lemma seal_packet_m_panic {K} `{PacketAeadKey K} (key : K) packet w :
  (seal_packet_m key packet w).2 ≠ Err Panic.
Proof.
  unfold seal_packet_m. rewrite bind_run. unfold lift at 1.
  destruct (packed_packet packet); cbn [map_err]; [|done]. run. unfold lift. by destruct (seal_packet _ _ _).
Qed.

(** The loop is the cut of [fragment_body], with every packet sealed and queued on the way. *)
Lemma write_fragments_spec fuel cid persistents tag tx_id set_xor actor since start cut packed chain w :
  (length cut ≤ 64 < fuel + length cut)%nat → sc_packet_seq chain = sat_add start (N.of_nat (length cut)) →
  let '(w', r) := write_fragments fuel cid persistents tag tx_id set_xor actor since packed
                    (clamp64 (N.of_nat (length cut))) chain w in
  r ≠ Err Panic ∧
  (∀ cid', chains (w_state w') cid' = chains (w_state w) cid') ∧
  ∀ chain', r = Ok chain' → ∃ packets bodies,
    fragment_loop fuel packed cut tx_id set_xor start (Actor_as_bytes actor) =
      Some (Ok (cut ++ packets)) ∧
    sealed_run chain (w_draws w) packets bodies ∧
    chain' = Nat.iter (length packets) step chain ∧
    es_writes (w_state w') = es_writes (w_state w) ++ queued persistents tag bodies.
Proof.
  revert cut packed chain w. induction fuel as [|fuel IH]; intros cut packed chain w Hf Hs.
  { cbn [write_fragments]. exfalso. lia. }
  cbn [write_fragments fragment_loop]. rewrite bind_run. unfold lift at 1. rewrite Hs.
  destruct (next_fragment _ _ _ _ _ _) as [[packet n]|e] eqn:HN; cbn [map_err]; [|by split_and!].
  pose proof (next_fragment_spec _ _ _ _ _ _ _ _ HN) as [Hi _].
  rewrite bind_run. pose proof (seal_packet_m_panic (mk chain) packet w) as HP.
  destruct (seal_packet_m (mk chain) packet w) as [w1 [body|e]] eqn:HS.
  2: { cbn in HP. split_and!; [naive_solver| |done]. revert HS. unfold seal_packet_m. rewrite bind_run.
       unfold lift at 1. destruct (packed_packet packet); cbn [map_err]; [|by intros [= <- _]].
       run. unfold lift. intros [= <- _]. done. }
  apply seal_packet_m_run in HS as [Hb ->]. unfold push_writes. run.
  set (st1 := with_writes _ _). rewrite bind_run.
  assert (∃ st2, (if since then modify (note_sent_packet cid) else mret tt)
      (mkWorld (w_engine w) st1 (S (w_draws w))) = (mkWorld (w_engine w) st2 (S (w_draws w)), Ok tt) ∧
      es_writes st2 = es_writes st1 ∧ ∀ cid', chains st2 cid' = chains st1 cid') as (st2 & -> & Hw & Hc).
  { destruct since; eexists; (split; [done|]); [|done]. split.
    - pose proof (outbox_note_sent cid st1) as [= ]. done.
    - intros cid'. apply chains_with_ratchet. }
  destruct (is_last packet).
  - run. split_and!; [done|intros cid'; by rewrite Hc|]. intros chain' [= <-]. exists [packet], [body].
    split_and!; [done|done|done|]. unfold queued. cbn. rewrite Hw, app_nil_r. done.
  - rewrite index_S. specialize (IH (cut ++ [packet]) (drop n packed) (step chain)
      (mkWorld (w_engine w) st2 (S (w_draws w)))).
    rewrite length_app, Nat.add_comm in IH. cbn [length Nat.add] in IH.
    destruct (write_fragments _ _ _ _ _ _ _ _ _ _ _ _) as [w' r].
    destruct IH as (H1 & H2 & H3); [lia|cbn [sc_packet_seq step]; by rewrite Hs, sat_add_S|].
    split_and!; [done|intros cid'; by rewrite H2, Hc|]. intros chain' HR.
    destruct (H3 _ HR) as (packets & bodies & HF & HB & HC & HW).
    exists (packet :: packets), (body :: bodies). split_and!; [by rewrite HF, <-app_assoc|done| |].
    + rewrite HC. cbn [length]. by rewrite Nat.iter_succ_r.
    + rewrite HW. cbn [w_state]. rewrite Hw. unfold st1, queued. cbn. by rewrite <-app_assoc.
Qed.

(** The chain a conversation sends its next packet on. *)
Definition start_chain (st : EngineState) (cid : ConversationId) (sort : ConversationSort)
    (secret : Secret) (actor : Actor) : result EngineError SendChain :=
  match chains st cid ≫= λ c, pc_send c !! actor with
  | Some chain => Ok chain
  | None => join secret sort []
  end.

Lemma heal_interrupt_send now c : pc_send (heal_interrupt now c) = pc_send c.
Proof. unfold heal_interrupt. by destruct (hl_on_ephemeral _). Qed.

Lemma start_chain_heal st now cid sort secret actor c :
  chains st cid = Some c →
  start_chain (chains_mut cid (heal_interrupt now) st) cid sort secret actor =
    start_chain st cid sort secret actor.
Proof.
  intros Hc. unfold start_chain. rewrite (chains_mut_same _ _ _ _ Hc), Hc. cbn.
  by rewrite heal_interrupt_send.
Qed.

(** C13. Writing a transaction as packets refines cutting it.  It never panics.  When it
    succeeds, the packets are the fragments of the stored body, numbered on from the
    sending chain; packet [i] is sealed with the message key of the chain's [i]-th
    position; every sealed packet is queued once on every channel, in order; and the chain
    on record has moved past the last of them. *)
Theorem write_chain_packets_refines cid sort persistents tag tx_id actor since w c w' r :
  Located (w_state w) → chains (w_state w) cid = Some c →
  write_chain_packets cid sort persistents tag tx_id actor since w = (w', r) →
  r ≠ Err Panic ∧
  (r = Ok tt → ∃ t b chain packets bodies,
     ticket (w_state w) cid = Some t ∧ stored (w_state w) !! tx_id = Some b ∧
     start_chain (w_state w) cid sort (tk_secret t) actor = Ok chain ∧
     fragment_body (packed_tx b) tx_id (set_xor_for (body_pairs (w_state w)) cid)
       (sc_packet_seq chain) (Actor_as_bytes actor) = Ok packets ∧
     sealed_run chain (w_draws w) packets bodies ∧
     es_writes (w_state w') = es_writes (w_state w) ++ queued persistents tag bodies ∧
     (chains (w_state w') cid ≫= λ c, pc_send c !! actor) =
       Some (Nat.iter (length packets) step chain)).
Proof.
  intros HL Hc HRun.
  assert (w' = (write_chain_packets cid sort persistents tag tx_id actor since w).1) as -> by by rewrite HRun.
  assert (r = (write_chain_packets cid sort persistents tag tx_id actor since w).2) as -> by by rewrite HRun.
  clear HRun.
  unfold write_chain_packets. run. rewrite lift_bind.
  destruct (ticket (w_state w) cid) as [t|]; cbn [fmap option_fmap option_map ok_or]; [|by split].
  run. set (st1 := chains_mut cid _ (w_state w)).
  pose proof (chains_mut_same_store cid (heal_interrupt (es_ticked (w_state w))) (w_state w)) as HS.
  destruct (same_store_located _ _ HS HL) as [HL1 Hst]. fold st1 in HL1, Hst.
  assert (body_pairs st1 = body_pairs (w_state w)) as HB by (unfold body_pairs; by rewrite Hst).
  rewrite <-Hst, stored_lookup by done. rewrite lift_bind.
  destruct (body st1 tx_id) as [b|]; cbn [ok_or]; [|by split]. cbv zeta. rewrite HB.
  pose proof (start_chain_heal (w_state w) (es_ticked (w_state w)) cid sort (tk_secret t) actor c Hc) as HSC.
  fold st1 in HSC. rewrite bind_run.
  assert ((match chains st1 cid ≫= λ c, pc_send c !! actor with
           | Some chain => mret chain | None => lift (join (tk_secret t) sort []) end)
          (mkWorld (w_engine w) st1 (w_draws w)) =
          (mkWorld (w_engine w) st1 (w_draws w), map_err Refuse (start_chain st1 cid sort (tk_secret t) actor))) as ->.
  { unfold start_chain. by destruct (chains st1 cid ≫= _). }
  destruct (start_chain st1 cid sort (tk_secret t) actor) as [chain|e] eqn:HCH; cbn [map_err]; [|by split].
  rewrite bind_run.
  pose proof (write_fragments_spec write_fuel cid persistents tag tx_id
    (set_xor_for (body_pairs (w_state w)) cid) actor since (sc_packet_seq chain) []
    (packed_tx b) chain (mkWorld (w_engine w) st1 (w_draws w))) as HW.
  cbn [length] in HW. change (clamp64 (N.of_nat 0)) with (clamp64 0) in HW.
  destruct (write_fragments _ _ _ _ _ _ _ _ _ _ _ _) as [w' [chain'|e]].
  - destruct HW as (_ & HCh & HF); [unfold write_fuel, MAX_FRAGS; lia| |].
    { apply checked_eq. rewrite sat_add_val. pose proof (u64_le_max (sc_packet_seq chain)).
      cbn [N.of_nat]. lia. }
    destruct (HF _ eq_refl) as (packets & bodies & HL2 & HR & -> & HWr).
    split; [done|]. intros _. exists t, b, chain, packets, bodies.
    cbn [fst snd modify w_state]. split_and!; try done.
    + unfold fragment_body. unfold write_fuel in HL2. by rewrite HL2.
    + pose proof (outbox_chains_mut cid
        (λ c, with_send (<[actor := Nat.iter (length packets) step chain]> (pc_send c)) c) (w_state w')) as HO.
      pose proof (outbox_chains_mut cid (heal_interrupt (es_ticked (w_state w))) (w_state w)) as HO1.
      unfold outbox in HO, HO1. injection HO as _ -> _ _ _ _ _. rewrite HWr. fold st1 in HO1.
      injection HO1 as _ HO1 _ _ _ _ _. cbn [w_state]. by rewrite HO1.
    + pose proof (chains_mut_same cid (heal_interrupt (es_ticked (w_state w))) _ _ Hc) as Hc1.
      fold st1 in Hc1. rewrite (chains_mut_same _ _ _ (heal_interrupt (es_ticked (w_state w)) c)).
      * cbn. by rewrite lookup_insert_eq.
      * by rewrite HCh.
  - destruct HW as (HP & _); [unfold write_fuel, MAX_FRAGS; lia| |].
    2: { split; [|done]. intros [= ->]. by apply HP. }
    apply checked_eq. rewrite sat_add_val. pose proof (u64_le_max (sc_packet_seq chain)).
    cbn [N.of_nat]. lia.
Qed.

End Writing.

(** * The vault *)

Section VaultKeys.
Context `{Suite, Rng}.

Definition header_text (salt : arr 16) (secret : UnlockSecret) (nonce : arr 12) (kek dek : AeadKey) : bytes :=
  json_encode (vault_header_to_json
    (vault_header salt secret nonce (aead_seal kek nonce [] (cval (as_bytes dek))))).

Definition same_kind (s1 s2 : UnlockSecret) : bool :=
  match s1, s2 with Passphrase _, Passphrase _ | Prf _, Prf _ => true | _, _ => false end.

Lemma header_bytes_found m1 m2 key s bs :
  members_equiv m1 m2 → find_key m1 (lit key) = Some (JString s) → b64_decode s = Some bs →
  header_bytes m2 key = Ok bs.
Proof.
  intros HE H1 HD. specialize (HE (lit key)). rewrite H1 in HE. unfold header_bytes.
  inversion HE as [x y Hxy Ex Ey|]; subst. inversion Hxy; subst. by rewrite HD.
Qed.

Lemma header_bytes_null m1 m2 key :
  members_equiv m1 m2 → find_key m1 (lit key) = Some JNull → header_bytes m2 key = Err UnlockFailed.
Proof.
  intros HE H1. specialize (HE (lit key)). rewrite H1 in HE. unfold header_bytes.
  inversion HE as [x y Hxy Ex Ey|]; subst. by inversion Hxy.
Qed.

Lemma kek_of_err secret salt e : kek_of secret salt = Err e → e = UnlockFailed.
Proof.
  destruct secret as [pass|prf]; [|done]. unfold kek_of.
  destruct (argon2id (utf8 pass) salt VAULT_M VAULT_T VAULT_P); [done|]. by intros [= <-].
Qed.

Lemma json_equiv_members m1 v :
  json_equiv (JObject m1) v → ∃ m2, v = JObject m2 ∧ members_equiv m1 m2.
Proof. inversion 1; subst; eauto. Qed.

Lemma unlock_header_text `{!Base64UrlLaws, !AeadLaws, !CanonicalJsonLaws, !CompressLaws}
    salt secret nonce kek dek :
  kek_of secret salt = Ok kek →
  (N.of_nat (length (header_text salt secret nonce kek dek)) ≤ VAULT_MAX_UNCOMPRESSED)%N →
  unlock_dek (compress (header_text salt secret nonce kek dek)) secret = Ok dek ∧
  ∀ secret', same_kind secret secret' = false →
    unlock_dek (compress (header_text salt secret nonce kek dek)) secret' = Err UnlockFailed.
Proof.
  intros HK Hl. unfold unlock_dek. rewrite decompress_compress by done.
  cbn [map_err mbind result_bind]. unfold header_text. set (h := vault_header _ _ _ _).
  destruct (json_decode_encode (vault_header_to_json h) (vault_header_nodup h)) as (v & -> & HE).
  cbn [ok_or mbind result_bind]. unfold vault_header_to_json, obj in HE.
  apply json_equiv_members in HE as (m2 & -> & HM). cbn [mbind result_bind].
  assert (header_bytes m2 "salt" = Ok (cval salt)) as ->.
  { eapply header_bytes_found; [done|rewrite find_key_lits; reflexivity|destruct secret; apply b64_decode_encode]. }
  cbn [mbind result_bind]. rewrite try_into_cval. cbn [ok_or mbind result_bind]. split.
  - rewrite HK. cbn [mbind result_bind].
    assert (header_bytes m2 (nonce_key secret) = Ok (cval nonce)) as ->.
    { destruct secret; (eapply header_bytes_found; [done|rewrite find_key_lits; reflexivity|apply b64_decode_encode]). }
    cbn [mbind result_bind]. rewrite try_into_cval. cbn [ok_or mbind result_bind].
    assert (header_bytes m2 (wrapped_key secret) = Ok (aead_seal kek nonce [] (cval (as_bytes dek)))) as ->.
    { destruct secret; (eapply header_bytes_found; [done|rewrite find_key_lits; reflexivity|apply b64_decode_encode]). }
    cbn [mbind result_bind]. rewrite aead_open_seal. cbn [ok_or mbind result_bind].
    rewrite try_into_cval. cbn. by destruct dek.
  - intros secret' HS. destruct (kek_of secret' salt) as [kek'|e] eqn:HK'.
    + cbn [mbind result_bind]. assert (header_bytes m2 (nonce_key secret') = Err UnlockFailed) as ->; [|done].
      eapply header_bytes_null; [done|]. rewrite find_key_lits. by destruct secret, secret'.
    + cbn. by rewrite (kek_of_err _ _ _ HK').
Qed.

(** C18. Wrapping the data key.  A locked handle first draws a key, and keeps it even when
    the wrapping is then refused; a passphrase of fewer than 8 or more than 1024 bytes is
    refused, a PRF output never is.  The header that results unlocks, for the same secret,
    to the very key the handle holds, and for a secret of the other kind not at all. *)
Theorem wrap_dek_unlocks `{!Base64UrlLaws, !AeadLaws, !CanonicalJsonLaws, !CompressLaws} secret en st n :
  let dek : AeadKey := default (from_bytes (as_bytes (draw n))) (en_dek en) in
  let n1 := match en_dek en with Some _ => n | None => S n end in
  let salt := first_bytes 16 (draw n1) in
  let nonce := first_bytes 12 (draw (S n1)) in
  let '(w', r) := wrap_dek secret (mkWorld en st n) in
  w_state w' = st ∧ w_engine w' = mkEngine (en_defaults en) (Some dek) ∧
  match pass_refused secret, kek_of secret salt with
  | false, Ok kek =>
      let text := header_text salt secret nonce kek dek in
      r = Ok (compress text) ∧
      ((N.of_nat (length text) ≤ VAULT_MAX_UNCOMPRESSED)%N →
       unlock_dek (compress text) secret = Ok dek ∧
       ∀ secret', same_kind secret secret' = false →
         unlock_dek (compress text) secret' = Err UnlockFailed)
  | _, _ => r = Err (Refuse UnlockFailed)
  end.
Proof.
  cbv zeta. destruct en as [df [dek|]]; cbn [en_dek default from_option].
  all: unfold wrap_dek; repeat (run; cbn [en_dek en_defaults]); rewrite lift_bind;
    destruct (pass_refused secret); cbn [refuse_if]; [by split_and!|];
    rewrite lift_bind; destruct (kek_of secret _) as [kek|e] eqn:HK;
    [run; split_and!; [done..|]; intros Hl; by apply unlock_header_text|].
  all: split_and!; [done..|]; by rewrite (kek_of_err _ _ _ HK).
Qed.

End VaultKeys.

(** * The theorems on concrete inputs *)

#[local] Instance counting_rng : Rng := λ n, from_bytes (fill 32 (byte_of_N (N.of_nat n + 1))).

Definition vault_defaults : Defaults :=
  mkDefaults (mkChecked ([DurableChannel_new (mkChecked (lit "sql") eq_refl) (mkChecked (lit "a") eq_refl)], [])
    eq_refl) true true true None false Privacy_Name.

Definition locked_engine : Engine := Engine_new vault_defaults.

(** A locked handle and a PRF output: the drawn key is wrapped and unlocks again. *)
Lemma wrap_dek_unlocks_witness :
  let '(w', r) := wrap_dek (Prf (fill 32 x05)) (mkWorld locked_engine EngineState_new 0) in
  let text := header_text (first_bytes 16 (draw 1)) (Prf (fill 32 x05)) (first_bytes 12 (draw 2))
                (from_bytes (fill 32 x05)) (from_bytes (as_bytes (draw 0))) in
  r = Ok (compress text) ∧
  unlock_dek (compress text) (Prf (fill 32 x05)) = Ok (from_bytes (as_bytes (draw 0))) ∧
  unlock_dek (compress text) (Passphrase (lit "passpass")) = Err UnlockFailed.
Proof.
  pose proof (wrap_dek_unlocks (Prf (fill 32 x05)) locked_engine EngineState_new 0) as HW.
  cbv zeta in HW |- *. destruct (wrap_dek _ _) as [w' r]. destruct HW as (_ & _ & HR & HU).
  cbn [en_dek locked_engine Engine_new default from_option] in HR, HU.
  destruct HU as [H1 H2]; [by vm_compute|]. split_and!; [exact HR|exact H1|by apply H2].
Defined.

(** A handshake that stores a confirmation. *)
Definition hs_ticket : Ticket :=
  mkTicket (id_of x31) [DurableChannel_new (mkChecked (lit "sql") eq_refl) (mkChecked (lit "a") eq_refl)]
    (clamp64 100).
Definition hs_row : EngineState :=
  put_dm_invitee (id_of x01) (id_of x02) (id_of x03) (TicketReceived hs_ticket (clamp64 0))
    (with_ticked (Some (clamp64 5)) EngineState_new).
Definition hs_state : EngineState := (insert_body (id_of x07) (dm_body PConfirm) hs_row).1.

Lemma located_hs : Located hs_state.
Proof.
  pose proof (insert_body_located hs_row (id_of x07) (dm_body PConfirm)) as HI.
  unfold hs_state. destruct (insert_body _ _ _) as [st r]. apply HI.
  apply (same_store_located (with_ticked (Some (clamp64 5)) EngineState_new)); [|exact located_new].
  by apply put_dm_same_store.
Qed.

Definition hs_write : World * result fault unit :=
  write_chain_packets (id_of x03) HandshakeDm (tk_persistents hs_ticket) (id_of x11) (id_of x07)
    Actor_Handshake true (mkWorld locked_engine hs_state 0).

Lemma write_chain_packets_refines_witness :
  length (es_writes (w_state hs_write.1)) = 2%nat ∧
  ∃ chain packets bodies, sealed_run chain 0 packets bodies ∧ packets ≠ [] ∧
    es_writes (w_state hs_write.1) = queued (tk_persistents hs_ticket) (id_of x11) bodies.
Proof.
  assert (is_ok hs_write.2 = true) as HO by by vm_compute.
  split; [by vm_compute|].
  assert (from_option (λ _, true) false (chains hs_state (id_of x03)) = true) as [c Hc]%from_option_true
    by by vm_compute.
  pose proof (write_chain_packets_refines (id_of x03) HandshakeDm (tk_persistents hs_ticket) (id_of x11)
    (id_of x07) Actor_Handshake true (mkWorld locked_engine hs_state 0) c _ _ located_hs Hc
    (surjective_pairing hs_write)) as [_ HW].
  assert (hs_write.2 = Ok tt) as HR by (revert HO; generalize hs_write.2; by intros [[]|]).
  destruct (HW HR) as (t & b & chain & packets & bodies & _ & _ & _ & HF & HS & HWr & _).
  exists chain, packets, bodies. split_and!; [exact HS| |exact HWr].
  intros ->. apply fragment_body_cut in HF as (_ & HL & _). cbn in HL. lia.
Defined.
