(* ===== verification/Directory.v ===== *)
(** Who is who: the identities, peers and groups an operation looks up in the state, and
    the two ways a secret is sealed to one of them.

    [identity_policy] is in [engine/invite.rs], [identity_keys], [require_ids] and
    [on_wire_prefs] in [engine/handshake.rs], [local_material], [bin_tag] and
    [established_cids] in [engine/live.rs]; the rest is [engine/group.rs], whose
    [seal_group_secret] is [seal_sync_dek] of [engine/identity.rs] under another label. *)

From stdpp Require Import base tactics list numbers option strings countable gmap.
From Stdlib Require Import Strings.Byte.
From S2P Require Import Prelude Text Ids Order Channel Defaults Payload Json Ports Codec.
From S2P Require Import Chain RowLog Party HealRange Bins State StateLaws Helpers Engine Ratchet.

(** * Identities *)

Record ConversationRef : Set := mkConversationRef {
  cr_user_id : UserId; cr_identity_id : IdentityId; cr_conversation_id : ConversationId
}.

(** [EngineCreateIdentity] of an identity: its policy, encryption pair and signing pair. *)
Definition created_identity (st : EngineState) (user : UserId) (identity_id : IdentityId) :
    option (Policy * KeyPair * SigningKeyPair) :=
  find_map (λ b, match db_payload b with
                 | PEngineCreateIdentity u i policy encryption signing =>
                     if branded_eq u user && branded_eq i identity_id
                     then Some (policy, encryption, signing) else None
                 | _ => None
                 end) (bodies st).

Definition identity_policy (st : EngineState) (user : UserId) (identity_id : IdentityId) :
    result EngineError Policy :=
  ok_or UnknownIds (identity_policy_of st user identity_id).

Definition identity_keys (st : EngineState) (user : UserId) (identity_id : IdentityId) :
    option (Policy * bytes * bytes) :=
  '(policy, encryption, signing) ← created_identity st user identity_id;
  Some (policy, kp_public encryption, skp_public signing).

Record IdentityKeys : Set := mkIdentityKeys {
  ik_policy : Policy; ik_enc_pk : bytes; ik_sign_pk : bytes; ik_enc_sk : bytes; ik_sign_sk : bytes
}.

Definition identity_secret (st : EngineState) (user : UserId) (identity_id : IdentityId) :
    result EngineError IdentityKeys :=
  '(policy, encryption, signing) ← ok_or UnknownIds (created_identity st user identity_id);
  Ok (mkIdentityKeys policy (kp_public encryption) (skp_public signing) (kp_secret encryption)
        (skp_secret signing)).

Definition identity_for_signing (st : EngineState) (signing_pk : bytes) :
    option (UserId * IdentityId) :=
  find_map (λ b, match db_payload b with
                 | PEngineCreateIdentity u i _ _ signing =>
                     if bool_decide (skp_public signing = signing_pk) then Some (u, i) else None
                 | _ => None
                 end) (bodies st).

Definition require_ids (st : EngineState) (ids : ConversationRef) : result EngineError unit :=
  _ ← identity_policy st (cr_user_id ids) (cr_identity_id ids); Ok tt.

Definition on_wire_prefs (en : Engine) : OnWirePrefs :=
  let d := en_defaults en in
  mkOnWirePrefs (df_read_receipts d) (df_online_visible d) (df_send_typing d)
    (df_disappear_after d) None.

(** The actor this device writes as, with its signing key. *)
Definition local_material (st : EngineState) (cid : ConversationId) : option (Actor * bytes) :=
  if is_sync st cid then
    keys ← dv_keys (es_device st);
    Some (Actor_Device (dk_id keys), skp_public (dk_sign keys))
  else
    '(user, identity_id) ← owner st cid;
    '(_, _, signing) ← identity_keys st user identity_id;
    Some (Actor_Signing (SigningPublicKey_from_bytes signing), signing).

(** * Peers *)

Definition established_cids (st : EngineState) : list ConversationId :=
  flat_map (λ '(_, _, ident),
      omap (λ '(cid, kind),
          match kind with RowDirectMessage _ _ _ _ => Some cid | _ => None end)
        (entries (id_conversations ident))) (idents st)
  ++ omap (λ '(cid, kind),
         match kind with RowSynchronization _ _ _ _ _ => Some cid | _ => None end)
       (entries (dv_conversations (es_device st))).

Definition dm_peer (st : EngineState) (dm : ConversationId) (local_sign : bytes) :
    option (SigningPublicKey * EncryptionPublicKey) :=
  parent ← established_parent st dm;
  inviter ← inviter_intro_for st parent;
  invitee ← invitee_intro_for st parent;
  if bool_decide (sign_bytes (ii_signing_pk inviter) = local_sign)
  then Some (ie_signing_pk invitee, ie_encryption_pk invitee)
  else if bool_decide (sign_bytes (ie_signing_pk invitee) = local_sign)
  then Some (ii_signing_pk inviter, ii_encryption_pk inviter)
  else None.

(** The tag keys this device published in the handshake. *)
Definition intro_tag_keys (st : EngineState) (parent : ConversationId) (signing : bytes) :
    option (TagKey * TagKey) :=
  let from_invitee :=
    intro ← invitee_intro_for st parent;
    if bool_decide (sign_bytes (ie_signing_pk intro) = signing)
    then Some (ie_send_tag_key intro, ie_eph_send_tag_key intro) else None in
  match inviter_intro_for st parent with
  | Some intro =>
      if bool_decide (ii_signing_pk intro = SigningPublicKey_from_bytes signing)
      then Some (ii_send_tag_key intro, ii_eph_send_tag_key intro)
      else from_invitee
  | None => from_invitee
  end.

Definition dm_with_peer (st : EngineState) (user : UserId) (identity_id : IdentityId)
    (peer_signing : bytes) : option ConversationId :=
  keys ← (match identity_secret st user identity_id with Ok keys => Some keys | Err _ => None end);
  ident ← identity st user identity_id;
  find_map (λ '(cid, kind),
      match kind with
      | RowDirectMessage _ _ _ _ =>
          '(pk, _) ← dm_peer st cid (ik_sign_pk keys);
          if bool_decide (sign_bytes pk = peer_signing) then Some cid else None
      | _ => None
      end) (entries (id_conversations ident)).

(** * Groups *)

Definition group_phase_of (kind : IdentityConversation) : option GroupPhase :=
  match kind with RowGroup phase => Some phase | _ => None end.

Definition group_phase (st : EngineState) (cid : ConversationId) : option GroupPhase :=
  snd <$> scan (row cid group_phase_of) st.

(** [if let Some(phase) = group_phase_mut(state, cid) { *phase = f }]. *)
Definition group_phase_mut (cid : ConversationId) (f : GroupPhase → GroupPhase)
    (st : EngineState) : EngineState :=
  match scan (row cid group_phase_of) st with
  | Some (user, identity_id, _) =>
      alter_row user identity_id cid
        (λ kind, match kind with RowGroup phase => RowGroup (f phase) | _ => kind end) st
  | None => st
  end.

Definition group_live (st : EngineState) (cid : ConversationId) : option GroupLive :=
  match group_phase st cid with Some (GroupIsLive live) => Some live | _ => None end.

(** [if let Some(live) = live_mut(state, cid) { f }]. *)
Definition live_mut (cid : ConversationId) (f : GroupLive → GroupLive) :
    EngineState → EngineState :=
  group_phase_mut cid (λ phase,
    match phase with GroupIsLive live => GroupIsLive (f live) | _ => phase end).

(** Assignments to a live group. *)
Definition with_gl_members (members : list GroupMember) (pending : list GroupPending)
    (epoch : u64) (g : GroupLive) : GroupLive :=
  mkGroupLive (gl_secret g) (gl_name g) (gl_photo g) (gl_owner_signing_pk g)
    (gl_persistents g) (gl_ephemerals g) members pending epoch (gl_log g) (gl_chains g).
Definition with_gl_name (name : DisplayName) (g : GroupLive) : GroupLive :=
  mkGroupLive (gl_secret g) name (gl_photo g) (gl_owner_signing_pk g)
    (gl_persistents g) (gl_ephemerals g) (gl_members g) (gl_pending g) (gl_epoch g)
    (gl_log g) (gl_chains g).
Definition with_gl_photo (photo : option ProfilePic) (g : GroupLive) : GroupLive :=
  mkGroupLive (gl_secret g) (gl_name g) photo (gl_owner_signing_pk g)
    (gl_persistents g) (gl_ephemerals g) (gl_members g) (gl_pending g) (gl_epoch g)
    (gl_log g) (gl_chains g).

(** * Sealing *)

Section Sealing.
Context `{Suite}.

Definition bin_tag (key : TagKey) (label : bytes) (bin : TimeBin) : Tag :=
  from_bytes (as_bytes (expand (from_bytes (as_bytes key)) (label ++ to_be_bytes bin))).

Definition GROUP_SECRET_INFO : bytes := blit "chuchotez/1/group-secret".
Definition SYNC_DEK_INFO : bytes := blit "chuchotez/1/sync-dek".

(** [nonce || seal(key, nonce, plain)] under a drawn nonce. *)
Definition seal_under (key : AeadKey) (rnd : Random32) (plain : bytes) : bytes :=
  cval (nonce_of rnd) ++ aead_seal key (nonce_of rnd) [] plain.

Definition open_under (key : AeadKey) (packed : bytes) : option bytes :=
  nonce ← try_into 12 (take PACKET_NONCE_LEN packed);
  aead_open key nonce [] (drop PACKET_NONCE_LEN packed).

(** The key a KEM secret is expanded to. *)
Definition wrap_key (info shared : bytes) : AeadKey :=
  from_bytes (as_bytes (expand (from_bytes (as_bytes (take_shared32 shared))) info)).

Definition seal_to (info : bytes) `{Rng} (policy : Policy) (pk plain : bytes) : M bytes :=
  seed ← random_seed;
  '(shared, ct) ← lift (ok_or MalformedPayload (kem_wrap policy pk seed));
  rnd ← random32;
  mret (ct ++ seal_under (wrap_key info shared) rnd plain).

Definition open_sealed (info : bytes) (policy : Policy) (sk packed : bytes) :
    result EngineError (arr 32) :=
  let ct_len := kem_ct_len policy in
  _ ← refuse_if (length packed <=? ct_len + PACKET_NONCE_LEN)%nat MalformedPayload;
  shared ← ok_or MalformedPayload (kem_unwrap policy sk (take ct_len packed));
  plain ← ok_or MalformedPayload (open_under (wrap_key info shared) (drop ct_len packed));
  ok_or MalformedPayload (try_into 32 plain).

Definition seal_group_secret `{Rng} : Policy → bytes → bytes → M bytes := seal_to GROUP_SECRET_INFO.
Definition open_group_secret : Policy → bytes → bytes → result EngineError (arr 32) :=
  open_sealed GROUP_SECRET_INFO.
Definition seal_sync_dek `{Rng} : Policy → bytes → bytes → M bytes := seal_to SYNC_DEK_INFO.
Definition open_sync_dek : Policy → bytes → bytes → result EngineError (arr 32) :=
  open_sealed SYNC_DEK_INFO.

(** * Rosters *)

Definition roster_bytes (roster : TxGroupRoster) : bytes :=
  json_encode (payload_to_json (PGroupRoster roster)).

(** The roster with [sig_len] zero bytes for a signature: what is signed. *)
Definition unsigned_roster (policy : Policy) (roster : TxGroupRoster) : TxGroupRoster :=
  mkTxGroupRoster (gr_epoch roster) (gr_members roster)
    (replicate (sign_sig_len policy) x00).

Definition verify_roster (owner_pk : bytes) (roster : TxGroupRoster) : result EngineError unit :=
  if existsb (λ policy, sign_verify policy owner_pk
                (roster_bytes (unsigned_roster policy roster)) (gr_sig roster))
       [Classic; PostQuantum; Hybrid]
  then Ok tt else Err MalformedPayload.

End Sealing.
