(* ===== verification/Skeleton.v ===== *)
(** What sending leaves alone: the rows without their chains, and without the logs of
    established conversations.  A state that was reached by changing chains and storing
    ratchet transactions has the same owners, tickets, notices, introductions and routes. *)

From stdpp Require Import base tactics list numbers option strings countable gmap sorting.
From Stdlib Require Import Strings.Byte.
From S2P Require Import Prelude Text Ids Order Channel Defaults Payload Json Ports Codec.
From S2P Require Import Chain RowLog Party HealRange Bins State StateLaws Helpers HelpersLaws.
From S2P Require Import Engine Ratchet RatchetLaws Vault Directory.

(** * Erasing *)

Definition bare_live (g : GroupLive) : GroupLive :=
  with_gl_log (λ _, ∅) (with_gl_chains (λ _, EstablishedChains_default) g).

Definition bare (kind : IdentityConversation) : IdentityConversation :=
  match kind with
  | RowDmHandshake party log _ => RowDmHandshake party log PacketChains_default
  | RowDirectMessage secret parent _ _ => RowDirectMessage secret parent ∅ EstablishedChains_default
  | RowGroup (GroupIsLive live) => RowGroup (GroupIsLive (bare_live live))
  | RowGroup phase => RowGroup phase
  end.

Definition bare_device (kind : DeviceConversation) : DeviceConversation :=
  match kind with
  | RowSyncHandshake party log _ => RowSyncHandshake party log PacketChains_default
  | RowSynchronization secret parent peer _ _ =>
      RowSynchronization secret parent peer ∅ EstablishedChains_default
  end.

(** Nothing that looks at bare rows only tells the states apart. *)
Record same_rows (st st' : EngineState) : Prop := mkSameRows {
  sr_scan : ∀ B (f : IdentityConversation → option B) cid,
    (∀ kind, f (bare kind) = f kind) → scan (row cid f) st' = scan (row cid f) st;
  sr_device : ∀ B (f : DeviceConversation → option B) cid,
    (∀ kind, f (bare_device kind) = f kind) → device_row cid f st' = device_row cid f st;
  sr_keys : dv_keys (es_device st') = dv_keys (es_device st);
  sr_created : ∀ user identity_id,
    created_identity st' user identity_id = created_identity st user identity_id;
  sr_ticked : es_ticked st' = es_ticked st
}.

#[export] Instance same_rows_preorder : PreOrder same_rows.
Proof.
  split; [by split|]. intros s1 s2 s3 [] []. split; intros.
  - rewrite sr_scan1, sr_scan0 by done. done.
  - rewrite sr_device1, sr_device0 by done. done.
  - congruence.
  - by rewrite sr_created1.
  - congruence.
Qed.

(** ** Without any log

    Weaker: the logs of handshakes are erased too, so this is kept by whatever is sent or
    stored. *)

Definition bones (kind : IdentityConversation) : IdentityConversation := bare (logless kind).
Definition bones_device (kind : DeviceConversation) : DeviceConversation :=
  bare_device (logless_device kind).

Record steady (st st' : EngineState) : Prop := mkSteady {
  sy_scan : ∀ B (f : IdentityConversation → option B) cid,
    (∀ kind, f (bones kind) = f kind) → scan (row cid f) st' = scan (row cid f) st;
  sy_device : ∀ B (f : DeviceConversation → option B) cid,
    (∀ kind, f (bones_device kind) = f kind) → device_row cid f st' = device_row cid f st;
  sy_ticked : es_ticked st' = es_ticked st
}.

#[export] Instance steady_preorder : PreOrder steady.
Proof.
  split; [by split|]. intros s1 s2 s3 [] []. split; intros.
  - rewrite sy_scan1, sy_scan0 by done. done.
  - rewrite sy_device1, sy_device0 by done. done.
  - congruence.
Qed.

Lemma bones_bare kind : bones (bare kind) = bones kind.
Proof. by destruct kind as [| |[]]. Qed.
Lemma bones_device_bare kind : bones_device (bare_device kind) = bones_device kind.
Proof. by destruct kind. Qed.

Lemma rows_steady st st' : same_rows st st' → steady st st'.
Proof.
  intros HR. split; [| |apply HR].
  - intros B f cid Hf. apply (sr_scan _ _ HR). intros kind. by rewrite <-Hf, bones_bare, Hf.
  - intros B f cid Hf. apply (sr_device _ _ HR). intros kind. by rewrite <-Hf, bones_device_bare, Hf.
Qed.

Lemma steady_row u i c g st : (∀ kind, bones (g kind) = bones kind) → steady st (alter_row u i c g st).
Proof.
  intros HG. split; try done. intros B f cid Hf. apply scan_row_alter_same.
  intros kind. by rewrite <-Hf, HG, Hf.
Qed.

Lemma steady_device_row c g st :
  (∀ kind, bones_device (g kind) = bones_device kind) → steady st (alter_device_row c g st).
Proof.
  intros HG. split; try done. intros B f cid Hf. apply device_row_alter_same.
  intros kind. by rewrite <-Hf, HG, Hf.
Qed.

Lemma steady_insert_body id b st : steady st (insert_body id b st).1.
Proof.
  apply (insert_body_along steady); try done.
  - intros u i c g st' HG. apply steady_row. intros kind. unfold bones. by rewrite HG.
  - intros c g st' HG. apply steady_device_row. intros kind. unfold bones_device. by rewrite HG.
Qed.

Lemma steady_chains_mut cid f st : steady st (chains_mut cid f st).
Proof.
  unfold chains_mut. destruct (scan _ st) as [[[u i] c]|].
  - apply steady_row. by intros [| |[]].
  - apply steady_device_row. by intros [].
Qed.

Lemma steady_established_mut cid f st : steady st (established_mut cid f st).
Proof.
  unfold established_mut. destruct (scan _ st) as [[[u i] c]|].
  - apply steady_row. by intros [| |[]].
  - apply steady_device_row. by intros [].
Qed.

(** * Changes that keep the bare rows *)

Lemma created_stored st st' user identity_id :
  stored st' = stored st → created_identity st' user identity_id = created_identity st user identity_id.
Proof. intros HS. unfold created_identity, bodies, body_pairs. by rewrite HS. Qed.

Lemma alter_row_bare u i c g st :
  (∀ kind, bare (g kind) = bare kind) → stored (alter_row u i c g st) = stored st →
  same_rows st (alter_row u i c g st).
Proof.
  intros HG HS. split; try done.
  - intros B f cid Hf. apply scan_row_alter_same. intros kind. by rewrite <-Hf, HG, Hf.
  - intros. by apply created_stored.
Qed.

Lemma alter_device_bare c g st :
  (∀ kind, bare_device (g kind) = bare_device kind) → stored (alter_device_row c g st) = stored st →
  same_rows st (alter_device_row c g st).
Proof.
  intros HG HS. split; try done.
  - intros B f cid Hf. apply device_row_alter_same. intros kind. by rewrite <-Hf, HG, Hf.
  - intros. by apply created_stored.
Qed.

Lemma located_established_mut cid f st : Located st → Located (established_mut cid f st).
Proof. intros HL. exact (proj1 (same_store_located _ _ (established_mut_same_store cid f st) HL)). Qed.

Lemma established_mut_rows cid f st : Located st → same_rows st (established_mut cid f st).
Proof.
  intros HL. destruct (same_store_located _ _ (established_mut_same_store cid f st) HL) as [_ HS].
  revert HS. unfold established_mut. destruct (scan _ st) as [[[u i] c]|]; intros HS.
  - apply alter_row_bare; [|done]. by intros [| |[]].
  - apply alter_device_bare; [|done]. by intros [].
Qed.

Lemma log_persist_rows id st : same_rows st (log_persist id st).
Proof. by split. Qed.

Lemma tx_place_rows places st : same_rows st (with_tx_place places st).
Proof. by split. Qed.

(** ** Storing a ratchet transaction *)

Lemma ratchet_not_handshake p :
  ratchet_payload p = true → DmHandshakeTx_from_payload p = None ∧ SyncHandshakeTx_from_payload p = None.
Proof. by destruct p. Qed.

Lemma identity_insert_bare id b kind kind' :
  ratchet_payload (db_payload b) = true → identity_insert id b kind = Some kind' → bare kind' = bare kind.
Proof.
  intros [H1 H2]%ratchet_not_handshake. destruct kind as [p log ch|s p log ch|[live|o|r]]; cbn; try done.
  - by rewrite H1.
  - destruct (DmTx_from_payload _); cbn; [|done]. by intros [= <-].
  - destruct (LiveGroupTx_from_payload _); cbn; [|done]. by intros [= <-].
Qed.

Lemma device_insert_bare id b kind kind' :
  ratchet_payload (db_payload b) = true → device_insert id b kind = Some kind' →
  bare_device kind' = bare_device kind.
Proof.
  intros [H1 H2]%ratchet_not_handshake. destruct kind as [p log ch|s p peer log ch]; cbn.
  - by rewrite H2.
  - destruct (SyncTx_from_payload _); cbn; [|done]. by intros [= <-].
Qed.

(** A new transaction that creates no identity hides none. *)
Lemma find_map_entries {B} (f : DurableBody → option B) (m : gmap Tag DurableBody) id b :
  f b = None → m !! id = None →
  find_map f (map snd (entries (<[id := b]> m))) = find_map f (map snd (entries m)).
Proof.
  intros Hf Hm. set (q := λ kv : Tag * DurableBody, match f kv.2 with Some _ => true | None => false end).
  set (p := λ kv, q kv = true).
  assert (∀ l : list (Tag * DurableBody), find_map f (map snd l) = find_map f (map snd (filter p l))) as HF.
  { induction l as [|[k v] l IH]; [done|]. destruct (q (k, v)) eqn:E.
    - rewrite filter_cons_True by done. unfold q in E. cbn in *. by destruct (f v).
    - rewrite filter_cons_False by (unfold p; by rewrite E). unfold q in E. cbn in *. by destruct (f v). }
  rewrite (HF (entries (<[id := b]> m))), (HF (entries m)). do 2 f_equal.
  assert (∀ m' : gmap Tag DurableBody, StronglySorted key_le (filter p (entries m'))) as HS.
  { intros m'. pose proof (entries_sorted m') as HS. induction HS as [|x l HS IH HX]; [constructor|].
    destruct (decide (p x)) as [Hx|Hx]; [rewrite filter_cons_True by done|by rewrite filter_cons_False].
    constructor; [done|]. rewrite Forall_forall in *. intros y [_ Hy]%list_elem_of_filter. by apply HX. }
  apply key_sorted_unique; [apply HS..| |].
  - eapply sublist_NoDup; [apply (entries_keys_NoDup (<[id := b]> m))|]. apply (fmap_sublist fst). apply sublist_filter.
  - rewrite !entries_perm, map_to_list_insert by done. rewrite filter_cons_False; [done|].
    unfold p, q. cbn. by rewrite Hf.
Qed.

Lemma write_row_rows id b st st' :
  Located st → Located st' → ratchet_payload (db_payload b) = true →
  stored st !! id = None → stored st' = <[id := b]> (stored st) →
  write_row id b st = Some st' → same_rows st st'.
Proof.
  intros HL HL' HP HN HS HW.
  assert (∀ u i, created_identity st' u i = created_identity st u i) as HC.
  { intros u i. unfold created_identity, bodies, body_pairs. rewrite HS. apply find_map_entries; [|done].
    by destruct (db_payload b). }
  revert HC. clear HS. revert HW. unfold write_row. destruct (place_of _ _) as [[|u i c|c]|].
  1, 4: destruct (log_insert id b (es_engine_log st)); cbn; [by intros [= <-]|done].
  - destruct (identity_row st u i c) as [k|] eqn:Hk; [|done]. cbn.
    destruct (identity_insert id b k) as [k'|] eqn:HI; [|done]. cbn. intros [= <-] HC. split; try done.
    intros B f cid Hf. change (scan (row cid f) (alter_row u i c (λ _, k') st) = scan (row cid f) st).
    rewrite (alter_row_ext _ _ _ _ (λ k, default k (identity_insert id b k))).
    + apply scan_row_alter_same. intros kind. destruct (identity_insert id b kind) as [kind'|] eqn:E; [|done].
      cbn. rewrite <-Hf. by rewrite (identity_insert_bare _ _ _ _ HP E), Hf.
    + intros kind. rewrite Hk. intros [= <-]. by rewrite HI.
  - unfold device_row at 1. destruct (dv_conversations (es_device st) !! c) as [k|] eqn:Hk; [|done]. cbn.
    destruct (device_insert id b k) as [k'|] eqn:HI; [|done]. cbn. intros [= <-] HC. split; try done.
    intros B f cid Hf. change (device_row cid f (alter_device_row c (λ _, k') st) = device_row cid f st).
    rewrite (alter_device_row_ext _ _ (λ k, default k (device_insert id b k))).
    + apply device_row_alter_same. intros kind. destruct (device_insert id b kind) as [kind'|] eqn:E; [|done].
      cbn. rewrite <-Hf. by rewrite (device_insert_bare _ _ _ _ HP E), Hf.
    + intros kind. rewrite Hk. intros [= <-]. by rewrite HI.
Qed.

(** Forgetting an id that is bound to nothing changes no row. *)
Lemma remove_absent_rows id st : Located st → body st id = None → same_rows st (remove_body id st).
Proof.
  intros HL HN. assert (stored (remove_body id st) = stored st) as HS.
  { destruct (remove_body_located st id HL) as [HL' HB]. apply map_eq. intros id'.
    rewrite !stored_lookup, HB by done. by case_decide; [subst|]. }
  unfold body in HN. unfold remove_body in *.
  destruct (es_tx_place st !! id) as [[|u i c|c]|] eqn:E; cbn in HN.
  - split; try done. intros. by apply created_stored.
  - assert (∀ kind, identity_row (with_tx_place (delete id (es_tx_place st)) st) u i c = Some kind →
      identity_remove id kind = kind) as HK.
    { intros kind Hk. change (identity_row st u i c = Some kind) in Hk. rewrite Hk in HN. cbn in HN.
      destruct kind as [p log ch|s p log ch|[live|o|r]]; cbn in *; unfold log_body in HN; try done.
      all: apply fmap_None in HN.
      - by rewrite delete_id.
      - by rewrite delete_id.
      - do 2 f_equal. destruct live; unfold with_gl_log; cbn in *. by rewrite delete_id. }
    rewrite (alter_row_ext _ _ _ _ (λ k, k) _ HK) in HS |- *.
    etrans; [apply tx_place_rows|]. apply alter_row_bare; [done|exact HS].
  - assert (∀ kind, dv_conversations (es_device (with_tx_place (delete id (es_tx_place st)) st)) !! c = Some kind →
      device_remove id kind = kind) as HK.
    { intros kind Hk. unfold device_row in HN. cbn in Hk. rewrite Hk in HN. cbn in HN.
      destruct kind; cbn in *; unfold log_body in HN; apply fmap_None in HN; by rewrite delete_id. }
    rewrite (alter_device_row_ext _ _ (λ k, k) _ HK) in HS |- *.
    etrans; [apply tx_place_rows|]. apply alter_device_bare; [done|exact HS].
  - done.
Qed.

Lemma insert_ratchet_rows id b st st' :
  Located st → body st id = None → ratchet_payload (db_payload b) = true →
  insert_body id b st = (st', Ok tt) → same_rows st st' ∧ Located st' ∧ stored st' = <[id := b]> (stored st).
Proof.
  intros HL HN HP HI. pose proof (insert_body_located st id b HL) as HX. rewrite HI in HX.
  destruct HX as (HL' & HT & HS). destruct (row_takes st b); [|done]. split_and!; [|done..].
  revert HI. unfold insert_body. cbv zeta.
  set (st0 := match es_tx_place st !! id with Some _ => remove_body id st | None => st end).
  destruct (remove_if_contained st id HL) as (HL0 & HN0 & HB0 & _). cbv zeta in HL0, HN0, HB0. fold st0 in HL0, HN0, HB0.
  assert (same_rows st st0) as HR by (unfold st0; case_match; [by apply remove_absent_rows|done]).
  destruct (write_row id b st0) as [st''|] eqn:E; [|done]. intros [= <-]. etrans; [exact HR|].
  assert (stored st0 = stored st) as HS0.
  { apply map_eq. intros id'. rewrite !stored_lookup, HB0 by done. by case_decide; [subst|]. }
  apply write_row_rows with id b; try done; [|by rewrite HS0]. by rewrite HS0, stored_lookup.
Qed.

(** * What the rows still tell *)

Lemma scan_row_fmap {A B} (h : A → B) (f : IdentityConversation → option A) cid st :
  scan (row cid (λ kind, h <$> f kind)) st = (λ '(u, i, a), (u, i, h a)) <$> scan (row cid f) st.
Proof.
  unfold scan. rewrite <-find_map_fmap. apply find_map_ext. intros [[u i] ident] _. unfold row.
  destruct (id_conversations ident !! cid) as [kind|]; cbn; [|done]. by destruct (f kind).
Qed.

Section Told.
Context (st st' : EngineState) (HR : steady st st').

Lemma steady_scope cid : scope_of st' cid = scope_of st cid.
Proof.
  assert (∀ s, scope_of s cid = match scan (row cid (λ kind, const tt <$> Some kind)) s with
    | Some (u, i, _) => Some (ScopeIdentity u i) | None => device_row cid (λ _, Some ScopeDevice) s end) as HE.
  { intros s. rewrite scan_row_fmap. unfold scope_of. by destruct (scan _ s) as [[[]]|]. }
  rewrite !HE. rewrite (sy_scan _ _ HR) by (by intros [| |[]]). by rewrite (sy_device _ _ HR) by (by intros []).
Qed.

Lemma steady_owner cid : owner st' cid = owner st cid.
Proof. unfold owner. by rewrite steady_scope. Qed.

Lemma steady_is_sync cid : is_sync st' cid = is_sync st cid.
Proof.
  unfold is_sync. apply bool_decide_ext.
  pose proof (sy_device _ _ HR unit (λ _, Some tt) cid) as HD. specialize (HD ltac:(by intros [])).
  unfold device_row in HD. by destruct (dv_conversations (es_device st') !! cid), (dv_conversations (es_device st) !! cid).
Qed.

Lemma steady_parent cid : established_parent st' cid = established_parent st cid.
Proof.
  unfold established_parent. rewrite (sy_scan _ _ HR) by (by intros [| |[]]).
  by rewrite (sy_device _ _ HR) by (by intros []).
Qed.

Lemma steady_secret cid : established_secret st' cid = established_secret st cid.
Proof.
  unfold established_secret. rewrite (sy_scan _ _ HR) by (by intros [| |[]]).
  by rewrite (sy_device _ _ HR) by (by intros []).
Qed.

Lemma steady_party cid : party st' cid = party st cid.
Proof.
  unfold party, dm_party, sync_party. rewrite (sy_scan _ _ HR) by (by intros [| |[]]).
  by rewrite (sy_device _ _ HR) by (by intros []).
Qed.

Lemma steady_ticket cid : ticket st' cid = ticket st cid.
Proof. by rewrite !ticket_party, steady_party. Qed.

Lemma steady_group cid : bare_live <$> group_live st' cid = bare_live <$> group_live st cid.
Proof.
  assert (∀ s, bare_live <$> group_live s cid = match scan (row cid (λ kind, (λ phase, match phase with
      | GroupIsLive live => Some (bare_live live) | _ => None end) <$> group_phase_of kind)) s with
    | Some (_, _, Some live) => Some live | _ => None end) as HE.
  { intros s. rewrite scan_row_fmap. unfold group_live, group_phase.
    destruct (scan _ s) as [[[u i] [live|o|r]]|]; done. }
  rewrite !HE. by rewrite (sy_scan _ _ HR) by (by intros [| |[]]).
Qed.

End Told.

Section ToldRows.
Context (st st' : EngineState) (HR : same_rows st st').
Let HS := rows_steady _ _ HR.

Lemma rows_handshake {B} (dm : DmHandshakeTx → option B) sync cid :
  handshake_find dm sync st' cid = handshake_find dm sync st cid.
Proof.
  unfold handshake_find, dm_handshake_log, sync_handshake_log.
  rewrite (sr_scan _ _ HR) by (by intros [| |[]]). by rewrite (sr_device _ _ HR) by (by intros []).
Qed.

Lemma rows_material cid : local_material st' cid = local_material st cid.
Proof.
  unfold local_material, identity_keys. rewrite (steady_is_sync _ _ HS), (steady_owner _ _ HS), (sr_keys _ _ HR).
  destruct (is_sync st cid); [done|]. destruct (owner st cid) as [[u i]|]; cbn; [|done].
  by rewrite (sr_created _ _ HR).
Qed.
End ToldRows.
