(* ===== verification/Samples.v ===== *)
(** A concrete device: one identity, one handshake at its end and the direct message it led
    to, on the suite of [TestDoubles.v].  The theorems of the later files are evaluated on
    it. *)

From stdpp Require Import base tactics list numbers option strings countable gmap.
From Stdlib Require Import Strings.Byte.
From S2P Require Import Prelude Text Ids Order Channel Defaults Payload Json Ports TestDoubles Codec.
From S2P Require Import Chain RowLog Party HealRange Bins State StateLaws Helpers HelpersLaws.
From S2P Require Import Engine Frame Ratchet RatchetLaws Vault VaultLaws Directory Skeleton.

(** Draw [n] is thirty-two times the byte [n + 1]. *)
#[export] Instance counting_draws : Rng | 100 := λ n, from_bytes (fill 32 (byte_of_N (N.of_nat n + 1))).

Definition store_all (l : list (Tag * DurableBody)) (st : EngineState) : EngineState :=
  fold_left (λ st '(id, b), (insert_body id b st).1) l st.

Lemma located_store_all l st : Located st → Located (store_all l st).
Proof.
  revert st. induction l as [|[id b] l IH]; intros st HL; [done|]. cbn. apply IH.
  pose proof (insert_body_located st id b HL) as HI. destruct (insert_body id b st). apply HI.
Qed.

Definition chat_durable : DurableChannel :=
  DurableChannel_new (mkChecked (lit "sql") eq_refl) (mkChecked (lit "a") eq_refl).
Definition chat_ephemeral : EphemeralChannel :=
  EphemeralChannel_new (mkChecked (lit "mqtt") eq_refl) (mkChecked (lit "e") eq_refl).

Definition chat_defaults : Defaults :=
  mkDefaults (mkChecked ([chat_durable], [chat_ephemeral]) eq_refl) true true true None false Privacy_Name.
Definition chat_engine : Engine := mkEngine chat_defaults (Some (id_of x09)).

Definition chat_name : DisplayName := mkChecked (lit "ada") eq_refl.

(** Ours is [41], the peer's is [42]. *)
Definition chat_signing (b : byte) : SigningKeyPair := SigningKeyPair_from_parts (replicate 32 b) (replicate 32 b).
Definition chat_encryption (b : byte) : KeyPair := KeyPair_from_parts (replicate 32 b) (replicate 32 b).
Definition chat_prefs : OnWirePrefs := mkOnWirePrefs true true true None None.

Definition chat_notice : TxNotice :=
  mkTxNotice Classic (EncryptionPublicKey_from_bytes (replicate 32 x42)) [chat_durable] [chat_ephemeral]
    (clamp64 100000).
Definition chat_invitee : TxInviteeIntro :=
  mkTxInviteeIntro chat_name None (id_of x51) (id_of x52)
    (EncryptionPublicKey_from_bytes (replicate 32 x41)) (SigningPublicKey_from_bytes (replicate 32 x41))
    (EncryptionPublicKey_from_bytes (replicate 32 x43)) (replicate 32 x44) chat_prefs.
Definition chat_inviter : TxInviterIntro :=
  mkTxInviterIntro chat_name None (id_of x53) (id_of x54)
    (EncryptionPublicKey_from_bytes (replicate 32 x42)) (SigningPublicKey_from_bytes (replicate 32 x42))
    (replicate 32 x45) chat_prefs.

Definition chat_ticket : Ticket := mkTicket (id_of x31) [chat_durable] (clamp64 100000).

(** The handshake is [0c], the direct message [03]. *)
Definition chat_rows : EngineState :=
  put_dm (id_of x01) (id_of x02) (id_of x03) (IdentityNode_direct (id_of x32) (id_of x0c))
    (put_dm_invitee (id_of x01) (id_of x02) (id_of x0c) (TicketReceived chat_ticket (clamp64 0))
       (with_ticked (Some (clamp64 7200)) EngineState_new)).

Definition body_in (cid : ConversationId) (payload : TxPayload) : DurableBody :=
  mkDurableBody cid (mkHlc (clamp64 1) (clamp64 0)) payload.

Definition chat_state : EngineState :=
  store_all
    [(id_of x61, body_in (id_of x99) (PEngineCreateIdentity (id_of x01) (id_of x02) Classic
        (chat_encryption x41) (chat_signing x41)));
     (id_of x62, body_in (id_of x0c) (PNotice chat_notice));
     (id_of x63, body_in (id_of x0c) (PInviteeIntro chat_invitee));
     (id_of x64, body_in (id_of x0c) (PInviterIntro chat_inviter));
     (id_of x65, body_in (id_of x03) (PText (mkTxText (lit "hi") None None)))] chat_rows.

Lemma located_chat : Located chat_state.
Proof.
  apply located_store_all. unfold chat_rows.
  apply (same_store_located (put_dm_invitee (id_of x01) (id_of x02) (id_of x0c)
    (TicketReceived chat_ticket (clamp64 0)) (with_ticked (Some (clamp64 7200)) EngineState_new))).
  - by apply put_dm_same_store.
  - apply (same_store_located (with_ticked (Some (clamp64 7200)) EngineState_new)); [|exact located_new].
    by apply put_dm_same_store.
Qed.

(** Enough packets were sent that a ratchet step is due. *)
Definition owing_state : EngineState :=
  established_mut (id_of x03) (with_ratchet (λ r,
    mkRatchet (clamp64 50) (rt_minted r) (rt_unused r) (rt_known r))) chat_state.

Lemma located_owing : Located owing_state.
Proof. apply located_established_mut, located_chat. Qed.
