(* ===== verification/Chat.v ===== *)
(** Chat on established conversations: who may send, what text is allowed, which
    preferences are in force, who is woken, and what signals are noted
    ([engine/chat.rs]; its views are in [Views.v]). *)

From stdpp Require Import base tactics list numbers option strings countable gmap.
From Stdlib Require Import Strings.Byte.
From S2P Require Import Prelude Text Ids Order Channel Defaults Payload Json Ports Codec.
From S2P Require Import Chain RowLog Party HealRange Bins State StateLaws Helpers Engine Ratchet.
From S2P Require Import Directory.

(** * Gates *)

Definition is_established (st : EngineState) (cid : ConversationId) : bool :=
  bool_decide (is_Some (established_secret st cid)).

Definition require_dm_chat (st : EngineState) (cid : ConversationId) : result EngineError unit :=
  if is_established st cid && negb (is_sync st cid) then Ok tt else Err WrongPhase.

Definition gate_chat (st : EngineState) (ids : ConversationRef) : result EngineError unit :=
  if is_sync st (cr_conversation_id ids) then require_dm_chat st (cr_conversation_id ids)
  else _ ← require_ids st ids; require_dm_chat st (cr_conversation_id ids).

Definition require_signal (st : EngineState) (cid : ConversationId) : result EngineError unit :=
  if is_established st cid then Ok tt else Err WrongPhase.

Definition chat_text (value : str) : result EngineError unit :=
  refuse_if (bool_decide (value = []) || (16384 <? str_len value)%nat
             || (4096 <? length value)%nat || existsb is_combining value) MalformedPayload.

Definition chat_emoji (emoji : str) : result EngineError unit :=
  refuse_if (bool_decide (emoji = []) || (32 <? str_len emoji)%nat
             || existsb is_combining emoji) MalformedPayload.

Definition media_name (value : str) (max : nat) : result EngineError unit :=
  refuse_if (bool_decide (value = []) || (max <? str_len value)%nat
             || existsb is_combining value) MalformedPayload.

(** * The latest of a kind

    [latest_wire], [latest_marker], [latest_disappear] and [latest_online] are the same loop
    at different projections: the greatest (wall, counter, id) of the conversation wins. *)

Record TxKey : Set := mkTxKey { k_wall : u64; k_counter : u64; k_id : Tag }.

(** The order of the Rust triple. *)
Definition key_cmp (a b : TxKey) : comparison :=
  then_with (N.compare (cval (k_wall a)) (cval (k_wall b)))
    (then_with (N.compare (cval (k_counter a)) (cval (k_counter b)))
       (branded_cmp (k_id a) (k_id b))).

Definition key_gtb (a b : TxKey) : bool := match key_cmp a b with Gt => true | _ => false end.

Definition tx_key (id : Tag) (tx : DurableBody) : TxKey :=
  mkTxKey (wall_ms (db_hlc tx)) (counter (db_hlc tx)) id.

Definition keep_latest {A} (best : option (TxKey * A)) (row : TxKey * A) : option (TxKey * A) :=
  match best with
  | None => Some row
  | Some kept => if key_gtb row.1 kept.1 then Some row else best
  end.

(** The rows of the conversation that carry an [A], with their keys. *)
Definition carried {A} (f : TxPayload → option A) (st : EngineState) (cid : ConversationId) :
    list (TxKey * A) :=
  omap (λ '(id, tx),
      if branded_eq (db_conversation_id tx) cid
      then a ← f (db_payload tx); Some (tx_key id tx, a) else None) (body_pairs st).

Definition latest {A} (f : TxPayload → option A) (st : EngineState) (cid : ConversationId) :
    option A :=
  snd <$> fold_left keep_latest (carried f st cid) None.

Definition prefs_of (payload : TxPayload) : option OnWirePrefs :=
  match payload with PPrefs prefs => Some prefs | _ => None end.

Definition latest_wire : EngineState → ConversationId → option OnWirePrefs := latest prefs_of.
Definition latest_disappear : EngineState → ConversationId → option (option u64) :=
  latest (λ p, p_disappear_after <$> prefs_of p).
Definition latest_online : EngineState → ConversationId → option bool :=
  latest (λ p, p_online_visible <$> prefs_of p).

Definition latest_marker (st : EngineState) (cid : ConversationId) (read : bool) : option Tag :=
  latest (λ p, match p with
               | PRead up_to => if read then Some up_to else None
               | PDelivered up_to => if read then None else Some up_to
               | _ => None
               end) st cid.

Definition expire_at (en : Engine) (st : EngineState) (cid : ConversationId) :
    option UnixSeconds :=
  let secs := default (df_disappear_after (en_defaults en)) (latest_disappear st cid) in
  now ← es_ticked st; secs ← secs; Some (sat_add now (cval secs)).

Definition text_payload (en : Engine) (st : EngineState) (cid : ConversationId) (body : str)
    (reply_to : option Tag) : TxPayload := PText (mkTxText body reply_to (expire_at en st cid)).

Definition shows_online (en : Engine) (st : EngineState) (cid : ConversationId) : bool :=
  default (df_online_visible (en_defaults en)) (latest_online st cid).

(** * Wake targets *)

Definition ping_target (wake : Wake) : PingTarget :=
  mkPingTarget (cval (w_endpoint wake)) (w_p256dh wake) (w_auth wake) (w_vapid_pk wake).

Definition peer_wake (st : EngineState) (cid : ConversationId) : option Wake :=
  parent ← established_parent st cid;
  '(_, signing) ← local_material st cid;
  let of_invitee := intro ← invitee_intro_for st parent; p_wake (ie_prefs intro) in
  match inviter_intro_for st parent with
  | Some intro =>
      if bool_decide (ii_signing_pk intro = SigningPublicKey_from_bytes signing)
      then of_invitee else p_wake (ii_prefs intro)
  | None => of_invitee
  end.

Record PrefsSeen : Set := mkPrefsSeen {
  ps_id : Tag; ps_sender : Actor; ps_wall : u64; ps_counter : u64; ps_wake : option Wake
}.

Record LatestWake : Set := mkLatestWake {
  lw_sender : Actor; lw_key : TxKey; lw_wake : option Wake
}.

(** [rows]: the preferences of the conversation whose sender is known, in id order. *)
Definition prefs_seen (st : EngineState) (cid : ConversationId) (senders : gmap Tag Actor) :
    list PrefsSeen :=
  sort_by (λ a b, branded_cmp (ps_id a) (ps_id b))
    (omap (λ '(id, tx),
       if branded_eq (db_conversation_id tx) cid then
         prefs ← prefs_of (db_payload tx);
         sender ← senders !! id;
         Some (mkPrefsSeen id sender (wall_ms (db_hlc tx)) (counter (db_hlc tx)) (p_wake prefs))
       else None) (body_pairs st)).

Definition seen_key (r : PrefsSeen) : TxKey := mkTxKey (ps_wall r) (ps_counter r) (ps_id r).

(** The step of the loop over [rows]: replace the sender's entry when this one is later. *)
Fixpoint keep_wake (r : PrefsSeen) (best : list LatestWake) : list LatestWake :=
  match best with
  | [] => [mkLatestWake (ps_sender r) (seen_key r) (ps_wake r)]
  | kept :: best =>
      if decide (lw_sender kept = ps_sender r) then
        (if key_gtb (seen_key r) (lw_key kept)
         then mkLatestWake (lw_sender kept) (seen_key r) (ps_wake r) else kept) :: best
      else kept :: keep_wake r best
  end.

Definition member_wakes (members : list GroupMember) (rows : list PrefsSeen) : list LatestWake :=
  fold_left (λ best r, keep_wake r best)
    (filter (λ r, existsb (λ m, bool_decide (sign_bytes (gm_signing_pk m)
                                             = Actor_as_bytes (ps_sender r))) members = true) rows)
    [].

(** [None] where an [expect] would panic. *)
Definition group_member_pings (st : EngineState) (cid : ConversationId) :
    option (list PingTarget) :=
  live ← group_live st cid;
  chains ← established st cid;
  Some (omap (λ kept, ping_target <$> lw_wake kept)
          (member_wakes (gl_members live) (prefs_seen st cid (ec_chat_senders chains)))).

Definition fill_ping (st : EngineState) (cid : ConversationId) : option (list PingTarget) :=
  match group_live st cid with
  | Some _ => group_member_pings st cid
  | None => Some (option_list (ping_target <$> peer_wake st cid))
  end.

(** * Notes on the row *)

Definition with_senders (senders : gmap Tag Actor) (c : EstablishedChains) : EstablishedChains :=
  mkEstablishedChains (ec_packet c) (ec_ratchet c) (ec_presence_sent c) senders (ec_typing c)
    (ec_presence_at c).
Definition with_typing (typing : option TypingNote) (c : EstablishedChains) : EstablishedChains :=
  mkEstablishedChains (ec_packet c) (ec_ratchet c) (ec_presence_sent c) (ec_chat_senders c) typing
    (ec_presence_at c).
Definition with_presence_at (at_ : option UnixSeconds) (c : EstablishedChains) :
    EstablishedChains :=
  mkEstablishedChains (ec_packet c) (ec_ratchet c) (ec_presence_sent c) (ec_chat_senders c)
    (ec_typing c) at_.
Definition with_presence_sent (c : EstablishedChains) : EstablishedChains :=
  mkEstablishedChains (ec_packet c) (ec_ratchet c) true (ec_chat_senders c)
    (ec_typing c) (ec_presence_at c).

Definition note_sender (tx_id : Tag) (actor : Actor) (c : EstablishedChains) : EstablishedChains :=
  with_senders (<[tx_id := actor]> (ec_chat_senders c)) c.

Definition remember_sender (cid : ConversationId) (tx_id : Tag) : M unit :=
  st ← get_state;
  '(actor, _) ← expect (local_material st cid);
  expect_established_mut cid (note_sender tx_id actor).

Definition note_typing (cid : ConversationId) (composing : bool) (at_ : UnixSeconds) : M unit :=
  expect_established_mut cid (with_typing (Some (mkTypingNote composing at_))).

Definition note_presence (cid : ConversationId) (at_ : UnixSeconds) : M unit :=
  expect_established_mut cid (with_presence_at (Some at_)).

Definition note_packet_signal (cid : ConversationId) (now : UnixSeconds) (packet : PacketPlain) :
    M unit :=
  match packet with
  | Typing p => note_typing cid (ty_composing p) now
  | TypingActive p => note_typing cid (ta_composing p) (ta_last_active p)
  | Presence _ => note_presence cid now
  | PresenceActive p => note_presence cid (pa_last_active p)
  | _ => mret tt
  end.

(** What a chat operation of [session.rs] ends with: the sender is remembered, the peers are
    woken. *)
Definition finish_chat `{Suite} (cid : ConversationId) (secret : Secret) (payload : TxPayload) :
    M (list PingTarget) :=
  _ ← remember_sender cid (tx_id secret payload);
  st ← get_state;
  expect (fill_ping st cid).
