(* ===== verification/Heal.v ===== *)
(** The set-XOR search over a conversation's transactions ([engine/heal.rs]; its range
    arithmetic is in [HealRange.v]) and the live acknowledgements it observes. *)

From stdpp Require Import base tactics list numbers option strings countable gmap.
From Stdlib Require Import Strings.Byte.
From S2P Require Import Prelude Text Ids Order Channel Defaults Payload Json Ports Codec.
From S2P Require Import Chain RowLog Party HealRange Bins State StateLaws Helpers Engine.
From S2P Require Import Ratchet Vault.

(** * Assignments to the search *)

Definition heal_with_probes (probes : list HealProbe) (h : Heal) : Heal :=
  mkHeal probes (hl_sent_at h) (hl_on_ephemeral h) (hl_fell_back h) (hl_ready h)
    (hl_sealed_from h) (hl_sealed_to h) (hl_needs_reseal h).
Definition heal_with_sent (sent : option UnixSeconds) (h : Heal) : Heal :=
  mkHeal (hl_probes h) sent (hl_on_ephemeral h) (hl_fell_back h) (hl_ready h)
    (hl_sealed_from h) (hl_sealed_to h) (hl_needs_reseal h).
Definition heal_with_eph (on_ephemeral : bool) (h : Heal) : Heal :=
  mkHeal (hl_probes h) (hl_sent_at h) on_ephemeral (hl_fell_back h) (hl_ready h)
    (hl_sealed_from h) (hl_sealed_to h) (hl_needs_reseal h).
Definition heal_with_fell (fell_back : bool) (h : Heal) : Heal :=
  mkHeal (hl_probes h) (hl_sent_at h) (hl_on_ephemeral h) fell_back (hl_ready h)
    (hl_sealed_from h) (hl_sealed_to h) (hl_needs_reseal h).
Definition heal_with_ready (ready : list bytes) (h : Heal) : Heal :=
  mkHeal (hl_probes h) (hl_sent_at h) (hl_on_ephemeral h) (hl_fell_back h) ready
    (hl_sealed_from h) (hl_sealed_to h) (hl_needs_reseal h).
Definition heal_with_sealed (from to : option SendChain) (h : Heal) : Heal :=
  mkHeal (hl_probes h) (hl_sent_at h) (hl_on_ephemeral h) (hl_fell_back h) (hl_ready h)
    from to (hl_needs_reseal h).

(** [chains.heal.f(..)] through [chains_mut]. *)
Definition heal_mut (cid : ConversationId) (f : Heal → Heal) : EngineState → EngineState :=
  chains_mut cid (λ c, with_heal (f (pc_heal c)) c).

(** * What the search reads *)

(** [now >= at.saturating_add(secs)]. *)
Definition elapsed (now at_ : UnixSeconds) (secs : N) : bool :=
  (cval (sat_add at_ secs) <=? cval now)%N.

Definition fallback_due (st : EngineState) (cid : ConversationId) (now : UnixSeconds) : bool :=
  match chains st cid with
  | Some c =>
      hl_on_ephemeral (pc_heal c) && negb (hl_fell_back (pc_heal c))
      && from_option (λ sent, elapsed now sent FALLBACK_SECS) false (hl_sent_at (pc_heal c))
  | None => false
  end.

Definition same_chain (a b : SendChain) : bool :=
  branded_eq (sc_root a) (sc_root b) && branded_eq (sc_c a) (sc_c b)
  && (cval (sc_epoch a) =? cval (sc_epoch b))%N
  && (cval (sc_packet_seq a) =? cval (sc_packet_seq b))%N.

Definition sealed_matches (c : PacketChains) : bool :=
  match hl_sealed_from (pc_heal c) with
  | None => false
  | Some from =>
    match pc_send c !! Actor_Handshake with
    | Some chain => same_chain chain from
    | None => true
    end
  end.

Definition heal_cids (st : EngineState) : list ConversationId :=
  omap (λ '(cid, c), if hl_on_ephemeral (pc_heal c) then Some cid else None) (each_chains st).

(** [channels]. *)
Definition heal_channels (st : EngineState) (cid : ConversationId) :
    list DurableChannel * list EphemeralChannel :=
  (default [] (tk_persistents <$> ticket st cid), default [] (n_ephemerals <$> notice_for st cid)).

Definition conv_ids (st : EngineState) (cid : ConversationId) : list Tag :=
  sort_by branded_cmp
    (map fst (filter (λ p, branded_eq (db_conversation_id p.2) cid = true) (body_pairs st))).

Definition live_now (st : EngineState) (cid : ConversationId) (now : UnixSeconds) : bool :=
  match chains st cid ≫= pc_live_until with
  | Some until => (cval now <? cval until)%N
  | None => false
  end.

Section Heal.
Context `{Suite, Rng}.

(** * Posting probes *)

(** The probe's packet, with the XOR of our ids in a [Half]'s range. *)
Definition probe_packet (ids : list Tag) (probe : HealProbe) (packet_seq : u64) : PacketPlain :=
  match probe_plain probe packet_seq (Actor_as_bytes Actor_Handshake) with
  | HealHalfXor p =>
      HealHalfXor (mkHealHalfXor (hx_actor_id p) (hx_packet_seq p) (hx_lo p) (hx_hi p)
                     (range_xor ids (hx_lo p) (hx_hi p)))
  | p => p
  end.

(** The loop of [post_heal]: the chain past the probes, and the durable copies. *)
Fixpoint post_probes (ids : list Tag) (tag : Tag) (durable : list DurableChannel)
    (eph : list EphemeralChannel) (origin : SendChain) (use_eph : bool)
    (probes : list HealProbe) (cursor : SendChain) (ready : list bytes) :
    M (SendChain * list bytes) :=
  match probes with
  | [] => mret (cursor, ready)
  | probe :: probes =>
      let plain := probe_packet ids probe (sc_packet_seq cursor) in
      if use_eph then
        sealed ← seal_packet_m (eph_mk origin) plain;
        _ ← push_eph_writes eph tag sealed;
        copy ← seal_packet_m (mk cursor) plain;
        post_probes ids tag durable eph origin use_eph probes (step cursor) (ready ++ [copy])
      else
        sealed ← seal_packet_m (mk cursor) plain;
        _ ← push_writes durable tag sealed;
        post_probes ids tag durable eph origin use_eph probes (step cursor) ready
  end.

(** What [post_heal] leaves in the row. *)
Definition heal_posted (now : UnixSeconds) (use_eph : bool) (ready : list bytes)
    (origin cursor : SendChain) (c : PacketChains) : PacketChains :=
  let h := heal_with_reseal false (heal_with_eph use_eph (heal_with_sent (Some now) (pc_heal c))) in
  if use_eph then
    with_heal (heal_with_sealed (Some origin) (Some cursor) (heal_with_ready ready h)) c
  else
    with_send (<[Actor_Handshake := cursor]> (pc_send c))
      (with_heal (heal_with_fell true (heal_unseal h)) c).

Definition post_heal (cid : ConversationId) : M unit :=
  st ← get_state;
  now ← lift (ok_or NotTicked (es_ticked st));
  match tk_secret <$> ticket st cid with
  | None => mret tt
  | Some secret =>
      let '(durable, eph) := heal_channels st cid in
      let probes := default [] ((λ c, hl_probes (pc_heal c)) <$> chains st cid) in
      if bool_decide (probes = []) || (bool_decide (durable = []) && bool_decide (eph = []))
      then mret tt
      else
        let sort := handshake_sort st cid in
        let tag := invite_tag (as_bytes secret) (time_bin now) in
        origin ← match chains st cid ≫= λ c, pc_send c !! Actor_Handshake with
                 | Some chain => mret chain
                 | None => lift (join secret sort [])
                 end;
        let flag f := from_option (λ c, f (pc_heal c)) false (chains st cid) in
        let use_eph := live_now st cid now && negb (bool_decide (eph = []))
                       && negb (flag hl_fell_back) && negb (flag hl_needs_reseal) in
        '(cursor, ready) ← post_probes (conv_ids st cid) tag durable eph origin use_eph probes
                             origin [];
        expect_chains_mut cid (heal_posted now use_eph ready origin cursor)
  end.

Definition replace_probes (cid : ConversationId) (probes : list HealProbe) : M unit :=
  _ ← modify (heal_mut cid (λ h, heal_with_fell false (heal_with_probes probes h)));
  post_heal cid.

(** * Answering *)

Definition have_local (cid : ConversationId) (lo hi : Tag) : M unit :=
  st ← get_state;
  let ids := take ID_CAP (filter (λ id, in_range id lo hi = true) (conv_ids st cid)) in
  replace_probes cid [Have lo hi ids].

Definition on_half (cid : ConversationId) (p : PacketHealHalfXor) : M unit :=
  st ← get_state;
  let lo := hx_lo p in let hi := hx_hi p in
  let ours := range_xor (conv_ids st cid) lo hi in
  if branded_eq ours (hx_xor p) then mret tt
  else if single_id lo hi then
    replace_probes cid [if branded_eq ours lo then Have lo hi [lo] else Want lo hi [lo]]
  else
    match midpoint lo hi with
    | None => have_local cid lo hi
    | Some mid => replace_probes cid [Half lo mid; Half mid hi]
    end.

(** Whether the conversation stores the transaction. *)
Definition stored_in (st : EngineState) (cid : ConversationId) (id : Tag) : bool :=
  from_option (λ b, branded_eq (db_conversation_id b) cid) false (body st id).

Definition retransmit (cid : ConversationId) (ids : list Tag) : M unit :=
  st ← get_state;
  now ← expect (es_ticked st);
  t ← expect (ticket st cid);
  let '(durable, _) := heal_channels st cid in
  if bool_decide (durable = []) then mret tt
  else
    let tag := invite_tag (as_bytes (tk_secret t)) (time_bin now) in
    for_each (λ id, write_chain_packets cid (handshake_sort st cid) durable tag id
                      Actor_Handshake false) ids.

Definition on_want (cid : ConversationId) (p : PacketHealWant) : M unit :=
  if (ID_CAP <? length (hw_ids p))%nat then mret tt
  else
    _ ← modify (heal_mut cid (λ h,
          heal_with_eph false (heal_with_ready [] (heal_with_probes [] h))));
    st ← get_state;
    retransmit cid (filter (λ id, stored_in st cid id = true) (hw_ids p)).

Definition on_have (cid : ConversationId) (p : PacketHealHave) : M unit :=
  if (ID_CAP <? length (hh_ids p))%nat then mret tt
  else
    st ← get_state;
    match take ID_CAP (filter (λ id, stored_in st cid id = false) (hh_ids p)) with
    | [] => modify (heal_mut cid (λ _, Heal_default))
    | missing => replace_probes cid [Want (hh_lo p) (hh_hi p) missing]
    end.

Definition on_heal_packet (cid : ConversationId) (packet : PacketPlain) : M unit :=
  st ← get_state;
  now ← lift (ok_or NotTicked (es_ticked st));
  _ ← modify (heal_mut cid (λ h, if hl_on_ephemeral h then heal_with_sent (Some now) h else h));
  match packet with
  | HealHalfXor p => on_half cid p
  | HealWant p => on_want cid p
  | HealHave p => on_have cid p
  | _ => mret tt
  end.

(** A peer's fingerprint: the search is over when it is ours, and starts when it is not. *)
Definition note_set_xor (cid : ConversationId) (remote : Tag) : M unit :=
  st ← get_state;
  if branded_eq (set_xor_for (body_pairs st) cid) remote then
    modify (heal_mut cid (λ _, Heal_default))
  else
    let idle := from_option (λ c, bool_decide (hl_probes (pc_heal c) = [])) true (chains st cid) in
    if idle then
      _ ← modify (heal_mut cid (λ h, heal_with_fell false (heal_with_probes
            (hl_probes h ++ [Half (from_bytes (fill 32 x00)) (from_bytes (fill 32 xff))]) h)));
      post_heal cid
    else mret tt.

(** * The fallback *)

Definition reseal_heal (cid : ConversationId) : M unit :=
  st ← get_state;
  match es_ticked st with
  | None => mret tt
  | Some now =>
      let due := from_option (λ c, hl_needs_reseal (pc_heal c)
                   || (fallback_due st cid now && bool_decide (hl_ready (pc_heal c) = [])))
                   false (chains st cid) in
      if due then post_heal cid else mret tt
  end.

Definition reseal_due : M unit :=
  st0 ← get_state;
  let now := es_ticked st0 in
  for_each (λ cid,
      st ← get_state;
      let needs := from_option (λ c, hl_needs_reseal (pc_heal c)
                     || from_option (λ now, fallback_due st cid now
                                      && bool_decide (hl_ready (pc_heal c) = [])) false now)
                     false (chains st cid) in
      if needs then reseal_heal cid else mret tt)
    (heal_cids st0).

(** The row after the durable copies went out. *)
Definition heal_committed (sealed_to : SendChain) (c : PacketChains) : PacketChains :=
  with_send (<[Actor_Handshake := sealed_to]> (pc_send c))
    (with_heal (heal_with_reseal false (heal_with_fell true (heal_with_eph false
       (heal_unseal (pc_heal c))))) c).

Definition commit_ready (cid : ConversationId) : M unit :=
  st ← get_state;
  c ← expect (chains st cid);
  let '(durable, _) := heal_channels st cid in
  t ← expect (ticket st cid);
  now ← expect (es_ticked st);
  let tag := invite_tag (as_bytes (tk_secret t)) (time_bin now) in
  _ ← for_each (push_writes durable tag) (hl_ready (pc_heal c));
  st ← get_state;
  _ ← expect (chains_at st cid);
  to ← expect (hl_sealed_to (pc_heal c));
  modify (chains_mut cid (heal_committed to)).

Definition flush_heal_row (now : UnixSeconds) (cid : ConversationId) : M unit :=
  st ← get_state;
  if negb (fallback_due st cid now) then mret tt
  else
    c ← expect (chains st cid);
    if bool_decide (hl_ready (pc_heal c) = []) || negb (sealed_matches c) then
      modify (heal_mut cid (heal_with_reseal true))
    else commit_ready cid.

Definition flush_heal : M unit :=
  st ← get_state;
  match es_ticked st with
  | None => mret tt
  | Some now => for_each (flush_heal_row now) (heal_cids st)
  end.

(** * Live acknowledgements *)

Definition note_live (cid : ConversationId) (now : UnixSeconds) : EngineState → EngineState :=
  chains_mut cid (with_live_until (Some (sat_add now LIVE_SECS))).

(** [saturating_add(1)] on a [u8]. *)
Definition u8_succ (n : u8) : u8 :=
  default n (check _ (N.min (cval n + 1) (2 ^ 8 - 1))).

Definition pending_acked (set_xor : Tag) (p : LivePending) : LivePending :=
  if branded_eq (lp_set_xor p) set_xor then
    mkLivePending (lp_set_xor p) (lp_sent_at p) (lp_bodies p) (lp_sealed_to p) (lp_actor p)
      (u8_succ (lp_acks p)) (lp_needed p)
  else p.

Definition live_settled (set_xor : Tag) (now : UnixSeconds) (c : PacketChains) : PacketChains :=
  let kept := filter (λ p, (cval (lp_acks p) <? cval (lp_needed p))%N = true)
                (map (pending_acked set_xor) (pc_live_pending c)) in
  let c' := with_live_pending kept c in
  if (length kept <? length (pc_live_pending c))%nat
  then with_live_until (Some (sat_add now LIVE_SECS)) c' else c'.

Definition settle_live (cid : ConversationId) (set_xor : Tag) (now : UnixSeconds) : M unit :=
  expect_chains_mut cid (live_settled set_xor now).

Definition is_heal_packet (packet : PacketPlain) : bool :=
  match packet with HealHalfXor _ | HealWant _ | HealHave _ => true | _ => false end.

Definition observe_ephemeral (cid : ConversationId) (now : UnixSeconds) (packet : PacketPlain) :
    M unit :=
  st ← get_state;
  let already := bool_decide (is_Some (chains st cid ≫= pc_live_until)) in
  _ ← (match packet with
       | XorAck ack =>
           _ ← settle_live cid (xa_set_xor ack) now;
           st ← get_state;
           _ ← (if branded_eq (set_xor_for (body_pairs st) cid) (xa_set_xor ack)
                then modify (note_live cid now) else mret tt);
           note_set_xor cid (xa_set_xor ack)
       | _ => if already then modify (note_live cid now) else mret tt
       end);
  if is_heal_packet packet then on_heal_packet cid packet else mret tt.

End Heal.
