(* ===== verification/HealLaws.v ===== *)
(** What the set-XOR search of [Heal.v] guarantees: halving finds a difference or ends in the
    one range that cannot be halved, the fallback posts what was sealed for it, and where the
    search runs into a panic. *)

From stdpp Require Import base tactics list numbers option strings countable gmap sorting relations.
From Stdlib Require Import Strings.Byte.
From S2P Require Import Prelude Text Ids Order Channel Defaults Payload Json Ports TestDoubles.
From S2P Require Import Codec Chain ChainLaws RowLog Party HealRange Bins State StateLaws.
From S2P Require Import Helpers HelpersLaws Engine Frame Ratchet RatchetLaws Vault VaultLaws Heal.

(** * Frames *)

Lemma outbox_heal_mut cid f st : outbox (heal_mut cid f st) = outbox st.
Proof. apply outbox_chains_mut. Qed.
Lemma outbox_note_live cid now st : outbox (note_live cid now st) = outbox st.
Proof. apply outbox_chains_mut. Qed.
#[export] Hint Rewrite outbox_heal_mut outbox_note_live : outbox.

Section Frames.
Context `{Suite, Rng}.

#[export] Instance post_probes_forward ids tag durable eph origin use_eph probes cursor ready :
  Evolves forward (post_probes ids tag durable eph origin use_eph probes cursor ready).
Proof. revert cursor ready. induction probes as [|p probes IH]; intros; cbn [post_probes]; evolve. Qed.

#[export] Instance post_heal_forward cid : Evolves forward (post_heal cid).
Proof. unfold post_heal, expect_chains_mut. evolve. Qed.

#[export] Instance replace_probes_forward cid probes : Evolves forward (replace_probes cid probes).
Proof. unfold replace_probes. evolve. Qed.

#[export] Instance retransmit_forward cid ids : Evolves forward (retransmit cid ids).
Proof. unfold retransmit. evolve. Qed.

#[export] Instance on_heal_packet_forward cid p : Evolves forward (on_heal_packet cid p).
Proof. unfold on_heal_packet, on_half, have_local, on_want, on_have. evolve. Qed.

#[export] Instance note_set_xor_forward cid remote : Evolves forward (note_set_xor cid remote).
Proof. unfold note_set_xor. evolve. Qed.

#[export] Instance reseal_due_forward : Evolves forward reseal_due.
Proof. unfold reseal_due, reseal_heal. evolve. Qed.

#[export] Instance flush_heal_forward : Evolves forward flush_heal.
Proof. unfold flush_heal, flush_heal_row, commit_ready. evolve. Qed.

#[export] Instance observe_ephemeral_forward cid now p : Evolves forward (observe_ephemeral cid now p).
Proof. unfold observe_ephemeral, settle_live, expect_chains_mut. evolve. Qed.

End Frames.

(** * The search finds a difference *)

(** How [on_half] answers a fingerprint [xor] of the range: with nothing, with a report of
    the ids here, with the one id in question, or with the two halves. *)
Definition half_answer (ids : list Tag) (lo hi xor : Tag) : option (list HealProbe) :=
  let ours := range_xor ids lo hi in
  if branded_eq ours xor then None
  else if single_id lo hi then Some [if branded_eq ours lo then Have lo hi [lo] else Want lo hi [lo]]
  else match midpoint lo hi with
       | None => Some [Have lo hi (take ID_CAP (filter (λ id, in_range id lo hi = true) ids))]
       | Some mid => Some [Half lo mid; Half mid hi]
       end.

Lemma on_half_answer `{Suite, Rng} cid p w :
  on_half cid p w =
    match half_answer (conv_ids (w_state w) cid) (hx_lo p) (hx_hi p) (hx_xor p) with
    | None => (w, Ok tt)
    | Some probes => replace_probes cid probes w
    end.
Proof.
  unfold on_half, half_answer, have_local. run. cbv zeta. destruct (branded_eq _ _); [done|].
  destruct (single_id _ _); [done|]. destruct (midpoint _ _); [done|]. by run.
Qed.

(** A range is halved only where it has a split point. *)
Lemma half_answer_halves ids lo hi xor l p q r :
  half_answer ids lo hi xor = Some [Half l p; Half q r] →
  l = lo ∧ r = hi ∧ p = q ∧ midpoint lo hi = Some q ∧ single_id lo hi = false.
Proof.
  unfold half_answer. cbv zeta. destruct (branded_eq _ _); [done|].
  destruct (single_id _ _); [by destruct (branded_eq _ _)|].
  destruct (midpoint lo hi) as [mid|]; [by intros [= <- <- <- <-]|done].
Qed.

Lemma range_xor_single ids lo hi :
  NoDup ids → single_id lo hi = true → is_inf hi = false →
  range_xor ids lo hi = if decide (lo ∈ ids) then lo else from_bytes (fill 32 x00).
Proof.
  intros HN Hs Hinf. assert (∀ id, in_range id lo hi = true ↔ id = lo) as HI.
  { intros id. rewrite in_range_val, Hinf. apply single_id_val in Hs. split.
    - intros [H1 [|H2]]; [done|]. apply tag_val_inj. lia.
    - intros ->. split; [lia|]. right. lia. }
  induction HN as [|id ids Hni HN IH]; [by rewrite decide_False by apply not_elem_of_nil|].
  rewrite range_xor_cons, IH. destruct (in_range id lo hi) eqn:E.
  - apply HI in E as ->. rewrite decide_False by done. rewrite decide_True by left.
    cbn [as_bytes]. rewrite xor32_zero_r. by destruct lo.
  - destruct (decide (lo ∈ ids)) as [Hin|Hin]; [by rewrite decide_True by by right|].
    rewrite decide_False; [done|]. intros [->|]%elem_of_cons; [|done].
    by rewrite (proj2 (HI id)) in E.
Qed.

Lemma conv_ids_NoDup st cid : NoDup (conv_ids st cid).
Proof.
  unfold conv_ids. rewrite sort_by_perm.
  eapply sublist_NoDup; [apply (entries_keys_NoDup (stored st))|].
  apply (fmap_sublist fst), sublist_filter.
Qed.

(** ** Where every search starts *)

Definition inf_tag : Tag := from_bytes (fill 32 xff).

(** The range [note_set_xor] asks about. *)
Definition whole : Tag * Tag := (from_bytes (fill 32 x00), inf_tag).

Lemma in_whole id : in_range id whole.1 whole.2 = true.
Proof.
  apply in_range_val. split; [|by left; vm_compute].
  change (tag_val (from_bytes (fill 32 x00)) <= tag_val id)%N.
  replace (tag_val (from_bytes (fill 32 x00))) with 0%N by by vm_compute. lia.
Qed.

Lemma range_xor_perm l1 l2 lo hi : l1 ≡ₚ l2 → range_xor l1 lo hi = range_xor l2 lo hi.
Proof.
  induction 1 as [|id l1 l2 _ IH|id1 id2 l|l1 l2 l3 _ IH1 _ IH2]; [done| |..].
  - by rewrite !range_xor_cons, IH.
  - rewrite !range_xor_cons. repeat case_match; try done. f_equal. cbn [as_bytes].
    by rewrite !xor32_assoc, (xor32_comm (as_bytes id1)).
  - congruence.
Qed.

(** Over the whole range the fingerprint is the one of the conversation. *)
Lemma range_xor_whole st cid :
  range_xor (conv_ids st cid) whole.1 whole.2 = set_xor_for (body_pairs st) cid.
Proof.
  unfold conv_ids. rewrite (range_xor_perm _ _ _ _ (sort_by_perm _ _)).
  induction (body_pairs st) as [|[id b] l IH]; [done|]. rewrite set_xor_cons, filter_cons. cbn [snd].
  destruct (branded_eq (db_conversation_id b) cid).
  - rewrite decide_True by done. cbn [map fst]. by rewrite range_xor_cons, in_whole, IH.
  - by rewrite decide_False.
Qed.

(** The lower bounds of the ranges up to +∞: each halving sets one more bit of the first
    byte, and the ninth has no split point. *)
Definition top (j : nat) : Tag :=
  to_tag (nth j [x00; x80; xc0; xe0; xf0; xf8; xfc; xfe; xff] xff :: replicate 31 x00).

Lemma top_splits j :
  (j < 8)%nat → midpoint (top j) inf_tag = Some (top (S j)) ∧ is_inf (top (S j)) = false ∧
    (tag_val (top (S j)) = tag_val (top j) + 2 ^ N.of_nat (255 - j))%N.
Proof. intros Hj. do 8 (destruct j as [|j]; [split_and!; [vm_decide|by vm_compute..]|]). lia. Qed.

Lemma top_single j : single_id (top j) inf_tag = false.
Proof. do 9 (destruct j as [|j]; [by vm_compute|]). by destruct j. Qed.

Lemma top_stuck : midpoint (top 8) inf_tag = None.
Proof. vm_decide. Qed.

(** ** The search *)

Section Search.
Context (st : bool → EngineState) (cid : ConversationId).

(** The ids two devices store, one [true] and one [false]. *)
Definition ids_of (b : bool) : list Tag := conv_ids (st b) cid.

Definition differ (r : Tag * Tag) : Prop :=
  range_xor (ids_of true) r.1 r.2 ≠ range_xor (ids_of false) r.1 r.2.

(** The answer of device [b] to the fingerprint the other one sent of a range. *)
Definition answer (b : bool) (r : Tag * Tag) : option (list HealProbe) :=
  half_answer (ids_of b) r.1 r.2 (range_xor (ids_of (negb b)) r.1 r.2).

(** One round: device [b] answers with fingerprints of the halves; the other one then
    answers one of them on which the devices disagree. *)
Inductive search_step : bool * (Tag * Tag) → bool * (Tag * Tag) → Prop :=
| search_half b lo hi l r p q s :
    answer b (lo, hi) = Some [Half l p; Half q r] →
    s = (l, p) ∨ s = (q, r) → differ s → search_step (b, (lo, hi)) (negb b, s).

(** The search is down to one id, which exactly one of them stores: device [b] offers it
    when it stores it, and asks for it when the other does. *)
Definition found (b : bool) (r : Tag * Tag) : Prop :=
  is_inf r.2 = false ∧ single_id r.1 r.2 = true ∧
  ((r.1 ∈ ids_of b ∧ r.1 ∉ ids_of (negb b) ∧ answer b r = Some [Have r.1 r.2 [r.1]]) ∨
   (r.1 ∉ ids_of b ∧ r.1 ∈ ids_of (negb b) ∧ answer b r = Some [Want r.1 r.2 [r.1]])).

(** The search is in the last range that has no split point: device [b] offers the first
    ids it stores there. *)
Definition stuck (b : bool) (r : Tag * Tag) : Prop :=
  r = (top 8, inf_tag) ∧
  answer b r = Some [Have r.1 r.2 (take ID_CAP (filter (λ id, in_range id r.1 r.2 = true) (ids_of b)))].

Definition width (r : Tag * Tag) : N := tag_val r.2 - tag_val r.1.

(** A range from which at most [k] rounds are left. *)
Definition stage (k : nat) (r : Tag * Tag) : Prop :=
  (is_inf r.2 = false ∧ (tag_val r.1 < tag_val r.2)%N ∧ (width r ≤ 2 ^ N.of_nat k)%N) ∨
  (∃ j, (j ≤ 8)%nat ∧ r = (top j, inf_tag) ∧ k = (256 - j)%nat).

Lemma differ_at b r : differ r → range_xor (ids_of b) r.1 r.2 ≠ range_xor (ids_of (negb b)) r.1 r.2.
Proof. unfold differ. destruct b; cbn; congruence. Qed.

Lemma answer_differ b r :
  differ r →
  answer b r =
    if single_id r.1 r.2
    then Some [if branded_eq (range_xor (ids_of b) r.1 r.2) r.1 then Have r.1 r.2 [r.1] else Want r.1 r.2 [r.1]]
    else match midpoint r.1 r.2 with
         | None => Some [Have r.1 r.2 (take ID_CAP (filter (λ id, in_range id r.1 r.2 = true) (ids_of b)))]
         | Some mid => Some [Half r.1 mid; Half mid r.2]
         end.
Proof.
  intros HD%(differ_at b). unfold answer, half_answer. cbv zeta.
  destruct (branded_eq _ _) eqn:E; [by apply branded_eq_spec in E|done].
Qed.

(** The halves of a bounded range are at most half as wide. *)
Lemma halves_bounded k lo hi mid s :
  is_inf hi = false → (tag_val hi - tag_val lo ≤ 2 ^ N.of_nat k)%N → midpoint lo hi = Some mid →
  s = (lo, mid) ∨ s = (mid, hi) → ∃ k', k = S k' ∧ stage k' s.
Proof.
  intros Hinf Hw HM Hs. pose proof (midpoint_finite lo hi Hinf) as HF. rewrite HM in HF. destruct HF as [HV HB].
  pose proof (midpoint_not_inf _ _ _ HM) as Hmi.
  pose proof (N.div_mod' (tag_val lo + tag_val hi) 2) as HDM.
  pose proof (N.mod_lt (tag_val lo + tag_val hi) 2 ltac:(done)) as HML.
  rewrite <-HV in HDM. set (rem := ((tag_val lo + tag_val hi) mod 2)%N) in *. clearbody rem.
  destruct k as [|k]; [change (2 ^ N.of_nat 0)%N with 1%N in Hw; lia|].
  rewrite Nat2N.inj_succ, N.pow_succ_r' in Hw. exists k. split; [done|]. left.
  unfold width. destruct Hs as [-> | ->]; cbn [fst snd]; split_and!; try done; lia.
Qed.

Lemma stage_step k b r b' r' :
  stage k r → search_step (b, r) (b', r') → ∃ k', k = S k' ∧ stage k' r' ∧ differ r'.
Proof.
  intros HS HSt. inversion HSt as [b0 lo hi l r0 p q s HA Hs HD]; subst.
  apply half_answer_halves in HA as (-> & -> & -> & HM & _). cbn [fst snd] in HM.
  destruct HS as [(Hinf & Hlt & Hw)|(j & Hj & [= -> ->] & ->)].
  - destruct (halves_bounded k lo hi q r' Hinf Hw HM Hs) as (k' & Hk & HS). by exists k'.
  - destruct (decide (j = 8)%nat) as [->|Hne]; [by rewrite top_stuck in HM|].
    destruct (top_splits j ltac:(lia)) as (HT & Hinf & HV). rewrite HT in HM. injection HM as <-.
    exists (255 - j)%nat. split_and!; [lia| |done].
    destruct Hs as [-> | ->]; [left|right; exists (S j); split_and!; [lia|done|lia]].
    unfold width. cbn [fst snd]. rewrite HV. pose proof (N.pow_nonzero 2 (N.of_nat (255 - j)) ltac:(done)).
    split_and!; [done|lia|lia].
Qed.

(** A range of disagreement is done with, or halved further. *)
Lemma stage_progress k b r :
  stage k r → differ r → found b r ∨ stuck b r ∨ ∃ r', search_step (b, r) (negb b, r').
Proof.
  intros HS HD. pose proof (answer_differ b r HD) as HA. destruct r as [lo hi]. cbn [fst snd] in HA.
  destruct (single_id lo hi) eqn:Hs.
  - destruct HS as [(Hinf & _)|(j & Hj & [= -> ->] & _)]; [|by rewrite top_single in Hs].
    cbn [fst snd] in Hinf. left. split_and!; [done|done|]. cbn [fst snd].
    pose proof (differ_at b _ HD) as HN. cbn [fst snd] in HN.
    rewrite (range_xor_single (ids_of b)) in HN, HA by (done || apply conv_ids_NoDup).
    rewrite (range_xor_single (ids_of (negb b))) in HN by (done || apply conv_ids_NoDup).
    destruct (decide (lo ∈ ids_of b)), (decide (lo ∈ ids_of (negb b))); try done; [left|right]; split_and!; try done.
    + by rewrite HA, (proj2 (branded_eq_spec lo lo) eq_refl).
    + destruct (branded_eq _ lo) eqn:E; [|done]. apply branded_eq_spec in E. by rewrite E in HN.
  - right. destruct (midpoint lo hi) as [mid|] eqn:HM.
    + right. destruct (midpoint_splits lo hi mid (ids_of true) (ids_of false) HM) as (_ & _ & _ & _ & HH).
      destruct (HH HD); [exists (lo, mid)|exists (mid, hi)]; (eapply search_half; [exact HA|by auto|done]).
    + left. destruct HS as [(Hinf & Hlt & _)|(j & Hj & [= -> ->] & _)]; cbn [fst snd] in *.
      * pose proof (midpoint_finite lo hi Hinf) as HF. rewrite HM in HF.
        assert (single_id lo hi = true) as Hs' by (apply single_id_val; lia). congruence.
      * destruct (decide (j = 8)%nat) as [->|Hne]; [by split|].
        destruct (top_splits j ltac:(lia)) as (HT & _). congruence.
Qed.

Lemma stage_run k n b r b' r' :
  stage k r → differ r → nsteps search_step n (b, r) (b', r') →
  (n ≤ k)%nat ∧ stage (k - n) r' ∧ differ r'.
Proof.
  intros HS HD HN. revert k b r HS HD HN. induction n as [|n IH]; intros k b r HS HD HN.
  - inversion HN; subst. rewrite Nat.sub_0_r. split_and!; [lia|done|done].
  - inversion HN as [|? ? [b1 r1] ? HSt HN']; subst.
    destruct (stage_step _ _ _ _ _ HS HSt) as (k' & -> & HS' & HD').
    destruct (IH k' b1 r1 HS' HD' HN') as (Hle & HS2 & HD2). split_and!; [lia|done|done].
Qed.

Lemma stage_ends k b r :
  stage k r → differ r → ∃ n b' r', nsteps search_step n (b, r) (b', r') ∧ (found b' r' ∨ stuck b' r').
Proof.
  revert b r. induction k as [|k IH]; intros b r HS HD;
    (destruct (stage_progress _ b r HS HD) as [HF|[HF|[r' HSt]]]; [by exists 0%nat, b, r; eauto using nsteps..|]);
    destruct (stage_step _ _ _ _ _ HS HSt) as (k' & Hk & HS' & HD'); [done|].
  injection Hk as <-. destruct (IH (negb b) r' HS' HD') as (n & b2 & r2 & HN & HE).
  exists (S n), b2, r2. split; [by eapply nsteps_l|done].
Qed.

Lemma stage_whole : stage 256 whole.
Proof. right. exists 0%nat. split_and!; [lia|vm_decide|done]. Qed.

End Search.

(** C11. The set-XOR search, from where every search starts: the range of all ids, which
    [note_set_xor] asks about when the fingerprints of a conversation differ.  Two devices,
    whose stores stay as they are, answer each other's fingerprints of ranges as [on_half]
    does, going on in any half on which they disagree.  However they go on, at most 256 rounds
    come about, the devices disagree on every range reached, and the search is only over
    where it found a difference or is stuck: found, in a range of exactly one id that exactly
    one of them stores, which the answering device offers ([Have]) or asks for ([Want]);
    stuck, in the range from [ff00...] to +∞, which has no split point, where the answering
    device offers only its first 32 ids there.  So a search is never stuck between devices
    that agree on the ids from [ff00...] on, and some run always ends. *)
Theorem heal_search_finds `{Suite, Rng} (st : bool → EngineState) cid b0 :
  set_xor_for (body_pairs (st true)) cid ≠ set_xor_for (body_pairs (st false)) cid →
  (∀ n b r, nsteps (search_step st cid) n (b0, whole) (b, r) →
     (n ≤ 256)%nat ∧ differ st cid r ∧
     (found st cid b r ∨ stuck st cid b r ∨ ∃ r', search_step st cid (b, r) (negb b, r'))) ∧
  (∃ n b r, nsteps (search_step st cid) n (b0, whole) (b, r) ∧
     (found st cid b r ∨ stuck st cid b r)) ∧
  (∀ b r seq actor en n,
     on_half cid (mkHealHalfXor actor seq r.1 r.2 (range_xor (conv_ids (st (negb b)) cid) r.1 r.2))
       (mkWorld en (st b) n) =
     match answer st cid b r with
     | None => (mkWorld en (st b) n, Ok tt)
     | Some probes => replace_probes cid probes (mkWorld en (st b) n)
     end) ∧
  (∀ b lo hi seq, probe_packet (conv_ids (st b) cid) (Half lo hi) seq =
     HealHalfXor (mkHealHalfXor (Actor_as_bytes Actor_Handshake) seq lo hi
       (range_xor (conv_ids (st b) cid) lo hi))).
Proof.
  intros HX. assert (differ st cid whole) as HD by (unfold differ, ids_of; by rewrite !range_xor_whole).
  split_and!.
  - intros n b r HN. destruct (stage_run _ _ _ _ _ _ _ _ stage_whole HD HN) as (Hn & HS & HDr).
    split_and!; [done|done|]. by eapply stage_progress.
  - by apply (stage_ends _ _ 256); [apply stage_whole|].
  - intros b r seq actor en n. apply on_half_answer.
  - done.
Qed.

(** * The fallback *)

Section Fallback.
Context `{Suite, Rng}.

(** Only handshakes search on the ephemeral path, and a stash is sealed at both ends. *)
Definition heal_ok (st : EngineState) : Prop :=
  ∀ cid c, chains st cid = Some c → hl_on_ephemeral (pc_heal c) = true →
    is_Some (ticket st cid) ∧
    (is_Some (hl_sealed_from (pc_heal c)) → is_Some (hl_sealed_to (pc_heal c))).

Definition posts (st : EngineState) (cid : ConversationId) (now : UnixSeconds) : list DurableWrite :=
  match chains st cid, ticket st cid with
  | Some c, Some t =>
      if fallback_due st cid now && sealed_matches c
      then queued (tk_persistents t) (invite_tag (as_bytes (tk_secret t)) (time_bin now))
             (hl_ready (pc_heal c))
      else []
  | _, _ => []
  end.

(** The row of a search whose stash cannot go out: it is marked to be sealed again. *)
Definition reseal_marked (c : PacketChains) : PacketChains :=
  with_heal (heal_with_reseal true (pc_heal c)) c.

(** What the fallback makes of a row: nothing before it is due; when it is due, the row is
    committed to where the stash was sealed to, if there is a stash and the chain has not
    moved since, and marked otherwise. *)
Definition flushed_row (now : UnixSeconds) (st : EngineState) (cid : ConversationId)
    (c : PacketChains) : PacketChains :=
  if fallback_due st cid now then
    match hl_ready (pc_heal c), hl_sealed_to (pc_heal c) with
    | _ :: _, Some to => if sealed_matches c then heal_committed to c else reseal_marked c
    | _, _ => reseal_marked c
    end
  else c.

Lemma chains_at_of st cid c : chains st cid = Some c → chains_at st cid = Some c.
Proof.
  unfold chains, chains_at. destruct (scan (row cid Some) st) as [[[u i] kind]|] eqn:E; intros HP.
  - by rewrite (scan_row_refine _ _ _ _ _ kind _ E HP).
  - replace (scan (row cid packet_of_identity) st) with (@None (UserId * IdentityId * PacketChains)); [done|].
    symmetry. apply scan_row_None. intros u i kind Hk.
    by pose proof (proj1 (scan_row_None _ _ _) E u i kind Hk).
Qed.

Lemma push_all_run channels tag bodies w :
  for_each (push_writes channels tag) bodies w =
    (mkWorld (w_engine w)
       (with_writes (es_writes (w_state w) ++ queued channels tag bodies) (w_state w)) (w_draws w), Ok tt).
Proof.
  revert w. induction bodies as [|body bodies IH]; intros w; cbn [for_each].
  - unfold queued. cbn. rewrite app_nil_r. by destruct w as [en [] n].
  - rewrite bind_run. unfold push_writes at 1. cbn [modify]. rewrite IH. cbn. by rewrite <-app_assoc.
Qed.

Lemma ticked_chains_mut cid f st : es_ticked (chains_mut cid f st) = es_ticked st.
Proof. unfold chains_mut. by destruct (scan _ _) as [[[]]|]. Qed.
Lemma writes_chains_mut cid f st : es_writes (chains_mut cid f st) = es_writes st.
Proof. unfold chains_mut. by destruct (scan _ _) as [[[]]|]. Qed.

(** A change of the search that keeps where its stash was sealed keeps [heal_ok]. *)
Lemma heal_ok_mut cid f st st' c :
  heal_ok st → chains st cid = Some c → hl_on_ephemeral (pc_heal c) = true →
  (∀ c, chains st c = chains st' c) → (∀ c, ticket st c = ticket st' c) →
  (hl_on_ephemeral (pc_heal (f c)) = true →
     hl_sealed_from (pc_heal (f c)) = hl_sealed_from (pc_heal c) ∧
     hl_sealed_to (pc_heal (f c)) = hl_sealed_to (pc_heal c)) →
  heal_ok (chains_mut cid f st').
Proof.
  intros HK Hc HE Hch Htt Hf cid' c'. rewrite ticket_chains_mut, <-Htt.
  destruct (decide (cid' = cid)) as [->|Hne].
  - rewrite (chains_mut_same _ _ _ c) by (by rewrite <-Hch). intros [= <-] HEf.
    destruct (Hf HEf) as [-> ->]. by apply (HK _ _ Hc).
  - rewrite chains_mut_other, <-Hch by done. apply HK.
Qed.

(** The case in which the stash no longer fits: it is asked for anew. *)
Lemma reseal_row_spec now cid st c :
  es_ticked st = Some now → heal_ok st → chains st cid = Some c →
  hl_on_ephemeral (pc_heal c) = true →
  let st' := heal_mut cid (heal_with_reseal true) st in
  es_ticked st' = Some now ∧ (∀ c, ticket st' c = ticket st c) ∧
  (∀ c', c' ≠ cid → chains st' c' = chains st c') ∧
  heal_ok st' ∧ chains st' cid = Some (reseal_marked c) ∧ es_writes st' = es_writes st ++ [].
Proof.
  intros Ht HK Hc HE. cbv zeta. unfold heal_mut. rewrite ticked_chains_mut, writes_chains_mut, app_nil_r.
  split_and!; [done|intros; apply ticket_chains_mut|intros; by apply chains_mut_other| |
    by rewrite (chains_mut_same _ _ _ _ Hc)|done].
  by eapply heal_ok_mut.
Qed.

Lemma flush_row_spec now cid en st n :
  es_ticked st = Some now → heal_ok st →
  ∃ st', flush_heal_row now cid (mkWorld en st n) = (mkWorld en st' n, Ok tt) ∧
    es_ticked st' = Some now ∧ (∀ c, ticket st' c = ticket st c) ∧
    (∀ c', c' ≠ cid → chains st' c' = chains st c') ∧
    heal_ok st' ∧ chains st' cid = flushed_row now st cid <$> chains st cid ∧
    es_writes st' = es_writes st ++ posts st cid now.
Proof.
  intros Ht HK. unfold flush_heal_row. run. unfold posts, flushed_row.
  destruct (fallback_due st cid now) eqn:HF; cbn [negb].
  2: { exists st. split_and!; try done; [by destruct (chains st cid)|].
       destruct (chains st cid), (ticket st cid); by rewrite app_nil_r. }
  pose proof HF as HF'. unfold fallback_due in HF'. destruct (chains st cid) as [c|] eqn:Hc; [|done].
  apply andb_true_iff in HF' as [[HE _]%andb_true_iff _]. destruct (HK _ _ Hc HE) as [[t Htk] Hsl].
  rewrite Htk. run. cbn [andb fmap option_fmap option_map].
  destruct (sealed_matches c) eqn:HM; cbn [negb].
  2: { rewrite orb_true_r. run. eexists. split; [reflexivity|].
       replace (match hl_ready (pc_heal c) with [] => _ | _ => _ end) with (reseal_marked c)
         by (by destruct (hl_ready _), (hl_sealed_to _)).
       by eapply reseal_row_spec. }
  assert (is_Some (hl_sealed_to (pc_heal c))) as [to Hto].
  { apply Hsl. unfold sealed_matches in HM. by destruct (hl_sealed_from (pc_heal c)). }
  rewrite orb_false_r, Hto. case_bool_decide as Hr.
  { run. rewrite Hr. eexists. split; [reflexivity|]. unfold queued. cbn [flat_map].
    by eapply reseal_row_spec. }
  replace (match hl_ready (pc_heal c) with [] => _ | _ => _ end) with (heal_committed to c)
    by (by destruct (hl_ready _)).
  unfold commit_ready, heal_channels. run. rewrite Hc, Htk, Ht. run.
  rewrite bind_run, push_all_run. run.
  set (st1 := with_writes _ _). assert (chains st1 cid = Some c) as Hc1 by exact Hc.
  rewrite (chains_at_of _ _ _ Hc1), Hto. run. eexists. split; [reflexivity|].
  rewrite ticked_chains_mut, writes_chains_mut.
  split_and!; [done|intros c'; by rewrite ticket_chains_mut|intros c' Hne; by rewrite chains_mut_other| | |done].
  - by eapply heal_ok_mut.
  - by rewrite (chains_mut_same _ _ _ _ Hc1).
Qed.

(** The rows the fallback looks at are the only ones it can be due for. *)
Lemma chains_each st cid c : chains st cid = Some c → (cid, c) ∈ each_chains st.
Proof.
  unfold chains, each_chains. rewrite elem_of_app, !list_elem_of_In, !in_flat_map.
  destruct (scan (row cid Some) st) as [[[u i] k]|] eqn:E; intros HP.
  - left. apply scan_row_Some in E as (k' & Hk & [= ->]). unfold identity_row in Hk.
    destruct (identity st u i) as [ident|] eqn:Hi; [|done]. cbn in Hk.
    exists (u, i, ident). split; [by apply list_elem_of_In, elem_of_idents|]. apply in_flat_map.
    exists (cid, k). split; [by apply list_elem_of_In, elem_of_entries|]. rewrite HP. by left.
  - right. unfold device_row in HP. apply bind_Some in HP as (k & Hk & Hp).
    exists (cid, k). split; [by apply list_elem_of_In, elem_of_entries|]. rewrite Hp. by left.
Qed.

Lemma fallback_cids st cid now : fallback_due st cid now = true → cid ∈ heal_cids st.
Proof.
  unfold fallback_due. destruct (chains st cid) as [c|] eqn:E; [|done].
  intros [[HE _]%andb_true_iff _]%andb_true_iff. unfold heal_cids. apply list_elem_of_omap.
  exists (cid, c). split; [by apply chains_each|]. cbn. by rewrite HE.
Qed.

(** What the fallback leaves alone: it depends on a row only through its chains and ticket. *)
Lemma posts_ext st st' cid now :
  chains st' cid = chains st cid → ticket st' cid = ticket st cid → posts st' cid now = posts st cid now.
Proof. intros Hc Ht. unfold posts, fallback_due. by rewrite Hc, Ht. Qed.
Lemma flushed_row_ext now st st' cid c :
  chains st' cid = chains st cid → flushed_row now st' cid c = flushed_row now st cid c.
Proof. intros Hc. unfold flushed_row, fallback_due. by rewrite Hc. Qed.

(** A search is due after the fallback only if it was due before and could not be posted. *)
Lemma flushed_due now st st' cid :
  chains st' cid = flushed_row now st cid <$> chains st cid → fallback_due st' cid now = true →
  fallback_due st cid now = true ∧ ∃ c, chains st cid = Some c ∧ chains st' cid = Some (reseal_marked c).
Proof.
  intros Hc HF. assert (fallback_due st cid now = true) as HD.
  { destruct (fallback_due st cid now) eqn:E; [done|]. rewrite <-HF, <-E. unfold fallback_due.
    rewrite Hc. unfold flushed_row. rewrite E. by destruct (chains st cid). }
  split; [done|]. unfold flushed_row in Hc. rewrite HD in Hc.
  destruct (chains st cid) as [c|]; cbn in Hc; [|by unfold fallback_due in HF; rewrite Hc in HF].
  exists c. split; [done|]. unfold fallback_due in HF. rewrite Hc in HF |- *.
  by repeat case_match.
Qed.

Lemma flush_rows_spec now cids en st n :
  NoDup cids → es_ticked st = Some now → heal_ok st →
  ∃ st', for_each (flush_heal_row now) cids (mkWorld en st n) = (mkWorld en st' n, Ok tt) ∧
    (∀ cid, cid ∈ cids → chains st' cid = flushed_row now st cid <$> chains st cid) ∧
    (∀ cid, cid ∉ cids → chains st' cid = chains st cid) ∧
    es_writes st' = es_writes st ++ flat_map (λ cid, posts st cid now) cids.
Proof.
  intros HN. revert st. induction HN as [|cid cids Hni HN IH]; intros st Ht HK; cbn [for_each flat_map].
  - exists st. split_and!; [done|by intros cid ?%elem_of_nil|done|by rewrite app_nil_r].
  - destruct (flush_row_spec now cid en st n Ht HK) as (st1 & Hrun & Ht1 & Htk & Hch & HK1 & Hs & Hw).
    destruct (IH st1 Ht1 HK1) as (st2 & Hrun2 & Hs2 & Hch2 & Hw2).
    exists st2. rewrite bind_run, Hrun. split_and!; [done|..].
    + intros c [->|Hc]%elem_of_cons; [by rewrite Hch2|]. assert (c ≠ cid) as Hne by (by intros ->).
      rewrite Hs2, Hch by done. destruct (chains st c) eqn:E; [|done]. cbn. f_equal.
      by apply flushed_row_ext, Hch.
    + intros c [Hne Hc]%not_elem_of_cons. by rewrite Hch2, Hch.
    + rewrite Hw2, Hw, <-app_assoc. do 2 f_equal. rewrite !flat_map_concat_map. f_equal.
      apply map_ext_in. intros c Hc%list_elem_of_In.
      assert (c ≠ cid) as Hne by (by intros ->). apply posts_ext; [by apply Hch|done].
Qed.

(** C12. The fallback of the set-XOR search always completes.  In a state that has been ticked,
    whose ephemeral searches are handshakes with both ends of their stash recorded, and in
    which no conversation is searched for in two rows, [flush_heal] ends without error or
    panic.  It queues, in row order, exactly the stashed durable copies of every search that
    has waited [FALLBACK_SECS], has a stash, and whose chain has not moved since the stash was
    sealed; such a row goes on from the end of its stash and is no longer due.  A search that
    is due but has no stash, or whose chain has moved, posts nothing and is only marked to be
    sealed again; it stays due.  Every other row is as it was. *)
Theorem flush_heal_settles en st n now :
  es_ticked st = Some now → heal_ok st → NoDup (heal_cids st) →
  ∃ st', flush_heal (mkWorld en st n) = (mkWorld en st' n, Ok tt) ∧
    es_writes st' = es_writes st ++ flat_map (λ cid, posts st cid now) (heal_cids st) ∧
    (∀ cid, chains st' cid = flushed_row now st cid <$> chains st cid) ∧
    (∀ cid, fallback_due st' cid now = true →
       fallback_due st cid now = true ∧ posts st cid now = [] ∧
       ∃ c, chains st cid = Some c ∧ chains st' cid = Some (reseal_marked c)).
Proof.
  intros Ht HK HN. unfold flush_heal. run. rewrite Ht.
  destruct (flush_rows_spec now _ en st n HN Ht HK) as (st' & Hrun & Hs & Hch & Hw).
  assert (∀ cid, chains st' cid = flushed_row now st cid <$> chains st cid) as HR.
  { intros cid. destruct (decide (cid ∈ heal_cids st)) as [Hin|Hni]; [by apply Hs|]. rewrite Hch by done.
    unfold flushed_row. destruct (fallback_due st cid now) eqn:E; [|by destruct (chains st cid)].
    by apply fallback_cids in E. }
  exists st'. split_and!; [done|done|done|]. intros cid HF.
  destruct (flushed_due _ _ _ _ (HR cid) HF) as (HD & c & Hc & Hc'). split_and!; [done| |by exists c].
  specialize (HR cid). rewrite Hc, Hc' in HR. cbn in HR. injection HR as HR. unfold flushed_row in HR.
  rewrite HD in HR. unfold posts. rewrite Hc. destruct (ticket st cid) as [t|]; [|done].
  rewrite HD. cbn [andb]. destruct (sealed_matches c) eqn:HM; [|done].
  destruct (hl_ready (pc_heal c)) as [|x l] eqn:HRd; [done|].
  destruct (HK cid c Hc) as [_ HTo]; [by unfold fallback_due in HD; rewrite Hc in HD; destruct (hl_on_ephemeral _)|].
  destruct HTo as [to Hto]; [by unfold sealed_matches in HM; destruct (hl_sealed_from _)|].
  rewrite Hto in HR. exfalso. apply (f_equal (λ c, hl_needs_reseal (pc_heal c))) in HR. done.
Qed.

(** C26. A peer's [Want] for a conversation that is no longer a handshake ends in a panic: the
    retransmission expects a ticket, and an established conversation has none.  The panic
    comes whether or not any of the ids asked for is stored. *)
Theorem want_without_ticket_panics cid p now w :
  es_ticked (w_state w) = Some now → ticket (w_state w) cid = None →
  (length (hw_ids p) ≤ ID_CAP)%nat →
  (on_heal_packet cid (HealWant p) w).2 = Err Panic.
Proof.
  intros Ht Htk Hl. unfold on_heal_packet, on_want. run. rewrite Ht. run.
  rewrite (proj2 (Nat.ltb_ge _ _) Hl). run. unfold retransmit. run. unfold heal_mut.
    rewrite !ticked_chains_mut, Ht. run. by rewrite !ticket_chains_mut, Htk.
Qed.

End Fallback.

(** * The theorems on concrete states *)

(** The established conversation of [agreed_log] against a device that stores nothing. *)
Definition one_sided (b : bool) : EngineState := if b then agreed_log else EngineState_new.

#[local] Existing Instance counting_rng.

Lemma heal_search_finds_witness :
  ∃ n b r, nsteps (search_step one_sided (id_of x03)) n (false, whole) (b, r) ∧ (n ≤ 256)%nat ∧
    (found one_sided (id_of x03) b r ∨ stuck one_sided (id_of x03) b r).
Proof.
  destruct (heal_search_finds one_sided (id_of x03) false) as (HA & (n & b & r & HN & HE) & _).
  - intros HE%branded_eq_spec. revert HE. by vm_compute.
  - exists n, b, r. split_and!; [exact HN|exact (proj1 (HA n b r HN))|exact HE].
Defined.

(** [heal_ok] is decided on the rows. *)
Definition heal_row_ok (st : EngineState) (p : ConversationId * PacketChains) : bool :=
  negb (hl_on_ephemeral (pc_heal p.2)) ||
  (from_option (λ _, true) false (ticket st p.1)
   && (from_option (λ _, false) true (hl_sealed_from (pc_heal p.2))
       || from_option (λ _, true) false (hl_sealed_to (pc_heal p.2)))).

Lemma heal_ok_rows st : forallb (heal_row_ok st) (each_chains st) = true → heal_ok st.
Proof.
  intros HF cid c Hc HE. apply chains_each in Hc. rewrite forallb_forall in HF.
  apply list_elem_of_In, HF in Hc. unfold heal_row_ok in Hc. cbn [fst snd] in Hc.
  rewrite HE in Hc. cbn in Hc. apply andb_true_iff in Hc as [HT HS]. split; [by apply from_option_true|].
  intros [x Hx]. rewrite Hx in HS. by apply from_option_true.
Qed.

(** The handshake of [hs_state] with a search that was posted five seconds ago. *)
Definition searching_state : EngineState :=
  heal_mut (id_of x03)
    (λ _, mkHeal [] (Some (clamp64 0)) true false [[x01]; [x02]]
            (Some (mkSendChain (id_of x31) (id_of x32) (clamp64 0) (clamp64 0)))
            (Some (mkSendChain (id_of x33) (id_of x34) (clamp64 0) (clamp64 2))) false) hs_state.

Lemma flush_heal_settles_witness :
  ∃ st', flush_heal (mkWorld locked_engine searching_state 0) = (mkWorld locked_engine st' 0, Ok tt) ∧
    map dw_body (es_writes st') = [[x01]; [x02]] ∧
    chains st' (id_of x03) = flushed_row (clamp64 5) searching_state (id_of x03) <$>
      chains searching_state (id_of x03).
Proof.
  destruct (flush_heal_settles locked_engine searching_state 0 (clamp64 5)) as (st' & H1 & H2 & H3 & _).
  - unfold searching_state, heal_mut. rewrite ticked_chains_mut. by vm_decide.
  - apply heal_ok_rows. by vm_compute.
  - apply (bool_decide_unpack _). by vm_compute.
  - exists st'. split_and!; [done| |done]. rewrite H2. by vm_compute.
Defined.

(** The established conversation [03] of [agreed_log]. *)
Lemma want_without_ticket_panics_witness :
  (on_heal_packet (id_of x03) (HealWant (mkHealWant [] (clamp64 0) (id_of x00) (id_of xff) []))
     (mkWorld locked_engine (with_ticked (Some (clamp64 5)) agreed_log) 0)).2 = Err Panic.
Proof.
  apply (want_without_ticket_panics _ _ (clamp64 5)); [done|by apply from_option_false; vm_compute|cbn; lia].
Defined.
