(* ===== verification/Fingerprint.v ===== *)
(** The confirmation digest of a handshake and the conversation it spawns
    ([conv_secret], [try_fingerprint], [unwrap_shared] and [spawn_child] of
    [engine/handshake.rs]). *)

From stdpp Require Import base tactics list numbers option strings countable gmap.
From Stdlib Require Import Strings.Byte.
From S2P Require Import Prelude Text Ids Order Channel Defaults Payload Json Ports Codec.
From S2P Require Import Chain RowLog Party HealRange Bins State StateLaws Helpers Engine.

(** [ticket(cid).map(secret).or_else(|| established_secret(cid))]. *)
Definition conv_secret (st : EngineState) (cid : ConversationId) : result EngineError Secret :=
  ok_or UnknownIds
    (match ticket st cid with
     | Some t => Some (tk_secret t)
     | None => established_secret st cid
     end).

(** The last payload of the conversation for which [f] holds, in id order. *)
Definition last_payload (f : TxPayload → bool) (st : EngineState) (cid : ConversationId) :
    option TxPayload :=
  fold_left (λ acc tx,
    if branded_eq (db_conversation_id tx) cid && f (db_payload tx)
    then Some (db_payload tx) else acc) (bodies st) None.

Definition signing_le (a b : SigningPublicKey) : bool :=
  match bytes_compare (sign_bytes a) (sign_bytes b) with Gt => false | _ => true end.

Definition fingerprint_payloads (st : EngineState) (cid : ConversationId)
    (inviter : TxInviterIntro) (invitee : TxInviteeIntro) : option (TxPayload * TxPayload) :=
  '(inviter_payload, invitee_payload) ←
    (if is_sync st cid then
       a ← last_payload (λ p, match p with PSyncInviterIntro _ => true | _ => false end) st cid;
       b ← last_payload (λ p, match p with PSyncInviteeIntro _ => true | _ => false end) st cid;
       Some (a, b)
     else Some (PInviterIntro inviter, PInviteeIntro invitee));
  Some (if signing_le (ii_signing_pk inviter) (ie_signing_pk invitee)
        then (inviter_payload, invitee_payload) else (invitee_payload, inviter_payload)).

Section Fingerprint.
Context `{Suite}.

Definition spawn_secret_of (key : HmacSha256Key) (shared_inviter shared_invitee : Secret) :
    Secret :=
  from_bytes (as_bytes (mac key
    (SPAWN_SECRET_INFO ++ sort32 (as_bytes shared_inviter) (as_bytes shared_invitee)))).

(** The digest's bytes, from what both devices hold. *)
Definition fingerprint_mac (key : HmacSha256Key) (sync : bool) (lo hi : TxPayload)
    (spawn_secret : Secret) : HmacSha256Mac :=
  let label := if sync then HANDSHAKE_SYNC_ESTABLISHED_INFO else HANDSHAKE_DM_ESTABLISHED_INFO in
  let fp_key := expand key label in
  mac (from_bytes (as_bytes fp_key))
    (json_encode (payload_to_json lo) ++ json_encode (payload_to_json hi)
     ++ cval (as_bytes spawn_secret)).

Definition try_fingerprint (st : EngineState) (cid : ConversationId) : option (str * Secret) :=
  t ← State.ticket st cid;
  inviter ← inviter_intro_for st cid;
  invitee ← invitee_intro_for st cid;
  hs ← party st cid;
  shared_inviter ← on_party (λ k, party_shared_inviter) hs;
  shared_invitee ← on_party (λ k, party_shared_invitee) hs;
  let key : HmacSha256Key := from_bytes (as_bytes (tk_secret t)) in
  let spawn_secret := spawn_secret_of key shared_inviter shared_invitee in
  '(lo, hi) ← fingerprint_payloads st cid inviter invitee;
  let fingerprint := fingerprint_mac key (is_sync st cid) lo hi spawn_secret in
  Some (b64_encode (cval (as_bytes fingerprint)), spawn_secret).

Definition unwrap_shared (policy : Policy) (sk ct : bytes) : option Secret :=
  shared ← kem_unwrap policy sk ct;
  out ← try_into 32 shared;
  Some (from_bytes out).

Definition child_id (spawn_secret : Secret) : ConversationId :=
  from_bytes (as_bytes (mac (from_bytes (as_bytes spawn_secret)) SPAWN_CONVERSATION_ID_INFO)).

(** The errors come before the state is changed. *)
Definition spawn_child (st : EngineState) (handshake : ConversationId) :
    result EngineError EngineState :=
  '(_, spawn_secret) ← ok_or MalformedPayload (try_fingerprint st handshake);
  peer ← (if is_sync st handshake
          then id ← ok_or WrongPhase (sync_peer_device st handshake); Ok (Sync id)
          else Ok Direct);
  Ok (spawn_established handshake (child_id spawn_secret) spawn_secret peer st).

End Fingerprint.
