(* ===== verification/Live.v ===== *)
(** Sending on an established conversation: ephemeral first, durable copies kept until a
    live acknowledgement comes or the fallback is due ([engine/live.rs]; its receiving side
    is in [Receive.v], [settle_live] in [Heal.v]). *)

From stdpp Require Import base tactics list numbers option strings countable gmap.
From Stdlib Require Import Strings.Byte.
From S2P Require Import Prelude Text Ids Order Channel Defaults Payload Json Ports Codec.
From S2P Require Import Chain RowLog Party HealRange Bins State StateLaws Helpers Engine Ratchet.
From S2P Require Import Vault Directory Chat Heal.

(** * Routes *)

Record LiveRoute : Type := mkLiveRoute {
  lr_sort : ConversationSort; lr_persistents : list DurableChannel;
  lr_ephemerals : list EphemeralChannel; lr_send_tag_key : TagKey;
  lr_eph_send_tag_key : TagKey; lr_actor : Actor
}.

Definition live_persistent_only (sort : ConversationSort) (payload : TxPayload) : bool :=
  match sort, payload with
  | Group, _ | _, PAdvertise _ | _, PWrap _ | _, PAck _ => true
  | _, _ => false
  end.

(** Group packets stay on the durable channels. *)
Definition group_route (st : EngineState) (cid : ConversationId) : option LiveRoute :=
  live ← group_live st cid;
  '(actor, signing) ← local_material st cid;
  member ← List.find (λ m, bool_decide (sign_bytes (gm_signing_pk m) = signing)) (gl_members live);
  Some (mkLiveRoute Group (gl_persistents live) [] (gm_send_tag_key member)
          (gm_eph_send_tag_key member) actor).

Definition established_sort (st : EngineState) (cid : ConversationId) : ConversationSort :=
  if is_sync st cid then Synchronization else DirectMessage.

Definition live_route (st : EngineState) (cid : ConversationId) : option LiveRoute :=
  match group_route st cid with
  | Some route => Some route
  | None =>
      parent ← established_parent st cid;
      notice ← notice_for st parent;
      '(actor, signing) ← local_material st cid;
      '(send_tag_key, eph_send_tag_key) ← intro_tag_keys st parent signing;
      Some (mkLiveRoute (established_sort st cid) (n_persistents notice) (n_ephemerals notice)
              send_tag_key eph_send_tag_key actor)
  end.

Definition push_pending (pending : LivePending) (c : EstablishedChains) : EstablishedChains :=
  with_packet (λ p, with_live_pending (pc_live_pending p ++ [pending]) p) c.

Definition set_send (actor : Actor) (chain : SendChain) (c : EstablishedChains) :
    EstablishedChains :=
  with_packet (λ p, with_send (<[actor := chain]> (pc_send p)) p) c.

(** [0] and [1] as [u8]. *)
Definition u8_zero : u8 := mkChecked 0%N eq_refl.
Definition u8_one : u8 := mkChecked 1%N eq_refl.

(** [now >= sent_at.saturating_add(FALLBACK_SECS)]. *)
Definition pending_due (now : UnixSeconds) (p : LivePending) : bool :=
  elapsed now (lp_sent_at p) FALLBACK_SECS.

(** Presence as [probe_presence] and [post_signal] word it. *)
Definition presence_plain (visible : bool) (actor : bytes) (seq : u64) (cid : ConversationId)
    (now : u64) : PacketPlain :=
  if visible then PresenceActive (mkPresenceActive actor seq cid now)
  else Presence (mkPresence actor seq cid).

Definition typing_plain (visible : bool) (actor : bytes) (seq : u64) (cid : ConversationId)
    (now : u64) (composing : bool) : PacketPlain :=
  if visible then TypingActive (mkTypingActive actor seq cid now composing)
  else Typing (mkTyping actor seq cid composing).

Section Live.
Context `{Suite, Rng}.

(** A packet that waits for a live acknowledgement stays ahead of the stored chain. *)
Definition sending_chain (st : EngineState) (cid : ConversationId) (secret : Secret)
    (route : LiveRoute) : result EngineError SendChain :=
  match established st cid ≫= λ c, last (pc_live_pending (ec_packet c)) with
  | Some pending => Ok (lp_sealed_to pending)
  | None =>
    match established st cid ≫= λ c, pc_send (ec_packet c) !! lr_actor route with
    | Some existing => Ok existing
    | None => join secret (lr_sort route) (Actor_as_bytes (lr_actor route))
    end
  end.

(** * Queueing *)

Definition push_eph (route : LiveRoute) (now : UnixSeconds) (body : bytes) : M unit :=
  label ← expect (eph_label (lr_sort route));
  push_eph_writes (lr_ephemerals route) (bin_tag (lr_eph_send_tag_key route) label (time_bin now))
    body.

Definition durable_tag (route : LiveRoute) (now : UnixSeconds) (label : bytes) : Tag :=
  bin_tag (lr_send_tag_key route) label (time_bin now).

Definition push_durable (route : LiveRoute) (now : UnixSeconds) (body : bytes) : M unit :=
  label ← expect (persist_label (lr_sort route));
  push_writes (lr_persistents route) (durable_tag route now label) body.

(** Tell the peer this device is here, once, after the process comes online. *)
Definition probe_presence (cid : ConversationId) (route : LiveRoute) (chain : SendChain)
    (now : UnixSeconds) : M unit :=
  st ← get_state;
  en ← get_engine;
  c ← expect (established st cid);
  let live := from_option (λ until, (cval now <? cval until)%N) false (pc_live_until (ec_packet c)) in
  if live || ec_presence_sent c then mret tt
  else
    let packet := presence_plain (df_online_visible (en_defaults en))
                    (Actor_as_bytes (lr_actor route)) (sc_packet_seq chain) cid now in
    sealed ← seal_packet_m (eph_mk chain) packet;
    _ ← push_eph route now sealed;
    expect_established_mut cid with_presence_sent.

(** Post a typing or presence packet on every ephemeral channel; [None] is presence. *)
Definition post_signal (cid : ConversationId) (secret : Secret) (composing : option bool) :
    M unit :=
  st ← get_state;
  en ← get_engine;
  route ← expect (live_route st cid);
  now ← expect (es_ticked st);
  chain ← lift (sending_chain st cid secret route);
  let actor := Actor_as_bytes (lr_actor route) in
  let visible := shows_online en st cid in
  let packet :=
    match composing with
    | Some composing => typing_plain visible actor (sc_packet_seq chain) cid now composing
    | None => presence_plain visible actor (sc_packet_seq chain) cid now
    end in
  sealed ← seal_packet_m (eph_mk chain) packet;
  push_eph route now sealed.

(** * Posting a transaction *)

(** The loop of [post_live]: the chain past the packets, and the durable copies kept back.
    The 65th fragment is refused by [next_fragment], so [write_fuel] rounds suffice. *)
Fixpoint live_fragments (fuel : nat) (cid : ConversationId) (route : LiveRoute)
    (now : UnixSeconds) (wait : bool) (eph_key : EphMessageKey) (tx_id set_xor : Tag)
    (packed : bytes) (frag_i : u64) (chain : SendChain) (durable : list bytes) :
    M (SendChain * list bytes) :=
  match fuel with
  | O => expect None
  | S fuel =>
      '(packet, n) ← lift (next_fragment packed tx_id set_xor (sc_packet_seq chain) frag_i
                             (Actor_as_bytes (lr_actor route)));
      _ ← (if wait || negb (bool_decide (lr_ephemerals route = []))
           then sealed ← seal_packet_m eph_key packet; push_eph route now sealed
           else mret tt);
      sealed ← seal_packet_m (mk chain) packet;
      _ ← (if wait then mret tt else push_durable route now sealed);
      _ ← modify (note_sent_packet cid);
      let durable := if wait then durable ++ [sealed] else durable in
      if is_last packet then mret (step chain, durable)
      else live_fragments fuel cid route now wait eph_key tx_id set_xor (drop n packed)
             (sat_add frag_i 1) (step chain) durable
  end.

Definition live_wait (route : LiveRoute) (payload : TxPayload) : bool :=
  negb (live_persistent_only (lr_sort route) payload)
  && negb (bool_decide (lr_ephemerals route = [])).

(** [post_live] after the owed ratchet step: the packets of [tx_id] from [chain] on. *)
Definition post_fragments (cid : ConversationId) (route : LiveRoute) (now : UnixSeconds)
    (wait : bool) (chain : SendChain) (tx_id : Tag) : M unit :=
  st ← get_state;
  b ← expect (body st tx_id);
  '(chain, durable) ← live_fragments write_fuel cid route now wait (eph_mk chain) tx_id
                        (set_xor_for (body_pairs st) cid) (packed_tx b) (clamp64 0) chain [];
  if wait then
    expect_established_mut cid
      (push_pending (mkLivePending (set_xor_for (body_pairs st) cid) now durable chain
                       (lr_actor route) u8_zero u8_one))
  else modify (established_mut cid (set_send (lr_actor route) chain)).

(** [post_live] posts what the ratchet owes first.  Minting resets the count that makes a
    step owed, so the inner call owes nothing and two levels suffice
    ([post_live_enough] in [LiveLaws.v]). *)
Fixpoint post_live_at (fuel : nat) (cid : ConversationId) (secret : Secret) (tx_id : Tag)
    (payload : TxPayload) : M unit :=
  match fuel with
  | O => expect None
  | S fuel =>
      st ← get_state;
      match live_route st cid with
      | None => mret tt
      | Some route =>
          now ← expect (es_ticked st);
          let wait := live_wait route payload in
          chain ← lift (sending_chain st cid secret route);
          _ ← (if wait then probe_presence cid route chain now else mret tt);
          owed ← mint_if_owed cid secret;
          _ ← (match owed with
               | None => mret tt
               | Some owed =>
                   st ← get_state;
                   b ← expect (body st owed);
                   post_live_at fuel cid secret owed (db_payload b)
               end);
          post_fragments cid route now wait chain tx_id
      end
  end.

Definition post_live : ConversationId → Secret → Tag → TxPayload → M unit := post_live_at 2.

Definition deliver_live (cid : ConversationId) (secret : Secret) (payloads : list TxPayload) :
    M unit :=
  st ← get_state;
  if is_established st cid
  then for_each (λ payload, post_live cid secret (tx_id secret payload) payload) payloads
  else mret tt.

(** * The fallback *)

(** The row after its overdue packets went out. *)
Definition live_flushed (now : UnixSeconds) (due : list LivePending) (c : EstablishedChains) :
    EstablishedChains :=
  let c := match last due with Some p => set_send (lp_actor p) (lp_sealed_to p) c | None => c end in
  with_packet (λ p, with_live_pending
    (filter (λ q, pending_due now q = false) (pc_live_pending p)) p) c.

Definition flush_live_row (now : UnixSeconds) (cid : ConversationId) : M unit :=
  st ← get_state;
  c ← expect (established st cid);
  let due := filter (λ p, pending_due now p = true) (pc_live_pending (ec_packet c)) in
  if bool_decide (due = []) then mret tt
  else
    match live_route st cid with
    | None => mret tt
    | Some route =>
        label ← expect (persist_label (lr_sort route));
        _ ← for_each (push_writes (lr_persistents route) (durable_tag route now label))
              (concat (map lp_bodies due));
        expect_established_mut cid (live_flushed now due)
    end.

Definition flush_live : M unit :=
  st ← get_state;
  now ← expect (es_ticked st);
  for_each (flush_live_row now) (established_cids st).

End Live.
