(* ===== verification/LiveLaws.v ===== *)
(** What sending on an established conversation guarantees ([Live.v]): the packets of a
    transaction, the durable copies that wait for an acknowledgement, the ratchet step posted
    on the way, and the fallback that posts the copies when no acknowledgement came. *)

From stdpp Require Import base tactics list numbers option strings countable gmap.
From Stdlib Require Import Strings.Byte.
From S2P Require Import Prelude Text Ids Order Channel Defaults Payload Json Ports TestDoubles Codec.
From S2P Require Import Chain ChainLaws RowLog Party HealRange Bins State StateLaws.
From S2P Require Import Helpers HelpersLaws Engine Frame Ratchet RatchetLaws Vault VaultLaws.
From S2P Require Import Directory Skeleton Samples Chat Heal HealLaws Live.

(** * The route *)

Lemma live_route_rows st st' cid : same_rows st st' → live_route st' cid = live_route st cid.
Proof.
  intros HR. pose proof (rows_steady _ _ HR) as HS.
  assert (∀ s, group_route s cid = (bare ← bare_live <$> group_live s cid;
    '(actor, signing) ← local_material s cid;
    member ← List.find (λ m, bool_decide (sign_bytes (gm_signing_pk m) = signing)) (gl_members bare);
    Some (mkLiveRoute Group (gl_persistents bare) [] (gm_send_tag_key member)
            (gm_eph_send_tag_key member) actor))) as HG.
  { intros s. unfold group_route. by destruct (group_live s cid). }
  unfold live_route. rewrite !HG, (steady_group _ _ HS), (rows_material _ _ HR), (steady_parent _ _ HS).
  case_match; [done|]. destruct (established_parent st cid) as [parent|]; cbn; [|done].
  unfold notice_for, intro_tag_keys, invitee_intro_for, inviter_intro_for, established_sort.
  by rewrite !(rows_handshake _ _ HR), (steady_is_sync _ _ HS).
Qed.

(** Every route sends under labels of its own. *)
Lemma live_route_labels st cid route :
  live_route st cid = Some route →
  ∃ label eph, persist_label (lr_sort route) = Some label ∧ eph_label (lr_sort route) = Some eph.
Proof.
  assert (∀ s, s = Group ∨ s = Synchronization ∨ s = DirectMessage →
    ∃ label eph, persist_label s = Some label ∧ eph_label s = Some eph) as HS.
  { intros s [->|[->| ->]]; eauto. }
  unfold live_route. destruct (group_route st cid) as [r|] eqn:E.
  - intros [= <-]. apply HS. left. revert E. unfold group_route.
    destruct (group_live st cid); cbn; [|done]. destruct (local_material st cid) as [[]|]; cbn; [|done].
    destruct (List.find _ _); cbn; [|done]. by intros [= <-].
  - destruct (established_parent st cid); cbn; [|done]. destruct (notice_for _ _); cbn; [|done].
    destruct (local_material st cid) as [[]|]; cbn; [|done]. destruct (intro_tag_keys _ _ _) as [[]|]; cbn; [|done].
    intros [= <-]. apply HS. right. cbn. unfold established_sort. destruct (is_sync st cid); eauto.
Qed.

Section Posting.
Context `{Suite, Rng}.

(** * Queueing *)

Definition eph_tag (route : LiveRoute) (now : UnixSeconds) : Tag :=
  bin_tag (lr_eph_send_tag_key route) (default [] (eph_label (lr_sort route))) (time_bin now).

Definition dur_tag (route : LiveRoute) (now : UnixSeconds) : Tag :=
  durable_tag route now (default [] (persist_label (lr_sort route))).

Definition queued_eph (ephemerals : list EphemeralChannel) (tag : Tag) (bodies : list bytes) :
    list EphemeralWrite :=
  flat_map (λ body, map (λ ch, mkEphemeralWrite ch tag body) ephemerals) bodies.

Lemma push_eph_run route now body w label :
  eph_label (lr_sort route) = Some label →
  push_eph route now body w =
    (mkWorld (w_engine w) (with_eph_writes (es_eph_writes (w_state w) ++
       queued_eph (lr_ephemerals route) (eph_tag route now) [body]) (w_state w)) (w_draws w), Ok tt).
Proof.
  intros HL. unfold push_eph, eph_tag, queued_eph. rewrite HL. run. cbn. by rewrite app_nil_r.
Qed.

Lemma push_durable_run route now body w label :
  persist_label (lr_sort route) = Some label →
  push_durable route now body w =
    (mkWorld (w_engine w) (with_writes (es_writes (w_state w) ++
       queued (lr_persistents route) (dur_tag route now) [body]) (w_state w)) (w_draws w), Ok tt).
Proof.
  intros HL. unfold push_durable, dur_tag, queued. rewrite HL. run. cbn. by rewrite app_nil_r.
Qed.

(** The packets of one transaction as posted from [chain], drawing from [n] on: packet [i]
    is sealed at the chain's [i]-th position, after a copy under [eph_key] when there are
    ephemeral channels. *)
Inductive sealed_live (eph : bool) (eph_key : EphMessageKey) :
    SendChain → nat → list PacketPlain → list bytes → list bytes → Prop :=
| sealed_none chain n : sealed_live eph eph_key chain n [] [] []
| sealed_durable chain n packet body packets bodies :
    eph = false → seal_packet (draw n) (mk chain) packet = Ok body →
    sealed_live eph eph_key (step chain) (S n) packets [] bodies →
    sealed_live eph eph_key chain n (packet :: packets) [] (body :: bodies)
| sealed_both chain n packet copy body packets copies bodies :
    eph = true → seal_packet (draw n) eph_key packet = Ok copy →
    seal_packet (draw (S n)) (mk chain) packet = Ok body →
    sealed_live eph eph_key (step chain) (S (S n)) packets copies bodies →
    sealed_live eph eph_key chain n (packet :: packets) (copy :: copies) (body :: bodies).

Definition has_eph (route : LiveRoute) : bool := negb (bool_decide (lr_ephemerals route = [])).

Lemma established_note_sent cid st c :
  established st cid = Some c →
  ∃ c', established (note_sent_packet cid st) cid = Some c' ∧ ec_packet c' = ec_packet c.
Proof. intros HC. eexists. split; [by apply established_mut_same|done]. Qed.

Lemma note_sent_store cid st : same_store st (note_sent_packet cid st).
Proof. apply established_mut_same_store. Qed.

(** What the loop of [post_live] leaves of the state it started in. *)
Record advanced (cid : ConversationId) (st st' : EngineState) : Prop := mkAdvanced {
  ad_store : same_store st st';
  ad_ticked : es_ticked st' = es_ticked st;
  ad_rows : Located st → same_rows st st';
  ad_established : ∀ c, established st cid = Some c →
    ∃ c', established st' cid = Some c' ∧ ec_packet c' = ec_packet c
}.

#[export] Instance advanced_preorder cid : PreOrder (advanced cid).
Proof.
  split; [by split; eauto|]. intros s1 s2 s3 [A1 A2 A3 A4] [B1 B2 B3 B4]. split; [by etrans|congruence|..].
  { intros HL. etrans; [by apply A3|]. apply B3. by eapply same_store_located. }
  intros c (c' & Hc' & E)%A4. apply B4 in Hc' as (c'' & ? & ?). exists c''. split; [done|congruence].
Qed.

Lemma note_sent_eph cid st : es_eph_writes (note_sent_packet cid st) = es_eph_writes st.
Proof. pose proof (outbox_note_sent cid st) as HO. unfold outbox in HO. by injection HO. Qed.
Lemma note_sent_writes cid st : es_writes (note_sent_packet cid st) = es_writes st.
Proof. pose proof (outbox_note_sent cid st) as HO. unfold outbox in HO. by injection HO. Qed.
Lemma note_sent_ticked cid st : es_ticked (note_sent_packet cid st) = es_ticked st.
Proof. pose proof (outbox_note_sent cid st) as HO. unfold outbox in HO. by injection HO. Qed.

Lemma advanced_note_sent cid st ws es :
  advanced cid st (note_sent_packet cid (with_writes ws (with_eph_writes es st))).
Proof.
  transitivity (with_writes ws (with_eph_writes es st)); [by split; eauto|].
  split; [apply note_sent_store|apply note_sent_ticked|apply established_mut_rows|].
  intros c. apply established_note_sent.
Qed.

(** One more packet in front. *)
Lemma sealed_cons (eph : bool) eph_key chain n packet copies1 body packets copies bodies :
  (if eph then ∃ copy, copies1 = [copy] ∧ seal_packet (draw n) eph_key packet = Ok copy else copies1 = []) →
  seal_packet (draw (if eph then S n else n)) (mk chain) packet = Ok body →
  sealed_live eph eph_key (step chain) (S (if eph then S n else n)) packets copies bodies →
  sealed_live eph eph_key chain n (packet :: packets) (copies1 ++ copies) (body :: bodies).
Proof.
  destruct eph.
  - intros (copy & -> & HC) HB HS. by apply sealed_both.
  - intros -> HB HS. cbn. assert (copies = []) as -> by (by inversion HS). by apply sealed_durable.
Qed.

Lemma sealed_one (eph : bool) eph_key chain n packet copies1 body :
  (if eph then ∃ copy, copies1 = [copy] ∧ seal_packet (draw n) eph_key packet = Ok copy else copies1 = []) →
  seal_packet (draw (if eph then S n else n)) (mk chain) packet = Ok body →
  sealed_live eph eph_key chain n [packet] copies1 [body].
Proof.
  intros HC HB. rewrite <-(app_nil_r copies1). apply sealed_cons; [done..|constructor].
Qed.

(** The ephemeral copy of a packet, where there is a channel for it. *)
Lemma eph_copy_run route eph_key packet now elabel w :
  eph_label (lr_sort route) = Some elabel →
  ∃ w1 r1, (if has_eph route then sealed ← seal_packet_m eph_key packet; push_eph route now sealed
      else mret tt) w = (w1, r1) ∧ r1 ≠ Err Panic ∧
    (r1 = Ok tt → ∃ copies, w_draws w1 = (if has_eph route then S (w_draws w) else w_draws w) ∧
       (if has_eph route then ∃ copy, copies = [copy] ∧ seal_packet (draw (w_draws w)) eph_key packet = Ok copy
        else copies = []) ∧
       w_state w1 = with_eph_writes (es_eph_writes (w_state w) ++
         queued_eph (lr_ephemerals route) (eph_tag route now) copies) (w_state w)).
Proof.
  intros HE. destruct (has_eph route).
  - rewrite bind_run. pose proof (seal_packet_m_panic eph_key packet w) as HP.
    destruct (seal_packet_m eph_key packet w) as [w1 [copy|e]] eqn:HSE.
    + apply seal_packet_m_run in HSE as [HC ->]. rewrite (push_eph_run _ _ _ _ _ HE).
      eexists _, _. split_and!; [done|done|]. intros _. exists [copy]. cbn. split_and!; [done|eauto|done].
    + eexists _, _. split_and!; [done| |done]. cbn in HP. naive_solver.
  - exists w, (Ok tt). split_and!; [done..|]. intros _. exists []. cbn. split_and!; [done..|].
    unfold queued_eph. cbn. rewrite app_nil_r. by destruct w as [? [] ?].
Qed.

(** The durable packet is kept back or queued. *)
Lemma hold_or_push_run (wait : bool) route now body label w :
  persist_label (lr_sort route) = Some label →
  (if wait then mret tt else push_durable route now body) w =
    (mkWorld (w_engine w) (with_writes (es_writes (w_state w) ++
       (if wait then [] else queued (lr_persistents route) (dur_tag route now) [body])) (w_state w))
       (w_draws w), Ok tt).
Proof.
  intros HL. destruct wait; [|by rewrite (push_durable_run _ _ _ _ _ HL)].
  rewrite app_nil_r. by destruct w as [? [] ?].
Qed.

Lemma live_fragments_spec fuel cid route now wait eph_key tx_id set_xor label elabel start cut packed
    chain durable w :
  (length cut ≤ 64 < fuel + length cut)%nat → sc_packet_seq chain = sat_add start (N.of_nat (length cut)) →
  persist_label (lr_sort route) = Some label → eph_label (lr_sort route) = Some elabel →
  (wait = true → has_eph route = true) →
  let '(w', r) := live_fragments fuel cid route now wait eph_key tx_id set_xor packed
                    (clamp64 (N.of_nat (length cut))) chain durable w in
  r ≠ Err Panic ∧
  ∀ chain' durable', r = Ok (chain', durable') → ∃ packets copies bodies,
    advanced cid (w_state w) (w_state w') ∧
    fragment_loop fuel packed cut tx_id set_xor start (Actor_as_bytes (lr_actor route)) =
      Some (Ok (cut ++ packets)) ∧
    sealed_live (has_eph route) eph_key chain (w_draws w) packets copies bodies ∧
    chain' = Nat.iter (length packets) step chain ∧
    durable' = durable ++ (if wait then bodies else []) ∧
    es_eph_writes (w_state w') = es_eph_writes (w_state w) ++
      queued_eph (lr_ephemerals route) (eph_tag route now) copies ∧
    es_writes (w_state w') = es_writes (w_state w) ++
      (if wait then [] else queued (lr_persistents route) (dur_tag route now) bodies).
Proof.
  intros Hf Hs HL HE HW. revert cut packed chain durable w Hf Hs.
  induction fuel as [|fuel IH]; intros cut packed chain durable w Hf Hs; [exfalso; lia|].
  cbn [live_fragments fragment_loop]. rewrite bind_run. unfold lift at 1. rewrite Hs.
  destruct (next_fragment _ _ _ _ _ _) as [[packet n]|e] eqn:HN; cbn [map_err]; [|by split].
  pose proof (next_fragment_spec _ _ _ _ _ _ _ _ HN) as [Hi _].
  replace (wait || negb (bool_decide (lr_ephemerals route = []))) with (has_eph route)
    by (unfold has_eph in *; destruct wait; [by rewrite HW|done]).
  destruct (eph_copy_run route eph_key packet now elabel w HE) as (w1 & r1 & HR1 & HP1 & HO1).
  rewrite bind_run, HR1. destruct r1 as [[]|e]; [|split; [naive_solver|done]].
  destruct (HO1 eq_refl) as (copies1 & HD1 & HC1 & HS1). clear HO1 HP1.
  rewrite bind_run. pose proof (seal_packet_m_panic (mk chain) packet w1) as HP.
  destruct (seal_packet_m (mk chain) packet w1) as [w2 [body|e]] eqn:HSB; [|split; [cbn in HP; naive_solver|done]].
  apply seal_packet_m_run in HSB as [HB ->]. rewrite bind_run.
  rewrite (hold_or_push_run _ _ _ _ label) by done. cbn [w_engine w_state w_draws].
  run. set (st2 := note_sent_packet cid _).
  assert (advanced cid (w_state w) st2 ∧
    es_eph_writes st2 = es_eph_writes (w_state w) ++ queued_eph (lr_ephemerals route) (eph_tag route now) copies1 ∧
    es_writes st2 = es_writes (w_state w) ++
      (if wait then [] else queued (lr_persistents route) (dur_tag route now) [body])) as (HA & HEW & HDW).
  { split_and!.
    - unfold st2. rewrite HS1. apply advanced_note_sent.
    - unfold st2. rewrite note_sent_eph. cbn. by rewrite HS1.
    - unfold st2. rewrite note_sent_writes. cbn. by rewrite HS1. }
  clearbody st2. rewrite HD1 in HB. clear HS1.
  destruct (is_last packet).
  - run. split; [done|]. intros chain' durable' [= <- <-]. exists [packet], copies1, [body].
    cbn [w_state]. split_and!; try done; [|by destruct wait; rewrite ?app_nil_r].
    by apply sealed_one.
  - rewrite index_S.
    specialize (IH (cut ++ [packet]) (drop n packed) (step chain) (if wait then durable ++ [body] else durable)
      (mkWorld (w_engine w1) st2 (S (w_draws w1)))).
    rewrite length_app, Nat.add_comm in IH. cbn [length Nat.add] in IH.
    destruct (live_fragments _ _ _ _ _ _ _ _ _ _ _ _ _) as [w' r].
    destruct IH as (H1 & H2); [lia|cbn [sc_packet_seq step]; by rewrite Hs, sat_add_S|].
    split; [done|]. intros chain' durable' HR.
    destruct (H2 _ _ HR) as (packets & copies & bodies & HA2 & HF & HS2 & HCh & HDu & HEW2 & HDW2).
    cbn [w_state w_draws] in *.
    exists (packet :: packets), (copies1 ++ copies), (body :: bodies). split_and!.
    + by etrans.
    + by rewrite HF, <-app_assoc.
    + apply (sealed_cons (has_eph route)); [done..|]. by rewrite HD1 in HS2.
    + rewrite HCh. cbn [length]. by rewrite Nat.iter_succ_r.
    + rewrite HDu. destruct wait; [by rewrite <-app_assoc|done].
    + rewrite HEW2, HEW, <-app_assoc. unfold queued_eph. by rewrite flat_map_app.
    + rewrite HDW2, HDW. destruct wait; [by rewrite !app_nil_r|]. unfold queued. cbn.
      by rewrite app_nil_r, <-app_assoc.
Qed.

(** * One transaction *)

(** What posting the stored transaction [id] from [chain] did.  Its fragments were sealed
    at the chain's positions.  Every copy went to every ephemeral channel.  The durable
    packets went to every durable channel and the chain on record moved past them; or, with
    [wait], they were kept back with the chain to move to. *)
Definition posted (cid : ConversationId) (route : LiveRoute) (now : UnixSeconds) (wait : bool)
    (chain : SendChain) (id : Tag) (w w' : World) : Prop :=
  ∃ b packets copies bodies c c',
    stored (w_state w) !! id = Some b ∧
    fragment_body (packed_tx b) id (set_xor_for (body_pairs (w_state w)) cid)
      (sc_packet_seq chain) (Actor_as_bytes (lr_actor route)) = Ok packets ∧
    sealed_live (has_eph route) (eph_mk chain) chain (w_draws w) packets copies bodies ∧
    es_eph_writes (w_state w') = es_eph_writes (w_state w) ++
      queued_eph (lr_ephemerals route) (eph_tag route now) copies ∧
    es_writes (w_state w') = es_writes (w_state w) ++
      (if wait then [] else queued (lr_persistents route) (dur_tag route now) bodies) ∧
    established (w_state w) cid = Some c ∧ established (w_state w') cid = Some c' ∧
    let past := Nat.iter (length packets) step chain in
    ec_packet c' =
      if wait then
        with_live_pending (pc_live_pending (ec_packet c) ++
          [mkLivePending (set_xor_for (body_pairs (w_state w)) cid) now bodies past
             (lr_actor route) u8_zero u8_one]) (ec_packet c)
      else with_send (<[lr_actor route := past]> (pc_send (ec_packet c))) (ec_packet c).

Lemma established_mut_eph cid f st : es_eph_writes (established_mut cid f st) = es_eph_writes st.
Proof. pose proof (outbox_established_mut cid f st) as HO. unfold outbox in HO. by injection HO. Qed.
Lemma established_mut_writes cid f st : es_writes (established_mut cid f st) = es_writes st.
Proof. pose proof (outbox_established_mut cid f st) as HO. unfold outbox in HO. by injection HO. Qed.

Lemma post_fragments_spec cid route now wait chain id w c b :
  Located (w_state w) → established (w_state w) cid = Some c → stored (w_state w) !! id = Some b →
  live_route (w_state w) cid = Some route → (wait = true → has_eph route = true) →
  let '(w', r) := post_fragments cid route now wait chain id w in
  r ≠ Err Panic ∧
  (r = Ok tt → posted cid route now wait chain id w w' ∧ Located (w_state w') ∧
     stored (w_state w') = stored (w_state w) ∧ same_rows (w_state w) (w_state w')).
Proof.
  intros HL HC HB HR HW. pose proof (live_route_labels _ _ _ HR) as (label & elabel & HPL & HEL).
  unfold post_fragments. run. rewrite <-stored_lookup, HB by done. run. rewrite bind_run.
  pose proof (live_fragments_spec write_fuel cid route now wait (eph_mk chain) id
    (set_xor_for (body_pairs (w_state w)) cid) label elabel (sc_packet_seq chain) [] (packed_tx b)
    chain [] w) as HF.
  cbn [length] in HF. change (clamp64 (N.of_nat 0)) with (clamp64 0) in HF.
  destruct (live_fragments _ _ _ _ _ _ _ _ _ _ _ _ _) as [w1 r].
  destruct HF as [HP HF]; [unfold write_fuel, MAX_FRAGS; lia| |done..|].
  { apply checked_eq. rewrite sat_add_val. pose proof (u64_le_max (sc_packet_seq chain)). cbn [N.of_nat]. lia. }
  destruct r as [[chain' durable']|e]; [|split; [naive_solver|done]].
  destruct (HF _ _ eq_refl) as (packets & copies & bodies & HA & HLoop & HS & -> & -> & HE & HD). clear HF HP.
  destruct (ad_established _ _ _ HA c HC) as (c1 & HC1 & HP1). cbn [app] in *.
  assert (fragment_body (packed_tx b) id (set_xor_for (body_pairs (w_state w)) cid)
      (sc_packet_seq chain) (Actor_as_bytes (lr_actor route)) = Ok packets) as HFB.
  { unfold fragment_body. unfold write_fuel in HLoop. by rewrite HLoop. }
  destruct (same_store_located _ _ (ad_store _ _ _ HA) HL) as [HL1 HS1].
  pose proof (ad_rows _ _ _ HA HL) as HR1.
  assert (∀ f, Located (established_mut cid f (w_state w1)) ∧
    stored (established_mut cid f (w_state w1)) = stored (w_state w) ∧
    same_rows (w_state w) (established_mut cid f (w_state w1))) as HK.
  { intros f. pose proof (established_mut_same_store cid f (w_state w1)) as HSS.
    destruct (same_store_located _ _ HSS HL1) as [HL2 HS2]. split_and!; [done|congruence|].
    etrans; [exact HR1|by apply established_mut_rows]. }
  destruct wait.
  - unfold expect_established_mut. run. rewrite (established_at_of _ _ _ HC1). run.
    split; [done|]. intros _. split; [|apply HK]. exists b, packets, copies, bodies, c.
    eexists. cbn [w_state w_draws modify fst snd]. split_and!; try done.
    + by rewrite established_mut_eph.
    + by rewrite established_mut_writes.
    + by apply established_mut_same.
    + cbn. by rewrite HP1.
  - split; [done|]. intros _. split; [|apply HK]. exists b, packets, copies, bodies, c.
    eexists. cbn [w_state w_draws modify fst snd]. split_and!; try done.
    + by rewrite established_mut_eph.
    + by rewrite established_mut_writes.
    + by apply established_mut_same.
    + cbn. by rewrite HP1.
Qed.

(** * The steps before it *)

(** A state whose store kept every transaction and whose rows differ in chains only. *)
Record kept (cid : ConversationId) (st st' : EngineState) : Prop := mkKept {
  kp_located : Located st → Located st';
  kp_rows : Located st → same_rows st st';
  kp_stored : Located st → stored st ⊆ stored st';
  kp_established : ∀ c, established st cid = Some c →
    ∃ c', established st' cid = Some c' ∧ ec_packet c' = ec_packet c
}.

#[export] Instance kept_preorder cid : PreOrder (kept cid).
Proof.
  split; [by split; eauto|]. intros s1 s2 s3 [A1 A2 A3 A4] [B1 B2 B3 B4]. split.
  - auto.
  - intros HL. etrans; [by apply A2|auto].
  - intros HL. etrans; [by apply A3|auto].
  - intros c (c' & Hc' & E)%A4. apply B4 in Hc' as (c'' & ? & ?). exists c''. split; [done|congruence].
Qed.

Lemma kept_established_mut cid f st :
  (∀ c, ec_packet (f c) = ec_packet c) → kept cid st (established_mut cid f st).
Proof.
  intros Hf. pose proof (established_mut_same_store cid f st) as HS. split.
  - by intros [HL _]%(same_store_located _ _ HS).
  - apply established_mut_rows.
  - by intros [_ ->]%(same_store_located _ _ HS).
  - intros c HC. eexists. split; [by apply established_mut_same|done].
Qed.

Lemma merge_ratchet_kept secret cid payload w w' id b record :
  merge_tx secret cid payload w = (w', Ok (id, b, record)) → ratchet_payload payload = true →
  kept cid (w_state w) (w_state w').
Proof.
  intros HM HP. pose proof HM as HM'. apply merge_tx_ok in HM' as (_ & _ & HC & _).
  assert (Located (w_state w) → same_rows (w_state w) (w_state w') ∧ Located (w_state w') ∧
    stored (w_state w) ⊆ stored (w_state w')) as HX.
  2: { split; [naive_solver..|]. intros c Hc. exists c. by rewrite HC. }
  intros HL. revert HM. unfold merge_tx, store_new, require_tick. run.
  destruct (es_ticked (w_state w)) as [now|]; cbn [ok_or]; run; [|done]. cbv zeta.
  destruct (body (w_state w) _) as [e|] eqn:Hb.
  - case_decide as Hp; [|by run]. destruct (persist_record _ _ _); run; [|done]. by intros [= <- _ _ _].
  - run. destruct (persist_record _ _ _); run; [|done]. rewrite bind_run. unfold insert_body_m.
    cbn [w_engine w_state w_draws].
    destruct (insert_body _ _ _) as [st' [[]|e]] eqn:HI; cbn [map_err]; run; [|done].
    intros [= <- _ _ _]. cbn [w_state].
    apply insert_ratchet_rows in HI as (HR & HL' & HS); [|done..].
    split_and!; [|done|].
    + etrans; [apply log_persist_rows|exact HR].
    + rewrite HS. apply insert_subseteq. change (stored (w_state w) !! tx_id secret payload = None).
      by rewrite stored_lookup.
Qed.

Lemma mint_kept cid secret w w' r :
  mint_if_owed cid secret w = (w', Ok r) → kept cid (w_state w) (w_state w').
Proof.
  intros HM%mint_inv. destruct r as [id|].
  - destruct HM as (w1 & minted & w2 & b & record & _ & [_ HS] & HP & HM & ->).
    rewrite <-HS. etrans; [by eapply merge_ratchet_kept|]. by apply kept_established_mut.
  - destruct HM as [_ HS]. by rewrite HS.
Qed.

Lemma mint_calm cid secret w c :
  established (w_state w) cid = Some c → (mint_if_owed cid secret w).2 ≠ Err Panic.
Proof.
  intros HC. unfold mint_if_owed. run. destruct (is_sync _ cid || _); [done|].
  destruct (_ <? _)%N; [done|]. destruct (conversation_policy _ cid) as [policy|]; [|done].
  apply calm_step; [apply _|]. intros w1 [minted|] HCh; [|done].
  pose proof (evolves (R := idle) (m := choose_owed cid policy) w) as HI. rewrite HCh in HI.
  destruct HI as [_ HI]. cbn [fst] in HI.
  apply calm_step; [apply _|]. intros w2 [[id b] record] (_ & _ & HE & _)%merge_tx_ok.
  unfold expect_established_mut. run. rewrite <-HI in HC. rewrite <-HE in HC.
  by rewrite (established_at_of _ _ _ HC).
Qed.

(** At most one presence packet, on the ephemeral channels. *)
Definition probed (cid : ConversationId) (route : LiveRoute) (chain : SendChain)
    (now : UnixSeconds) (w w' : World) : Prop :=
  w' = w ∨ ∃ copy,
    seal_packet (draw (w_draws w)) (eph_mk chain)
      (presence_plain (df_online_visible (en_defaults (w_engine w))) (Actor_as_bytes (lr_actor route))
         (sc_packet_seq chain) cid now) = Ok copy ∧
    w' = mkWorld (w_engine w) (established_mut cid with_presence_sent
           (with_eph_writes (es_eph_writes (w_state w) ++
              queued_eph (lr_ephemerals route) (eph_tag route now) [copy]) (w_state w)))
           (S (w_draws w)).

Lemma probe_spec cid route chain now w c elabel :
  established (w_state w) cid = Some c → eph_label (lr_sort route) = Some elabel →
  let '(w', r) := probe_presence cid route chain now w in
  r ≠ Err Panic ∧ (r = Ok tt → probed cid route chain now w w').
Proof.
  intros HC HE. unfold probe_presence. run. rewrite HC. run. destruct (_ || _).
  { split; [done|]. intros _. by left. }
  rewrite bind_run. match goal with |- context [seal_packet_m ?k ?p w] =>
    pose proof (seal_packet_m_panic k p w) as HP; destruct (seal_packet_m k p w) as [w1 [copy|e]] eqn:HS end.
  - apply seal_packet_m_run in HS as [HS ->]. rewrite bind_run, (push_eph_run _ _ _ _ _ HE).
    unfold expect_established_mut. run.
    assert (established (with_eph_writes (es_eph_writes (w_state w) ++
      queued_eph (lr_ephemerals route) (eph_tag route now) [copy]) (w_state w)) cid = Some c) as HC' by done.
    rewrite (established_at_of _ _ _ HC'). run. split; [done|]. intros _. right. by exists copy.
  - cbn in HP. split; [naive_solver|done].
Qed.

Lemma probed_kept cid route chain now w w' :
  probed cid route chain now w w' → kept cid (w_state w) (w_state w').
Proof.
  intros [->|(copy & _ & ->)]; [done|]. cbn [w_state].
  transitivity (with_eph_writes (es_eph_writes (w_state w) ++
    queued_eph (lr_ephemerals route) (eph_tag route now) [copy]) (w_state w)).
  - by split; eauto.
  - by apply kept_established_mut.
Qed.

Lemma sending_chain_kept st st' cid secret route c c' :
  established st cid = Some c → established st' cid = Some c' → ec_packet c' = ec_packet c →
  sending_chain st' cid secret route = sending_chain st cid secret route.
Proof. intros HC HC' HE. unfold sending_chain. rewrite HC, HC'. cbn. by rewrite HE. Qed.

(** * Posting a transaction *)

Lemma mint_due_restarted st cid rt :
  ratchet_of st cid = Some rt → rt_since rt = clamp64 0 → mint_due st cid = false.
Proof. intros HR HS. unfold mint_due. rewrite HR. cbn. rewrite HS, andb_false_r. done. Qed.

Lemma ratchet_minted_since id effect r : rt_since (ratchet_minted id effect r) = clamp64 0.
Proof. by destruct effect. Qed.

Lemma live_wait_ratchet route p : ratchet_payload p = true → live_wait route p = false.
Proof. intros HP. unfold live_wait. by destruct p, (lr_sort route). Qed.

Lemma live_wait_eph route p : live_wait route p = true → has_eph route = true.
Proof. unfold live_wait, has_eph. by intros [_ ?]%andb_true_iff. Qed.

Lemma post_live_at_S n cid secret id p w :
  post_live_at (S n) cid secret id p w =
    (st ← get_state;
      match live_route st cid with
      | None => mret tt
      | Some route =>
          now ← expect (es_ticked st);
          chain ← lift (sending_chain st cid secret route);
          _ ← (if live_wait route p then probe_presence cid route chain now else mret tt);
          owed ← mint_if_owed cid secret;
          _ ← (match owed with
               | None => mret tt
               | Some owed =>
                   st ← get_state;
                   b ← expect (body st owed);
                   post_live_at n cid secret owed (db_payload b)
               end);
          post_fragments cid route now (live_wait route p) chain id
      end) w.
Proof. done. Qed.

(** Posting what the ratchet just made owes nothing further. *)
Lemma post_live_at_owed n cid secret id p w :
  mint_due (w_state w) cid = false → ratchet_payload p = true →
  post_live_at (S n) cid secret id p w =
    match live_route (w_state w) cid with
    | None => (w, Ok tt)
    | Some route =>
        (now ← expect (es_ticked (w_state w));
         chain ← lift (sending_chain (w_state w) cid secret route);
         post_fragments cid route now false chain id) w
    end.
Proof.
  intros HD HP. cbn [post_live_at]. run. destruct (live_route _ cid) as [route|]; [|done].
  destruct (es_ticked _) as [now|]; [|done]. run. rewrite !lift_bind.
  destruct (sending_chain _ _ _ _) as [chain|]; [|done]. rewrite (live_wait_ratchet _ _ HP). run.
  rewrite bind_run, mint_not_due by done. by run.
Qed.

(** C25. Two levels of [post_live] are enough: the inner call posts a ratchet transaction, and
    minting it restarted the count that makes one due, so the inner call mints nothing.
    With any deeper recursion allowed the result is the same. *)
Theorem post_live_enough n cid secret id p w :
  Located (w_state w) →
  post_live_at (S (S n)) cid secret id p w = post_live cid secret id p w.
Proof.
  intros HL. unfold post_live.
  assert (∀ owed p w, mint_due (w_state w) cid = false → ratchet_payload p = true →
    post_live_at (S n) cid secret owed p w = post_live_at 1 cid secret owed p w) as HI
    by (intros; by rewrite !post_live_at_owed).
  revert HI. generalize (S n), 1%nat. intros k1 k2 HI. cbn [post_live_at]. run.
  destruct (live_route _ cid) as [route|] eqn:HR; [|done].
  destruct (es_ticked _) as [now|]; [|done]. run. rewrite !lift_bind.
  destruct (sending_chain _ _ _ _) as [chain|]; [|done]. rewrite !bind_run.
  assert (∀ w0 u, (if live_wait route p then probe_presence cid route chain now else mret tt) w = (w0, Ok u) →
    Located (w_state w0)) as HL0.
  { intros w0 []. destruct (live_wait route p); [|by intros [= <-]].
    unfold probe_presence. run. destruct (established _ cid); [|done]. run.
    destruct (_ || _); [by intros [= <-]|]. rewrite bind_run.
    destruct (seal_packet_m _ _ w) as [w1 [copy|]] eqn:HS; [|done]. apply seal_packet_m_run in HS as [_ ->].
    rewrite bind_run. unfold push_eph at 1, expect_established_mut. destruct (eph_label _); [|done]. run.
    unfold push_eph_writes, modify at 1. run. destruct (established_at _ cid); [|done]. run. intros [= <-]. cbn [w_state].
    apply located_established_mut. exact HL. }
  destruct ((if live_wait route p then probe_presence cid route chain now else mret tt) w)
    as [w0 [[]|e]]; [|done].
  specialize (HL0 _ _ eq_refl). rewrite !bind_run.
  destruct (mint_if_owed cid secret w0) as [w1 [[owed|]|e]] eqn:HM; [|done..].
  apply mint_stored in HM as (rt & effect & payload & b & HL1 & _ & HRt & HP & _ & Hb & <- & _); [|done].
  run. rewrite <-stored_lookup, Hb by done. run. rewrite !bind_run.
  pose proof (mint_due_restarted _ _ _ HRt (ratchet_minted_since owed effect rt)) as HD.
  by rewrite HI.
Qed.


End Posting.

(** * The fallback *)

Section Fallback.
Context `{Suite, Rng}.

Definition overdue (now : UnixSeconds) (c : EstablishedChains) : list LivePending :=
  filter (λ p, pending_due now p = true) (pc_live_pending (ec_packet c)).

(** The durable copies the fallback posts for a conversation, and the row it leaves. *)
Definition fallback_posts (now : UnixSeconds) (st : EngineState) (cid : ConversationId) :
    list DurableWrite :=
  match established st cid, live_route st cid with
  | Some c, Some route =>
      queued (lr_persistents route) (dur_tag route now) (concat (map lp_bodies (overdue now c)))
  | _, _ => []
  end.

Definition fallback_row (now : UnixSeconds) (st : EngineState) (cid : ConversationId)
    (c : EstablishedChains) : EstablishedChains :=
  match live_route st cid with Some _ => live_flushed now (overdue now c) c | None => c end.

Lemma live_flushed_nil now c : overdue now c = [] → live_flushed now [] c = c.
Proof.
  intros HO. unfold live_flushed. cbn [last]. destruct c as [[] ? ? ? ? ?]. unfold with_packet, with_live_pending.
  cbn in *. do 2 f_equal. unfold overdue in HO. cbn in HO.
  match goal with |- filter _ ?l = ?l => induction l as [|p l IH] end; [done|].
  destruct (pending_due now p) eqn:E.
  - by rewrite filter_cons_True in HO.
  - rewrite filter_cons_False in HO by by rewrite E. rewrite filter_cons_True by done. f_equal. by apply IH.
Qed.

Lemma fallback_posts_ext now st st' cid :
  same_rows st st' → established st' cid = established st cid →
  fallback_posts now st' cid = fallback_posts now st cid.
Proof. intros HR HE. unfold fallback_posts. by rewrite HE, (live_route_rows _ _ _ HR). Qed.

Lemma flush_live_row_spec now cid en st n c :
  Located st → established st cid = Some c →
  ∃ st', flush_live_row now cid (mkWorld en st n) = (mkWorld en st' n, Ok tt) ∧
    Located st' ∧ same_rows st st' ∧
    es_writes st' = es_writes st ++ fallback_posts now st cid ∧
    es_eph_writes st' = es_eph_writes st ∧
    ∀ cid', established st' cid' =
      if decide (cid' = cid) then Some (fallback_row now st cid c) else established st cid'.
Proof.
  intros HL HC. unfold flush_live_row, fallback_posts, fallback_row. run. rewrite HC. run.
  fold (overdue now c). cbv zeta. case_bool_decide as HO.
  { exists st. split_and!; try done.
    - rewrite HO. unfold queued. by destruct (live_route st cid); rewrite ?app_nil_r.
    - intros cid'. case_decide; [subst|done]. rewrite HC, HO. by destruct (live_route st cid); rewrite ?live_flushed_nil. }
  destruct (live_route st cid) as [route|] eqn:HR.
  2: { exists st. rewrite app_nil_r. split_and!; try done. intros cid'. by case_decide; subst. }
  pose proof (live_route_labels _ _ _ HR) as (label & elabel & HPL & _). rewrite HPL. run.
  rewrite bind_run, push_all_run. cbn [w_state w_engine w_draws]. unfold expect_established_mut. run.
  set (st1 := with_writes _ st). assert (established st1 cid = Some c) as HC1 by exact HC.
  rewrite (established_at_of _ _ _ HC1). run. eexists. split; [done|].
  assert (Located st1) as HL1 by exact HL. split_and!.
  - by apply located_established_mut.
  - transitivity st1; [by split|by apply established_mut_rows].
  - rewrite established_mut_writes. unfold st1, dur_tag, queued. cbn. by rewrite HPL.
  - by rewrite established_mut_eph.
  - intros cid'. case_decide as HD; [subst|by rewrite established_mut_other].
    by rewrite (established_mut_same _ _ _ _ HC1).
Qed.

Lemma flush_live_rows_spec now cids en st n :
  Located st → NoDup cids → (∀ cid, cid ∈ cids → is_Some (established st cid)) →
  ∃ st', for_each (flush_live_row now) cids (mkWorld en st n) = (mkWorld en st' n, Ok tt) ∧
    Located st' ∧ same_rows st st' ∧
    es_writes st' = es_writes st ++ flat_map (fallback_posts now st) cids ∧
    es_eph_writes st' = es_eph_writes st ∧
    ∀ cid, established st' cid =
      if decide (cid ∈ cids) then fallback_row now st cid <$> established st cid else established st cid.
Proof.
  intros HL HN. revert st HL. induction HN as [|cid cids Hx HN IH]; intros st HL HE; cbn [for_each flat_map].
  { exists st. rewrite app_nil_r. by split_and!. }
  destruct (HE cid) as [c HC]; [by left|].
  destruct (flush_live_row_spec now cid en st n c HL HC) as (st1 & HR1 & HL1 & HS1 & HW1 & HE1 & HC1).
  rewrite bind_run, HR1. cbn [mret].
  destruct (IH st1 HL1) as (st2 & HR2 & HL2 & HS2 & HW2 & HE2 & HC2).
  { intros cid' Hin. rewrite HC1. case_decide; [eauto|]. apply HE. by right. }
  exists st2. split_and!; [done|done|by etrans| |congruence|].
  - rewrite HW2, HW1, <-app_assoc. do 2 f_equal. rewrite !flat_map_concat_map. f_equal.
    apply map_ext_in. intros cid' Hin%list_elem_of_In. apply fallback_posts_ext; [done|].
    rewrite HC1. by rewrite decide_False by (by intros ->).
  - intros cid'. rewrite HC2, HC1. destruct (decide (cid' = cid)) as [->|Hne].
    + rewrite (decide_False (P := cid ∈ cids)) by done. rewrite decide_True by by left. by rewrite HC.
    + destruct (decide (cid' ∈ cids)) as [Hin|Hin].
      * rewrite decide_True by by right. unfold fallback_row. by rewrite (live_route_rows _ _ _ HS1).
      * rewrite decide_False by (by rewrite elem_of_cons; intros [|]). done.
Qed.


End Fallback.

(** * The theorems on the sample device *)

Definition sample_text : TxPayload := PText (mkTxText (lit "hi") None None).

(** Posting [65] while a ratchet step is due. *)
Definition owing_post : World * result fault unit :=
  post_live (id_of x03) (id_of x32) (id_of x65) sample_text (mkWorld chat_engine owing_state 0).

Lemma post_live_enough_witness :
  is_ok owing_post.2 = true ∧
  post_live_at 7 (id_of x03) (id_of x32) (id_of x65) sample_text (mkWorld chat_engine owing_state 0) = owing_post.
Proof.
  split; [by vm_compute|].
  apply (post_live_enough 5 (id_of x03) (id_of x32) (id_of x65) sample_text (mkWorld chat_engine owing_state 0)).
  exact located_owing.
Defined.

Lemma is_ok_unit (r : result fault unit) : is_ok r = true → r = Ok tt.
Proof. by destruct r as [[]|]. Qed.

(** The fallback clock, the row, the body and the route the theorem asks for. *)
Lemma owing_inputs :
  ∃ c b now route, established owing_state (id_of x03) = Some c ∧ stored owing_state !! id_of x65 = Some b ∧
    es_ticked owing_state = Some now ∧ live_route owing_state (id_of x03) = Some route ∧
    live_wait route sample_text = true.
Proof.
  assert (from_option (λ _, true) false (established owing_state (id_of x03)) = true) as [c Hc]%from_option_true
    by by vm_compute.
  assert (from_option (λ _, true) false (stored owing_state !! id_of x65) = true) as [b Hb]%from_option_true
    by by vm_compute.
  assert (from_option (λ _, true) false (es_ticked owing_state) = true) as [now Hn]%from_option_true
    by by vm_compute.
  assert (from_option (λ r, live_wait r sample_text) false (live_route owing_state (id_of x03)) = true) as HW
    by by vm_compute.
  exists c, b, now. revert HW. generalize (live_route owing_state (id_of x03)). intros [route|] HW; [|discriminate HW].
  exists route. repeat split; assumption.
Qed.


(** Two messages wait: [a] has for ten seconds, [b] for one. *)
Definition waiting (sent : N) (body : byte) (to : SendChain) : LivePending :=
  mkLivePending (id_of body) (clamp64 sent) [[body]] to (Actor_Signing (SigningPublicKey_from_bytes (replicate 32 x41)))
    u8_zero u8_one.

Definition sealed_at (seq : N) : SendChain := mkSendChain (id_of x71) (id_of x72) (clamp64 0) (clamp64 seq).

Definition waiting_state : EngineState :=
  established_mut (id_of x03) (push_pending (waiting 7199 x0b (sealed_at 2)))
    (established_mut (id_of x03) (push_pending (waiting 7190 x0a (sealed_at 1))) chat_state).

Lemma established_all (st : EngineState) :
  forallb (λ cid, from_option (λ _, true) false (established st cid)) (established_cids st) = true →
  ∀ cid, cid ∈ established_cids st → is_Some (established st cid).
Proof.
  intros HF cid Hin. rewrite forallb_forall in HF. apply from_option_true, HF. by apply list_elem_of_In.
Qed.

Lemma waiting_established cid : cid ∈ established_cids waiting_state → is_Some (established waiting_state cid).
Proof. apply established_all. by vm_compute. Qed.

