(* ===== verification/Handshake.v ===== *)
(** Handshakes: minting on a conversation, the introductions of both sides, the gates an
    ingested transaction passes, and the rows a tag belongs to ([engine/handshake.rs]; the
    confirmation digest is in [Fingerprint.v], opening and merging in [Ingest.v]). *)

From stdpp Require Import base tactics list numbers option strings countable gmap.
From Stdlib Require Import Strings.Byte.
From S2P Require Import Prelude Text Ids Order Channel Defaults Payload Json Ports Codec.
From S2P Require Import Chain RowLog Party HealRange Bins State StateLaws Helpers Engine Ratchet.
From S2P Require Import Vault Directory Chat Heal Live Fingerprint.

#[export] Instance PhaseKind_eq_dec : EqDecision PhaseKind.
Proof. solve_decision. Defined.

(** * List bins *)

(** [lo..=hi]. *)
Definition bins_between (lo hi : TimeBin) : list TimeBin :=
  map (λ i, clamp64 (cval lo + N.of_nat i)) (seq 0 (N.to_nat (cval hi + 1 - cval lo))).

(** The bins that are listed, in the order of the [BTreeSet]. *)
Definition bin_set (bins : list TimeBin) : list TimeBin :=
  dedup (sort_by (λ a b, N.compare (cval a) (cval b)) bins).

Inductive HitChannel : Set := HitDurable (d : DurableChannel) | HitEphemeral (e : EphemeralChannel).

Record HandshakeHit : Set := mkHandshakeHit {
  hit_cid : ConversationId; hit_secret : Secret; hit_sort : ConversationSort;
  hit_bin : TimeBin; hit_tag_key : TagKey
}.

Definition hit_on_channel (st : EngineState) (channel : HitChannel) (row : HandshakeEntry) : bool :=
  match channel with
  | HitDurable d =>
      bool_decide (d ∈ tk_persistents (on_party (λ k, party_ticket) (hse_party row)))
  | HitEphemeral e =>
      from_option (λ n, bool_decide (e ∈ n_ephemerals n)) false (notice_for st (hse_cid row))
  end.

(** [party_mut(cid).invitee_mut()] and [.inviter_mut()], with the change done through them. *)
Definition invitee_do (f : InviteePhase → bool * InviteePhase) (k : handshake) (p : Party k) :
    Party k := from_option snd p (on_invitee f p).
Definition inviter_do (f : InviterPhase → bool * InviterPhase) (k : handshake) (p : Party k) :
    Party k := from_option snd p (on_inviter f p).

Definition kind_at (st : EngineState) (cid : ConversationId) : option PhaseKind :=
  on_party (λ k, kind) <$> party st cid.

(** The name, picture and keys an introduction carries. *)
Definition CallingParts : Type := DisplayName * option ProfilePic * bytes * bytes.

Section Handshake.
Context `{Suite, Rng}.

Definition handshake_hits (st : EngineState) (channel : HitChannel) (tag : Tag)
    (now : UnixSeconds) : list HandshakeHit :=
  let w := time_bin now in
  flat_map (λ row,
      if hit_on_channel st channel row then
        let t := on_party (λ k, party_ticket) (hse_party row) in
        let tag_key := handshake_tag_key (as_bytes (tk_secret t)) in
        let progress :=
          match channel with
          | HitDurable d => es_bin_progress st !! progress_key d tag_key
          | HitEphemeral _ => None
          end in
        let start := catch_up_start progress (on_party (λ k, party_list_from) (hse_party row)) in
        omap (λ bin,
            if branded_eq (invite_tag (as_bytes (tk_secret t)) bin) tag
            then Some (mkHandshakeHit (hse_cid row) (tk_secret t) (hse_sort row) bin tag_key)
            else None)
          (bin_set (bins_between start (sat_add w 1) ++ listen_bins w))
      else []) (handshake_entries st).

(** * Acknowledged phases *)

(** Some write to one of the invite tags since the invite is still queued. *)
Definition invite_writes_pending (st : EngineState) (p : PartyRef) : bool :=
  let t := on_party (λ k, party_ticket) p in
  let start := on_party (λ k, party_list_from) p in
  let end_ := sat_add (default start (time_bin <$> es_ticked st)) 1 in
  let stop := if (cval start <=? cval end_)%N then end_ else start in
  let tags := map (invite_tag (as_bytes (tk_secret t))) (bins_between start stop) in
  existsb (λ w, bool_decide (dw_channel w ∈ tk_persistents t) && existsb (branded_eq (dw_tag w)) tags)
    (es_writes st).

Definition advance_ack_phases : M unit :=
  st ← get_state;
  for_each (λ cid,
      st ← get_state;
      p ← expect (party st cid);
      if invite_writes_pending st p then mret tt else modify (state_ack_posted cid))
    (map (λ row, row.1.1) (handshake_rows st)).

(** * Minting *)

Definition mint_on (ids : ConversationRef) (payload : TxPayload) : M (list bytes) :=
  st ← get_state;
  let cid := cr_conversation_id ids in
  _ ← lift (require_ids st ids);
  secret ← lift (conv_secret st cid);
  persist ← mutate_on secret cid [payload];
  _ ← deliver_live cid secret [payload];
  mret persist.

Definition with_dv_keys (keys : option DeviceKeys) (d : Device) : Device :=
  mkDevice (dv_name d) keys (dv_conversations d) (dv_dek_ct d) (dv_kicked d).

(** [self.suite.kem().generate(policy, &KemSeed::from_pair(..))]. *)
Definition generate_kem (policy : Policy) : M KeyPair :=
  seed ← random_seed; lift (ok_or MalformedPayload (kem_generate policy seed)).
Definition generate_sign (policy : Policy) : M SigningKeyPair :=
  seed ← random_seed; lift (ok_or MalformedPayload (sign_generate policy seed)).

(** The keys of a device that has none. *)
Definition new_device_keys (policy : Policy) : M unit :=
  rnd ← random32;
  enc ← generate_kem policy;
  sign ← generate_sign policy;
  modify (λ st, with_device
    (with_dv_keys (Some (mkDeviceKeys (from_random32 rnd) enc sign)) (es_device st)) st).

Definition ensure_device_keys (policy : Policy) : M unit :=
  st ← get_state;
  match dv_keys (es_device st) with None => new_device_keys policy | Some _ => mret tt end.

Definition local_calling (cid : ConversationId) (policy : Policy) : M (option CallingParts) :=
  st ← get_state;
  if is_sync st cid then
    match dv_name (es_device st) with
    | None => mret None
    | Some name =>
        _ ← ensure_device_keys policy;
        st ← get_state;
        keys ← expect (dv_keys (es_device st));
        mret (Some (name, None, kp_public (dk_enc keys), skp_public (dk_sign keys)))
    end
  else
    match ('(uid, iid) ← owner st cid;
           name ← display_name st iid;
           keys ← identity_keys st uid iid; Some (iid, name, keys)) with
    | None => mret None
    | Some (iid, name, (id_policy, enc, sign)) =>
        if decide (id_policy = policy) then mret (Some (name, profile_pic st iid, enc, sign))
        else _ ← modify (state_fail cid (PolicyNotAccepted policy)); mret None
    end.

(** The device id a sync introduction names. *)
Definition introduced_device (st : EngineState) : result EngineError DeviceId :=
  ok_or WrongPhase (dk_id <$> dv_keys (es_device st)).

(** Store an introduction and post it. *)
Definition post_intro (cid : ConversationId) (payload : TxPayload) : M (list bytes) :=
  st ← get_state;
  secret ← lift (conv_secret st cid);
  '(tx_id, _, rec) ← merge_tx secret cid payload;
  _ ← post_handshake_packets cid secret tx_id;
  mret [rec].

Definition invitee_payload (cid : ConversationId) (intro : TxInviteeIntro) : M TxPayload :=
  st ← get_state;
  if is_sync st cid
  then device_id ← lift (introduced_device st);
       mret (PSyncInviteeIntro (mkSyncInviteeIntro intro device_id))
  else mret (PInviteeIntro intro).

Definition inviter_payload (cid : ConversationId) (intro : TxInviterIntro) : M TxPayload :=
  st ← get_state;
  if is_sync st cid
  then device_id ← lift (introduced_device st);
       mret (PSyncInviterIntro (mkSyncInviterIntro intro device_id))
  else mret (PInviterIntro intro).

(** The invitee's introduction to the notice [notice]. *)
Definition mint_invitee_intro (cid : ConversationId) (notice : TxNotice) : M (list bytes) :=
  en ← get_engine;
  calling ← local_calling cid (n_policy notice);
  match calling with
  | None => mret []
  | Some (name, pic, enc, sign) =>
      intake ← generate_kem (n_policy notice);
      seed ← random_seed;
      '(shared, seed_ct) ← lift (ok_or MalformedPayload
          (kem_wrap (n_policy notice) (enc_bytes (n_intake_pk notice)) seed));
      send ← random32;
      eph ← random32;
      let intro := mkTxInviteeIntro name pic (from_random32 send) (from_random32 eph)
                     (EncryptionPublicKey_from_bytes enc) (SigningPublicKey_from_bytes sign)
                     (EncryptionPublicKey_from_bytes (kp_public intake)) seed_ct
                     (on_wire_prefs en) in
      payload ← invitee_payload cid intro;
      _ ← modify (party_mut cid (invitee_do (Invitee.mint_intro intake (take_shared32 shared))));
      post_intro cid payload
  end.

Definition try_mint_invitee_intro (cid : ConversationId) : M (list bytes) :=
  st ← get_state;
  if decide (kind_at st cid = Some K_InviteReceived) then
    match invitee_intro_for st cid, notice_for st cid with
    | None, Some notice => mint_invitee_intro cid notice
    | _, _ => mret []
    end
  else mret [].

Definition fail_intro (cid : ConversationId) : M (list bytes) :=
  _ ← modify (state_fail cid IntroVerifyFailed); mret [].

(** The inviter's introduction in answer to [invitee]. *)
Definition mint_inviter_intro (cid : ConversationId) (notice : TxNotice)
    (invitee : TxInviteeIntro) : M (list bytes) :=
  en ← get_engine;
  calling ← local_calling cid (n_policy notice);
  match calling with
  | None => mret []
  | Some (name, pic, enc, sign) =>
      seed ← random_seed;
      match kem_wrap (n_policy notice) (enc_bytes (ie_intake_pk invitee)) seed with
      | None => fail_intro cid
      | Some (shared, seed_ct) =>
          st ← get_state;
          sk ← expect (intake_secret st cid);
          match unwrap_shared (n_policy notice) sk (ie_seed_ct invitee) with
          | None => fail_intro cid
          | Some shared_inviter =>
              _ ← modify (party_mut cid
                    (inviter_do (Inviter.mint_intro shared_inviter (take_shared32 shared))));
              send ← random32;
              eph ← random32;
              let intro := mkTxInviterIntro name pic (from_random32 send) (from_random32 eph)
                             (EncryptionPublicKey_from_bytes enc)
                             (SigningPublicKey_from_bytes sign) seed_ct (on_wire_prefs en) in
              payload ← inviter_payload cid intro;
              post_intro cid payload
          end
      end
  end.

Definition try_mint_inviter_intro (cid : ConversationId) : M (list bytes) :=
  st ← get_state;
  if decide (kind_at st cid = Some K_NoticePinned) then
    match inviter_intro_for st cid, invitee_intro_for st cid, notice_for st cid with
    | None, Some invitee, Some notice => mint_inviter_intro cid notice invitee
    | _, _, _ => mret []
    end
  else mret [].

Definition mint_pending_intros : M (list bytes) :=
  st ← get_state;
  persist ← map_m (λ cid,
      a ← try_mint_invitee_intro cid;
      b ← try_mint_inviter_intro cid;
      mret (a ++ b))
    (map (λ row, row.1.1) (handshake_rows st));
  mret (concat persist).

(** * Gates

    [Some extra] stops the ingestion with [extra] as its result; [None] lets the
    transaction be stored. *)

Definition gate_fail (cid : ConversationId) (reason : HandshakeFailure) :
    M (option (list bytes)) := _ ← modify (state_fail cid reason); mret (Some []).

Definition gate_notice (cid : ConversationId) (n : TxNotice) : M (option (list bytes)) :=
  st ← get_state;
  if from_option (λ existing, negb (bool_decide (existing = n))) false (notice_for st cid)
  then gate_fail cid NoticeConflict
  else
    let refused :=
      match '(uid, iid) ← owner st cid; identity_policy_of st uid iid with
      | Some policy => negb (bool_decide (policy = n_policy n))
      | None => false
      end in
    _ ← modify (if refused then state_fail cid (PolicyNotAccepted (n_policy n))
                else party_mut cid (invitee_do (Invitee.receive_notice (n_policy n))));
    mret None.

Definition gate_invitee_intro (cid : ConversationId) (i : TxInviteeIntro) :
    M (option (list bytes)) :=
  st ← get_state;
  match invitee_intro_for st cid, notice_for st cid with
  | Some _, _ => gate_fail cid DuplicateIntro
  | None, None => gate_fail cid IntroVerifyFailed
  | None, Some notice =>
      if negb (intro_keys_ok (n_policy notice) (enc_bytes (ie_encryption_pk i))
                 (sign_bytes (ie_signing_pk i)) (Some (enc_bytes (ie_intake_pk i)))
                 (ie_seed_ct i))
      then gate_fail cid IntroVerifyFailed
      else if state_is_inviter st cid then
        match intake_secret st cid with
        | Some sk =>
            match unwrap_shared (n_policy notice) sk (ie_seed_ct i) with
            | Some _ => mret None
            | None => gate_fail cid IntroVerifyFailed
            end
        | None => mret None
        end
      else mret None
  end.

(** [party_mut(cid).and_then(|p| p.invitee_mut().map(|inv| inv.confirm_peer(s)))]. *)
Definition confirm_peer_at (cid : ConversationId) (s : Secret) : M bool :=
  st ← get_state;
  let accepted :=
    match party st cid with
    | Some p => on_party (λ k p, from_option fst false (on_invitee (Invitee.confirm_peer s) p)) p
    | None => false
    end in
  _ ← modify (party_mut cid (invitee_do (Invitee.confirm_peer s)));
  mret accepted.

Definition gate_inviter_intro (cid : ConversationId) (i : TxInviterIntro) :
    M (option (list bytes)) :=
  st ← get_state;
  match inviter_intro_for st cid, notice_for st cid with
  | Some _, _ => gate_fail cid DuplicateIntro
  | None, None => gate_fail cid IntroVerifyFailed
  | None, Some notice =>
      if negb (intro_keys_ok (n_policy notice) (enc_bytes (ii_encryption_pk i))
                 (sign_bytes (ii_signing_pk i)) None (ii_seed_ct i))
      then gate_fail cid IntroVerifyFailed
      else if state_is_inviter st cid then mret None
      else
        match sk ← intake_secret st cid; unwrap_shared (n_policy notice) sk (ii_seed_ct i) with
        | None => gate_fail cid IntroVerifyFailed
        | Some s =>
            accepted ← confirm_peer_at cid s;
            if accepted : bool then mret None else gate_fail cid IntroVerifyFailed
        end
  end.

Definition handshake_ingest_gate (cid : ConversationId) (payload : TxPayload) :
    M (option (list bytes)) :=
  match payload with
  | PNotice n => gate_notice cid n
  | PInviteeIntro i => gate_invitee_intro cid i
  | PSyncInviteeIntro s => gate_invitee_intro cid (se_intro s)
  | PInviterIntro i => gate_inviter_intro cid i
  | PSyncInviterIntro s => gate_inviter_intro cid (si_intro s)
  | _ => mret None
  end.

(** * The listed bin *)

Definition bin_with_completed (completed : gset TimeBin) (p : BinProgress) : BinProgress :=
  mkBinProgress (bp_channel p) (bp_tag_key p) (bp_watermark p) completed.

Definition complete_list_bin (channel : DurableChannel) (hit : HandshakeHit)
    (st : EngineState) : EngineState :=
  let list_from := default (hit_bin hit) (list_from st (hit_cid hit)) in
  let key := progress_key channel (hit_tag_key hit) in
  let progress := default (mkBinProgress channel (hit_tag_key hit) None ∅)
                    (es_bin_progress st !! key) in
  let progress :=
    if from_option (λ w, (cval (hit_bin hit) <=? cval w)%N) false (bp_watermark progress)
    then progress
    else advance_progress
           (bin_with_completed ({[hit_bin hit]} ∪ bp_completed progress) progress) list_from in
  with_bin_progress (<[key := progress]> (es_bin_progress st)) st.

End Handshake.
