(* ===== verification/Identity.v ===== *)
(** Users, identities, names, pictures and this device, with the engine transactions
    that record them and their fan-out to linked devices ([engine/identity.rs], [mutate] of
    [engine/vault.rs]; [set_conversation_prefs] is in [Session.v]).

    An operation that takes the state by value is a computation whose changes its caller
    sees only when it ends with a value ([mutation] in [Engine.v]).  Its result is the
    persist records; the operations of this file wake nobody. *)

From stdpp Require Import base tactics list numbers option strings countable gmap.
From Stdlib Require Import Strings.Byte.
From S2P Require Import Prelude Text Ids Order Channel Defaults Payload Json Ports Codec.
From S2P Require Import Chain RowLog Party HealRange Bins State StateLaws Helpers Engine Ratchet.
From S2P Require Import Vault Directory Chat Heal Fingerprint Live Handshake.

(** Assignments. *)
Definition with_id_name (name : option DisplayName) (i : Identity) : Identity :=
  mkIdentity name (id_pic i) (id_conversations i).
Definition with_id_pic (pic : option ProfilePic) (i : Identity) : Identity :=
  mkIdentity (id_name i) pic (id_conversations i).
Definition with_dv_name (name : option DisplayName) (d : Device) : Device :=
  mkDevice name (dv_keys d) (dv_conversations d) (dv_dek_ct d) (dv_kicked d).
Definition with_dv_dek_ct (ct : option bytes) (d : Device) : Device :=
  mkDevice (dv_name d) (dv_keys d) (dv_conversations d) ct (dv_kicked d).
Definition with_dv_kicked (kicked : list DeviceId) (d : Device) : Device :=
  mkDevice (dv_name d) (dv_keys d) (dv_conversations d) (dv_dek_ct d) kicked.
Definition set_device_field (f : Device → Device) (st : EngineState) : EngineState :=
  with_device (f (es_device st)) st.

Definition has_payload (f : TxPayload → bool) (st : EngineState) : bool :=
  existsb (λ b, f (db_payload b)) (bodies st).

Definition is_engine_init (p : TxPayload) : bool := match p with PEngineInit => true | _ => false end.

(** [EngineInit], unless it is stored. *)
Definition init_first (st : EngineState) (payload : TxPayload) : list TxPayload :=
  (if has_payload is_engine_init st then [] else [PEngineInit]) ++ [payload].

(** Running on a clone of the state: a refusal hands back the state as it was. *)
Definition on_clone {A} (m : M A) : M (result EngineError A) := λ w,
  match m w with
  | (w', Ok a) => (w', Ok (Ok a))
  | (w', Err (Refuse e)) => (mkWorld (w_engine w') (w_state w) (w_draws w'), Ok (Err e))
  | (w', Err Panic) => (w', Err Panic)
  end.

(** * Kicked devices *)

(** What a kick leaves of a conversation of a device that stays: a handshake as it was, a
    link to the kicked device nothing, another link under the next secret. *)
Definition forget_chains (c : EstablishedChains) : EstablishedChains :=
  with_packet (λ p, with_live_pending [] (with_skipped ∅ (with_recv ∅ (with_send ∅ p)))) c.

Section Identity.
Context `{Suite, Rng}.

Definition sync_rekey (device_id : DeviceId) (secret : Secret) : Secret :=
  from_bytes (as_bytes (expand (from_bytes (as_bytes secret))
    (blit "chuchotez/1/sync-rekey" ++ cval (as_bytes device_id)))).

Definition after_kick (device_id : DeviceId) (kind : DeviceConversation) :
    option DeviceConversation :=
  match kind with
  | RowSynchronization secret parent peer log chains =>
      if branded_eq peer device_id then None
      else Some (RowSynchronization (sync_rekey device_id secret) parent peer log
                   (forget_chains chains))
  | RowSyncHandshake _ _ _ => Some kind
  end.

Definition is_handshake_row (kind : DeviceConversation) : bool :=
  match kind with RowSyncHandshake _ _ _ => true | _ => false end.

Definition is_this_device (st : EngineState) (device_id : DeviceId) : bool :=
  from_option (λ keys, branded_eq (dk_id keys) device_id) false (dv_keys (es_device st)).

Definition note_device_kick (device_id : DeviceId) (st : EngineState) : EngineState :=
  let d := es_device st in
  if existsb (branded_eq device_id) (dv_kicked d) then st
  else
    let d := with_dv_kicked (dv_kicked d ++ [device_id]) d in
    with_device
      (with_dv_conversations
         (if is_this_device st device_id
          then filter (λ p, is_handshake_row p.2 = true) (dv_conversations d)
          else omap (after_kick device_id) (dv_conversations d)) d) st.

(** The device a sync fragment names is the peer. *)
Definition note_sync_peer (cid : ConversationId) (actor : bytes) (st : EngineState) : EngineState :=
  match try_into 32 actor with
  | None => st
  | Some bs =>
      let id : DeviceId := from_bytes bs in
      if is_this_device st id then st
      else alter_device_row cid
             (λ kind, match kind with
                      | RowSynchronization secret parent _ log chains =>
                          RowSynchronization secret parent id log chains
                      | _ => kind
                      end) st
  end.

(** * Engine transactions *)

Definition sync_cids (st : EngineState) : list ConversationId :=
  omap (λ '(cid, kind),
      match kind with RowSynchronization _ _ _ _ _ => Some cid | _ => None end)
    (entries (dv_conversations (es_device st))).

Definition fan_engine_to_sync (payloads : list TxPayload) : M unit :=
  en ← get_engine;
  secret ← lift (engine_secret en);
  st ← get_state;
  let syncs := sync_cids st in
  for_each (λ payload,
      let id := tx_id secret payload in
      for_each (λ cid,
          st ← get_state;
          conv ← expect (established_secret st cid);
          post_live cid conv id payload) syncs) payloads.

(** [mutate]: [fan] when the caller hands over its generator. *)
Definition mutate (fan : bool) (conv_secret : Secret) (payloads : list TxPayload) :
    M (list bytes) :=
  en ← get_engine;
  cid ← lift (engine_conversation_id en);
  persist ← mutate_on conv_secret cid payloads;
  _ ← (if fan then fan_engine_to_sync payloads else mret tt);
  mret persist.

(** [self.mutate(state, .., &self.engine_secret()?, payloads)]. *)
Definition mutate_engine (fan : bool) (payloads : list TxPayload) : M (list bytes) :=
  en ← get_engine;
  secret ← lift (engine_secret en);
  mutate fan secret payloads.

Definition set_defaults (defaults : Defaults) : M (list bytes) :=
  st ← get_state; mutate_engine false (init_first st (PEngineSetDefaults defaults)).

Definition create_user : M (list bytes * UserId) :=
  en ← get_engine;
  secret ← lift (engine_secret en);
  rnd ← random32;
  st ← get_state;
  let user_id : UserId := from_random32 rnd in
  persist ← mutate true secret (init_first st (PEngineCreateUser user_id));
  _ ← modify (ensure_user user_id);
  mret (persist, user_id).

Definition creates_user (user_id : UserId) (p : TxPayload) : bool :=
  match p with PEngineCreateUser u => branded_eq u user_id | _ => false end.

Definition create_identity (user_id : UserId) (policy : Policy) : M (list bytes * IdentityId) :=
  en ← get_engine;
  secret ← lift (engine_secret en);
  st ← get_state;
  _ ← lift (refuse_if (negb (has_payload (creates_user user_id) st)) UnknownIds);
  rnd ← random32;
  let identity_id : IdentityId := from_random32 rnd in
  encryption ← generate_kem policy;
  signing ← generate_sign policy;
  persist ← mutate true secret
              [PEngineCreateIdentity user_id identity_id policy encryption signing];
  _ ← modify (ensure_identity user_id identity_id);
  mret (persist, identity_id).

Definition delete_user (user_id : UserId) : M (list bytes) :=
  persist ← mutate_engine false [PEngineDeleteUser user_id];
  _ ← modify (λ st, with_users (delete user_id (es_users st)) st);
  mret persist.

Definition delete_identity (user_id : UserId) (identity_id : IdentityId) : M (list bytes) :=
  persist ← mutate_engine false [PEngineDeleteIdentity user_id identity_id];
  _ ← modify (λ st, with_users
        (alter (λ u, mkUser (delete identity_id (us_identities u))) user_id (es_users st)) st);
  mret persist.

Definition parse_name (name : str) : result EngineError DisplayName :=
  map_err (λ _, MalformedDisplayName) (DisplayName_try_from name).

Definition parse_pic (pic : option bytes) : result EngineError (option ProfilePic) :=
  match pic with
  | None => Ok None
  | Some bs => Some <$> map_err (λ _, MalformedPayload) (ProfilePic_try_from bs)
  end.

Definition set_identity (user_id : UserId) (identity_id : IdentityId) (f : Identity → Identity)
    (st : EngineState) : EngineState :=
  alter_identity user_id identity_id f (ensure_identity user_id identity_id st).

Definition set_display_name (user_id : UserId) (identity_id : IdentityId) (name : str) :
    M (list bytes) :=
  name ← lift (parse_name name);
  persist ← mutate_engine true [PEngineSetDisplayName user_id identity_id name];
  _ ← modify (set_identity user_id identity_id (with_id_name (Some name)));
  extra ← mint_pending_intros;
  mret (persist ++ extra).

Definition unset_display_name (user_id : UserId) (identity_id : IdentityId) : M (list bytes) :=
  persist ← mutate_engine false [PEngineUnsetDisplayName user_id identity_id];
  _ ← modify (alter_identity user_id identity_id (with_id_name None));
  mret persist.

(** The name is set before the first tick as well, without a record. *)
Definition set_device_name (name : str) : M (list bytes) :=
  name ← lift (parse_name name);
  en ← get_engine;
  secret ← lift (engine_secret en);
  r ← on_clone (mutate true secret [PEngineSetDeviceName name]);
  match r with
  | Ok persist =>
      _ ← modify (set_device_field (with_dv_name (Some name)));
      extra ← mint_pending_intros;
      mret (persist ++ extra)
  | Err NotTicked => _ ← modify (set_device_field (with_dv_name (Some name))); mret []
  | Err e => refuse e
  end.

Definition links_device (device_id : DeviceId) (kind : DeviceConversation) : bool :=
  match kind with
  | RowSynchronization _ _ peer _ _ => branded_eq peer device_id
  | RowSyncHandshake _ _ _ => false
  end.

Definition kick_device (device_id : DeviceId) : M (list bytes) :=
  st ← get_state;
  _ ← lift (refuse_if (is_this_device st device_id) WrongPhase);
  _ ← lift (refuse_if (negb (existsb (links_device device_id)
                               (values (dv_conversations (es_device st))))) UnknownIds);
  persist ← mutate_engine true [PEngineKickDevice device_id];
  _ ← modify (note_device_kick device_id);
  mret persist.

Definition leave_sync : M (list bytes) :=
  _ ← modify (set_device_field (λ d, with_dv_dek_ct None (with_dv_conversations ∅ d)));
  mret [].

Definition set_profile_pic (user_id : UserId) (identity_id : IdentityId)
    (profile_pic : option bytes) : M (list bytes) :=
  pic ← lift (parse_pic profile_pic);
  persist ← mutate_engine true [PEngineSetProfilePic user_id identity_id pic];
  _ ← modify (set_identity user_id identity_id (with_id_pic pic));
  mret persist.

(** * The data key of linked devices *)

Definition wrap_sync_dek (cid : ConversationId) : M unit :=
  st ← get_state;
  en ← get_engine;
  notice ← lift (ok_or WrongPhase (notice_for st cid));
  intro ← lift (ok_or WrongPhase (invitee_intro_for st cid));
  dek ← lift (require_dek en);
  ct ← seal_sync_dek (n_policy notice) (enc_bytes (ie_encryption_pk intro)) (cval (as_bytes dek));
  modify (set_device_field (with_dv_dek_ct (Some ct))).

Definition first_notice (st : EngineState) : option TxNotice :=
  find_map (λ b, match db_payload b with PNotice n => Some n | _ => None end) (bodies st).

(** [open_sync_dek] of the handle, and [hold_sync_dek]. *)
Definition hold_sync_dek (ct : bytes) : M unit :=
  st ← get_state;
  notice ← lift (ok_or WrongPhase (first_notice st));
  keys ← lift (ok_or WrongPhase (dv_keys (es_device st)));
  dek ← lift (open_sync_dek (n_policy notice) (kp_secret (dk_enc keys)) ct);
  set_dek (Some (from_bytes dek)).

End Identity.
