(* ===== verification/Groups.v ===== *)
(** Groups: create, offer, accept, roster, kick and leave ([engine/group.rs]; its lookups
    and sealing are in [Directory.v], its view in [Views.v], its folded form in
    [GroupFold.v]). *)

From stdpp Require Import base tactics list numbers option strings countable gmap.
From Stdlib Require Import Strings.Byte.
From S2P Require Import Prelude Text Ids Order Channel Defaults Payload Json Ports Codec.
From S2P Require Import Chain RowLog Party HealRange Bins State StateLaws Helpers Engine Ratchet.
From S2P Require Import Vault Directory Chat Heal Fingerprint Live Handshake Identity.

Definition with_cid (cid : ConversationId) (ids : ConversationRef) : ConversationRef :=
  mkConversationRef (cr_user_id ids) (cr_identity_id ids) cid.

(** [live.owner_signing_pk] is the key [sign_pk]. *)
Definition owned_by (sign_pk : bytes) (live : GroupLive) : bool :=
  bool_decide (sign_bytes (gl_owner_signing_pk live) = sign_pk).

Definition require_owner (st : EngineState) (ids : ConversationRef) : result EngineError unit :=
  match group_live st (cr_conversation_id ids) with
  | None => Err WrongPhase
  | Some live =>
      keys ← identity_secret st (cr_user_id ids) (cr_identity_id ids);
      if owned_by (ik_sign_pk keys) live then Ok tt else Err NotOwner
  end.

Definition group_disappear_blocked (st : EngineState) (ids : ConversationRef)
    (disappear_after : option u64) : result EngineError unit :=
  match disappear_after, group_live st (cr_conversation_id ids) with
  | Some _, Some live =>
      keys ← identity_secret st (cr_user_id ids) (cr_identity_id ids);
      if owned_by (ik_sign_pk keys) live then Ok tt else Err NotOwner
  | _, _ => Ok tt
  end.

Definition without_member (pk : SigningPublicKey) : list GroupMember → list GroupMember :=
  filter (λ m, negb (bool_decide (gm_signing_pk m = pk)) = true).
Definition without_pending (pk : SigningPublicKey) : list GroupPending → list GroupPending :=
  filter (λ p, negb (bool_decide (gp_signing_pk p = pk)) = true).

(** [note_accept]'s change: the first invite becomes a member. *)
Definition promote (pending : GroupPending) (member : GroupMember) (g : GroupLive) : GroupLive :=
  with_gl_members (gl_members g ++ [member]) (without_pending (gp_signing_pk pending) (gl_pending g))
    (sat_add (gl_epoch g) 1) g.

(** [kick_group_member]'s change. *)
Definition expel (pk : SigningPublicKey) (g : GroupLive) : GroupLive :=
  with_gl_members (without_member pk (gl_members g)) (gl_pending g) (sat_add (gl_epoch g) 1) g.

Definition push_invite (pending : GroupPending) (g : GroupLive) : GroupLive :=
  with_gl_members (gl_members g) (gl_pending g ++ [pending]) (gl_epoch g) g.

(** What an offer or an earlier phase carries over into a live group. *)
Definition group_terms (phase : GroupPhase) :
    option (SigningPublicKey * Secret * DisplayName * option ProfilePic * TxLog LiveGroupTx) :=
  match phase with
  | GroupIsLive l => Some (gl_owner_signing_pk l, gl_secret l, gl_name l, gl_photo l, gl_log l)
  | GroupIsOffer o => Some (go_owner_signing_pk o, go_secret o, go_name o, go_photo o, ∅)
  | GroupIsFailed _ => None
  end.

(** The peers of the contacts, none of them twice. *)
Fixpoint gather_peers (st : EngineState) (sign_pk : bytes) (contacts : list ConversationId)
    (peers : list (SigningPublicKey * EncryptionPublicKey * ConversationId)) :
    result EngineError (list (SigningPublicKey * EncryptionPublicKey * ConversationId)) :=
  match contacts with
  | [] => Ok peers
  | dm :: contacts =>
      '(pk, enc) ← ok_or WrongPhase (dm_peer st dm sign_pk);
      _ ← refuse_if (existsb (λ p, bool_decide (p.1.1 = pk)) peers) DuplicateMember;
      gather_peers st sign_pk contacts (peers ++ [(pk, enc, dm)])
  end.

Section Groups.
Context `{Suite, Rng}.

(** A member under fresh tag keys. *)
Definition new_member (pk : SigningPublicKey) (enc : EncryptionPublicKey) : M GroupMember :=
  send ← random32;
  eph ← random32;
  mret (mkGroupMember pk enc (from_random32 send) (from_random32 eph)).

(** * Rosters *)

(** Store a transaction of the group and post it. *)
Definition merge_and_post (cid : ConversationId) (secret : Secret) (payload : TxPayload) : M unit :=
  '(tx_id, b, _) ← merge_tx secret cid payload;
  post_live cid secret tx_id (db_payload b).

Definition sign_roster (keys : IdentityKeys) (epoch : u64) (members : list GroupMember) :
    M TxGroupRoster :=
  let roster := unsigned_roster (ik_policy keys) (mkTxGroupRoster epoch members []) in
  rnd ← random32;
  sig ← lift (ok_or MalformedPayload
                (sign_sign (ik_policy keys) (ik_sign_sk keys) (roster_bytes roster) rnd));
  mret (mkTxGroupRoster epoch members sig).

Definition post_roster (ids : ConversationRef) : M unit :=
  st ← get_state;
  let cid := cr_conversation_id ids in
  match group_live st cid with
  | None => mret tt
  | Some live =>
      keys ← lift (identity_secret st (cr_user_id ids) (cr_identity_id ids));
      roster ← sign_roster keys (gl_epoch live) (gl_members live);
      _ ← merge_and_post cid (gl_secret live) (PGroupRoster roster);
      for_each (λ member,
          kem_ct ← seal_group_secret (ik_policy keys) (enc_bytes (gm_encryption_pk member))
                     (cval (as_bytes (gl_secret live)));
          merge_and_post cid (gl_secret live)
            (PGroupWrap (mkTxGroupWrap (gm_signing_pk member) (gl_owner_signing_pk live) kem_ct)))
        (without_member (gl_owner_signing_pk live) (gl_members live))
  end.

(** * Payloads that arrive *)

Definition note_invite (invite : TxGroupInvite) : M unit :=
  st ← get_state;
  match identity_for_signing st (sign_bytes (gi_invitee_signing_pk invite)) with
  | None => mret tt
  | Some (user, identity_id) =>
      match group_phase st (gi_group_id invite) with
      | Some _ => mret tt
      | None =>
          keys ← lift (identity_secret st user identity_id);
          policy ← lift (identity_policy st user identity_id);
          secret ← lift (open_group_secret policy (ik_enc_sk keys) (gi_group_secret_ct invite));
          let from := default (gi_group_id invite)
                        (dm_with_peer st user identity_id
                           (sign_bytes (gi_owner_signing_pk invite))) in
          modify (put_dm user identity_id (gi_group_id invite)
            (RowGroup (GroupIsOffer
              (mkGroupOffer (from_bytes secret) (gi_name invite) (gi_photo invite)
                 (gi_owner_signing_pk invite) from))))
      end
  end.

Definition note_accept (group_id : ConversationId) : M unit :=
  st ← get_state;
  match gl_pending <$> group_live st group_id with
  | None | Some [] => mret tt
  | Some (pending :: _) =>
      member ← new_member (gp_signing_pk pending) (gp_encryption_pk pending);
      _ ← modify (live_mut group_id (promote pending member));
      st ← get_state;
      '(user, identity_id) ← expect (owner st group_id);
      post_roster (mkConversationRef user identity_id group_id)
  end.

Definition note_roster (cid : ConversationId) (roster : TxGroupRoster) : M unit :=
  st ← get_state;
  en ← get_engine;
  match owner st cid, group_phase st cid ≫= group_terms with
  | Some (user, identity_id), Some (owner_pk, secret, name, photo, log) =>
      _ ← lift (verify_roster (sign_bytes owner_pk) roster);
      keys ← lift (identity_secret st user identity_id);
      if existsb (λ m, bool_decide (sign_bytes (gm_signing_pk m) = ik_sign_pk keys))
           (gr_members roster)
      then modify (group_phase_mut cid (λ _, GroupIsLive
             (mkGroupLive secret name photo owner_pk (df_persistents (en_defaults en))
                (df_ephemerals (en_defaults en)) (gr_members roster) [] (gr_epoch roster) log
                EstablishedChains_default)))
      else modify (group_phase_mut cid (λ _, GroupIsFailed Kicked))
  | _, _ => mret tt
  end.

Definition on_group_payload (cid : ConversationId) (payload : TxPayload) : M unit :=
  match payload with
  | PGroupInvite invite => note_invite invite
  | PGroupAccept group_id => note_accept group_id
  | PGroupRoster roster => note_roster cid roster
  | _ => mret tt
  end.

(** * Operations *)

(** Seal the group's secret to every peer: the invites, and the rows that await an answer. *)
Fixpoint seal_invites (group_id : ConversationId) (secret : Secret) (policy : Policy)
    (owner_pk : SigningPublicKey) (name : DisplayName) (photo : option ProfilePic)
    (peers : list (SigningPublicKey * EncryptionPublicKey * ConversationId)) :
    M (list (GroupPending * (ConversationId * TxPayload))) :=
  match peers with
  | [] => mret []
  | (pk, enc, dm) :: peers =>
      en ← get_engine;
      ct ← seal_group_secret policy (enc_bytes enc) (cval (as_bytes secret));
      let invite := mkTxGroupInvite group_id owner_pk (df_persistents (en_defaults en))
                      (df_ephemerals (en_defaults en)) name photo pk ct in
      rest ← seal_invites group_id secret policy owner_pk name photo peers;
      mret ((mkGroupPending pk enc dm name photo, (dm, PGroupInvite invite)) :: rest)
  end.

(** [ok = self.mint_on(ok.state, ..)?]: the records of the last invite are the result. *)
Fixpoint mint_invites (ids : ConversationRef) (payloads : list (ConversationId * TxPayload))
    (persist : list bytes) : M (list bytes) :=
  match payloads with
  | [] => mret persist
  | (dm, payload) :: payloads =>
      persist ← mint_on (with_cid dm ids) payload; mint_invites ids payloads persist
  end.

Definition create_group (user_id : UserId) (identity_id : IdentityId)
    (contacts : list ConversationId) (name : str) (photo : option bytes) :
    M (list bytes * ConversationId) :=
  _ ← lift (refuse_if (bool_decide (contacts = []) || (31 <? length contacts)%nat) MemberCap);
  st ← get_state;
  en ← get_engine;
  let ids := mkConversationRef user_id identity_id (from_bytes (fill 32 x00)) in
  _ ← lift (require_ids st ids);
  _ ← lift (ok_or WrongPhase (display_name st identity_id));
  name ← lift (parse_name name);
  photo ← lift (parse_pic photo);
  keys ← lift (identity_secret st user_id identity_id);
  peers ← lift (gather_peers st (ik_sign_pk keys) contacts []);
  group_rnd ← random32;
  secret_rnd ← random32;
  let group_id : ConversationId := from_random32 group_rnd in
  let secret : Secret := from_random32 secret_rnd in
  let owner_pk := SigningPublicKey_from_bytes (ik_sign_pk keys) in
  owner ← new_member owner_pk (EncryptionPublicKey_from_bytes (ik_enc_pk keys));
  invites ← seal_invites group_id secret (ik_policy keys) owner_pk name photo peers;
  _ ← modify (put_dm user_id identity_id group_id
        (RowGroup (GroupIsLive
          (mkGroupLive secret name photo owner_pk (df_persistents (en_defaults en))
             (df_ephemerals (en_defaults en)) [owner] (map fst invites) (clamp64 0) ∅
             EstablishedChains_default))));
  persist ← mint_invites ids (map snd invites) [];
  mret (persist, group_id).

Definition add_group_member (ids : ConversationRef) (contact : ConversationId) : M (list bytes) :=
  st ← get_state;
  let cid := cr_conversation_id ids in
  _ ← lift (gate_chat st ids);
  keys ← lift (identity_secret st (cr_user_id ids) (cr_identity_id ids));
  '(pk, enc) ← lift (ok_or WrongPhase (dm_peer st contact (ik_sign_pk keys)));
  live ← lift (match group_phase st cid with
               | Some (GroupIsLive live) =>
                   if owned_by (ik_sign_pk keys) live then Ok live else Err NotOwner
               | _ => Err WrongPhase
               end);
  _ ← lift (refuse_if (32 <=? length (gl_members live) + length (gl_pending live))%nat MemberCap);
  _ ← lift (refuse_if (existsb (λ p, bool_decide (gp_signing_pk p = pk)) (gl_pending live)
                       || existsb (λ m, bool_decide (gm_signing_pk m = pk)) (gl_members live))
              WrongPhase);
  ct ← seal_group_secret (ik_policy keys) (enc_bytes enc) (cval (as_bytes (gl_secret live)));
  let invite := mkTxGroupInvite cid (SigningPublicKey_from_bytes (ik_sign_pk keys))
                  (gl_persistents live) (gl_ephemerals live) (gl_name live) (gl_photo live) pk ct in
  persist ← mint_on (with_cid contact ids) (PGroupInvite invite);
  _ ← modify (live_mut cid (λ row,
        push_invite (mkGroupPending pk enc contact (gl_name row) (gl_photo row)) row));
  mret persist.

(** The offer an answer is given to. *)
Definition offered (st : EngineState) (ids : ConversationRef) : result EngineError GroupOffer :=
  match group_phase st (cr_conversation_id ids) with
  | Some (GroupIsOffer offer) => Ok offer
  | _ => Err WrongPhase
  end.

Definition accept_group (ids : ConversationRef) : M (list bytes) :=
  st ← get_state;
  en ← get_engine;
  offer ← lift (offered st ids);
  keys ← lift (identity_secret st (cr_user_id ids) (cr_identity_id ids));
  persist ← mint_on (with_cid (go_from_conversation_id offer) ids)
              (PGroupAccept (cr_conversation_id ids));
  member ← new_member (SigningPublicKey_from_bytes (ik_sign_pk keys))
             (EncryptionPublicKey_from_bytes (ik_enc_pk keys));
  _ ← modify (group_phase_mut (cr_conversation_id ids) (λ _, GroupIsLive
        (mkGroupLive (go_secret offer) (go_name offer) (go_photo offer)
           (go_owner_signing_pk offer) (df_persistents (en_defaults en))
           (df_ephemerals (en_defaults en)) [member] [] (clamp64 0) ∅
           EstablishedChains_default)));
  mret persist.

Definition reject_group (ids : ConversationRef) : M (list bytes) :=
  st ← get_state;
  offer ← lift (offered st ids);
  persist ← mint_on (with_cid (go_from_conversation_id offer) ids)
              (PGroupReject (cr_conversation_id ids));
  _ ← modify (group_phase_mut (cr_conversation_id ids) (λ _, GroupIsFailed OfferRejected));
  mret persist.

Definition kick_live_member (ids : ConversationRef) (pk : SigningPublicKey) (live : GroupLive) :
    M (list bytes) :=
  st ← get_state;
  let cid := cr_conversation_id ids in
  keys ← lift (identity_secret st (cr_user_id ids) (cr_identity_id ids));
  _ ← lift (refuse_if (negb (owned_by (ik_sign_pk keys) live)) NotOwner);
  _ ← lift (refuse_if (existsb (λ p, bool_decide (gp_signing_pk p = pk)) (gl_pending live))
              WrongPhase);
  persist ← mint_on ids (PGroupKick pk);
  st ← get_state;
  _ ← expect (group_live st cid);
  _ ← modify (live_mut cid (expel pk));
  _ ← post_roster ids;
  mret persist.

Definition kick_group_member (ids : ConversationRef) (signing_pk : bytes) : M (list bytes) :=
  st ← get_state;
  let cid := cr_conversation_id ids in
  match group_phase st cid with
  | Some (GroupIsOffer _) => _ ← modify (λ st, (drop_conversation cid st).2); mret []
  | Some (GroupIsLive live) => kick_live_member ids (SigningPublicKey_from_bytes signing_pk) live
  | _ => refuse WrongPhase
  end.

Definition leave_group (ids : ConversationRef) : M (list bytes) :=
  st ← get_state;
  let cid := cr_conversation_id ids in
  _ ← lift (ok_or WrongPhase (group_live st cid));
  persist ← mint_on ids PGroupLeave;
  _ ← modify (group_phase_mut cid (λ _, GroupIsFailed Left_));
  mret persist.

(** [rename_group] and [rephoto_group] after the owner check. *)
Definition change_group (ids : ConversationRef) (change : GroupLive → GroupLive)
    (payload : TxPayload) : M (list bytes * list PingTarget) :=
  let cid := cr_conversation_id ids in
  st ← get_state;
  _ ← lift (require_owner st ids);
  _ ← modify (live_mut cid change);
  st ← get_state;
  secret ← lift (conv_secret st cid);
  persist ← mint_on ids payload;
  pings ← finish_chat cid secret payload;
  mret (persist, pings).

Definition rename_group (ids : ConversationRef) (name : DisplayName) :
    M (list bytes * list PingTarget) := change_group ids (with_gl_name name) (PName name).
Definition rephoto_group (ids : ConversationRef) (photo : option ProfilePic) :
    M (list bytes * list PingTarget) := change_group ids (with_gl_photo photo) (PPhoto photo).

(** [delete_group] runs on a clone; any refusal gives [None]. *)
Definition delete_group (ids : ConversationRef) : M (option (list bytes)) :=
  st ← get_state;
  let cid := cr_conversation_id ids in
  match group_live st cid, conv_secret st cid with
  | Some _, Ok secret =>
      r ← on_clone (mutate_on secret cid [PGroupLeave]);
      match r with
      | Ok persist =>
          _ ← modify (group_phase_mut cid (λ _, GroupIsFailed Left_)); mret (Some persist)
      | Err _ => mret None
      end
  | _, _ => mret None
  end.

End Groups.
