(* ===== verification/Receive.v ===== *)
(** Receiving on an established conversation: which conversation a tag belongs to, opening
    a packet, and taking in a reassembled transaction ([engine/live.rs]). *)

From stdpp Require Import base tactics list numbers option strings countable gmap.
From Stdlib Require Import Strings.Byte.
From S2P Require Import Prelude Text Ids Order Channel Defaults Payload Json Ports Codec.
From S2P Require Import Chain RowLog Party HealRange Bins State StateLaws Frags Helpers Engine.
From S2P Require Import Ratchet Vault Directory Chat Heal Fingerprint Live Handshake Identity.
From S2P Require Import Groups.

Inductive LiveChannel : Set := LiveDurable (d : DurableChannel) | LiveEph (e : EphemeralChannel).

Definition is_durable (channel : LiveChannel) : bool :=
  match channel with LiveDurable _ => true | LiveEph _ => false end.

Definition notice_on_channel (channel : LiveChannel) (notice : TxNotice) : bool :=
  match channel with
  | LiveDurable d => bool_decide (d ∈ n_persistents notice)
  | LiveEph e => bool_decide (e ∈ n_ephemerals notice)
  end.

(** The tag keys both sides published in the handshake, the inviter's first. *)
Definition intro_keys (st : EngineState) (parent : ConversationId) (persistent : bool) :
    list TagKey :=
  option_list ((λ i, if persistent then ii_send_tag_key i else ii_eph_send_tag_key i)
                 <$> inviter_intro_for st parent)
  ++ option_list ((λ i, if persistent then ie_send_tag_key i else ie_eph_send_tag_key i)
                    <$> invitee_intro_for st parent).

(** * Actors who may have sent a packet *)

Definition group_member_actors (st : EngineState) (cid : ConversationId) : list bytes :=
  default [] ((λ live, map (λ m, sign_bytes (gm_signing_pk m)) (gl_members live))
                <$> group_live st cid).

Definition sync_peer_of (kind : DeviceConversation) : option DeviceId :=
  match kind with RowSynchronization _ _ peer _ _ => Some peer | _ => None end.

Definition sync_open_actors (st : EngineState) (cid : ConversationId) : list bytes :=
  option_list ((λ keys, cval (as_bytes (dk_id keys))) <$> dv_keys (es_device st))
  ++ option_list ((λ peer : DeviceId, cval (as_bytes peer)) <$> device_row cid sync_peer_of st).

Definition open_actors (st : EngineState) (parent : ConversationId) : list bytes :=
  option_list ((λ i, sign_bytes (ie_signing_pk i)) <$> invitee_intro_for st parent)
  ++ option_list ((λ i, sign_bytes (ii_signing_pk i)) <$> inviter_intro_for st parent).

(** [packet_actor]. *)
Definition packet_actor (packet : PacketPlain) : bytes :=
  match packet with
  | TxFragMore p => fm_actor_id p
  | TxFragLast p => fl_actor_id p
  | _ => []
  end.

Definition set_recv (actor : Actor) (chain : SendChain) (c : EstablishedChains) :
    EstablishedChains :=
  with_packet (λ p, with_recv (<[actor := chain]> (pc_recv p)) p) c.

Section Receive.
Context `{Suite, Rng}.

(** * Whose tag it is *)

Definition tag_in (keys : list TagKey) (label : bytes) (now : UnixSeconds) (tag : Tag) : bool :=
  existsb (λ key, existsb (λ bin, branded_eq (bin_tag key label bin) tag)
                    (listen_bins (time_bin now))) keys.

(** Direct messages and syncs have both labels. *)
Definition tag_hits (st : EngineState) (parent : ConversationId) (sort : ConversationSort)
    (persistent : bool) (tag : Tag) (now : UnixSeconds) : bool :=
  from_option (λ label, tag_in (intro_keys st parent persistent) label now tag) false
    (if persistent then persist_label sort else eph_label sort).

Definition group_hit (d : DurableChannel) (tag : Tag) (now : UnixSeconds) (label : bytes)
    (kind : IdentityConversation) : option Secret :=
  match kind with
  | RowGroup (GroupIsLive live) =>
      if bool_decide (d ∈ gl_persistents live)
         && tag_in (map gm_send_tag_key (gl_members live)) label now tag
      then Some (gl_secret live) else None
  | _ => None
  end.

Definition group_match (st : EngineState) (channel : LiveChannel) (tag : Tag)
    (now : UnixSeconds) : option (ConversationId * Secret * ConversationSort) :=
  match channel, persist_label Group with
  | LiveDurable d, Some label =>
      '(_, _, (cid, secret)) ← scan (λ ident,
          find_map (λ '(cid, kind), secret ← group_hit d tag now label kind; Some (cid, secret))
            (entries (id_conversations ident))) st;
      Some (cid, secret, Group)
  | _, _ => None
  end.

(** The loop of [established_match]; a [?] inside it ends the search. *)
Fixpoint match_cids (st : EngineState) (channel : LiveChannel) (tag : Tag) (now : UnixSeconds)
    (cids : list ConversationId) : option (ConversationId * Secret * ConversationSort) :=
  match cids with
  | [] => None
  | cid :: cids =>
      parent ← established_parent st cid;
      notice ← notice_for st parent;
      let sort := established_sort st cid in
      if notice_on_channel channel notice && tag_hits st parent sort (is_durable channel) tag now
      then secret ← established_secret st cid; Some (cid, secret, sort)
      else match_cids st channel tag now cids
  end.

Definition established_match (st : EngineState) (channel : LiveChannel) (tag : Tag)
    (now : UnixSeconds) : option (ConversationId * Secret * ConversationSort) :=
  match group_match st channel tag now with
  | Some hit => Some hit
  | None => match_cids st channel tag now (established_cids st)
  end.

(** * Taking in a transaction *)

Definition decode_durable (packed : bytes) : option DurableBody :=
  match decompress packed PACKET_MAX_UNCOMPRESSED with
  | Ok canonical =>
      json ← json_decode canonical;
      match durable_body_from_json json with Ok b => Some b | Err _ => None end
  | Err _ => None
  end.

(** [ack_completed_last], and the same lines of [accept_fragment]. *)
Definition ack_completed_last (persistent : bool) (packet : PacketPlain) (cid : ConversationId) :
    M unit :=
  match packet with
  | TxFragLast last =>
      if persistent then
        _ ← modify (store_durable_last_ack cid (fl_actor_id last) (fl_set_xor last));
        note_set_xor cid (fl_set_xor last)
      else mret tt
  | _ => mret tt
  end.

Definition packet_sender (st : EngineState) (cid : ConversationId) (packet : PacketPlain) : Actor :=
  default Actor_Handshake (sort ← sort_of st cid; actor_for sort (packet_actor packet)).

(** [accept_fragment] once the transaction is whole. *)
Definition accept_body (cid : ConversationId) (packet : PacketPlain) (persistent : bool)
    (tx_id : Tag) (b : DurableBody) : M (list bytes) :=
  st ← get_state;
  if from_option (λ existing, bool_decide (db_payload existing = db_payload b)) false (body st tx_id)
  then mret []
  else
    _ ← handshake_ingest_gate cid (db_payload b);
    rec ← store_new tx_id b;
    _ ← on_group_payload cid (db_payload b);
    st ← get_state;
    _ ← expect_established_mut cid (note_sender tx_id (packet_sender st cid packet));
    _ ← ack_completed_last persistent packet cid;
    _ ← modify (note_sync_peer cid (packet_actor packet));
    _ ← (match db_payload b with
         | PEngineKickDevice device_id => modify (note_device_kick device_id)
         | _ => mret tt
         end);
    mret [rec].

Definition accept_fragment (cid : ConversationId) (packet : PacketPlain) (persistent : bool) :
    M (list bytes) :=
  match frag_parts packet with
  | None => mret []
  | Some part =>
      st ← get_state;
      let '(frags, whole) := accept_part cid part (es_frags st) in
      _ ← modify (with_frags frags);
      match whole with
      | None => mret []
      | Some packed =>
          b ← lift (ok_or MalformedPayload (decode_durable packed));
          accept_body cid packet persistent (fp_tx_id part) b
      end
  end.

Definition on_established (cid : ConversationId) (now : UnixSeconds) (packet : PacketPlain)
    (persistent : bool) : M (list bytes) :=
  let rest := _ ← note_packet_signal cid now packet; accept_fragment cid packet persistent in
  if negb persistent then _ ← observe_ephemeral cid now packet; rest
  else
    match packet with
    | XorAck ack =>
        _ ← modify (store_durable_last_ack cid (xa_actor_id ack) (xa_set_xor ack));
        _ ← note_set_xor cid (xa_set_xor ack);
        mret []
    | _ => rest
    end.

(** * Opening *)

(** An ephemeral packet is sealed up to 63 positions ahead of the durable chain. *)
Fixpoint eph_open (n : nat) (cursor : SendChain) (body : bytes) : option PacketPlain :=
  match n with
  | O => None
  | S n =>
      match open_plain (eph_mk cursor) body with
      | Ok packet => Some packet
      | Err _ => eph_open n (step cursor) body
      end
  end.

Definition recv_start (st : EngineState) (cid : ConversationId) (actor : Actor)
    (joined : SendChain) : SendChain :=
  default joined (established st cid ≫= λ c, pc_recv (ec_packet c) !! actor).

(** Every actor who might have sent the body; the first key that opens it wins. *)
Fixpoint open_as (cid : ConversationId) (secret : Secret) (sort : ConversationSort)
    (body : bytes) (persistent : bool) (now : UnixSeconds) (actors : list bytes) :
    M (option (list bytes)) :=
  match actors with
  | [] => mret None
  | actor_bytes :: actors =>
      actor ← expect (actor_for sort actor_bytes);
      joined ← lift (join secret sort actor_bytes);
      st ← get_state;
      let start := recv_start st cid actor joined in
      if negb persistent then
        match eph_open 64 start body with
        | Some packet => persist ← on_established cid now packet false; mret (Some persist)
        | None => open_as cid secret sort body persistent now actors
        end
      else
        match open_at start None [] now body with
        | Ok opened =>
            _ ← expect_established_mut cid (set_recv actor (o_chain opened));
            persist ← on_established cid now (o_packet opened) true;
            mret (Some persist)
        | Err _ => open_as cid secret sort body persistent now actors
        end
  end.

Definition open_established (cid : ConversationId) (secret : Secret) (sort : ConversationSort)
    (body : bytes) (persistent : bool) (now : UnixSeconds) : M (option (list bytes)) :=
  st ← get_state;
  actors ← (match sort with
            | Group => mret (group_member_actors st cid)
            | Synchronization => mret (sync_open_actors st cid)
            | _ => parent ← expect (established_parent st cid); mret (open_actors st parent)
            end);
  open_as cid secret sort body persistent now actors.

Definition ingest_established (channel : LiveChannel) (tag : Tag) (body : bytes)
    (now : UnixSeconds) : M (list bytes) :=
  st ← get_state;
  '(cid, secret, sort) ← lift (ok_or UnknownTag (established_match st channel tag now));
  opened ← open_established cid secret sort body (is_durable channel) now;
  lift (ok_or UnknownTag opened).

Definition finish_established (channel : LiveChannel) (tag : Tag) (body : bytes) :
    M (list bytes) :=
  st ← get_state;
  en ← get_engine;
  now ← lift (require_tick st);
  _ ← lift (require_dek en);
  _ ← reseal_due;
  ingest_established channel tag body now.

End Receive.
