(* ===== verification/Ingest.v ===== *)
(** Ingesting what the mappers deliver: opening and merging a handshake packet, list
    snapshots, single packets on either path, and blob acknowledgements
    ([engine/handshake.rs]). *)

From stdpp Require Import base tactics list numbers option strings countable gmap.
From Stdlib Require Import Strings.Byte.
From S2P Require Import Prelude Text Ids Order Channel Defaults Payload Json Ports Codec.
From S2P Require Import Chain RowLog Party HealRange Bins State StateLaws Frags Helpers Engine.
From S2P Require Import Ratchet Vault Directory Chat Heal Fingerprint Live Handshake Identity.
From S2P Require Import Groups Receive.

(** * Bookkeeping of the receiving chain *)

(** [cached.retain(|e| e.expires_at > now)]. *)
Definition unexpired (now : UnixSeconds) : list CachedMk → list CachedMk :=
  filter (λ e, (cval now <? cval (cm_expires_at e))%N = true).

(** [opened.chain] is past [cur]. *)
Definition chain_ahead (chain cur : SendChain) : bool :=
  (cval (sc_epoch cur) <? cval (sc_epoch chain))%N
  || (cval (sc_epoch chain) =? cval (sc_epoch cur))%N
     && (cval (sc_packet_seq cur) <? cval (sc_packet_seq chain))%N.

(** What opening a packet leaves in the row: remembered keys and the receiving chain, which
    only moves forward; a packet opened with a remembered key does not move it. *)
Definition record_opened (cached : list CachedMk) (start : SendChain) (opened : Opened)
    (c : PacketChains) : PacketChains :=
  let c := with_skipped
    (if bool_decide (cached = []) then delete Actor_Handshake (pc_skipped_mks c)
     else <[Actor_Handshake := cached]> (pc_skipped_mks c)) c in
  let cur := pc_recv c !! Actor_Handshake in
  if o_from_cache opened then
    match cur with
    | Some _ => c
    | None => with_recv (<[Actor_Handshake := start]> (pc_recv c)) c
    end
  else if from_option (chain_ahead (o_chain opened)) true cur
  then with_recv (<[Actor_Handshake := o_chain opened]> (pc_recv c)) c
  else c.

(** The transaction a fragment belongs to. *)
Definition packet_tx (packet : PacketPlain) : option Tag :=
  match packet with
  | TxFragMore p => Some (fm_tx_id p)
  | TxFragLast p => Some (fl_tx_id p)
  | _ => None
  end.

Definition same_start (a b : SendChain) : bool :=
  (cval (sc_epoch a) =? cval (sc_epoch b))%N && (cval (sc_packet_seq a) =? cval (sc_packet_seq b))%N
  && branded_eq (sc_root a) (sc_root b).

Section Ingest.
Context `{Suite, Rng}.

(** From where we are, and from the joined chain when we are elsewhere. *)
Definition open_from (start joined : SendChain) (mixed : option SendChain)
    (cached : list CachedMk) (now : UnixSeconds) (body : bytes) : result EngineError Opened :=
  match open_at start mixed cached now body with
  | Err UnknownTag =>
      if same_start start joined then Err UnknownTag else open_at joined None cached now body
  | r => r
  end.

(** [prune_cached_mks(state); return Ok(out)]. *)
Definition pruned (out : list bytes) : M (list bytes) := _ ← modify prune_cached_mks; mret out.

(** Storing a reassembled transaction of the handshake. *)
Definition merge_body (cid : ConversationId) (packet : PacketPlain) (persistent : bool)
    (tx_id : Tag) (b : DurableBody) : M (list bytes) :=
  gate ← handshake_ingest_gate cid (db_payload b);
  match gate with
  | Some extra => mret extra
  | None =>
      _ ← (match db_payload b with PSyncDek ct => hold_sync_dek ct | _ => mret tt end);
      persist ← store_new tx_id b;
      _ ← ack_completed_last persistent packet cid;
      _ ← modify prune_cached_mks;
      invitee ← try_mint_invitee_intro cid;
      inviter ← try_mint_inviter_intro cid;
      mret (persist :: invitee ++ inviter)
  end.

(** The part of [open_and_merge] that has the whole body. *)
Definition merge_packed (hit : HandshakeHit) (packet : PacketPlain) (persistent : bool)
    (tx_id : Tag) (packed : bytes) : M (list bytes) :=
  match decode_durable packed with
  | None => _ ← modify (store_unlock_failed (hit_cid hit)); mret []
  | Some b =>
      let cid := db_conversation_id b in
      _ ← (if branded_eq cid (hit_cid hit) then mret tt
           else modify (rekey_conversation (hit_cid hit) cid));
      st ← get_state;
      match body st tx_id with
      | Some existing =>
          if decide (db_payload existing = db_payload b)
          then _ ← ack_completed_last persistent packet cid; pruned []
          else refuse Equivocation
      | None => merge_body cid packet persistent tx_id b
      end
  end.

(** The part of [open_and_merge] after the packet is open. *)
Definition merge_packet (hit : HandshakeHit) (packet : PacketPlain) (persistent : bool) :
    M (list bytes) :=
  let cid := hit_cid hit in
  match packet with
  | XorAck ack =>
      _ ← (if persistent
           then modify (store_durable_last_ack cid (xa_actor_id ack) (xa_set_xor ack))
           else mret tt);
      _ ← note_set_xor cid (xa_set_xor ack);
      pruned []
  | HealHalfXor _ | HealWant _ | HealHave _ => _ ← on_heal_packet cid packet; pruned []
  | _ =>
      match frag_parts packet with
      | None => pruned []
      | Some part =>
          st ← get_state;
          '(frags, whole) ← lift (merge_part cid part (es_frags st));
          _ ← modify (with_frags frags);
          match whole with
          | None => mret []
          | Some packed => merge_packed hit packet persistent (fp_tx_id part) packed
          end
      end
  end.

Definition refuse_failed (st : EngineState) (cid : ConversationId) : result EngineError unit :=
  match failed st cid with
  | Some (InviteExpired _) => Err WrongPhase
  | Some _ => Err UnknownTag
  | None => Ok tt
  end.

Definition open_and_merge (hit : HandshakeHit) (now : UnixSeconds) (body : bytes)
    (persistent : bool) : M (list bytes) :=
  st ← get_state;
  let cid := hit_cid hit in
  _ ← lift (refuse_failed st cid);
  _ ← absorb_peer_wraps_m cid;
  joined ← lift (join (hit_secret hit) (hit_sort hit) []);
  st ← get_state;
  let start := default joined (chains st cid ≫= λ c, pc_recv c !! Actor_Handshake) in
  let mixed := mixed_chain st cid (hit_sort hit) start false in
  let cached := unexpired now
    (default [] (chains st cid ≫= λ c, pc_skipped_mks c !! Actor_Handshake)) in
  match (if persistent then Err UnknownTag else open_plain (eph_mk start) body) with
  | Ok packet => _ ← observe_ephemeral cid now packet; mret []
  | Err _ =>
      opened ← lift (open_from start joined mixed cached now body);
      let cached := unexpired now (cached ++ o_skipped opened) in
      _ ← modify (chains_mut cid (record_opened cached start opened));
      _ ← (match packet_tx (o_packet opened) with
           | Some tx_id =>
               if o_from_cache opened
               then modify (annotate_cached_mk cid Actor_Handshake (o_mk opened) tx_id)
               else mret tt
           | None => mret tt
           end);
      merge_packet hit (o_packet opened) persistent
  end.

(** The hits in turn, until one does not answer [UnknownTag].  A hit that fails with
    another error, or panics, ends the ingestion. *)
Fixpoint ingest_hits (hits : list HandshakeHit) (now : UnixSeconds) (body : bytes)
    (persistent : bool) : M (list bytes) :=
  match hits with
  | [] => mret []
  | hit :: hits => λ w,
      match open_and_merge hit now body persistent w with
      | (w', Err (Refuse UnknownTag)) => ingest_hits hits now body persistent w'
      | r => r
      end
  end.

Definition ingest_known_body (hits : list HandshakeHit) (body : bytes) (persistent : bool) :
    M (list bytes) :=
  st ← get_state;
  now ← lift (require_tick st);
  ingest_hits hits now body persistent.

(** * The operations *)

Definition ingest_list (channel : DurableChannel) (tag : Tag) (bodies : list bytes) :
    M (list bytes) :=
  st ← get_state;
  en ← get_engine;
  now ← lift (require_tick st);
  _ ← lift (require_dek en);
  match handshake_hits st (HitDurable channel) tag now with
  | [] => refuse UnknownTag
  | (hit :: _) as hits =>
      _ ← reseal_due;
      persist ← map_m (λ body, ingest_known_body hits body true) bodies;
      _ ← modify (complete_list_bin channel hit);
      mret (concat persist)
  end.

Definition ingest_packet (channel : DurableChannel) (tag : Tag) (body : bytes) : M (list bytes) :=
  st ← get_state;
  now ← lift (require_tick st);
  match handshake_hits st (HitDurable channel) tag now with
  | [] => finish_established (LiveDurable channel) tag body
  | hits => _ ← reseal_due; ingest_known_body hits body true
  end.

Definition ingest_ephemeral_packet (channel : EphemeralChannel) (tag : Tag) (body : bytes) :
    M (list bytes) :=
  st ← get_state;
  en ← get_engine;
  now ← lift (require_tick st);
  _ ← lift (require_dek en);
  match handshake_hits st (HitEphemeral channel) tag now with
  | [] => finish_established (LiveEph channel) tag body
  | hits => _ ← reseal_due; ingest_known_body hits body false
  end.

End Ingest.

Definition with_blob_puts (puts : list BlobPut) (st : EngineState) : EngineState :=
  with_rest (es_next_seq st) (es_ticked st) (es_writes st) (es_eph_writes st) puts
    (es_frags st) (es_bin_progress st) (es_persist_log st) st.

Definition is_put (kind : Kind) (address : Address) (tag : Tag) (body : bytes) (w : BlobPut) : bool :=
  bool_decide (bput_kind w = kind) && bool_decide (bput_address w = address)
  && branded_eq (bput_tag w) tag && bool_decide (bput_body w = body).

Definition write_blob_ack (kind : Kind) (address : Address) (tag : Tag) (body : bytes) :
    M (list bytes) :=
  st ← get_state;
  let kept := filter (λ w, is_put kind address tag body w = false) (es_blob_puts st) in
  _ ← lift (refuse_if (Nat.eqb (length kept) (length (es_blob_puts st))) UnknownWrite);
  _ ← modify (with_blob_puts kept);
  mret [].
