(* ===== verification/Views.v ===== *)
(** What the host sees: the query types of [engine/query.rs], and the projections of the
    state to them ([engine/handshake.rs], [engine/chat.rs], [engine/group.rs],
    [engine/invite.rs], [engine/session.rs]).

    A projection gives [None] where an [expect] of the source would panic. *)

From stdpp Require Import base tactics list numbers option strings countable gmap.
From Stdlib Require Import Strings.Byte.
From S2P Require Import Prelude Text Ids Order Channel Defaults Payload Json Ports Codec.
From S2P Require Import Chain RowLog Party HealRange Bins State StateLaws Helpers Engine Ratchet.
From S2P Require Import Vault Directory Chat Heal Fingerprint Live Handshake Identity.

(** * Query types *)

Inductive HandshakeInviter : Type :=
| QInviteCreated (expires : UnixSeconds)
| QNoticePinned (expires : UnixSeconds)
| QInviterMinted (expires : UnixSeconds)
| QInviterConfirming (expires : UnixSeconds) (confirmation_digest : str).

Inductive HandshakeInvitee : Type :=
| QTicketReceived
| QInviteReceived (policy : Policy) (expires : UnixSeconds)
| QInviteeMinted (policy : Policy) (expires : UnixSeconds)
| QIntroductionSent (policy : Policy) (expires : UnixSeconds)
| QInviteeConfirming (policy : Policy) (expires : UnixSeconds) (confirmation_digest : str).

(** [FailedReason] has the reasons of [HandshakeFailure]. *)
Inductive Handshake : Type :=
| QInviter (h : HandshakeInviter)
| QInvitee (h : HandshakeInvitee)
| QFailed (reason : HandshakeFailure).

Inductive ChatItem : Type :=
| ItemText (t : TxText) | ItemEdit (e : TxEdit) | ItemRemove (target : Tag)
| ItemReaction (r : TxReaction) | ItemRead (up_to : Tag) | ItemDelivered (up_to : Tag)
| ItemMedia (m : TxMedia).

Record HistoryItem : Type := mkHistoryItem {
  hi_tx_id : Tag; hi_sender : Actor; hi_hlc : Hlc; hi_item : ChatItem;
  hi_expire_at : option UnixSeconds
}.

Record TypingView : Type := mkTypingView { tv_composing : bool; tv_last_active : UnixSeconds }.

Record QueryPeerPrefs : Type := mkQueryPeerPrefs {
  qp_read_receipts : bool; qp_online_visible : bool; qp_send_typing : bool;
  qp_disappear_after : option u64; qp_wake_endpoint : option str; qp_vapid_pk : option bytes
}.

Record QueryLocalPrefs : Type := mkQueryLocalPrefs {
  ql_prefs : QueryPeerPrefs; ql_notification_privacy : NotificationPrivacy
}.

Record PeerCard : Type := mkPeerCard {
  pcd_name : DisplayName; pcd_profile_pic : option ProfilePic;
  pcd_encryption_pk : EncryptionPublicKey; pcd_signing_pk : SigningPublicKey;
  pcd_prefs : OnWirePrefs
}.

Record DmEstablished : Type := mkDmEstablished {
  dm_card : PeerCard; dm_persistents : list DurableChannel;
  dm_ephemerals : list EphemeralChannel; dm_confirmation_digest : str;
  dm_last_active : option UnixSeconds; dm_typing : option TypingView;
  dm_presence : option UnixSeconds; dm_read_up_to : option Tag; dm_delivered_up_to : option Tag;
  dm_local_prefs : QueryLocalPrefs; dm_peer_prefs : QueryPeerPrefs; dm_messages : list HistoryItem
}.

Record GroupMemberView : Type := mkGroupMemberView {
  gmv_signing_pk : SigningPublicKey; gmv_encryption_pk : EncryptionPublicKey;
  gmv_name : DisplayName; gmv_photo : option ProfilePic
}.

Record GroupPendingView : Type := mkGroupPendingView {
  gpv_signing_pk : SigningPublicKey; gpv_from_conversation_id : ConversationId;
  gpv_name : DisplayName; gpv_photo : option ProfilePic
}.

Record GroupEstablishedView : Type := mkGroupEstablishedView {
  gev_name : DisplayName; gev_photo : option ProfilePic; gev_owner_signing_pk : SigningPublicKey;
  gev_members : list GroupMemberView; gev_pending : list GroupPendingView;
  gev_persistents : list DurableChannel; gev_ephemerals : list EphemeralChannel;
  gev_last_active : option UnixSeconds; gev_local_prefs : QueryLocalPrefs;
  gev_messages : list HistoryItem
}.

Inductive GroupQuery : Type :=
| QGroupOffer (name : DisplayName) (photo : option ProfilePic)
    (owner_signing_pk : SigningPublicKey) (from_conversation_id : ConversationId)
| QGroupEstablished (v : GroupEstablishedView)
| QGroupFailed (reason : GroupEnd).

Record SyncMemberView : Type := mkSyncMemberView {
  smv_device_id : DeviceId; smv_signing_pk : SigningPublicKey;
  smv_encryption_pk : EncryptionPublicKey; smv_name : DisplayName;
  smv_last_active : option UnixSeconds
}.

Record SyncEstablishedView : Type := mkSyncEstablishedView {
  sev_device_name : DisplayName; sev_members : list SyncMemberView;
  sev_persistents : list DurableChannel; sev_ephemerals : list EphemeralChannel;
  sev_last_active : option UnixSeconds
}.

Inductive Conversation : Type :=
| ConvHandshakeDm (h : Handshake)
| ConvHandshakeSync (h : Handshake)
| ConvDirectMessage (v : DmEstablished)
| ConvGroup (g : GroupQuery)
| ConvSynchronization (v : SyncEstablishedView).

(** * Preferences and peers *)

Definition peer_prefs (prefs : OnWirePrefs) : QueryPeerPrefs :=
  mkQueryPeerPrefs (p_read_receipts prefs) (p_online_visible prefs) (p_send_typing prefs)
    (p_disappear_after prefs) ((λ w, cval (w_endpoint w)) <$> p_wake prefs)
    (p_wake prefs ≫= w_vapid_pk).

Definition local_prefs (en : Engine) (st : EngineState) (cid : ConversationId) : QueryLocalPrefs :=
  mkQueryLocalPrefs (peer_prefs (default (on_wire_prefs en) (latest_wire st cid)))
    (df_notification_privacy (en_defaults en)).

(** [DisplayName::try_from(".").expect("dot")]. *)
Definition dot_name : DisplayName := mkChecked (lit ".") eq_refl.

Definition card_of_inviter (i : TxInviterIntro) : PeerCard :=
  mkPeerCard (ii_name i) (ii_profile_pic i) (ii_encryption_pk i) (ii_signing_pk i) (ii_prefs i).
Definition card_of_invitee (i : TxInviteeIntro) : PeerCard :=
  mkPeerCard (ie_name i) (ie_profile_pic i) (ie_encryption_pk i) (ie_signing_pk i) (ie_prefs i).

(** [local.is_none_or(|signing| signing != intro.signing_pk)]. *)
Definition not_local (local : option bytes) (pk : SigningPublicKey) : bool :=
  from_option (λ signing, negb (bool_decide (signing = sign_bytes pk))) true local.

Definition peer_card (en : Engine) (st : EngineState) (cid : ConversationId) : PeerCard :=
  let fallback := mkPeerCard dot_name None (EncryptionPublicKey_from_bytes [])
                    (SigningPublicKey_from_bytes []) (on_wire_prefs en) in
  match established_parent st cid with
  | None => fallback
  | Some parent =>
      let local := '(user, identity_id) ← owner st cid;
                   '(_, _, signing) ← identity_keys st user identity_id; Some signing in
      let of_invitee := from_option card_of_invitee fallback (invitee_intro_for st parent) in
      match inviter_intro_for st parent with
      | Some intro => if not_local local (ii_signing_pk intro) then card_of_inviter intro
                      else of_invitee
      | None => of_invitee
      end
  end.

(** * History *)

Definition HISTORY_CAP : nat := 1000.
Definition TYPING_SECS : N := 6.

Definition chat_item (payload : TxPayload) : option ChatItem :=
  match payload with
  | PText t => Some (ItemText t)
  | PEdit e => Some (ItemEdit e)
  | PRemove target => Some (ItemRemove target)
  | PReaction r => Some (ItemReaction r)
  | PRead up_to => Some (ItemRead up_to)
  | PDelivered up_to => Some (ItemDelivered up_to)
  | PMedia m => Some (ItemMedia m)
  | _ => None
  end.

Definition item_key (i : HistoryItem) : TxKey :=
  mkTxKey (wall_ms (hi_hlc i)) (counter (hi_hlc i)) (hi_tx_id i).

Definition trim_recent (items : list HistoryItem) : list HistoryItem :=
  let sorted := sort_by (λ a b, key_cmp (item_key a) (item_key b)) items in
  drop (length sorted - HISTORY_CAP) sorted.

Definition history_items (st : EngineState) (cid : ConversationId) (now : UnixSeconds)
    (senders : gmap Tag Actor) : list HistoryItem :=
  omap (λ '(id, tx),
      if branded_eq (db_conversation_id tx) cid && negb (expired_at (db_payload tx) now) then
        item ← chat_item (db_payload tx);
        Some (mkHistoryItem id (default Actor_Handshake (senders !! id)) (db_hlc tx) item
                (payload_expire_at (db_payload tx)))
      else None) (body_pairs st).

Definition history (st : EngineState) (cid : ConversationId) (now : UnixSeconds) :
    option (list HistoryItem) :=
  c ← established st cid; Some (trim_recent (history_items st cid now (ec_chat_senders c))).

(** * Conversations *)

Section Views.
Context `{Suite}.

Definition dm_view (en : Engine) (st : EngineState) (cid : ConversationId) :
    option DmEstablished :=
  let now := ticked_or_zero st in
  c ← established st cid;
  messages ← history st cid now;
  let typing :=
    note ← ec_typing c;
    if (cval now <? cval (sat_add (tn_at note) TYPING_SECS))%N
    then Some (mkTypingView (tn_composing note) (tn_at note)) else None in
  let parent := established_parent st cid in
  let notice := parent ≫= notice_for st in
  let card := peer_card en st cid in
  Some (mkDmEstablished card (default [] (n_persistents <$> notice))
          (default [] (n_ephemerals <$> notice))
          (default [] (fst <$> (parent ≫= try_fingerprint st)))
          (ec_presence_at c) typing (ec_presence_at c) (latest_marker st cid true)
          (latest_marker st cid false) (local_prefs en st cid) (peer_prefs (pcd_prefs card))
          messages).

Definition group_view (en : Engine) (st : EngineState) (cid : ConversationId) (phase : GroupPhase) :
    option GroupQuery :=
  match phase with
  | GroupIsOffer o =>
      Some (QGroupOffer (go_name o) (go_photo o) (go_owner_signing_pk o)
              (go_from_conversation_id o))
  | GroupIsFailed reason => Some (QGroupFailed reason)
  | GroupIsLive live =>
      view ← dm_view en st cid;
      Some (QGroupEstablished (mkGroupEstablishedView (gl_name live) (gl_photo live)
        (gl_owner_signing_pk live)
        (map (λ m, mkGroupMemberView (gm_signing_pk m) (gm_encryption_pk m) (gl_name live)
                     (gl_photo live)) (gl_members live))
        (map (λ p, mkGroupPendingView (gp_signing_pk p) (gp_from_conversation_id p) (gp_name p)
                     (gp_photo p)) (gl_pending live))
        (gl_persistents live) (gl_ephemerals live)
        (established st cid ≫= ec_presence_at) (local_prefs en st cid) (dm_messages view)))
  end.

Definition this_member (name : DisplayName) (keys : DeviceKeys) : SyncMemberView :=
  mkSyncMemberView (dk_id keys) (SigningPublicKey_from_bytes (skp_public (dk_sign keys)))
    (EncryptionPublicKey_from_bytes (kp_public (dk_enc keys))) name None.

Definition peer_member (peer : DeviceId) (card : PeerCard) (last_active : option UnixSeconds) :
    SyncMemberView :=
  mkSyncMemberView peer (pcd_signing_pk card) (pcd_encryption_pk card) (pcd_name card) last_active.

Definition sync_peer (kind : DeviceConversation) : option DeviceId :=
  match kind with RowSynchronization _ _ peer _ _ => Some peer | _ => None end.

(** The introduction of the other device of a sync. *)
Definition sync_card (st : EngineState) (parent : ConversationId) : option PeerCard :=
  let local := (λ keys, skp_public (dk_sign keys)) <$> dv_keys (es_device st) in
  let of_invitee := card_of_invitee <$> invitee_intro_for st parent in
  match inviter_intro_for st parent with
  | Some intro => if not_local local (ii_signing_pk intro) then Some (card_of_inviter intro)
                  else of_invitee
  | None => of_invitee
  end.

Definition sync_view (st : EngineState) (cid : ConversationId) : SyncEstablishedView :=
  let name := default dot_name (dv_name (es_device st)) in
  let parent := established_parent st cid in
  let notice := parent ≫= notice_for st in
  let last_active := established st cid ≫= ec_presence_at in
  let peer :=
    parent ← parent; peer ← device_row cid sync_peer st;
    card ← sync_card st parent; Some (peer_member peer card last_active) in
  mkSyncEstablishedView name
    (option_list (this_member name <$> dv_keys (es_device st)) ++ option_list peer)
    (default [] (n_persistents <$> notice)) (default [] (n_ephemerals <$> notice)) last_active.

Definition project_party (st : EngineState) (cid : ConversationId) (p : PartyRef) : Handshake :=
  let expires := tk_expires (on_party (λ k, party_ticket) p) in
  let digest := default [] (fst <$> try_fingerprint st cid) in
  let policy := default Classic (on_party (λ k, invitee_policy) p) in
  match on_party (λ k, kind) p with
  | K_InviteCreated => QInviter (QInviteCreated expires)
  | K_NoticePinned => QInviter (QNoticePinned expires)
  | K_InviterIntroMinted => QInviter (QInviterMinted expires)
  | K_Confirming =>
      if on_party (λ k, is_inviter) p then QInviter (QInviterConfirming expires digest)
      else QInvitee (QInviteeConfirming policy expires digest)
  | K_TicketReceived => QInvitee QTicketReceived
  | K_InviteReceived => QInvitee (QInviteReceived policy expires)
  | K_InviteeIntroMinted => QInvitee (QInviteeMinted policy expires)
  | K_IntroductionSent => QInvitee (QIntroductionSent policy expires)
  | K_Failed reason => QFailed reason
  end.

(** The outer [None] is a panic, the inner one a row that is not there. *)
Definition conversation_at (en : Engine) (st : EngineState) (cid : ConversationId) :
    option (option Conversation) :=
  match group_phase st cid with
  | Some phase => v ← group_view en st cid phase; Some (Some (ConvGroup v))
  | None =>
      if is_established st cid then
        if is_sync st cid then Some (Some (ConvSynchronization (sync_view st cid)))
        else v ← dm_view en st cid; Some (Some (ConvDirectMessage v))
      else
        match party st cid with
        | None => Some None
        | Some p =>
            let row := project_party st cid p in
            Some (Some (if is_sync st cid then ConvHandshakeSync row else ConvHandshakeDm row))
        end
  end.

Definition list_conversations (en : Engine) (st : EngineState) (user : UserId)
    (identity_id : IdentityId) : option (list (ConversationId * Conversation)) :=
  let at_ cid := match conversation_at en st cid with Some c => Some (cid, c) | None => None end in
  match mapM at_ (conversation_ids_for st user identity_id) with
  | Some rows =>
      Some (omap (λ row : ConversationId * option Conversation, (λ c, (row.1, c)) <$> row.2) rows)
  | None => None
  end.

Definition get_conversation (en : Engine) (st : EngineState) (cid : ConversationId) :
    option (result EngineError Conversation) := ok_or UnknownIds <$> conversation_at en st cid.

Definition confirmation_digest (st : EngineState) (ids : ConversationRef) : result EngineError str :=
  _ ← conv_secret st (cr_conversation_id ids);
  ok_or WrongPhase (fst <$> try_fingerprint st (cr_conversation_id ids)).

End Views.

Definition list_users (st : EngineState) : list UserId :=
  omap (λ b, match db_payload b with PEngineCreateUser u => Some u | _ => None end) (bodies st).

Definition list_identities (st : EngineState) (user_id : UserId) : list IdentityId :=
  omap (λ b, match db_payload b with
             | PEngineCreateIdentity u i _ _ _ => if branded_eq u user_id then Some i else None
             | _ => None
             end) (bodies st).

(** [ping_posts]: the endpoints that get an empty body. *)
Definition ping_posts (pings : list PingTarget) : list (str * bytes) :=
  omap (λ p, match strip_prefix (lit "https:") (pt_endpoint p) with
             | Some _ => Some (pt_endpoint p, [])
             | None => None
             end) pings.
