(* ===== verification/Session.v ===== *)
(** The conversation operations of the host: confirm and reject, chat and media, signals,
    preferences, deletion and write acknowledgements ([engine/session.rs];
    [set_conversation_prefs] is in [engine/identity.rs]).

    The result of a sending operation is its persist records and the peers to wake. *)

From stdpp Require Import base tactics list numbers option strings countable gmap.
From Stdlib Require Import Strings.Byte.
From S2P Require Import Prelude Text Ids Order Channel Defaults Payload Json Ports Codec.
From S2P Require Import Chain RowLog Party HealRange Bins State StateLaws Helpers Engine Ratchet.
From S2P Require Import Vault Directory Chat Heal Fingerprint Live Handshake Identity Groups.
From S2P Require Import Receive Ingest Views.

Record MediaDraft : Type := mkMediaDraft {
  md_media_bytes : bytes; md_mime : str; md_filename : str; md_kind : Kind; md_address : Address
}.

Section Session.
Context `{Suite, Rng}.

(** * Confirming a handshake *)

Definition is_confirming (c : Conversation) : bool :=
  match c with
  | ConvHandshakeDm (QInviter (QInviterConfirming _ _))
  | ConvHandshakeDm (QInvitee (QInviteeConfirming _ _ _))
  | ConvHandshakeSync (QInviter (QInviterConfirming _ _))
  | ConvHandshakeSync (QInvitee (QInviteeConfirming _ _ _)) => true
  | _ => false
  end.

Definition is_decision (cid : ConversationId) (b : DurableBody) : bool :=
  match db_payload b with PConfirm | PReject => branded_eq (db_conversation_id b) cid | _ => false end.

Definition require_confirming (ids : ConversationRef) : M unit :=
  st ← get_state;
  en ← get_engine;
  let cid := cr_conversation_id ids in
  c ← expect (conversation_at en st cid);
  lift (refuse_if (negb (from_option is_confirming false c)
                   || existsb (is_decision cid) (bodies st)) WrongPhase).

Definition spawn_child_m (cid : ConversationId) : M unit :=
  st ← get_state; st ← lift (spawn_child st cid); modify (λ _, st).

(** The inviter of a sync hands its data key over. *)
Definition send_sync_dek (cid : ConversationId) (secret : Secret) : M (list bytes) :=
  _ ← wrap_sync_dek cid;
  st ← get_state;
  ct ← lift (ok_or WrongPhase (dv_dek_ct (es_device st)));
  '(tx_id, _, rec) ← merge_tx secret cid (PSyncDek ct);
  _ ← post_handshake_packets cid secret tx_id;
  mret [rec].

Definition confirm_established (ids : ConversationRef) : M (list bytes) :=
  _ ← require_confirming ids;
  st ← get_state;
  let cid := cr_conversation_id ids in
  if is_sync st cid then
    secret ← lift (conv_secret st cid);
    persist ← mutate_on secret cid [PConfirm];
    _ ← spawn_child_m cid;
    extra ← (if state_is_inviter st cid then send_sync_dek cid secret else mret []);
    mret (persist ++ extra)
  else
    persist ← mint_on ids PConfirm;
    _ ← spawn_child_m cid;
    mret persist.

Definition reject_established (ids : ConversationRef) : M (list bytes) :=
  _ ← require_confirming ids;
  st ← get_state;
  let cid := cr_conversation_id ids in
  persist ← (if is_sync st cid
             then secret ← lift (conv_secret st cid); mutate_on secret cid [PReject]
             else mint_on ids PReject);
  _ ← modify (state_fail cid ConfirmationRejected);
  mret persist.

(** * Chat *)

(** The operations that mint one chat payload: gate, mint, remember, wake. *)
Definition send_chat (ids : ConversationRef) (payload : Engine → EngineState → TxPayload) :
    M (list bytes * list PingTarget) :=
  st ← get_state;
  en ← get_engine;
  let cid := cr_conversation_id ids in
  _ ← lift (gate_chat st ids);
  secret ← lift (conv_secret st cid);
  persist ← mint_on ids (payload en st);
  pings ← finish_chat cid secret (payload en st);
  mret (persist, pings).

Definition send_text (ids : ConversationRef) (body : str) (reply_to : option Tag) :
    M (list bytes * list PingTarget) :=
  _ ← lift (chat_text body);
  send_chat ids (λ en st, text_payload en st (cr_conversation_id ids) body reply_to).

Definition edit_message (ids : ConversationRef) (target : Tag) (body : str) :
    M (list bytes * list PingTarget) :=
  _ ← lift (chat_text body);
  send_chat ids (λ _ _, PEdit (mkTxEdit target body)).

Definition remove_message (ids : ConversationRef) (target : Tag) :
    M (list bytes * list PingTarget) := send_chat ids (λ _ _, PRemove target).

Definition send_reaction (ids : ConversationRef) (target : Tag) (emoji : str) (add : bool) :
    M (list bytes * list PingTarget) :=
  _ ← lift (chat_emoji emoji);
  send_chat ids (λ _ _, PReaction (mkTxReaction target emoji add)).

Definition send_read (ids : ConversationRef) (up_to : Tag) :
    M (list bytes * list PingTarget) := send_chat ids (λ _ _, PRead up_to).

Definition send_delivered (ids : ConversationRef) (up_to : Tag) :
    M (list bytes * list PingTarget) := send_chat ids (λ _ _, PDelivered up_to).

(** [send_typing] and [send_presence]. *)
Definition send_signal (ids : ConversationRef) (composing : option bool) : M (list bytes) :=
  st ← get_state;
  let cid := cr_conversation_id ids in
  _ ← lift (if is_sync st cid then Ok tt else require_ids st ids);
  _ ← lift (require_signal st cid);
  secret ← lift (conv_secret st cid);
  _ ← post_signal cid secret composing;
  mret [].

Definition send_typing (ids : ConversationRef) (composing : bool) : M (list bytes) :=
  send_signal ids (Some composing).
Definition send_presence (ids : ConversationRef) : M (list bytes) := send_signal ids None.

Definition set_group_name (ids : ConversationRef) (name : str) :
    M (list bytes * list PingTarget) := name ← lift (parse_name name); rename_group ids name.
Definition set_group_photo (ids : ConversationRef) (photo : option bytes) :
    M (list bytes * list PingTarget) := photo ← lift (parse_pic photo); rephoto_group ids photo.

Definition prefs_payload (prefs : ConversationPrefs) : TxPayload :=
  PPrefs (mkOnWirePrefs (cp_read_receipts prefs) (cp_online_visible prefs) (cp_send_typing prefs)
            (cp_disappear_after prefs) (cp_wake prefs)).

Definition set_conversation_prefs (ids : ConversationRef) (prefs : ConversationPrefs) :
    M (list bytes * list PingTarget) :=
  st ← get_state;
  let cid := cr_conversation_id ids in
  _ ← lift (gate_chat st ids);
  _ ← lift (group_disappear_blocked st ids (cp_disappear_after prefs));
  persist ← mint_on ids (prefs_payload prefs);
  st ← get_state;
  match group_live st cid with
  | Some _ =>
      secret ← lift (conv_secret st cid);
      pings ← finish_chat cid secret (prefs_payload prefs);
      mret (persist, pings)
  | None => mret (persist, [])
  end.

(** * Media *)

Definition media_key (secret : Secret) (hash : bytes) : AeadKey :=
  from_bytes (as_bytes (expand (from_bytes (as_bytes secret)) (blit "chuchotez/1/media" ++ hash))).

Definition seal_media (secret : Secret) (hash : Tag) (rnd : Random32) (plain : bytes) : bytes :=
  seal_under (media_key secret (cval (as_bytes hash))) rnd plain.

Definition open_media (st : EngineState) (cid : ConversationId) (hash : Tag) (blob : bytes) :
    result EngineError bytes :=
  secret ← conv_secret st cid;
  _ ← refuse_if (length blob <=? PACKET_NONCE_LEN)%nat MalformedPayload;
  plain ← ok_or MalformedPayload (open_under (media_key secret (cval (as_bytes hash))) blob);
  _ ← refuse_if (negb (branded_eq (digest_tag plain) hash)) MalformedPayload;
  Ok plain.

Definition media_names_ok (att : MediaDraft) : result EngineError unit :=
  _ ← media_name (md_mime att) 128; media_name (md_filename att) 256.

Fixpoint check_drafts (atts : list MediaDraft) : result EngineError unit :=
  match atts with [] => Ok tt | att :: atts => _ ← media_names_ok att; check_drafts atts end.

(** Queue the blob and word its transaction. *)
Definition put_media (cid : ConversationId) (secret : Secret) (caption : option str)
    (reply_to : option Tag) (att : MediaDraft) : M TxPayload :=
  let hash := digest_tag (md_media_bytes att) in
  tag_rnd ← random32;
  nonce_rnd ← random32;
  let tag : Tag := from_random32 tag_rnd in
  let blob := seal_media secret hash nonce_rnd (md_media_bytes att) in
  _ ← modify (λ st, with_blob_puts
        (es_blob_puts st ++ [mkBlobPut (md_kind att) (md_address att) tag blob]) st);
  st ← get_state;
  en ← get_engine;
  mret (PMedia (mkTxMedia (md_mime att) (md_filename att) hash (md_kind att) (md_address att) tag
                  caption reply_to (expire_at en st cid))).

Definition send_media (ids : ConversationRef) (attachments : list MediaDraft)
    (reply_to : option Tag) (caption : option str) : M (list bytes * list PingTarget) :=
  let cid := cr_conversation_id ids in
  _ ← lift (refuse_if (bool_decide (attachments = []) || (4 <? length attachments)%nat)
              MalformedPayload);
  _ ← lift (match caption with Some c => chat_text c | None => Ok tt end);
  _ ← lift (check_drafts attachments);
  st ← get_state;
  _ ← lift (gate_chat st ids);
  secret ← lift (conv_secret st cid);
  payloads ← map_m (put_media cid secret caption reply_to) attachments;
  persist ← mutate_on secret cid payloads;
  _ ← deliver_live cid secret payloads;
  _ ← for_each (λ payload, remember_sender cid (tx_id secret payload)) payloads;
  st ← get_state;
  pings ← expect (fill_ping st cid);
  mret (persist, pings).

(** * Deleting and acknowledging *)

(** What deleting a handshake leaves of its fragments and list bins. *)
Definition forget_handshake (cid : ConversationId) (t : Ticket) (st : EngineState) : EngineState :=
  let tag_key := handshake_tag_key (as_bytes (tk_secret t)) in
  let st := with_frags
    (filter (λ p, branded_eq (fs_conversation_id p.2) cid = false) (es_frags st)) st in
  with_bin_progress
    (fold_left (λ bins ch, delete (progress_key ch tag_key) bins) (tk_persistents t)
       (es_bin_progress st)) st.

Definition delete_conversation (ids : ConversationRef) : M (list bytes) :=
  let cid := cr_conversation_id ids in
  group ← delete_group ids;
  match group with
  | Some persist => mret persist
  | None =>
      st ← get_state;
      if is_established st cid then
        _ ← lift (if is_sync st cid then Ok tt else require_ids st ids);
        _ ← modify (λ st, (drop_conversation cid st).2);
        mret []
      else
        _ ← lift (require_ids st ids);
        t ← lift (ok_or UnknownIds (ticket st cid));
        _ ← modify (λ st, forget_handshake cid t (drop_conversation cid st).2);
        mret []
  end.

Definition is_write (channel : DurableChannel) (tag : Tag) (body : bytes) (w : DurableWrite) : bool :=
  bool_decide (dw_channel w = channel) && branded_eq (dw_tag w) tag && bool_decide (dw_body w = body).

Definition write_ack (channel : DurableChannel) (tag : Tag) (body : bytes) : M (list bytes) :=
  st ← get_state;
  let kept := filter (λ w, is_write channel tag body w = false) (es_writes st) in
  _ ← lift (refuse_if (Nat.eqb (length kept) (length (es_writes st))) UnknownWrite);
  _ ← modify (with_writes kept);
  _ ← advance_ack_phases;
  mret [].

End Session.
