(* ===== verification/Invite.v ===== *)
(** Invites and tickets of direct messages and of device links ([engine/invite.rs]). *)

From stdpp Require Import base tactics list numbers option strings countable gmap.
From Stdlib Require Import Strings.Byte.
From S2P Require Import Prelude Text Ids Order Channel Defaults Payload Json Ports Codec.
From S2P Require Import Chain RowLog Party HealRange Bins State StateLaws Helpers Engine Ratchet.
From S2P Require Import Vault Directory Chat Heal Fingerprint Live Handshake Identity.

(** Links and the handshakes that may still become one. *)
Definition sync_peer_count (st : EngineState) : nat :=
  length (filter (λ p,
    match p.2 with
    | RowSynchronization _ _ _ _ _ => true
    | RowSyncHandshake _ _ _ => negb (bool_decide (is_Some (child_of st p.1)))
    end = true) (entries (dv_conversations (es_device st)))).

Definition creates_any_user (p : TxPayload) : bool :=
  match p with PEngineCreateUser _ => true | _ => false end.

Section Invite.
Context `{Suite, Rng}.

(** * Tickets as text *)

Definition ticket_host_string (st : EngineState) (ids : ConversationRef) :
    result EngineError str :=
  t ← ok_or UnknownIds (ticket st (cr_conversation_id ids));
  let packed := compress (json_encode (ticket_to_json t)) in
  _ ← refuse_if (negb (N.of_nat (length packed) <=? TICKET_MAX_UNCOMPRESSED)%N) MalformedTicket;
  Ok (b64_encode packed).

Definition parse_ticket_host_string (s : str) : result EngineError Ticket :=
  packed ← ok_or MalformedTicket (b64_decode s);
  canonical ← map_err (λ _, MalformedTicket) (decompress packed TICKET_MAX_UNCOMPRESSED);
  json ← ok_or MalformedTicket (json_decode canonical);
  map_err (λ _, MalformedTicket) (ticket_from_json json).

(** * Inviting *)

(** [if expires <= now] and [check_channel_bounds(&persistents, &[])]. *)
Definition check_expires (now expires : UnixSeconds) : result EngineError unit :=
  refuse_if (cval expires <=? cval now)%N ExpiresNotAfterNow.

Definition check_persistents (persistents : list DurableChannel) : result EngineError unit :=
  map_err (λ _, ChannelBounds) (check_channel_bounds persistents []).

Definition notice_of (en : Engine) (policy : Policy) (intake : KeyPair)
    (persistents : list DurableChannel) (expires : UnixSeconds) : TxPayload :=
  PNotice (mkTxNotice policy (EncryptionPublicKey_from_bytes (kp_public intake)) persistents
             (df_ephemerals (en_defaults en)) expires).

Definition bump_seq (st : EngineState) : EngineState :=
  with_persist (sat_add (es_next_seq st) 1) (es_persist_log st) st.

(** Record the notice, put the row that will hold it, store it, change the state by [after],
    and post it. *)
Definition post_notice (cid : ConversationId) (secret : Secret) (now : UnixSeconds)
    (payload : TxPayload) (put after : EngineState → EngineState) : M (list bytes) :=
  st ← get_state;
  en ← get_engine;
  let id := tx_id secret payload in
  let b := mkDurableBody cid (hlc_at now) payload in
  persist ← lift (persist_record en (es_next_seq st) b);
  _ ← modify bump_seq;
  _ ← modify put;
  _ ← insert_body_m id b;
  _ ← modify after;
  _ ← post_handshake_packets cid secret id;
  mret [persist].

Definition create_invite (user_id : UserId) (identity_id : IdentityId) (expires : u64)
    (persistents : option (list DurableChannel)) : M (list bytes * ConversationId) :=
  st ← get_state;
  en ← get_engine;
  now ← lift (require_tick st);
  _ ← lift (check_expires now expires);
  let persistents := default (df_persistents (en_defaults en)) persistents in
  _ ← lift (check_persistents persistents);
  policy ← lift (identity_policy st user_id identity_id);
  cid_rnd ← random32;
  secret_rnd ← random32;
  let cid : ConversationId := from_random32 cid_rnd in
  let secret : Secret := from_random32 secret_rnd in
  intake ← generate_kem policy;
  persist ← post_notice cid secret now (notice_of en policy intake persistents expires)
    (put_dm_inviter user_id identity_id cid
       (InviteCreated (mkTicket secret persistents expires) intake (time_bin now))) id;
  mret (persist, cid).

(** The name is checked before anything is drawn. *)
Definition create_sync_invite (policy : Policy) (expires : u64) (device_name : str)
    (persistents : option (list DurableChannel)) : M (list bytes * ConversationId) :=
  st ← get_state;
  en ← get_engine;
  now ← lift (require_tick st);
  _ ← lift (refuse_if (4 <=? sync_peer_count st)%nat MemberCap);
  _ ← lift (check_expires now expires);
  name ← lift (parse_name device_name);
  let persistents := default (df_persistents (en_defaults en)) persistents in
  _ ← lift (check_persistents persistents);
  cid_rnd ← random32;
  secret_rnd ← random32;
  let cid : ConversationId := from_random32 cid_rnd in
  let secret : Secret := from_random32 secret_rnd in
  _ ← ensure_device_keys policy;
  intake ← generate_kem policy;
  persist ← post_notice cid secret now (notice_of en policy intake persistents expires)
    (put_sync_inviter cid
       (InviteCreated (mkTicket secret persistents expires) intake (time_bin now)))
    (set_device_field (with_dv_name (Some name)));
  mret (persist, cid).

(** * Receiving a ticket *)

(** The invitee's first phase under a drawn conversation id. *)
Definition put_ticket (ticket_host_string : str)
    (put : ConversationId → InviteePhase → EngineState → EngineState) : M ConversationId :=
  st ← get_state;
  now ← lift (require_tick st);
  t ← lift (parse_ticket_host_string ticket_host_string);
  rnd ← random32;
  _ ← modify (put (from_random32 rnd) (TicketReceived t (time_bin now)));
  mret (from_random32 rnd).

Definition receive_ticket (user_id : UserId) (identity_id : IdentityId)
    (ticket_host_string : str) : M ConversationId :=
  put_ticket ticket_host_string (put_dm_invitee user_id identity_id).

Definition receive_sync_ticket (ticket_host_string : str) : M ConversationId :=
  st ← get_state;
  _ ← lift (refuse_if (has_payload creates_any_user st) EmptyEngineRequired);
  put_ticket ticket_host_string put_sync_invitee.

End Invite.
