(* ===== verification/Poll.v ===== *)
(** The clock and the mapper work for the ticked now ([engine/poll.rs], with the [Poll]
    type of [engine/query.rs]). *)

From stdpp Require Import base tactics list numbers option strings countable gmap.
From Stdlib Require Import Strings.Byte.
From S2P Require Import Prelude Text Ids Order Channel Defaults Payload Json Ports Codec.
From S2P Require Import Chain RowLog Party HealRange Bins State StateLaws Helpers Engine Ratchet.
From S2P Require Import Vault Directory Chat Heal Fingerprint Live Handshake Identity Invite Ingest.

(** * Ticking *)

(** The handshakes whose invite has run out: not failed, past [expires], not confirmed. *)
Definition confirmed (st : EngineState) (cid : ConversationId) : bool :=
  existsb (λ b, match db_payload b with
                | PConfirm => branded_eq (db_conversation_id b) cid
                | _ => false
                end) (bodies st).

Definition expired_handshakes (st : EngineState) (now : UnixSeconds) :
    list (ConversationId * UnixSeconds) :=
  omap (λ '(cid, t, _),
      if bool_decide (is_Some (failed st cid)) || (cval now <=? cval (tk_expires t))%N
         || confirmed st cid then None
      else Some (cid, tk_expires t)) (handshake_rows st).

Definition expire_handshakes (now : UnixSeconds) (st : EngineState) : EngineState :=
  fold_left (λ st '(cid, expires), state_fail cid (InviteExpired expires) st)
    (expired_handshakes st now) st.

(** The clock is set and the remembered keys that have run out are dropped. *)
Definition set_clock (now : UnixSeconds) (st : EngineState) : EngineState :=
  each_chains_mut (retain_mks (λ e, (cval now <? cval (cm_expires_at e))%N))
    (with_ticked (Some now) st).

Section Tick.
Context `{Suite, Rng}.

Definition tick (now : u64) : M (list bytes) :=
  st ← get_state;
  en ← get_engine;
  _ ← lift (require_dek en);
  _ ← lift (refuse_if (from_option (λ prev, (cval now <? cval prev)%N) false (es_ticked st))
              ClockWentBackwards);
  _ ← modify (set_clock now);
  _ ← modify (expire_handshakes now);
  _ ← flush_heal;
  _ ← flush_live;
  mret [].

End Tick.

(** * Polling *)

Record BlobGet : Type := mkBlobGet { bget_kind : Kind; bget_address : Address; bget_tag : Tag }.

(** [missing] has one value. *)
Record BlockedIdentity : Type := mkBlockedIdentity {
  bi_user_id : UserId; bi_identity_id : IdentityId
}.

Record Poll : Type := mkPoll {
  pl_list : list DurableLocator; pl_listen_durable : list DurableLocator;
  pl_write_durable : list DurableWrite; pl_write_ephemeral : list EphemeralWrite;
  pl_blob_put : list BlobPut; pl_blob_get : list BlobGet; pl_blocked : list BlockedIdentity
}.

(** Media whose blob is not waiting to be put from here. *)
Definition blob_gets (st : EngineState) : list BlobGet :=
  omap (λ b, match db_payload b with
             | PMedia m =>
                 if existsb (λ put, bool_decide (bput_kind put = m_kind m)
                                    && bool_decide (bput_address put = m_address m)
                                    && branded_eq (bput_tag put) (m_tag m)) (es_blob_puts st)
                 then None
                 else Some (mkBlobGet (m_kind m) (m_address m) (m_tag m))
             | _ => None
             end) (bodies st).

Definition blocked_identities (st : EngineState) : list BlockedIdentity :=
  omap (λ b, match db_payload b with
             | PEngineCreateIdentity user_id identity_id _ _ _ =>
                 match display_name st identity_id with
                 | None => Some (mkBlockedIdentity user_id identity_id)
                 | Some _ => None
                 end
             | _ => None
             end) (bodies st)
  ++ (if negb (bool_decide (is_Some (dv_name (es_device st))))
         && negb (has_payload creates_any_user st) && has_sync_handshake st
      then [mkBlockedIdentity (from_bytes (fill 32 x00)) (from_bytes (fill 32 x00))] else []).

(** A handshake is polled while its introduction is not known to have arrived. *)
Definition polled (st : EngineState) (row : HandshakeEntry) : bool :=
  bool_decide (is_Some (on_party (λ k, party_failure) (hse_party row)))
  || negb (intro_watermarked st (hse_cid row)).

Section Poll.
Context `{Suite}.

(** The bins to list on one channel: incomplete ones since the start, and those around now. *)
Definition list_bins (progress : option BinProgress) (list_from w : TimeBin) : list TimeBin :=
  bin_set (filter (λ bin, bin_complete progress bin = false)
             (bins_between (catch_up_start progress list_from) (sat_add w 1))
           ++ listen_bins w).

Definition row_locators (bins : DurableChannel → list TimeBin) (t : Ticket) :
    list DurableLocator :=
  flat_map (λ ch, map (λ bin, mkDurableLocator ch (invite_tag (as_bytes (tk_secret t)) bin))
                    (bins ch)) (tk_persistents t).

Definition row_list (st : EngineState) (w : TimeBin) (row : HandshakeEntry) : list DurableLocator :=
  let t := on_party (λ k, party_ticket) (hse_party row) in
  let tag_key := handshake_tag_key (as_bytes (tk_secret t)) in
  row_locators (λ ch, list_bins (es_bin_progress st !! progress_key ch tag_key)
                        (on_party (λ k, party_list_from) (hse_party row)) w) t.

Definition row_listen (w : TimeBin) (row : HandshakeEntry) : list DurableLocator :=
  row_locators (λ _, listen_bins w) (on_party (λ k, party_ticket) (hse_party row)).

Definition polled_rows (st : EngineState) : list HandshakeEntry :=
  filter (λ row, polled st row = true) (handshake_entries st).

(** The tags of every member of every live group. *)
Definition group_listen (st : EngineState) (w : TimeBin) : list DurableLocator :=
  flat_map (λ '(_, _, ident),
      flat_map (λ kind,
          match kind with
          | RowGroup (GroupIsLive live) =>
              flat_map (λ member,
                  flat_map (λ ch,
                      map (λ bin, mkDurableLocator ch
                             (bin_tag (gm_send_tag_key member) (default [] (persist_label Group)) bin))
                        (listen_bins w)) (gl_persistents live)) (gl_members live)
          | _ => []
          end) (values (id_conversations ident))) (idents st).

(** [sort_durable_locators(l); l.dedup()]. *)
Definition locators (l : list DurableLocator) : list DurableLocator :=
  dedup (sort_durable_locators l).

Definition append_group_listen (st : EngineState) (w : TimeBin) (listen : list DurableLocator) :
    list DurableLocator := locators (listen ++ group_listen st w).

Definition poll (st : EngineState) : result EngineError Poll :=
  now ← require_tick st;
  let w := time_bin now in
  Ok (mkPoll
        (locators (flat_map (row_list st w) (polled_rows st)))
        (append_group_listen st w (locators (flat_map (row_listen w) (polled_rows st))))
        (sort_durable_writes (es_writes st)) (sort_ephemeral_writes (es_eph_writes st))
        (es_blob_puts st) (blob_gets st) (blocked_identities st)).

End Poll.
