(* ===== verification/Steady.v ===== *)
(** What the engine leaves alone while it sends, stores, reseals and probes: whose a
    conversation is, its party and its phase, its group's members and secret, the clock
    ([steady] of [Skeleton.v]), and every transaction that was stored; and, while it mints in a
    conversation, the keys of every identity. *)

From stdpp Require Import base tactics list numbers option strings countable gmap.
From Stdlib Require Import Strings.Byte.
From S2P Require Import Prelude Text Ids Order Channel Defaults Payload Json Ports Codec.
From S2P Require Import Chain RowLog Party HealRange Bins State StateLaws Frags Helpers HelpersLaws Engine.
From S2P Require Import Frame Ratchet RatchetLaws Vault VaultLaws Directory Skeleton Chat Heal HealLaws.
From S2P Require Import Fingerprint Live LiveLaws Handshake Identity Groups.

Record Steady (w w' : World) : Prop := mkSteadyRun {
  sd_rows : steady (w_state w) (w_state w');
  sd_store : Located (w_state w) → Located (w_state w') ∧ stored (w_state w) ⊆ stored (w_state w')
}.

#[export] Instance Steady_preorder : PreOrder Steady.
Proof.
  split; [by split|]. intros w1 w2 w3 [A1 A2] [B1 B2]. split; [by etrans|].
  intros [HL HS]%A2. apply B2 in HL as [HL' HS']. split; [done|by etrans].
Qed.

Lemma steady_same en n n' en' st st' :
  steady st st' → same_store st st' → Steady (mkWorld en st n) (mkWorld en' st' n').
Proof.
  intros HS HSt. split; [done|]. intros HL. cbn [w_state] in *.
  destruct (same_store_located _ _ HSt HL) as [HL' Hs]. split; [done|]. by rewrite Hs.
Qed.

Lemma steady_modify f : (∀ st, steady st (f st) ∧ same_store st (f st)) → Evolves Steady (modify f).
Proof. intros Hf [en st n]. apply steady_same; apply Hf. Qed.

(** From a run that has been seen to its end. *)
Lemma steady_run {A} {m : M A} {w w' : World} {r} `{!Evolves Steady m} : m w = (w', r) → Steady w w'.
Proof. intros HR. pose proof (evolves (R := Steady) (m := m) w) as HS. by rewrite HR in HS. Qed.

Lemma idle_steady {A} (m : M A) : Evolves idle m → Evolves Steady m.
Proof. intros Hm w. pose proof (Hm w) as [_ HS]. split; by rewrite HS. Qed.

Lemma store_durable_kept cid actor xor st :
  steady st (store_durable_last_ack cid actor xor st) ∧ same_store st (store_durable_last_ack cid actor xor st).
Proof.
  unfold store_durable_last_ack. repeat case_match; try done.
  split; [apply steady_chains_mut|apply chains_mut_same_store].
Qed.

Ltac steady_state :=
  intros; first
    [ split; [apply steady_chains_mut|apply chains_mut_same_store]
    | split; [apply steady_established_mut|apply established_mut_same_store]
    | apply store_durable_kept | by split ].
#[export] Hint Extern 5 (Evolves Steady (modify _)) => apply steady_modify; solve [steady_state] : evolve.

Section Kept.
Context `{Suite, Rng}.

#[export] Instance random32_steady : Evolves Steady random32.
Proof. by intros w. Qed.
#[export] Instance random_seed_steady : Evolves Steady random_seed.
Proof. unfold random_seed. evolve. Qed.
#[export] Instance seal_packet_m_steady {K} `{PacketAeadKey K} (key : K) p :
  Evolves Steady (seal_packet_m key p).
Proof. unfold seal_packet_m. evolve. Qed.

(** ** Storing *)

(** A new transaction is stored under an id that was free. *)
#[export] Instance merge_tx_steady secret cid payload : Evolves Steady (merge_tx secret cid payload).
Proof.
  intros w. unfold merge_tx, store_new, require_tick. run.
  destruct (es_ticked (w_state w)) as [now|]; cbn [ok_or]; run; [|done]. cbv zeta.
  destruct (body (w_state w) _) as [e|] eqn:Hb; [case_decide; [|done]; run; rewrite lift_bind; by destruct (persist_record _ _ _)|].
  run. rewrite lift_bind. destruct (persist_record _ _ _); run; [|done]. rewrite bind_run. unfold insert_body_m.
  cbn [w_engine w_state w_draws]. set (id := tx_id secret payload) in *. set (b := mkDurableBody _ _ _).
  pose proof (insert_body_located (log_persist id (w_state w)) id b) as HI.
  assert (steady (w_state w) (insert_body id b (log_persist id (w_state w))).1) as HR.
  { etrans; [apply rows_steady, (log_persist_rows id)|apply steady_insert_body]. }
  assert (Steady w (mkWorld (w_engine w) (insert_body id b (log_persist id (w_state w))).1 (w_draws w))) as HT.
  { split; [exact HR|]. intros HL. specialize (HI HL).
    assert (stored (w_state w) !! id = None) as HN by by rewrite stored_lookup.
    destruct (insert_body _ _ _) as [st r]. destruct HI as (HL' & _ & HS). split; [done|]. cbn [w_state fst].
    rewrite HS. case_match; [by apply insert_subseteq|by rewrite delete_id]. }
  destruct (insert_body _ _ _) as [st [[]|e]]; exact HT.
Qed.
#[export] Instance mutate_on_steady secret cid payloads : Evolves Steady (mutate_on secret cid payloads).
Proof. unfold mutate_on. evolve. Qed.

(** ** Posting *)

#[export] Instance push_writes_steady channels tag body : Evolves Steady (push_writes channels tag body).
Proof. unfold push_writes. evolve. Qed.
#[export] Instance push_eph_writes_steady channels tag body : Evolves Steady (push_eph_writes channels tag body).
Proof. unfold push_eph_writes. evolve. Qed.
#[export] Instance write_fragments_steady fuel cid persistents tag tx_id set_xor actor since packed i chain :
  Evolves Steady (write_fragments fuel cid persistents tag tx_id set_xor actor since packed i chain).
Proof.
  revert packed i chain. induction fuel as [|fuel IH]; intros packed i chain; cbn [write_fragments];
    unfold note_sent_packet; evolve.
Qed.
#[export] Instance write_chain_packets_steady cid sort persistents tag tx_id actor since :
  Evolves Steady (write_chain_packets cid sort persistents tag tx_id actor since).
Proof. unfold write_chain_packets. evolve. Qed.
#[export] Instance absorb_peer_wraps_m_steady cid : Evolves Steady (absorb_peer_wraps_m cid).
Proof.
  intros [en st n]. unfold absorb_peer_wraps_m. run.
  destruct (absorb_peer_wraps cid st) as [st'|] eqn:E; cbn; [|done].
  apply steady_same.
  - revert E. apply (absorb_along steady); [apply _|]. intros. apply steady_established_mut.
  - revert E. apply (absorb_along same_store); [apply _|]. intros. apply established_mut_same_store.
Qed.
#[export] Instance post_handshake_packets_steady cid secret tx_id :
  Evolves Steady (post_handshake_packets cid secret tx_id).
Proof. unfold post_handshake_packets. evolve. Qed.

#[export] Instance push_eph_steady route now body : Evolves Steady (push_eph route now body).
Proof. unfold push_eph. evolve. Qed.
#[export] Instance push_durable_steady route now body : Evolves Steady (push_durable route now body).
Proof. unfold push_durable. evolve. Qed.
#[export] Instance choose_owed_steady cid policy : Evolves Steady (choose_owed cid policy).
Proof. apply idle_steady, _. Qed.
#[export] Instance mint_if_owed_steady cid secret : Evolves Steady (mint_if_owed cid secret).
Proof. unfold mint_if_owed, expect_established_mut. evolve. Qed.
#[export] Instance probe_presence_steady cid route chain now :
  Evolves Steady (probe_presence cid route chain now).
Proof. unfold probe_presence, expect_established_mut. evolve. Qed.
#[export] Instance live_fragments_steady fuel cid route now wait key tx_id set_xor packed i chain durable :
  Evolves Steady (live_fragments fuel cid route now wait key tx_id set_xor packed i chain durable).
Proof.
  revert packed i chain durable. induction fuel as [|fuel IH]; intros; cbn [live_fragments];
    unfold note_sent_packet; evolve.
Qed.
#[export] Instance post_fragments_steady cid route now wait chain tx_id :
  Evolves Steady (post_fragments cid route now wait chain tx_id).
Proof. unfold post_fragments, expect_established_mut. evolve. Qed.
#[export] Instance post_live_at_steady fuel cid secret tx_id payload :
  Evolves Steady (post_live_at fuel cid secret tx_id payload).
Proof. revert tx_id payload. induction fuel as [|fuel IH]; intros; cbn [post_live_at]; evolve. Qed.
#[export] Instance post_live_steady cid secret tx_id payload : Evolves Steady (post_live cid secret tx_id payload).
Proof. apply post_live_at_steady. Qed.
#[export] Instance deliver_live_steady cid secret payloads : Evolves Steady (deliver_live cid secret payloads).
Proof. unfold deliver_live. evolve. Qed.
#[export] Instance flush_live_steady : Evolves Steady flush_live.
Proof. unfold flush_live, flush_live_row, expect_established_mut. evolve. Qed.
#[export] Instance mint_on_steady ids payload : Evolves Steady (mint_on ids payload).
Proof. unfold mint_on. evolve. Qed.

(** ** Reconciling *)

#[export] Instance post_probes_steady ids tag durable eph origin use_eph probes cursor ready :
  Evolves Steady (post_probes ids tag durable eph origin use_eph probes cursor ready).
Proof.
  revert cursor ready. induction probes as [|p probes IH]; intros; cbn [post_probes]; evolve.
Qed.
#[export] Instance post_heal_steady cid : Evolves Steady (post_heal cid).
Proof. unfold post_heal, expect_chains_mut. evolve. Qed.
#[export] Instance flush_heal_steady : Evolves Steady flush_heal.
Proof. unfold flush_heal, flush_heal_row, commit_ready. evolve. Qed.

(** ** Groups *)

#[export] Instance seal_to_steady info policy pk plain : Evolves Steady (seal_to info policy pk plain).
Proof. unfold seal_to. evolve. Qed.
#[export] Instance seal_group_secret_steady policy pk plain : Evolves Steady (seal_group_secret policy pk plain).
Proof. exact (seal_to_steady GROUP_SECRET_INFO policy pk plain). Qed.
#[export] Instance new_member_steady pk enc : Evolves Steady (new_member pk enc).
Proof. unfold new_member. evolve. Qed.
#[export] Instance sign_roster_steady keys epoch members : Evolves Steady (sign_roster keys epoch members).
Proof. unfold sign_roster. evolve. Qed.
#[export] Instance merge_and_post_steady cid secret payload : Evolves Steady (merge_and_post cid secret payload).
Proof. unfold merge_and_post. evolve. Qed.
#[export] Typeclasses Opaque seal_group_secret.
#[export] Instance post_roster_steady ids : Evolves Steady (post_roster ids).
Proof. unfold post_roster. evolve. Qed.

End Kept.

(** * Whose keys are whose

    Nothing the engine stores while it mints in a conversation creates an identity, so what
    an identity's keys are does not change on the way. *)

Definition creation (b : DurableBody) : option DurableBody :=
  match db_payload b with PEngineCreateIdentity _ _ _ _ _ => Some b | _ => None end.

Record Keyed (w w' : World) : Prop := mkKeyed {
  ke_store : Located (w_state w) →
    Located (w_state w') ∧ omap creation (stored (w_state w')) = omap creation (stored (w_state w))
}.

#[export] Instance Keyed_preorder : PreOrder Keyed.
Proof.
  split; [by split|]. intros w1 w2 w3 [A] [B]. split. intros [HL HS]%A. apply B in HL as [HL' HS'].
  split; [done|congruence].
Qed.

Lemma keyed_same en n n' en' st st' : same_store st st' → Keyed (mkWorld en st n) (mkWorld en' st' n').
Proof.
  intros HSt. split. intros HL. cbn [w_state] in *.
  destruct (same_store_located _ _ HSt HL) as [HL' Hs]. split; [done|]. by rewrite Hs.
Qed.

Lemma keyed_idle w w' : w_state w' = w_state w → Keyed w w'.
Proof. intros HI. split. by rewrite HI. Qed.

Lemma keyed_modify f : (∀ st, same_store st (f st)) → Evolves Keyed (modify f).
Proof. intros Hf [en st n]. apply keyed_same, Hf. Qed.

Lemma keyed_run {A} {m : M A} {w w' : World} {r} `{!Evolves Keyed m} : m w = (w', r) → Keyed w w'.
Proof. intros HR. pose proof (evolves (R := Keyed) (m := m) w) as HS. by rewrite HR in HS. Qed.

#[export] Hint Extern 5 (Evolves Keyed (modify _)) =>
  apply keyed_modify; intros;
  solve [apply chains_mut_same_store|apply established_mut_same_store|apply store_durable_kept|done] : evolve.

(** The keys of an identity are read off the creations. *)
Lemma created_identity_keyed st st' user iid :
  omap creation (stored st') = omap creation (stored st) →
  created_identity st' user iid = created_identity st user iid.
Proof.
  intros HE. unfold created_identity. set (g := λ b, match db_payload b with PEngineCreateIdentity _ _ _ _ _ => _ | _ => _ end).
  assert (∀ s, find_map g (bodies s) = find_map g (map snd (entries (omap creation (stored s))))) as HG.
  { intros s. rewrite entries_omap. unfold bodies, body_pairs.
    induction (entries (stored s)) as [|[id b] l IH]; [done|]. cbn [map find_map omap list_omap snd].
    unfold creation at 1, g at 1. destruct (db_payload b) eqn:HP; cbn [fmap option_fmap option_map map find_map snd];
      try exact IH. unfold g at 2. rewrite HP. by destruct (_ && _). }
  by rewrite !HG, HE.
Qed.

Lemma identity_secret_keyed w w' user iid :
  Keyed w w' → Located (w_state w) →
  identity_secret (w_state w') user iid = identity_secret (w_state w) user iid.
Proof.
  intros [HK] HL. apply HK in HL as [_ HS]. unfold identity_secret.
  by rewrite (created_identity_keyed _ _ _ _ HS).
Qed.

Section Keyed.
Context `{Suite, Rng}.

Lemma merge_tx_keyed secret cid payload :
  (∀ h, creation (mkDurableBody cid h payload) = None) → Evolves Keyed (merge_tx secret cid payload).
Proof.
  intros HC w. pose proof (evolves (R := Steady) (m := merge_tx secret cid payload) w) as HSt. revert HSt.
  unfold merge_tx, store_new, require_tick. run.
  destruct (es_ticked (w_state w)) as [now|]; cbn [ok_or]; run; [|done]. cbv zeta.
  destruct (body (w_state w) _) as [e|] eqn:Hb; [case_decide; [|done]; run; rewrite lift_bind; by destruct (persist_record _ _ _)|].
  run. rewrite lift_bind. destruct (persist_record _ _ _); run; [|done]. rewrite bind_run. unfold insert_body_m.
  cbn [w_engine w_state w_draws]. set (id := tx_id secret payload) in *. set (b := mkDurableBody _ _ _).
  pose proof (insert_body_located (log_persist id (w_state w)) id b) as HI. intros _.
  assert (Keyed w (mkWorld (w_engine w) (insert_body id b (log_persist id (w_state w))).1 (w_draws w))) as HT.
  { split. intros HL. specialize (HI HL).
    assert (stored (w_state w) !! id = None) as HN by by rewrite stored_lookup.
    destruct (insert_body _ _ _) as [st r]. destruct HI as (HL' & _ & HS). split; [done|]. cbn [w_state fst].
    rewrite HS. case_match; [|by rewrite delete_id].
    rewrite omap_insert_None by apply HC. apply delete_id. by rewrite lookup_omap, HN. }
  destruct (insert_body _ _ _) as [st [[]|e]]; exact HT.
Qed.

Lemma ratchet_creation cid h p : ratchet_payload p = true → creation (mkDurableBody cid h p) = None.
Proof. by destruct p. Qed.

#[export] Instance seal_packet_m_keyed {K} `{PacketAeadKey K} (key : K) p : Evolves Keyed (seal_packet_m key p).
Proof. unfold seal_packet_m, random32. evolve. by intros w. Qed.
#[export] Instance push_writes_keyed channels tag body : Evolves Keyed (push_writes channels tag body).
Proof. unfold push_writes. evolve. Qed.
#[export] Instance push_eph_writes_keyed channels tag body : Evolves Keyed (push_eph_writes channels tag body).
Proof. unfold push_eph_writes. evolve. Qed.
#[export] Instance push_eph_keyed route now body : Evolves Keyed (push_eph route now body).
Proof. unfold push_eph. evolve. Qed.
#[export] Instance push_durable_keyed route now body : Evolves Keyed (push_durable route now body).
Proof. unfold push_durable. evolve. Qed.
#[export] Instance probe_presence_keyed cid route chain now : Evolves Keyed (probe_presence cid route chain now).
Proof. unfold probe_presence, expect_established_mut. evolve. Qed.
#[export] Instance mint_if_owed_keyed cid secret : Evolves Keyed (mint_if_owed cid secret).
Proof.
  intros w. unfold mint_if_owed. run. repeat (case_match; [done|]). destruct (conversation_policy _ _); [|done].
  rewrite bind_run. pose proof (evolves (R := idle) (m := choose_owed cid p) w) as [_ HI].
  destruct (choose_owed cid p w) as [w1 [[minted|]|e]] eqn:HCh; cbn [fst] in HI; run; try by apply keyed_idle.
  etrans; [by apply keyed_idle|].
  match goal with |- Keyed _ (?m w1).1 => enough (Evolves Keyed m) as HEv by apply HEv end.
  apply (evolves_bind _).
  - apply merge_tx_keyed. intros h. apply ratchet_creation. by eapply choose_owed_payload.
  - unfold expect_established_mut. evolve.
Qed.
#[export] Instance live_fragments_keyed fuel cid route now wait key tx_id set_xor packed i chain durable :
  Evolves Keyed (live_fragments fuel cid route now wait key tx_id set_xor packed i chain durable).
Proof.
  revert packed i chain durable. induction fuel as [|fuel IH]; intros; cbn [live_fragments];
    unfold note_sent_packet; evolve.
Qed.
#[export] Instance post_fragments_keyed cid route now wait chain tx_id :
  Evolves Keyed (post_fragments cid route now wait chain tx_id).
Proof. unfold post_fragments, expect_established_mut. evolve. Qed.
#[export] Instance post_live_at_keyed fuel cid secret tx_id payload :
  Evolves Keyed (post_live_at fuel cid secret tx_id payload).
Proof. revert tx_id payload. induction fuel as [|fuel IH]; intros; cbn [post_live_at]; evolve. Qed.
#[export] Instance deliver_live_keyed cid secret payloads : Evolves Keyed (deliver_live cid secret payloads).
Proof. unfold deliver_live, post_live. evolve. Qed.

Lemma mint_on_keyed ids payload :
  (∀ h, creation (mkDurableBody (cr_conversation_id ids) h payload) = None) → Evolves Keyed (mint_on ids payload).
Proof.
  intros HC. unfold mint_on, mutate_on. cbn [map_m].
  pose proof (λ secret, merge_tx_keyed secret (cr_conversation_id ids) payload HC) as HM. evolve.
Qed.

End Keyed.
