(* ===== verification/GroupLaws.v ===== *)
(** What the group operations of [Groups.v] guarantee: a roster the owner signs is installed
    by every member as it was signed, kicking takes exactly one member out, and what a new
    member hears. *)

From stdpp Require Import base tactics list numbers option strings countable gmap.
From Stdlib Require Import Strings.Byte.
From S2P Require Import Prelude Text Ids Order Channel Defaults Payload Json Ports Codec TestDoubles.
From S2P Require Import Chain RowLog Party HealRange Bins State StateLaws Frags Helpers HelpersLaws Engine.
From S2P Require Import Frame Ratchet RatchetLaws Vault VaultLaws Directory Skeleton Samples Chat Heal HealLaws.
From S2P Require Import Fingerprint Live LiveLaws Handshake Identity Groups Receive Steady.

(** * A group's phase after a change *)

Lemma group_phase_mut_lookup cid f st c :
  group_phase (group_phase_mut cid f st) c =
    if decide (c = cid) then f <$> group_phase st c else group_phase st c.
Proof.
  unfold group_phase_mut, group_phase. destruct (scan (row cid group_phase_of) st) as [[[u i] p]|] eqn:E.
  - rewrite (scan_row_alter _ _ _ _ _ _ f) by by intros [| |]. case_decide as HC.
    + subst c. rewrite E. cbn. by rewrite decide_True.
    + destruct (scan (row c group_phase_of) st) as [[[u' i'] p']|]; cbn; [|done].
      by rewrite decide_False by naive_solver.
  - case_decide as HC; [|done]. subst c. by rewrite E.
Qed.

Lemma group_live_mut_lookup cid f st c :
  group_live (live_mut cid f st) c = if decide (c = cid) then f <$> group_live st c else group_live st c.
Proof.
  unfold group_live, live_mut. rewrite group_phase_mut_lookup. case_decide; [|done].
  by destruct (group_phase st c) as [[]|].
Qed.

Lemma live_mut_same_store cid f st :
  (∀ g, gl_log (f g) = gl_log g) → same_store st (live_mut cid f st).
Proof.
  intros Hf. unfold live_mut, group_phase_mut. destruct (scan _ st) as [[[u i] p]|]; [|done].
  apply alter_row_same_store. intros [| |[]] id; cbn; try done. by rewrite Hf.
Qed.

(** What the roster and the terms of a live group are, without its log and chains. *)
Definition group_face (st : EngineState) (cid : ConversationId) : option GroupLive :=
  bare_live <$> group_live st cid.

Lemma group_face_run {A} {m : M A} {w w' r} cid `{!Evolves Steady m} :
  m w = (w', r) → group_face (w_state w') cid = group_face (w_state w) cid.
Proof. intros HR. apply steady_group, (sd_rows _ _ (steady_run HR)). Qed.

Section GroupLaws.
Context `{Suite, Rng}.

(** * Rosters *)

(** The roster [sign_roster] makes carries what it was given. *)
Lemma sign_roster_fields keys epoch members w w' roster :
  sign_roster keys epoch members w = (w', Ok roster) →
  gr_epoch roster = epoch ∧ gr_members roster = members ∧
  ∃ rnd, sign_sign (ik_policy keys) (ik_sign_sk keys)
           (roster_bytes (unsigned_roster (ik_policy keys) roster)) rnd = Some (gr_sig roster).
Proof.
  unfold sign_roster. run. rewrite lift_bind. destruct (sign_sign _ _ _ _) as [sig|] eqn:E; [|done].
  cbn [ok_or]. run. intros [= <- <-]. split_and!; [done..|]. by exists (draw (w_draws w)).
Qed.

Lemma verify_signed `{!SignLaws} seed kp keys epoch members w w' roster :
  sign_generate (ik_policy keys) seed = Some kp → ik_sign_sk keys = skp_secret kp →
  sign_roster keys epoch members w = (w', Ok roster) → verify_roster (skp_public kp) roster = Ok tt.
Proof.
  intros HG HSk (_ & _ & rnd & HS)%sign_roster_fields. rewrite HSk in HS. unfold verify_roster.
  pose proof (sign_verify_sign _ _ _ _ _ _ HG HS) as HV.
  rewrite (proj2 (existsb_exists _ _)); [done|]. exists (ik_policy keys). split; [|exact HV].
  destruct (ik_policy keys); cbn; auto.
Qed.

(** What a member's row becomes on a roster: its own key decides. *)
Definition roster_phase (en : Engine) (mine : bytes) (owner_pk : SigningPublicKey) (secret : Secret)
    (name : DisplayName) (photo : option ProfilePic) (log : TxLog LiveGroupTx) (roster : TxGroupRoster) :
    GroupPhase :=
  if existsb (λ m, bool_decide (sign_bytes (gm_signing_pk m) = mine)) (gr_members roster)
  then GroupIsLive (mkGroupLive secret name photo owner_pk (df_persistents (en_defaults en))
         (df_ephemerals (en_defaults en)) (gr_members roster) [] (gr_epoch roster) log EstablishedChains_default)
  else GroupIsFailed Kicked.

Lemma note_roster_verified cid roster w user iid owner_pk secret name photo log mine :
  owner (w_state w) cid = Some (user, iid) →
  group_phase (w_state w) cid ≫= group_terms = Some (owner_pk, secret, name, photo, log) →
  identity_secret (w_state w) user iid = Ok mine → verify_roster (sign_bytes owner_pk) roster = Ok tt →
  note_roster cid roster w =
    (mkWorld (w_engine w)
       (group_phase_mut cid (λ _, roster_phase (w_engine w) (ik_sign_pk mine) owner_pk secret name photo log roster)
          (w_state w)) (w_draws w), Ok tt).
Proof.
  intros HO HT HI HV. unfold note_roster. run. rewrite HO, HT. run. rewrite HV. run. rewrite HI. run.
  unfold roster_phase. by destruct (existsb _ _).
Qed.

(** C14. Rosters.  What the owner of a group signs is what every member installs: a member
    whose row names the owner's key takes over exactly the signed members and epoch, keeps
    the group's secret, name, photo and transactions, and has itself marked as kicked when it
    is not among the members; no other group changes.  A roster whose signature does not
    verify under the owner's key is refused, and nothing changes. *)
Theorem roster_installed `{!SignLaws} seed kp keys epoch members wO wO' roster
    cid w user iid owner_pk secret name photo log mine :
  sign_generate (ik_policy keys) seed = Some kp → ik_sign_sk keys = skp_secret kp →
  sign_roster keys epoch members wO = (wO', Ok roster) →
  owner (w_state w) cid = Some (user, iid) →
  group_phase (w_state w) cid ≫= group_terms = Some (owner_pk, secret, name, photo, log) →
  sign_bytes owner_pk = skp_public kp → identity_secret (w_state w) user iid = Ok mine →
  (∃ w', note_roster cid roster w = (w', Ok tt) ∧
    group_phase (w_state w') cid =
      Some (if existsb (λ m, bool_decide (sign_bytes (gm_signing_pk m) = ik_sign_pk mine)) members
            then GroupIsLive (mkGroupLive secret name photo owner_pk (df_persistents (en_defaults (w_engine w)))
                   (df_ephemerals (en_defaults (w_engine w))) members [] epoch log EstablishedChains_default)
            else GroupIsFailed Kicked) ∧
    ∀ c, c ≠ cid → group_phase (w_state w') c = group_phase (w_state w) c) ∧
  (∀ forged, is_ok (verify_roster (skp_public kp) forged) = false →
    note_roster cid forged w = (w, Err (Refuse MalformedPayload))).
Proof.
  intros HG HSk HR HO HT HPk HI. pose proof (verify_signed _ _ _ _ _ _ _ _ HG HSk HR) as HV.
  apply sign_roster_fields in HR as (<- & <- & _). rewrite <-HPk in HV. split.
  - eexists. split; [by eapply note_roster_verified|]. cbn [w_state]. split.
    + rewrite group_phase_mut_lookup, decide_True by done.
      destruct (group_phase (w_state w) cid) as [p|]; [done|]. by cbn in HT.
    + intros c Hc. by rewrite group_phase_mut_lookup, decide_False.
  - intros forged HF. unfold note_roster. run. rewrite HO, HT. run. rewrite HPk. revert HF. unfold verify_roster.
    by destruct (existsb _ _).
Qed.

(** * Kicking *)

Ltac refused := intros [= <- <-]; intros; simplify_eq; try congruence; eauto.

Lemma merge_and_post_stores cid secret payload w w' :
  Located (w_state w) → merge_and_post cid secret payload w = (w', Ok tt) →
  Located (w_state w') ∧ ∃ id b, stored (w_state w') !! id = Some b ∧ db_payload b = payload.
Proof.
  intros HL. unfold merge_and_post. rewrite bind_run.
  destruct (merge_tx _ _ _ _) as [w1 [[[id b] rec]|e]] eqn:HM; [|done].
  apply merge_tx_ok in HM as (_ & Hb & _ & HStore). destruct (HStore HL) as [HL1 HS1].
  intros HP. apply steady_run in HP. destruct (sd_store _ _ HP HL1) as [HL2 HS2].
  split; [done|]. exists id, b. split; [by eapply lookup_weaken|done].
Qed.

(** The roster the owner posts is signed and stored. *)
Lemma post_roster_stores ids w w' live :
  group_live (w_state w) (cr_conversation_id ids) = Some live → Located (w_state w) →
  post_roster ids w = (w', Ok tt) →
  ∃ keys w1 roster id b,
    identity_secret (w_state w) (cr_user_id ids) (cr_identity_id ids) = Ok keys ∧
    sign_roster keys (gl_epoch live) (gl_members live) w = (w1, Ok roster) ∧
    stored (w_state w') !! id = Some b ∧ db_payload b = PGroupRoster roster.
Proof.
  intros HLive HL. unfold post_roster. run. rewrite HLive, lift_bind.
  destruct (identity_secret _ _ _) as [keys|e] eqn:HK; [|done]. rewrite bind_run.
  destruct (sign_roster _ _ _ _) as [w1 [roster|e]] eqn:HR; [|done].
  apply steady_run in HR as HS1. destruct (sd_store _ _ HS1 HL) as [HL1 _].
  rewrite bind_run. destruct (merge_and_post _ _ _ w1) as [w2 [[]|e]] eqn:HM; [|done].
  destruct (merge_and_post_stores _ _ _ _ _ HL1 HM) as (HL2 & id & b & HStored & Hb). intros HE.
  match type of HE with ?m _ = _ => assert (Evolves Steady m) as HEv by evolve end.
  apply steady_run in HE. destruct (sd_store _ _ HE HL2) as [_ HS2].
  exists keys, w1, roster, id, b. split_and!; [done..|by eapply lookup_weaken|done].
Qed.

Lemma bare_expel pk g g' : bare_live g' = bare_live g → bare_live (expel pk g') = bare_live (expel pk g).
Proof. destruct g, g'. cbn. by intros [= -> -> -> -> -> -> -> -> ->]. Qed.

(** What is minted is stored. *)
Lemma mint_on_stores ids payload w w' persist :
  Located (w_state w) → mint_on ids payload w = (w', Ok persist) →
  ∃ id b, stored (w_state w') !! id = Some b ∧ db_payload b = payload.
Proof.
  intros HL. unfold mint_on, mutate_on. run. rewrite lift_bind. destruct (require_ids _ _) as [[]|]; [|done].
  rewrite lift_bind. destruct (conv_secret _ _) as [secret|]; [|done]. cbn [map_m].
  rewrite !bind_run. destruct (merge_tx _ _ _ w) as [w1 [[[id b] rec]|e]] eqn:HM; [|done].
  apply merge_tx_ok in HM as (_ & Hb & _ & HStore). destruct (HStore HL) as [HL1 HS1]. run.
  rewrite bind_run. destruct (deliver_live _ _ _ w1) as [w2 [[]|e]] eqn:HD; [|done]. run. intros [= <- _].
  apply steady_run in HD. destruct (sd_store _ _ HD HL1) as [_ HS2].
  exists id, b. split; [by eapply lookup_weaken|done].
Qed.

(** The live branch after its checks. *)
Lemma kick_live_runs ids pk live w w' persist :
  let cid := cr_conversation_id ids in
  group_live (w_state w) cid = Some live → Located (w_state w) →
  kick_live_member ids pk live w = (w', Ok persist) →
  group_face (w_state w') cid = Some (bare_live (expel pk live)) ∧
  (∀ c, c ≠ cid → group_face (w_state w') c = group_face (w_state w) c) ∧
  stored (w_state w) ⊆ stored (w_state w') ∧
  (∃ id b, stored (w_state w') !! id = Some b ∧ db_payload b = PGroupKick pk) ∧
  ∃ k wa wb roster id b,
    identity_secret (w_state w) (cr_user_id ids) (cr_identity_id ids) = Ok k ∧
    owned_by (ik_sign_pk k) live = true ∧
    sign_roster k (sat_add (gl_epoch live) 1) (without_member pk (gl_members live)) wa = (wb, Ok roster) ∧
    stored (w_state w') !! id = Some b ∧ db_payload b = PGroupRoster roster.
Proof.
  cbv zeta. intros HLive HL. set (cid := cr_conversation_id ids) in *. unfold kick_live_member. run. fold cid.
  destruct (identity_secret _ _ _) as [k|e] eqn:HK; run; [|done].
  destruct (owned_by (ik_sign_pk k) live) eqn:HOwn; cbn [negb refuse_if]; run; [|done].
  destruct (existsb _ _) eqn:HPend; cbn [refuse_if]; run; [done|]. rewrite bind_run.
  destruct (mint_on ids _ w) as [w1 [rec|e]] eqn:HM; [|done].
  destruct (mint_on_stores _ _ _ _ _ HL HM) as (idk & bk & Hidk & Hbk).
  pose proof (mint_on_keyed ids (PGroupKick pk) (λ h, eq_refl)) as HKy. apply keyed_run in HM as HK1.
  apply steady_run in HM as HS1. clear HKy. destruct (sd_store _ _ HS1 HL) as [HL1 HSub1].
  assert (∀ c, group_face (w_state w1) c = group_face (w_state w) c) as HF1
    by (intros c; apply steady_group, (sd_rows _ _ HS1)).
  run. destruct (group_live (w_state w1) cid) as [live1|] eqn:HLive1; run; [|done].
  assert (bare_live live1 = bare_live live) as HB.
  { specialize (HF1 cid). unfold group_face in HF1. rewrite HLive, HLive1 in HF1. by apply (inj Some) in HF1. }
  set (w2 := mkWorld _ (live_mut cid _ _) _). rewrite bind_run.
  destruct (post_roster ids w2) as [w3 [[]|e]] eqn:HP; run; [|done]. intros [= <- <-].
  assert (∀ c, group_face (w_state w2) c =
    if decide (c = cid) then Some (bare_live (expel pk live)) else group_face (w_state w) c) as HF2.
  { intros c. unfold group_face. cbn [w_state w2]. rewrite group_live_mut_lookup. case_decide as HC; [|apply HF1].
    subst c. rewrite HLive1. cbn. by rewrite (bare_expel _ _ _ HB). }
  assert (same_store (w_state w1) (w_state w2)) as HSt2 by (apply live_mut_same_store; by intros []).
  destruct (same_store_located _ _ HSt2 HL1) as [HL2 HE2].
  assert (stored (w_state w1) ⊆ stored (w_state w3)) as HSub3.
  { apply steady_run in HP as HS3. destruct (sd_store _ _ HS3 HL2) as [_ HS3']. by rewrite <-HE2. }
  split_and!.
  - by rewrite (group_face_run cid HP), HF2, decide_True.
  - intros c HC. by rewrite (group_face_run c HP), HF2, decide_False.
  - by etrans.
  - exists idk, bk. split; [by eapply lookup_weaken|done].
  - assert (group_live (w_state w2) cid = Some (expel pk live1)) as HLive2
      by (cbn [w_state w2]; by rewrite group_live_mut_lookup, decide_True, HLive1).
    destruct (post_roster_stores ids w2 w3 _ HLive2 HL2 HP) as (k2 & wb & roster & id & b & HK2 & HR & HStored & Hb).
    assert (k2 = k) as ->.
    { rewrite (identity_secret_keyed w w2) in HK2; [congruence| |done].
      etrans; [exact HK1|]. unfold w2. destruct w1. by apply keyed_same. }
    exists k, w2, wb, roster, id, b. split_and!; [done|done| |done|done].
    pose proof (f_equal gl_epoch HB) as HE. pose proof (f_equal gl_members HB) as HMem.
    cbn in HR, HE, HMem. by rewrite HE, HMem in HR.
Qed.

(** C15. Kicking a member.  On an offer the call drops the row and nothing else; where there is
    no offer and no live group it is refused.  On a live group only the owner may, and not
    someone whose invite is still open; the refusals change nothing.  When the call succeeds
    on a live group, the group has exactly the other members, its epoch is one higher,
    everything else about it and every other group is as it was, the kick is stored, no
    stored transaction is lost, and a roster of just that epoch and those members, signed
    with the keys of the calling identity, which own the group, is stored. *)
Theorem kick_spec ids signing_pk w w' r :
  let cid := cr_conversation_id ids in
  let pk := SigningPublicKey_from_bytes signing_pk in
  let keys := identity_secret (w_state w) (cr_user_id ids) (cr_identity_id ids) in
  Located (w_state w) → kick_group_member ids signing_pk w = (w', r) →
  match group_phase (w_state w) cid with
  | Some (GroupIsOffer _) =>
      r = Ok [] ∧ w' = mkWorld (w_engine w) (drop_conversation cid (w_state w)).2 (w_draws w) ∧
      (∀ u i c, identity_row (w_state w') u i c =
         if decide (c = cid ∧ owner (w_state w) cid = Some (u, i)) then None
         else identity_row (w_state w) u i c) ∧
      dv_conversations (es_device (w_state w')) = delete cid (dv_conversations (es_device (w_state w)))
  | Some (GroupIsLive live) =>
      (∀ e, keys = Err e → w' = w ∧ r = Err (Refuse e)) ∧
      (∀ k, keys = Ok k → owned_by (ik_sign_pk k) live = false → w' = w ∧ r = Err (Refuse NotOwner)) ∧
      (∀ k, keys = Ok k → owned_by (ik_sign_pk k) live = true →
        existsb (λ p, bool_decide (gp_signing_pk p = pk)) (gl_pending live) = true →
        w' = w ∧ r = Err (Refuse WrongPhase)) ∧
      (∀ persist, r = Ok persist →
        group_face (w_state w') cid = Some (bare_live (with_gl_members (without_member pk (gl_members live))
          (gl_pending live) (sat_add (gl_epoch live) 1) live)) ∧
        (∀ c, c ≠ cid → group_face (w_state w') c = group_face (w_state w) c) ∧
        stored (w_state w) ⊆ stored (w_state w') ∧
        (∃ id b, stored (w_state w') !! id = Some b ∧ db_payload b = PGroupKick pk) ∧
        ∃ k wa wb roster id b, keys = Ok k ∧ owned_by (ik_sign_pk k) live = true ∧
          sign_roster k (sat_add (gl_epoch live) 1) (without_member pk (gl_members live)) wa = (wb, Ok roster) ∧
          stored (w_state w') !! id = Some b ∧ db_payload b = PGroupRoster roster)
  | _ => w' = w ∧ r = Err (Refuse WrongPhase)
  end.
Proof.
  cbv zeta. intros HL. unfold kick_group_member. run. set (cid := cr_conversation_id ids).
  destruct (group_phase (w_state w) cid) as [[live|offer|why]|] eqn:HPh.
  - assert (group_live (w_state w) cid = Some live) as HLive by (unfold group_live; by rewrite HPh).
    intros HRun. split_and!; revert HRun.
    4: { intros HRun persist ->. by eapply (kick_live_runs ids). }
    all: unfold kick_live_member; run; destruct (identity_secret _ _ _) as [k|e] eqn:HK; run; [|refused].
    all: destruct (owned_by (ik_sign_pk k) live) eqn:HOwn; cbn [negb refuse_if]; run; [|refused].
    all: destruct (existsb _ _) eqn:HPend; cbn [refuse_if]; run; [refused|intros _; congruence].
  - run. intros [= <- <-]. cbn [w_state]. split_and!; [done|done|intros; apply drop_rows|apply drop_devices].
  - by intros [= <- <-].
  - by intros [= <- <-].
Qed.

(** * Accepting *)

Definition bare_phase (p : GroupPhase) : GroupPhase :=
  match p with GroupIsLive live => GroupIsLive (bare_live live) | p => p end.

Lemma steady_phase st st' cid :
  steady st st' → bare_phase <$> group_phase st' cid = bare_phase <$> group_phase st cid.
Proof.
  intros HS. assert (∀ s, bare_phase <$> group_phase s cid =
    snd <$> scan (row cid (λ kind, bare_phase <$> group_phase_of kind)) s) as HE.
  { intros s. unfold group_phase. rewrite scan_row_fmap. by destruct (scan _ s) as [[[]]|]. }
  rewrite !HE. by rewrite (sy_scan _ _ HS) by by intros [| |[]].
Qed.

Lemma tag_in_one key label now tag :
  tag_in [key] label now tag = true ↔
  ∃ bin, bin ∈ listen_bins (time_bin now) ∧ tag = bin_tag key label bin.
Proof.
  unfold tag_in. cbn [existsb]. rewrite orb_false_r, existsb_exists. split.
  - intros (bin & HB & HE%branded_eq_spec). exists bin. split; [by apply list_elem_of_In|done].
  - intros (bin & HB & ->). exists bin. split; [by apply list_elem_of_In|by apply branded_eq_spec].
Qed.

(** C17. Accepting an offer.  The group becomes live with the offer's secret, name, photo and
    owner, the channels of the own defaults, and this member, under two tag keys drawn here,
    as the only one; no other group changes.  So of all durable tags the group is matched
    with exactly those of this member's own sending key: a packet the owner posts under its
    own key, such as the roster that would name the other members, is not recognised. *)
Theorem accept_group_spec ids w w' persist offer :
  let cid := cr_conversation_id ids in
  group_phase (w_state w) cid = Some (GroupIsOffer offer) → accept_group ids w = (w', Ok persist) →
  ∃ keys me live,
    identity_secret (w_state w) (cr_user_id ids) (cr_identity_id ids) = Ok keys ∧
    gm_signing_pk me = SigningPublicKey_from_bytes (ik_sign_pk keys) ∧
    gm_send_tag_key me = from_random32 (draw (pred (pred (w_draws w')))) ∧
    live = mkGroupLive (go_secret offer) (go_name offer) (go_photo offer) (go_owner_signing_pk offer)
      (df_persistents (en_defaults (w_engine w))) (df_ephemerals (en_defaults (w_engine w))) [me] []
      (clamp64 0) ∅ EstablishedChains_default ∧
    group_live (w_state w') cid = Some live ∧
    (∀ c, c ≠ cid → group_face (w_state w') c = group_face (w_state w) c) ∧
    ∀ d tag now label, is_Some (group_hit d tag now label (RowGroup (GroupIsLive live))) ↔
      d ∈ df_persistents (en_defaults (w_engine w)) ∧
      ∃ bin, bin ∈ listen_bins (time_bin now) ∧ tag = bin_tag (gm_send_tag_key me) label bin.
Proof.
  cbv zeta. intros HO. set (cid := cr_conversation_id ids) in *. unfold accept_group. run. unfold offered. fold cid.
  rewrite HO. run. rewrite lift_bind. destruct (identity_secret _ _ _) as [keys|e]; [|done].
  rewrite bind_run. destruct (mint_on _ _ w) as [w1 [rec|e]] eqn:HM; [|done].
  apply steady_run in HM as [HS _]. unfold new_member. run. intros [= <- _]. cbn [w_state w_draws pred].
  set (me := mkGroupMember _ _ _ _). set (live := mkGroupLive _ _ _ _ _ _ _ _ _ _ _).
  exists keys, me, live. split_and!; [done..| | |].
  - unfold group_live. rewrite group_phase_mut_lookup, decide_True by done.
    pose proof (steady_phase _ _ cid HS) as HP. rewrite HO in HP. by destruct (group_phase (w_state w1) cid).
  - intros c Hc. unfold group_face, group_live. rewrite group_phase_mut_lookup, decide_False by done.
    apply steady_group, HS.
  - intros d tag now label. unfold group_hit, live. cbn [gl_persistents gl_members gl_secret map].
    rewrite <-tag_in_one. case_bool_decide as HD; cbn [andb]; [|by split; [intros [? ?]|naive_solver]].
    destruct (tag_in _ _ _ _); split; [done|by eexists|by intros [? ?]|naive_solver].
Qed.
End GroupLaws.

(** * On concrete devices

    The device of [Samples.v] with a group: offered to it by [group_owner], or its own. *)

Definition group_owner : SigningKeyPair :=
  default (chat_signing x41) (sign_generate Classic (from_pair (id_of x05) (id_of x06))).
Definition group_keys : IdentityKeys :=
  mkIdentityKeys Classic (replicate 32 x46) (skp_public group_owner) (replicate 32 x46) (skp_secret group_owner).
Definition group_member (key b : byte) : GroupMember :=
  mkGroupMember (SigningPublicKey_from_bytes (replicate 32 key)) (EncryptionPublicKey_from_bytes (replicate 32 key))
    (id_of b) (id_of b).
Definition group_offer : GroupOffer :=
  mkGroupOffer (id_of x71) chat_name None (SigningPublicKey_from_bytes (skp_public group_owner)) (id_of x03).
Definition group_own : GroupLive :=
  mkGroupLive (id_of x71) chat_name None (SigningPublicKey_from_bytes (replicate 32 x41)) [chat_durable] []
    [group_member x41 x72; group_member x42 x73] [] (clamp64 4) ∅ EstablishedChains_default.
Definition group_ids : ConversationRef := mkConversationRef (id_of x01) (id_of x02) (id_of x70).

Lemma group_ids_cid : cr_conversation_id group_ids = id_of x70.
Proof. reflexivity. Qed.

Definition group_world (phase : GroupPhase) : World :=
  mkWorld chat_engine (put_dm (id_of x01) (id_of x02) (id_of x70) (RowGroup phase) chat_state) 0.

Lemma located_group phase :
  (∀ id, identity_body (RowGroup phase) id = None) → Located (w_state (group_world phase)).
Proof.
  intros HN. apply (same_store_located chat_state); [|exact located_chat].
  apply put_dm_same_store; [|done]. vm_compute. reflexivity.
Qed.

Lemma group_world_phase phase : group_phase (w_state (group_world phase)) (id_of x70) = Some phase.
Proof. vm_compute. reflexivity. Qed.

Definition group_roster_run : World * result fault TxGroupRoster :=
  sign_roster group_keys (clamp64 5) [group_member x41 x72; group_member x44 x74] (group_world (GroupIsOffer group_offer)).

Lemma roster_installed_witness :
  ∃ wO' roster w',
    group_roster_run = (wO', Ok roster) ∧
    note_roster (id_of x70) roster (group_world (GroupIsOffer group_offer)) = (w', Ok tt) ∧
    gl_members <$> group_live (w_state w') (id_of x70) = Some [group_member x41 x72; group_member x44 x74].
Proof.
  assert (is_ok group_roster_run.2 = true) as HO by by vm_compute.
  destruct group_roster_run as [wO' [roster|e]] eqn:HR; [|done].
  destruct (@roster_installed test_suite counting_draws EchoSign_lawful (from_pair (id_of x05) (id_of x06)) group_owner group_keys (clamp64 5)
    [group_member x41 x72; group_member x44 x74] (group_world (GroupIsOffer group_offer)) wO' roster
    (id_of x70) (group_world (GroupIsOffer group_offer)) (id_of x01) (id_of x02)
    (go_owner_signing_pk group_offer) (go_secret group_offer) (go_name group_offer) (go_photo group_offer) ∅
    (mkIdentityKeys Classic (replicate 32 x41) (replicate 32 x41) (replicate 32 x41) (replicate 32 x41)))
    as [(w' & HN & HP & _) _]; [reflexivity|reflexivity|exact HR|vm_decide|by rewrite group_world_phase|reflexivity|vm_compute; reflexivity|].
  exists wO', roster, w'. split_and!; [reflexivity|exact HN|].
  unfold group_live. rewrite HP. vm_compute. reflexivity.
Defined.

Definition kick_run : World * result fault (list bytes) :=
  kick_group_member group_ids (replicate 32 x42) (group_world (GroupIsLive group_own)).

Lemma kick_spec_witness :
  is_ok kick_run.2 = true ∧
  group_face (w_state kick_run.1) (id_of x70) =
    Some (bare_live (expel (SigningPublicKey_from_bytes (replicate 32 x42)) group_own)).
Proof.
  assert (is_ok kick_run.2 = true) as HO by by vm_compute. split; [exact HO|].
  pose proof (kick_spec group_ids (replicate 32 x42) (group_world (GroupIsLive group_own)) kick_run.1
    kick_run.2 (located_group (GroupIsLive group_own) (λ id, eq_refl)) (surjective_pairing _)) as HK.
  rewrite group_ids_cid, group_world_phase in HK. destruct HK as (_ & _ & _ & HK).
  destruct kick_run as [w' [persist|e]]; [|discriminate HO]. exact (proj1 (HK persist eq_refl)).
Defined.

Definition accept_run : World * result fault (list bytes) :=
  accept_group group_ids (group_world (GroupIsOffer group_offer)).

Lemma accept_group_spec_witness :
  is_ok accept_run.2 = true ∧
  ∃ me, gl_members <$> group_live (w_state accept_run.1) (id_of x70) = Some [me].
Proof.
  assert (is_ok accept_run.2 = true) as HO by by vm_compute. split; [exact HO|].
  destruct accept_run as [w' [persist|e]] eqn:HR; [|discriminate HO].
  pose proof (accept_group_spec group_ids (group_world (GroupIsOffer group_offer)) w' persist group_offer) as HA.
  cbv zeta in HA. rewrite group_ids_cid in HA.
  destruct (HA (group_world_phase _) HR) as (keys & me & live & _ & _ & _ & -> & HL & _).
  exists me. cbn [fst]. rewrite HL. reflexivity.
Defined.
