(* ===== verification/PollLaws.v ===== *)
(** What ticking does ([tick] of [Poll.v]): the clock, and which handshakes run out. *)

From stdpp Require Import base tactics list numbers option strings countable gmap.
From Stdlib Require Import Strings.Byte.
From S2P Require Import Prelude Text Ids Order Channel Defaults Payload Json Ports Codec TestDoubles.
From S2P Require Import Chain RowLog Party HealRange Bins State StateLaws Frags Helpers HelpersLaws Engine.
From S2P Require Import Frame Ratchet RatchetLaws Vault VaultLaws Directory Skeleton Samples Chat Heal HealLaws.
From S2P Require Import Fingerprint Live LiveLaws Handshake Identity Groups Receive Ingest Invite Poll Steady.

(** * Rows and parties after the clock was set *)

Lemma entries_each f st : handshake_entries (each_chains_mut f st) = handshake_entries st.
Proof.
  unfold handshake_entries. f_equal.
  - unfold each_chains_mut.
    replace (idents (with_device _ _)) with
      (idents (map_identities (λ i, with_conversations
         (packet_mut_of_identity f <$> id_conversations i) i) st)) by done.
    rewrite idents_map, flat_map_map. apply flat_map_ext. intros [[u i] ident]. cbn.
    rewrite entries_fmap, flat_map_map. apply flat_map_ext. by intros [cid [| |[]]].
  - cbn. rewrite entries_fmap, flat_map_map. apply flat_map_ext. by intros [cid []].
Qed.

Lemma party_each f st cid : party (each_chains_mut f st) cid = party st cid.
Proof.
  assert (dm_party (each_chains_mut f st) cid = dm_party st cid ∧ sync_party (each_chains_mut f st) cid = sync_party st cid)
    as [HD HS]; [|unfold party; by rewrite HD, HS].
  unfold dm_party, sync_party, each_chains_mut. set (st1 := map_identities _ st). split.
  - rewrite (scan_users _ st1) by done. unfold st1.
    rewrite (scan_map_identities _ id); [by destruct (scan _ st) as [[[]]|]|].
    intros ident. unfold row. cbn. rewrite lookup_fmap. by destruct (_ !! cid) as [[| |[]]|].
  - unfold device_row. cbn. rewrite lookup_fmap. by destruct (_ !! cid) as [[]|].
Qed.

Lemma set_clock_parties now st cid : party (set_clock now st) cid = party st cid.
Proof. unfold set_clock. by rewrite party_each. Qed.
Lemma set_clock_rows now st : handshake_rows (set_clock now st) = handshake_rows st.
Proof. unfold handshake_rows, set_clock. by rewrite entries_each. Qed.

Lemma set_clock_same_store now st : same_store st (set_clock now st).
Proof. etrans; [|apply each_chains_mut_same_store]. by split. Qed.

(** * Running out *)

(** The end of the invite of [cid], where it has passed: of the first row, in the order of
    the tree, whose invite has. *)
Definition run_out (st : EngineState) (now : UnixSeconds) (cid : ConversationId) : option UnixSeconds :=
  find_map (λ '(c, t, _),
    if decide (c = cid ∧ (cval (tk_expires t) < cval now)%N) then Some (tk_expires t) else None)
    (handshake_rows st).

(** A handshake that has failed or was confirmed does not run out any more. *)
Definition expiry (st : EngineState) (now : UnixSeconds) (cid : ConversationId) : option UnixSeconds :=
  if bool_decide (is_Some (failed st cid)) || confirmed st cid then None else run_out st now cid.

Lemma fail_twice r r' p : map_party (λ k, party_fail r') (map_party (λ k, party_fail r) p) = map_party (λ k, party_fail r) p.
Proof. by destruct p as [[[]|[]]|[[]|[]]]. Qed.

Lemma fail_all l st cid :
  party (fold_left (λ st '(cid, expires), state_fail cid (InviteExpired expires) st) l st) cid =
    match find_map (λ '(c, e), if decide (c = cid) then Some e else None) l with
    | Some e => map_party (λ k, party_fail (InviteExpired e)) <$> party st cid
    | None => party st cid
    end.
Proof.
  revert st. induction l as [|[c e] l IH]; intros st; cbn [fold_left find_map]; [done|].
  rewrite IH. unfold state_fail. rewrite party_party_mut. case_decide as H1; case_decide as H2; try congruence.
  - subst c. destruct (find_map _ l); [|done]. destruct (party st cid); cbn; [|done]. by rewrite fail_twice.
Qed.

Lemma expiry_first st now cid :
  find_map (λ '(c, e), if decide (c = cid) then Some e else None) (expired_handshakes st now) = expiry st now cid.
Proof.
  unfold expiry, run_out, expired_handshakes. induction (handshake_rows st) as [|[[c t] s] l IH].
  { cbn. by destruct (_ || _). }
  cbn [omap list_omap find_map]. destruct (decide (c = cid)) as [->|Hc].
  - destruct (bool_decide (is_Some (failed st cid))) eqn:E1; cbn [orb] in *; [by rewrite IH|].
    destruct (confirmed st cid) eqn:E2; [by rewrite orb_true_r, IH|]. rewrite orb_false_r.
    destruct (cval now <=? cval (tk_expires t))%N eqn:E3.
    + apply N.leb_le in E3. rewrite decide_False by (intros [_ ?]; lia). apply IH.
    + apply N.leb_gt in E3. rewrite decide_True by done. cbn [find_map]. by rewrite decide_True.
  - rewrite (decide_False (P := c = cid ∧ _)) by naive_solver. rewrite <-IH.
    destruct (bool_decide (is_Some (failed st c)) || _ || _); [done|]. cbn [find_map]. by rewrite decide_False.
Qed.

Lemma expire_parties now st cid :
  party (expire_handshakes now st) cid =
    match expiry st now cid with
    | Some e => map_party (λ k, party_fail (InviteExpired e)) <$> party st cid
    | None => party st cid
    end.
Proof. unfold expire_handshakes. by rewrite fail_all, expiry_first. Qed.

Lemma expire_same_store now st : same_store st (expire_handshakes now st).
Proof.
  unfold expire_handshakes. generalize (expired_handshakes st now). intros l. revert st.
  induction l as [|[c e] l IH]; intros st; cbn [fold_left]; [done|].
  etrans; [|apply IH]. apply party_mut_same_store.
Qed.

Lemma expiry_set_clock st now now' cid :
  Located st → expiry (set_clock now st) now' cid = expiry st now' cid.
Proof.
  intros HL. unfold expiry, run_out, failed, confirmed, bodies, body_pairs.
  rewrite set_clock_rows, set_clock_parties.
  by rewrite (proj2 (same_store_located _ _ (set_clock_same_store now st) HL)).
Qed.

Lemma expire_ticked now st : es_ticked (expire_handshakes now st) = es_ticked st.
Proof.
  unfold expire_handshakes. generalize (expired_handshakes st now). intros l. revert st.
  induction l as [|[c e] l IH]; intros st; cbn [fold_left]; [done|].
  rewrite IH. unfold state_fail, party_mut. by destruct (scan _ _) as [[[]]|].
Qed.

Section Tick.
Context `{Suite, Rng}.

(** C16. Ticking.  A locked handle and a time before the last one are refused and change
    nothing.  Otherwise the clock shows the new time, every handshake whose invite ended
    before it has failed with exactly that end as the reason, unless it had already failed
    or was confirmed, every other party is as it was, whatever ticking goes on to post, and
    nothing that was stored is lost. *)
Theorem tick_spec now w w' r :
  Located (w_state w) → tick now w = (w', r) →
  (en_dek (w_engine w) = None → w' = w ∧ r = Err (Refuse Locked)) ∧
  (∀ dek prev, en_dek (w_engine w) = Some dek → es_ticked (w_state w) = Some prev →
    (cval now < cval prev)%N → w' = w ∧ r = Err (Refuse ClockWentBackwards)) ∧
  (∀ dek, en_dek (w_engine w) = Some dek →
    (∀ prev, es_ticked (w_state w) = Some prev → (cval prev ≤ cval now)%N) →
    es_ticked (w_state w') = Some now ∧
    (∀ cid, party (w_state w') cid =
       match expiry (w_state w) now cid with
       | Some e => map_party (λ k, party_fail (InviteExpired e)) <$> party (w_state w) cid
       | None => party (w_state w) cid
       end) ∧
    Located (w_state w') ∧ stored (w_state w) ⊆ stored (w_state w')).
Proof.
  intros HL. unfold tick. run. rewrite lift_bind. unfold require_dek.
  destruct (en_dek (w_engine w)) as [dek|]; cbn [ok_or]; [|by intros [= <- <-]].
  rewrite lift_bind. destruct (from_option _ _ _) eqn:HB; cbn [refuse_if].
  { intros [= <- <-]. split_and!; [done..|]. intros _ _ HC. destruct (es_ticked (w_state w)) as [prev|]; [|done].
    cbn in HB. apply N.ltb_lt in HB. specialize (HC prev eq_refl). lia. }
  set (w1 := mkWorld (w_engine w) (expire_handshakes now (set_clock now (w_state w))) (w_draws w)).
  intros HR. split_and!; [done| |].
  { intros _ prev _ HT. rewrite HT in HB. cbn in HB. apply N.ltb_ge in HB. lia. }
  intros _ _ _. assert (Steady w1 w') as [HS HSt].
  { revert HR. run. fold w1. intros HR.
    match type of HR with ?m _ = _ => assert (Evolves Steady m) as HE by evolve end. by apply steady_run in HR. }
  assert (same_store (w_state w) (w_state w1)) as HSame
    by (etrans; [apply set_clock_same_store|apply expire_same_store]).
  destruct (same_store_located _ _ HSame HL) as [HL1 HS1]. destruct (HSt HL1) as [HL2 HS2].
  split_and!; [| |done|by rewrite <-HS1].
  - rewrite (sy_ticked _ _ HS). apply expire_ticked.
  - intros cid. rewrite (steady_party _ _ HS). cbn [w_state w1].
    rewrite expire_parties, expiry_set_clock, set_clock_parties by done. done.
Qed.

End Tick.

(** The invite of [Samples.v] ends at 100000. *)
Definition late_tick : World * result fault (list bytes) := tick (clamp64 100001) (mkWorld chat_engine chat_state 0).

Lemma chat_expiry : expiry chat_state (clamp64 100001) (id_of x0c) = Some (clamp64 100000).
Proof. vm_decide. Qed.

Lemma chat_ticked : es_ticked chat_state = Some (clamp64 7200).
Proof. vm_decide. Qed.

Lemma tick_spec_witness :
  is_ok late_tick.2 = true ∧
  party (w_state late_tick.1) (id_of x0c) =
    map_party (λ k, party_fail (InviteExpired (clamp64 100000))) <$> party chat_state (id_of x0c).
Proof.
  split; [by vm_compute|].
  destruct (tick_spec (clamp64 100001) (mkWorld chat_engine chat_state 0) late_tick.1 late_tick.2
    located_chat (surjective_pairing _)) as (_ & _ & HT).
  destruct (HT (id_of x09) eq_refl) as (_ & HP & _).
  - intros prev HE. cbn [w_state] in HE. rewrite chat_ticked in HE. apply (inj Some) in HE. subst prev.
    apply N.leb_le. by vm_compute.
  - specialize (HP (id_of x0c)). cbn [w_state] in HP. by rewrite chat_expiry in HP.
Defined.
