(* ===== verification/Delivery.v ===== *)
(** Delivery from one device to another: the packets that posting a transaction queues
    ([post_live] of [Live.v]) and what the receiving engine makes of them ([open_as] of
    [Receive.v]), composed.

    [take_in] is the receiving half without the rest of the engine: where the receiving
    chain stands and which fragments are held.  The second half relates it to the engine. *)

From stdpp Require Import base tactics list numbers option strings countable gmap.
From Stdlib Require Import Strings.Byte.
From S2P Require Import Prelude Text Ids Order Channel Defaults Payload Json Ports.
From S2P Require Import CanonicalJson TestDoubles Codec CodecLaws Wire.
From S2P Require Import Chain ChainLaws RowLog Party HealRange Bins State StateLaws Frags.
From S2P Require Import Helpers HelpersLaws Engine Frame Ratchet RatchetLaws Vault VaultLaws.
From S2P Require Import Directory Skeleton Samples Chat Heal HealLaws Fingerprint Live LiveLaws.
From S2P Require Import Handshake Identity Groups Receive.

(** * The receiving half alone *)

Section TakeIn.
Context `{Suite}.

(** The receiving chain and the fragments held. *)
Definition Inbox : Type := SendChain * FragSets.

(** One durable body: opened ahead of the chain, its fragment kept, and the transaction it
    completes. *)
Definition take_in (cid : ConversationId) (now : UnixSeconds) (body : bytes) (rx : Inbox) :
    result EngineError (Inbox * list DurableBody) :=
  opened ← open_at rx.1 None [] now body;
  match frag_parts (o_packet opened) with
  | None => Ok ((o_chain opened, rx.2), [])
  | Some part =>
      let '(frags, whole) := accept_part cid part rx.2 in
      match whole with
      | None => Ok ((o_chain opened, frags), [])
      | Some packed =>
          b ← ok_or MalformedPayload (decode_durable packed); Ok ((o_chain opened, frags), [b])
      end
  end.

Fixpoint take_all (cid : ConversationId) (now : UnixSeconds) (bodies : list bytes) (rx : Inbox) :
    result EngineError (Inbox * list DurableBody) :=
  match bodies with
  | [] => Ok (rx, [])
  | body :: bodies =>
      '(rx, out) ← take_in cid now body rx;
      '(rx, outs) ← take_all cid now bodies rx;
      Ok (rx, out ++ outs)
  end.

(** Packet [i] is sealed with the message key of the chain's [i]-th position, under some draw. *)
Inductive sealed_along : SendChain → list PacketPlain → list bytes → Prop :=
| along_none chain : sealed_along chain [] []
| along_next chain rnd packet body packets bodies :
    seal_packet rnd (mk chain) packet = Ok body → sealed_along (step chain) packets bodies →
    sealed_along chain (packet :: packets) (body :: bodies).

Lemma sealed_run_along `{Rng} chain n packets bodies :
  sealed_run chain n packets bodies → sealed_along chain packets bodies.
Proof.
  revert chain n bodies. induction packets as [|p ps IH]; intros chain n [|b bs]; try done; [constructor|].
  intros [HS HR]. econstructor; [done|by eapply IH].
Qed.

Lemma sealed_live_along `{Rng} eph key chain n packets copies bodies :
  sealed_live eph key chain n packets copies bodies → sealed_along chain packets bodies.
Proof. by induction 1; econstructor. Qed.

(** The transaction's text fits the caps of [decode_durable]. *)
Definition body_fits (b : DurableBody) : Prop :=
  (N.of_nat (length (json_encode (durable_body_to_json b))) <= PACKET_MAX_UNCOMPRESSED)%N.

Context `{!Base64UrlLaws, !AeadLaws, !CanonicalJsonLaws, !CompressLaws}.

Lemma decode_packed b : body_fits b → decode_durable (packed_tx b) = Some b.
Proof.
  intros Hb. unfold decode_durable, packed_tx, packed_durable_body.
  rewrite decompress_compress by done.
  pose proof (parse_text_encode durable_body_from_json (durable_body_to_json b) _
    (durable_body_nodup b)) as HP.
  rewrite durable_body_roundtrip in HP. unfold parse_text in HP.
  destruct (json_decode _) as [v|]; cbn in *; [|done]. by rewrite HP.
Qed.

(** The next packet in order opens at once: no other key is tried before its own. *)
Lemma open_next chain now rnd p body :
  arrives p → packet_bounds p = true → seal_packet rnd (mk chain) p = Ok body →
  open_at chain None [] now body = Ok (mkOpened p (step chain) [] false (mk chain)).
Proof.
  intros Hf Hp HS. apply seal_open in HS as [_ HO]; [|done]. rewrite Hp in HO.
  unfold open_at, open_skip_ahead. cbn [open_cached]. unfold open_walk. by rewrite HO.
Qed.

Lemma merge_accept cid part frags r : merge_part cid part frags = Ok r → accept_part cid part frags = r.
Proof.
  unfold merge_part. intros (u & _ & HM)%bind_inv. apply bind_inv in HM as (v & _ & HM). by injection HM.
Qed.

(** Bodies taken in order are their fragments merged in order. *)
Lemma take_all_merge cid now chain packets bodies frags frags' outs bs :
  sealed_along chain packets bodies →
  Forall (λ p, arrives p ∧ packet_bounds p = true ∧ is_Some (frag_parts p)) packets →
  merge_parts cid (omap frag_parts packets) frags = Ok (frags', outs) →
  mapM decode_durable outs = Some bs →
  take_all cid now bodies (chain, frags) = Ok ((Nat.iter (length packets) step chain, frags'), bs).
Proof.
  intros HS. revert frags frags' outs bs. induction HS as [chain|chain rnd p body ps bodies HB HS IH];
    intros frags frags' outs bs HF HM HD; cbn [take_all length].
  { cbn in HM. injection HM as -> <-. by injection HD as <-. }
  apply Forall_cons in HF as [(Hf & Hp & part & HP) HF]. cbn in HM. rewrite HP in HM. cbn [merge_parts] in HM.
  apply bind_inv in HM as ([fr out] & HM1%merge_accept & HM).
  apply bind_inv in HM as ([fr2 outs2] & HM2 & [= -> <-]).
  unfold take_in. cbn [fst snd]. rewrite (open_next _ _ _ _ _ Hf Hp HB), bind_ok.
  cbn [o_packet o_chain]. rewrite HP, HM1.
  apply mapM_Some in HD. destruct out as [packed|]; cbn [option_list app] in HD.
  - apply Forall2_cons_inv_l in HD as (b & bs' & Hb & HD & ->). rewrite Hb. cbn [ok_or]. rewrite !bind_ok.
    rewrite (IH _ _ _ bs' HF HM2) by by apply mapM_Some. rewrite bind_ok. cbn [app]. by rewrite Nat.iter_succ_r.
  - rewrite bind_ok. rewrite (IH _ _ _ bs HF HM2) by by apply mapM_Some.
    rewrite bind_ok. cbn [app]. by rewrite Nat.iter_succ_r.
Qed.

(** The fragments of one transaction, in order: nothing until the last, then the body. *)
Lemma take_fragments cid now chain id set_xor seq actor b packets bodies frags :
  fragment_body (packed_tx b) id set_xor seq actor = Ok packets →
  Forall arrives packets → body_fits b → sealed_along chain packets bodies → frags !! id = None →
  take_all cid now bodies (chain, frags) = Ok ((Nat.iter (length packets) step chain, frags), [b]).
Proof.
  intros HF HT HB HS HN. pose proof (proj2 (fragment_body_cut _ _ _ _ _ _) HF) as (HC & HL & (init & frag & HP & HI) & HPB).
  apply (take_all_merge _ _ _ packets _ _ _ [packed_tx b]); [done| | |cbn; by rewrite decode_packed].
  - apply Forall_lookup. intros i q Hq. pose proof (fragment_body_parts _ _ _ _ _ _ HF i q Hq) as [HQ _].
    rewrite Forall_lookup in HT, HPB. split_and!; eauto.
  - rewrite HP. eapply reassemble_arrivals; [exact HF|done|by rewrite <-HP|].
    exists (last_at id set_xor seq actor (length init) frag). rewrite HP. split.
    + apply elem_of_app. right. by apply list_elem_of_singleton.
    + intros [i Hi]%list_elem_of_lookup. by destruct (HI _ _ Hi) as (f & [=] & _).
Qed.

Lemma take_all_app cid now bodies1 bodies2 rx :
  take_all cid now (bodies1 ++ bodies2) rx =
    '(rx, outs1) ← take_all cid now bodies1 rx;
    '(rx, outs2) ← take_all cid now bodies2 rx; Ok (rx, outs1 ++ outs2).
Proof.
  revert rx. induction bodies1 as [|b l IH]; intros rx; cbn [app take_all].
  - rewrite bind_ok. by destruct (take_all cid now bodies2 rx) as [[rx' o]|e].
  - destruct (take_in cid now b rx) as [[rx1 o1]|e]; [|done]. rewrite !bind_ok, IH.
    destruct (take_all cid now l rx1) as [[rx2 o2]|e]; [|done]. rewrite !bind_ok.
    destruct (take_all cid now bodies2 rx2) as [[rx3 o3]|e]; [|done]. rewrite !bind_ok.
    by rewrite app_assoc.
Qed.

Lemma sealed_along_app chain packets1 packets2 bodies :
  sealed_along chain (packets1 ++ packets2) bodies →
  ∃ bodies1 bodies2, bodies = bodies1 ++ bodies2 ∧ sealed_along chain packets1 bodies1 ∧
    sealed_along (Nat.iter (length packets1) step chain) packets2 bodies2.
Proof.
  revert chain bodies. induction packets1 as [|p ps IH]; intros chain bodies HS; cbn [app] in HS.
  - exists [], bodies. split_and!; [done|constructor|done].
  - inversion HS as [|? rnd ? body ? bs HB HS']; subst. apply IH in HS' as (b1 & b2 & -> & HS1 & HS2).
    exists (body :: b1), b2. split_and!; [done|by econstructor|]. cbn [length]. by rewrite Nat.iter_succ_r.
Qed.

(** While the last fragment of a transaction is missing, nothing comes out. *)
Definition held_open (id : Tag) (frags : FragSets) : Prop :=
  ∀ set, frags !! id = Some set → fs_last_i set = None.

Definition fragment_ahead (id : Tag) (p : PacketPlain) : Prop :=
  ∃ part, frag_parts p = Some part ∧ fp_tx_id part = id ∧ fp_last_i part = None.

Lemma accept_ahead cid part frags :
  fp_last_i part = None → held_open (fp_tx_id part) frags →
  ∃ frags', accept_part cid part frags = (frags', None) ∧ held_open (fp_tx_id part) frags'.
Proof.
  intros HL HO. unfold accept_part, frag_settle.
  assert (fs_last_i (frag_store part (frag_entry cid (fp_tx_id part) frags)) = None) as HN.
  { cbn. rewrite HL. unfold frag_entry. destruct (frags !! _) as [set|] eqn:E; cbn; [by apply HO|done]. }
  unfold frag_complete. rewrite HN. cbn. eexists. split; [done|]. intros set. rewrite lookup_insert_eq.
  by intros [= <-].
Qed.

Lemma take_ahead cid now id chain packets bodies frags :
  sealed_along chain packets bodies →
  Forall (λ p, arrives p ∧ packet_bounds p = true) packets → Forall (fragment_ahead id) packets →
  held_open id frags →
  ∃ frags', take_all cid now bodies (chain, frags) =
    Ok ((Nat.iter (length packets) step chain, frags'), []).
Proof.
  intros HS. revert frags. induction HS as [chain|chain rnd p body ps bodies HB HS IH];
    intros frags HF HA HO; cbn [take_all length]; [by exists frags|].
  apply Forall_cons in HF as [[Hf Hp] HF]. apply Forall_cons in HA as [(part & HP & <- & HL) HA].
  destruct (accept_ahead cid part frags HL HO) as (fr & HAcc & HO').
  unfold take_in. cbn [fst snd]. rewrite (open_next _ _ _ _ _ Hf Hp HB), bind_ok. cbn [o_packet o_chain].
  rewrite HP, HAcc, bind_ok. destruct (IH fr HF HA HO') as [frags' HT]. exists frags'.
  rewrite HT, bind_ok. cbn [app]. by rewrite Nat.iter_succ_r.
Qed.

End TakeIn.

Lemma established_packet st cid c : established st cid = Some c → chains st cid = Some (ec_packet c).
Proof.
  unfold established, chains. destruct (scan _ st) as [[[u i] kind]|].
  - destruct kind as [| |[]]; cbn; congruence.
  - unfold device_row. destruct (_ !! cid) as [[]|]; cbn; congruence.
Qed.

Lemma established_chains_mut cid f st c :
  established st cid = Some c →
  established (chains_mut cid f st) cid = Some (with_packet f c).
Proof.
  intros HE. pose proof (established_packet _ _ _ HE) as HP. revert HE HP.
  unfold established at 1, chains. destruct (scan (row cid Some) st) as [[[u i] kind]|] eqn:E; intros HE HP.
  - unfold chains_mut. rewrite (scan_row_refine _ _ _ _ _ _ _ E HP).
    unfold established. rewrite (scan_row_alter _ Some _ _ _ _ (packet_mut_of_identity f)) by done.
    rewrite E. cbn. rewrite decide_True by done. destruct kind as [| |[]]; cbn in *; congruence.
  - unfold chains_mut.
    assert (scan (row cid packet_of_identity) st = None) as ->.
    { apply scan_row_None. intros u i kind Hk. by pose proof (proj1 (scan_row_None _ _ _) E u i kind Hk). }
    unfold established. rewrite (scan_users _ st), E by done.
    rewrite device_row_alter, decide_True by done. unfold device_row in *.
    destruct (dv_conversations (es_device st) !! cid) as [[]|]; cbn in *; congruence.
Qed.

(** * The engine that receives *)

Lemma established_mut_takes cid f st b : row_takes (established_mut cid f st) b = row_takes st b.
Proof.
  unfold established_mut. destruct (scan (row cid established_of_identity) st) as [[[u i] e]|]; unfold row_takes.
  - rewrite place_of_alter_row. destruct (place_of st _) as [[|u' i' c'|c']|]; try done.
    rewrite identity_row_alter. case_decide as HD; [|done]. destruct HD as (-> & -> & ->).
    by destruct (identity_row st u i cid) as [[| |[]]|].
  - rewrite place_of_alter_device. destruct (place_of st _) as [[|u' i' c'|c']|]; try done.
    rewrite device_row_alter. case_decide as HD; [|done]. subst. unfold device_row.
    by destruct (_ !! cid) as [[]|].
Qed.

(** What opening fragments changes: where the chain of the actor stands ([joined] is where it
    starts) and the fragments held. *)
Record listened (cid : ConversationId) (actor : Actor) (joined : SendChain) (rx : Inbox)
    (w w' : World) : Prop := mkListened {
  ls_engine : w_engine w' = w_engine w;
  ls_draws : w_draws w' = w_draws w;
  ls_outbox : outbox (w_state w') = outbox (w_state w);
  ls_store : same_store (w_state w) (w_state w');
  ls_rows : Located (w_state w) → same_rows (w_state w) (w_state w');
  ls_established : is_Some (established (w_state w') cid);
  ls_recv : recv_start (w_state w') cid actor joined = rx.1;
  ls_others : ∀ other start, other ≠ actor →
    recv_start (w_state w') cid other start = recv_start (w_state w) cid other start;
  ls_frags : es_frags (w_state w') = rx.2;
  ls_takes : ∀ b, row_takes (w_state w') b = row_takes (w_state w) b
}.

Lemma listened_refl cid actor joined chain w :
  is_Some (established (w_state w) cid) → recv_start (w_state w) cid actor joined = chain →
  listened cid actor joined (chain, es_frags (w_state w)) w w.
Proof. by split. Qed.

Lemma listened_trans cid actor joined rx1 rx2 w1 w2 w3 :
  listened cid actor joined rx1 w1 w2 → listened cid actor joined rx2 w2 w3 →
  listened cid actor joined rx2 w1 w3.
Proof.
  intros [A1 A2 A3 A4 A5 A6 A7 A8 A9 A10] [B1 B2 B3 B4 B5 B6 B7 B8 B9 B10].
  split; try congruence; try done; [by etrans| |].
  - intros HL. etrans; [by apply A5|]. apply B5. by apply (same_store_located _ _ A4).
  - intros other start Ho. rewrite B8, A8; done.
Qed.

Section Receiving.
Context `{Suite, Rng}.
Context (cid : ConversationId) (secret : Secret) (sort : ConversationSort) (now : UnixSeconds).
Context (pre post : list bytes) (sender : bytes) (actor : Actor) (joined : SendChain).
Context (Hactor : actor_for sort sender = Some actor) (Hjoin : join secret sort sender = Ok joined).

Abbreviation listened := (listened cid actor joined).
Abbreviation open_body body := (open_as cid secret sort body true now (pre ++ sender :: post)).

(** The world once the packet is open and its fragment kept. *)
Definition heard (rx : Inbox) (w : World) : World :=
  mkWorld (w_engine w)
    (with_frags rx.2 (established_mut cid (set_recv actor rx.1) (w_state w))) (w_draws w).

Lemma heard_listened rx w : is_Some (established (w_state w) cid) → listened rx w (heard rx w).
Proof.
  intros [c HC]. pose proof (established_mut_same cid (set_recv actor rx.1) (w_state w) c HC) as HE.
  assert (∀ other start, recv_start (w_state (heard rx w)) cid other start =
    default start (pc_recv (ec_packet (set_recv actor rx.1 c)) !! other)) as HR.
  { intros other start. unfold recv_start. cbn [heard w_state].
    change (established (with_frags rx.2 ?s)) with (established s). by rewrite HE. }
  split; try done.
  - cbn. apply outbox_established_mut.
  - apply (established_mut_same_store cid (set_recv actor rx.1) (w_state w)).
  - intros HL. destruct (established_mut_rows cid (set_recv actor rx.1) (w_state w) HL). by split.
  - rewrite HR. cbn. by rewrite lookup_insert_eq.
  - intros other start Ho. rewrite HR. unfold recv_start. rewrite HC. cbn. by rewrite lookup_insert_ne.
  - intros b. apply (established_mut_takes cid (set_recv actor rx.1) (w_state w)).
Qed.

(** No actor tried before the sender opens the body. *)
Definition unopened (st : EngineState) (body : bytes) : Prop :=
  Forall (λ a, ∃ other start, actor_for sort a = Some other ∧ other ≠ actor ∧
    join secret sort a = Ok start ∧
    is_ok (open_at (recv_start st cid other start) None [] now body) = false) pre.

Lemma unopened_listened rx w w' body :
  listened rx w w' → unopened (w_state w) body → unopened (w_state w') body.
Proof.
  intros HL HU. eapply Forall_impl; [exact HU|]. intros a (other & j & Ha & Ho & Hj & HF).
  exists other, j. refine (conj Ha (conj Ho (conj Hj _))). by rewrite (ls_others _ _ _ _ _ _ HL other j Ho).
Qed.

Lemma open_as_skip w body actors :
  unopened (w_state w) body →
  open_as cid secret sort body true now (pre ++ actors) w = open_as cid secret sort body true now actors w.
Proof.
  intros HU. induction HU as [|a l (other & j & Ha & _ & Hj & HF) _ IH]; [done|].
  cbn [app open_as]. rewrite Ha. run. rewrite Hj. run. cbn [negb]. cbv zeta.
  destruct (open_at _ _ _ _ _) as [o|e]; [done|exact IH].
Qed.

(** [open_as] refines [take_in]: the same packet is opened, the same fragment kept, and the
    transaction it completes is handed to [accept_body]. *)
Lemma open_as_take_in w body chain rx outs o part :
  is_Some (established (w_state w) cid) → unopened (w_state w) body →
  recv_start (w_state w) cid actor joined = chain →
  open_at chain None [] now body = Ok o → frag_parts (o_packet o) = Some part →
  take_in cid now body (chain, es_frags (w_state w)) = Ok (rx, outs) →
  open_body body w =
    match outs with
    | [] => (heard rx w, Ok (Some []))
    | b :: _ => (persist ← accept_body cid (o_packet o) true (fp_tx_id part) b; mret (Some persist)) (heard rx w)
    end.
Proof.
  intros [c HC] HU HR HO HP HT. rewrite open_as_skip by done. cbn [open_as]. rewrite Hactor. run.
  rewrite Hjoin. run. rewrite HR. cbn [negb]. cbv zeta. revert HT. unfold take_in. cbn [fst snd].
  rewrite HO, bind_ok, HP. destruct (accept_part _ _ _) as [frags whole] eqn:HA. intros HT.
  unfold expect_established_mut. run. rewrite (established_at_of _ _ _ HC). run.
  rewrite bind_run. unfold on_established. cbn [negb].
  assert (∀ k : M (list bytes), (_ ← note_packet_signal cid now (o_packet o); k) = k) as HN
    by (unfold note_packet_signal; destruct (o_packet o); done).
  assert (match o_packet o with
          | XorAck ack => (_ ← modify (store_durable_last_ack cid (xa_actor_id ack) (xa_set_xor ack));
                           _ ← note_set_xor cid (xa_set_xor ack); mret [])
          | _ => _ ← note_packet_signal cid now (o_packet o); accept_fragment cid (o_packet o) true
          end = accept_fragment cid (o_packet o) true) as -> by (destruct (o_packet o); done).
  unfold accept_fragment. rewrite HP. run.
  assert (es_frags (established_mut cid (set_recv actor (o_chain o)) (w_state w)) = es_frags (w_state w))
    as -> by (unfold established_mut; by destruct (scan _ _) as [[[]]|]).
  rewrite HA. destruct whole as [packed|].
  - apply bind_inv in HT as (b & Hb & [= <- <-]). run. rewrite lift_bind, Hb. done.
  - injection HT as <- <-. done.
Qed.

Context `{!Base64UrlLaws, !AeadLaws, !CanonicalJsonLaws, !CompressLaws}.

(** The packets before the last: heard one after the other, nothing is stored. *)
Lemma open_run chain packets bodies w rx :
  sealed_along chain packets bodies →
  Forall (λ p, arrives p ∧ packet_bounds p = true ∧ is_Some (frag_parts p)) packets →
  is_Some (established (w_state w) cid) → Forall (unopened (w_state w)) bodies →
  recv_start (w_state w) cid actor joined = chain →
  take_all cid now bodies (chain, es_frags (w_state w)) = Ok (rx, []) →
  ∃ w', map_m (λ body, open_body body) bodies w = (w', Ok (map (λ _, Some []) bodies)) ∧
    listened rx w w'.
Proof.
  intros HS. revert w rx. induction HS as [chain|chain rnd p body ps bodies HB HS IH];
    intros w rx HF HE HU HR HT; cbn [take_all map_m map] in *.
  { injection HT as <-. exists w. split; [done|]. by apply listened_refl. }
  apply Forall_cons in HF as [(Hf & Hp & part & HP) HF]. apply Forall_cons in HU as [HU1 HU].
  apply bind_inv in HT as ([rx1 out] & HT1 & HT).
  apply bind_inv in HT as ([rx2 outs] & HT2 & HT). injection HT as -> HO. apply app_nil in HO as [-> ->].
  pose proof (open_next _ now _ _ _ Hf Hp HB) as HOpen.
  rewrite bind_run, (open_as_take_in w body chain rx1 [] _ part HE HU1 HR HOpen HP HT1).
  pose proof (heard_listened rx1 w HE) as HL.
  assert (rx1.1 = step chain) as Hrx.
  { revert HT1. unfold take_in. cbn [fst snd]. rewrite HOpen, bind_ok. cbn [o_packet o_chain]. rewrite HP.
    destruct (accept_part _ _ _) as [fr [packed|]]; [|by intros [= <-]].
    intros (b & _ & [=])%bind_inv. }
  destruct (IH (heard rx1 w) rx) as (w' & HM & HL').
  - done.
  - apply (ls_established _ _ _ _ _ _ HL).
  - eapply Forall_impl; [exact HU|]. intros b. by apply (unopened_listened rx1).
  - by rewrite (ls_recv _ _ _ _ _ _ HL).
  - rewrite (ls_frags _ _ _ _ _ _ HL). rewrite <-Hrx. by destruct rx1.
  - exists w'. rewrite bind_run, HM. run. split; [done|]. by eapply listened_trans.
Qed.

End Receiving.

(** * The transaction that is complete *)

(** A payload that only has to be stored: no handshake gate, no group change, no kick. *)
Definition plain_payload (p : TxPayload) : bool :=
  match p with
  | PNotice _ | PInviteeIntro _ | PSyncInviteeIntro _ | PInviterIntro _ | PSyncInviterIntro _
  | PGroupInvite _ | PGroupAccept _ | PGroupRoster _ | PEngineKickDevice _ => false
  | _ => true
  end.

(** After storing: the chains and fragments stay, the search may start or end. *)
Record settled (cid : ConversationId) (w w' : World) : Prop := mkSettled {
  st_store : same_store (w_state w) (w_state w');
  st_frags : es_frags (w_state w') = es_frags (w_state w);
  st_ticket : ticket (w_state w') cid = ticket (w_state w) cid;
  st_ticked : es_ticked (w_state w') = es_ticked (w_state w);
  st_established : is_Some (established (w_state w) cid) → is_Some (established (w_state w') cid);
  st_recv : ∀ actor joined, is_Some (established (w_state w) cid) →
    recv_start (w_state w') cid actor joined = recv_start (w_state w) cid actor joined
}.

#[export] Instance settled_preorder cid : PreOrder (settled cid).
Proof.
  split; [by split|]. intros w1 w2 w3 [A1 A2 A3 A4 A5 A6] [B1 B2 B3 B4 B5 B6].
  split; try congruence; [by etrans|auto|]. intros actor joined HE. rewrite B6, A6; auto.
Qed.

Lemma settled_chains_mut cid f w :
  (∀ c, pc_recv (f c) = pc_recv c) →
  settled cid w (mkWorld (w_engine w) (chains_mut cid f (w_state w)) (w_draws w)).
Proof.
  intros Hf. split; cbn.
  - apply chains_mut_same_store.
  - unfold chains_mut. by destruct (scan _ _) as [[[]]|].
  - apply ticket_chains_mut.
  - unfold chains_mut. by destruct (scan _ _) as [[[]]|].
  - intros [c HE]. rewrite (established_chains_mut _ _ _ _ HE). eauto.
  - intros actor joined [c HE]. unfold recv_start. rewrite (established_chains_mut _ _ _ _ HE), HE.
    cbn. by rewrite Hf.
Qed.

Section Settling.
Context `{Suite, Rng}.

Lemma note_set_xor_settled cid remote w now :
  ticket (w_state w) cid = None → es_ticked (w_state w) = Some now →
  ∃ w', note_set_xor cid remote w = (w', Ok tt) ∧ settled cid w w'.
Proof.
  intros HT HN. unfold note_set_xor, heal_mut. run.
  assert (∀ f, settled cid w (mkWorld (w_engine w)
    (chains_mut cid (λ c, with_heal (f (pc_heal c)) c) (w_state w)) (w_draws w))) as HS
    by (intros f; by apply settled_chains_mut).
  destruct (branded_eq _ _); [eexists; split; [done|exact (HS (λ _, Heal_default))]|].
  destruct (from_option _ _ _); [|by exists w]. run. eexists. split; [|refine (HS (λ h, heal_with_fell false (heal_with_probes
    (hl_probes h ++ [Half (from_bytes (fill 32 x00)) (from_bytes (fill 32 xff))]) h)))].
  unfold post_heal. run. by rewrite ticked_chains_mut, HN, ticket_chains_mut, HT.
Qed.

Lemma ack_last_settled cid l w now :
  ticket (w_state w) cid = None → es_ticked (w_state w) = Some now →
  ∃ w', ack_completed_last true (TxFragLast l) cid w = (w', Ok tt) ∧ settled cid w w'.
Proof.
  intros HT HN. unfold ack_completed_last. run.
  set (w1 := mkWorld _ (store_durable_last_ack _ _ _ _) _).
  assert (settled cid w w1) as HS.
  { unfold w1, store_durable_last_ack. repeat case_match; try by apply settled_chains_mut.
    all: by destruct w. }
  destruct (note_set_xor_settled cid (fl_set_xor l) w1 now) as (w' & HR & HS').
  - by rewrite (st_ticket _ _ _ HS).
  - by rewrite (st_ticked _ _ _ HS).
  - exists w'. split; [exact HR|by etrans].
Qed.

Lemma note_sync_peer_settled cid actor w :
  settled cid w (mkWorld (w_engine w) (note_sync_peer cid actor (w_state w)) (w_draws w)).
Proof.
  unfold note_sync_peer. repeat case_match; try by destruct w.
  set (g := λ kind, _).
  assert (∀ kind, established_of_device (g kind) = established_of_device kind) as Hg by by intros [].
  assert (∀ c, established (alter_device_row cid g (w_state w)) c = established (w_state w) c) as HE.
  { intros c'. by apply (view_alter_device established_of_identity established_of_device). }
  split; cbn.
  - apply alter_device_same_store. by intros [].
  - done.
  - rewrite !ticket_party. unfold party, dm_party, sync_party. rewrite (scan_users _ (w_state w)) by done.
    by rewrite device_row_alter_same by by intros [].
  - done.
  - by rewrite HE.
  - intros a j _. unfold recv_start. by rewrite HE.
Qed.

Lemma note_sender_settled cid id actor w :
  Located (w_state w) →
  settled cid w (mkWorld (w_engine w) (established_mut cid (note_sender id actor) (w_state w)) (w_draws w)).
Proof.
  intros HL. split; cbn.
  - apply established_mut_same_store.
  - unfold established_mut. by destruct (scan _ _) as [[[]]|].
  - by apply steady_ticket, steady_established_mut.
  - unfold established_mut. by destruct (scan _ _) as [[[]]|].
  - intros [c HC]. rewrite (established_mut_same _ _ _ _ HC). eauto.
  - intros a j [c HC]. unfold recv_start. by rewrite (established_mut_same _ _ _ _ HC), HC.
Qed.

(** A new plain transaction, complete: it is stored under its id, with one persist record. *)
Lemma accept_body_new cid l id b w c now record :
  Located (w_state w) → established (w_state w) cid = Some c → stored (w_state w) !! id = None →
  plain_payload (db_payload b) = true → row_takes (w_state w) b = true →
  ticket (w_state w) cid = None → es_ticked (w_state w) = Some now →
  persist_record (w_engine w) (es_next_seq (w_state w)) b = Ok record →
  ∃ w', accept_body cid (TxFragLast l) true id b w = (w', Ok [record]) ∧
    Located (w_state w') ∧ stored (w_state w') = <[id := b]> (stored (w_state w)) ∧
    es_frags (w_state w') = es_frags (w_state w) ∧
    ∀ actor joined, recv_start (w_state w') cid actor joined = recv_start (w_state w) cid actor joined.
Proof.
  intros HL HC HN HP HR HT HK HRec. unfold accept_body. run.
  rewrite <-stored_lookup, HN by done. cbn [from_option].
  assert (handshake_ingest_gate cid (db_payload b) = mret None) as -> by (by destruct (db_payload b)).
  run. unfold store_new. run. rewrite HRec. run. rewrite bind_run. unfold insert_body_m. cbn [w_state w_engine w_draws].
  pose proof (insert_body_located (log_persist id (w_state w)) id b) as HI. specialize (HI HL).
  change (row_takes (log_persist id (w_state w)) b) with (row_takes (w_state w) b) in HI. rewrite HR in HI.
  pose proof (established_insert_body id b (log_persist id (w_state w)) cid) as HE.
  pose proof (steady_ticket _ _ (steady_insert_body id b (log_persist id (w_state w))) cid) as HT1.
  pose proof (outbox_insert_body id b (log_persist id (w_state w))) as HO.
  assert (es_frags (insert_body id b (log_persist id (w_state w))).1 = es_frags (w_state w)) as HF.
  { unfold insert_body, remove_body, write_row. cbv zeta. repeat case_match; simplify_option_eq; done. }
  destruct (insert_body _ _ _) as [st1 r]. destruct HI as (HL1 & -> & HS1). cbn [fst] in *.
  change (established (log_persist id (w_state w)) cid) with (established (w_state w) cid) in HE.
  change (ticket (log_persist id (w_state w)) cid) with (ticket (w_state w) cid) in HT1.
  assert (on_group_payload cid (db_payload b) = mret tt) as -> by (by destruct (db_payload b)).
  cbn [map_err]. run. unfold expect_established_mut. run. rewrite (established_at_of _ _ c) by by rewrite HE. run.
  set (w1 := mkWorld (w_engine w) st1 (w_draws w)).
  set (actor0 := packet_sender st1 cid (TxFragLast l)).
  pose proof (note_sender_settled cid id actor0 w1 HL1) as HS2. set (w2 := mkWorld _ (established_mut _ _ _) _) in *.
  rewrite bind_run.
  destruct (ack_last_settled cid l w2 now) as (w3 & -> & HS3).
  { rewrite (st_ticket _ _ _ HS2). by rewrite <-HT, <-HT1. }
  { rewrite (st_ticked _ _ _ HS2). rewrite <-HK. by injection HO. }
  run. pose proof (note_sync_peer_settled cid (packet_actor (TxFragLast l)) w3) as HS4.
  set (w4 := mkWorld _ (note_sync_peer _ _ _) _) in *.
  assert ((match db_payload b with
           | PEngineKickDevice device_id => modify (note_device_kick device_id)
           | _ => mret tt
           end) = mret tt) as -> by (by destruct (db_payload b)).
  run. assert (settled cid w1 w4) as HS by (by do 2 (etrans; [done|])).
  exists w4. split; [done|]. destruct (same_store_located _ _ (st_store _ _ _ HS) HL1) as [HL4 HS5].
  split_and!; [done|rewrite HS5; exact HS1|by rewrite (st_frags _ _ _ HS)|].
  intros actor joined. rewrite (st_recv _ _ _ HS) by (cbn; rewrite HE; eauto).
  unfold recv_start. cbn [w1 w_state]. by rewrite HE.
Qed.
End Settling.

(** * From one device to the other *)

Lemma map_m_snoc {A B} (f : A → M B) l a w w1 bs w2 b :
  map_m f l w = (w1, Ok bs) → f a w1 = (w2, Ok b) → map_m f (l ++ [a]) w = (w2, Ok (bs ++ [b])).
Proof.
  revert w bs. induction l as [|x l IH]; intros w bs HM HF; cbn [app map_m] in *.
  - injection HM as <- <-. by rewrite bind_run, HF.
  - rewrite bind_run in HM |- *. destruct (f x w) as [w' [y|e]]; [|done]. rewrite bind_run in HM |- *.
    destruct (map_m f l w') as [w'' [ys|e]] eqn:E; [|done]. injection HM as <- <-.
    by rewrite (IH _ _ E HF).
Qed.

Section Delivered.
Context `{Suite, Rng} `{!Base64UrlLaws, !AeadLaws, !CanonicalJsonLaws, !CompressLaws}.

(** All fragments but the last give nothing; the last one gives the transaction. *)
Lemma take_to_last cid now chain id set_xor seq from b packets bodies frags :
  fragment_body (packed_tx b) id set_xor seq from = Ok packets →
  sealed_along chain packets bodies → Forall arrives packets → body_fits b → frags !! id = None →
  ∃ init l b1 body fr1, packets = init ++ [TxFragLast l] ∧ bodies = b1 ++ [body] ∧ fl_tx_id l = id ∧
    sealed_along chain init b1 ∧ Forall (λ p, arrives p ∧ packet_bounds p = true) init ∧
    Forall (fragment_ahead id) init ∧
    take_all cid now b1 (chain, frags) = Ok ((Nat.iter (length init) step chain, fr1), []) ∧
    open_at (Nat.iter (length init) step chain) None [] now body =
      Ok (mkOpened (TxFragLast l) (step (Nat.iter (length init) step chain)) [] false
            (mk (Nat.iter (length init) step chain))) ∧
    take_in cid now body (Nat.iter (length init) step chain, fr1) =
      Ok ((Nat.iter (length (init ++ [TxFragLast l])) step chain, frags), [b]).
Proof.
  intros HF HS HT HB HFr. pose proof (take_fragments cid now _ _ _ _ _ _ _ _ _ HF HT HB HS HFr) as HAll.
  pose proof (proj2 (fragment_body_cut _ _ _ _ _ _) HF) as (_ & _ & (init & frag & HPk & HI) & HBd).
  unfold last_at in HPk. set (l := mkTxFragLast _ _ _ _ _ _) in HPk.
  rewrite HPk in HS, HT, HBd, HAll. apply sealed_along_app in HS as (b1 & b2 & -> & HS1 & HS2).
  inversion HS2 as [|? rnd ? body ? ? HBl HS3]; subst. inversion HS3; subst. clear HS2 HS3.
  apply Forall_app in HT as [HT1 HTl], HBd as [HB1 HBl']. apply List.Forall_inv in HTl, HBl'.
  assert (Forall (fragment_ahead id) init) as HAh.
  { apply Forall_lookup. intros i p Hp. destruct (HI i p Hp) as (f & -> & _). by eexists. }
  assert (Forall (λ p, arrives p ∧ packet_bounds p = true) init) as HFit by (by apply Forall_and).
  destruct (take_ahead cid now id _ init b1 frags HS1 HFit HAh) as [fr1 HT1']; [intros set; by rewrite HFr|].
  rewrite take_all_app, HT1', bind_ok in HAll. cbn [take_all] in HAll.
  apply bind_inv in HAll as ([rx2 outs] & HAll & HEq). injection HEq as -> Houts. cbn [app] in Houts. subst outs.
  apply bind_inv in HAll as ([rx3 out] & HTake & HEq). rewrite bind_ok in HEq. injection HEq as -> Hout.
  rewrite app_nil_r in Hout. subst out.
  exists init, l, b1, body, fr1. split_and!; try done. by apply (open_next _ now rnd).
Qed.


Lemma deliver_fragments cid secret sort now pre post sender actor joined chain id set_xor seq from
    b packets bodies w c record :
  actor_for sort sender = Some actor → join secret sort sender = Ok joined →
  fragment_body (packed_tx b) id set_xor seq from = Ok packets →
  sealed_along chain packets bodies → Forall arrives packets → body_fits b →
  Located (w_state w) → established (w_state w) cid = Some c →
  recv_start (w_state w) cid actor joined = chain → es_frags (w_state w) !! id = None →
  stored (w_state w) !! id = None → plain_payload (db_payload b) = true →
  row_takes (w_state w) b = true → ticket (w_state w) cid = None → es_ticked (w_state w) = Some now →
  persist_record (w_engine w) (es_next_seq (w_state w)) b = Ok record →
  Forall (unopened cid secret sort now pre actor (w_state w)) bodies →
  ∃ w', map_m (λ body, open_as cid secret sort body true now (pre ++ sender :: post)) bodies w =
      (w', Ok (repeat (Some []) (pred (length bodies)) ++ [Some [record]])) ∧
    Located (w_state w') ∧ stored (w_state w') = <[id := b]> (stored (w_state w)) ∧
    es_frags (w_state w') = es_frags (w_state w) ∧
    recv_start (w_state w') cid actor joined = Nat.iter (length packets) step chain.
Proof.
  intros HA HJ HF HS HT HB HL HC HR HFr HN HP HRow HTk HK HRec HU.
  destruct (take_to_last cid now chain id set_xor seq from b packets bodies (es_frags (w_state w)) HF HS HT HB HFr)
    as (init & l & b1 & body & fr1 & -> & -> & Hl & HS1 & HFit & HAh & HT1' & HOpen & HTake).
  apply Forall_app in HU as [HU1 HUl]. apply List.Forall_inv in HUl.
  destruct (open_run cid secret sort now pre post sender actor joined HA HJ _ init b1 w
    (Nat.iter (length init) step chain, fr1) HS1) as (w1 & HM & HLs); [|by rewrite HC|exact HU1|exact HR|exact HT1'|].
  { apply Forall_lookup. intros i p Hp. pose proof (proj1 (Forall_lookup _ _) HFit i p Hp) as [? ?].
    pose proof (proj1 (Forall_lookup _ _) HAh i p Hp) as (part & -> & _). by split_and!. }
  assert (unopened cid secret sort now pre actor (w_state w1) body) as HUl1
    by (eapply unopened_listened; [exact HLs|exact HUl]).
  set (rx2 := (Nat.iter (length (init ++ [TxFragLast l])) step chain, es_frags (w_state w)) : Inbox) in *.
  assert (open_as cid secret sort body true now (pre ++ sender :: post) w1 =
    (persist ← accept_body cid (TxFragLast l) true id b; mret (Some persist)) (heard cid actor rx2 w1)) as HLast.
  { rewrite <-Hl. apply (open_as_take_in cid secret sort now pre post sender actor joined HA HJ w1 body _ rx2 [b] _ _
      (ls_established _ _ _ _ _ _ HLs) HUl1 (ls_recv _ _ _ _ _ _ HLs) HOpen eq_refl).
    by rewrite (ls_frags _ _ _ _ _ _ HLs). }
  destruct (same_store_located _ _ (ls_store _ _ _ _ _ _ HLs) HL) as [HL1 HSt1].
  pose proof (heard_listened cid actor joined rx2 w1 (ls_established _ _ _ _ _ _ HLs)) as HLs2.
  pose proof (listened_trans _ _ _ _ _ _ _ _ HLs HLs2) as HLs3.
  destruct (same_store_located _ _ (ls_store _ _ _ _ _ _ HLs3) HL) as [HL2 HSt2].
  destruct (ls_established _ _ _ _ _ _ HLs3) as [c2 HC2].
  pose proof (ls_outbox _ _ _ _ _ _ HLs3) as HOut. unfold outbox in HOut.
  injection HOut as HO1 _ _ _ HO5 _ _.
  change (es_next_seq (w_state (heard cid actor rx2 w1)) = es_next_seq (w_state w)) in HO5.
  destruct (accept_body_new cid l id b (heard cid actor rx2 w1) c2 now record) as (w' & HAcc & HL' & HS' & HF' & HR').
  { done. }
  { done. }
  { by rewrite HSt2. }
  { done. }
  { by rewrite (ls_takes _ _ _ _ _ _ HLs3). }
  { by rewrite (steady_ticket _ _ (rows_steady _ _ (ls_rows _ _ _ _ _ _ HLs3 HL))). }
  { exact (eq_trans HO1 HK). }
  { by rewrite HO5, (ls_engine _ _ _ _ _ _ HLs3). }
  exists w'. split_and!.
  - rewrite length_app, Nat.add_1_r. cbn [pred]. eapply map_m_snoc.
    + rewrite HM. do 2 f_equal. clear. induction b1; cbn; congruence.
    + rewrite HLast. by rewrite bind_run, HAcc.
  - done.
  - by rewrite HS', HSt2.
  - by rewrite HF', (ls_frags _ _ _ _ _ _ HLs3).
  - by rewrite HR', (ls_recv _ _ _ _ _ _ HLs3).
Qed.

Lemma sealed_along_length chain packets bodies : sealed_along chain packets bodies → length packets = length bodies.
Proof. induction 1; cbn; congruence. Qed.

(** Where posting leaves the durable packets [bodies] and the chain [past] them. *)
Definition outgoing (wait : bool) (route : LiveRoute) (bodies : list bytes) (past : SendChain)
    (c : EstablishedChains) : Prop :=
  if wait then
    (λ p, (lp_bodies p, lp_sealed_to p)) <$> last (pc_live_pending (ec_packet c)) = Some (bodies, past)
  else pc_send (ec_packet c) !! lr_actor route = Some past.

End Delivered.

(** * On two concrete devices

    The invitee of [Samples.v] posts the text it stores; the inviter, who has the other end
    of the same handshake, takes it in. *)

Definition peer_rows : EngineState :=
  put_dm (id_of x01) (id_of x02) (id_of x03) (IdentityNode_direct (id_of x32) (id_of x0c))
    (put_dm_inviter (id_of x01) (id_of x02) (id_of x0c)
       (InviteCreated chat_ticket (chat_encryption x42) (clamp64 0))
       (with_ticked (Some (clamp64 7205)) EngineState_new)).

Definition peer_state : EngineState :=
  store_all
    [(id_of x71, body_in (id_of x99) (PEngineCreateIdentity (id_of x01) (id_of x02) Classic
        (chat_encryption x42) (chat_signing x42)));
     (id_of x62, body_in (id_of x0c) (PNotice chat_notice));
     (id_of x63, body_in (id_of x0c) (PInviteeIntro chat_invitee));
     (id_of x64, body_in (id_of x0c) (PInviterIntro chat_inviter))] peer_rows.

Lemma located_peer : Located peer_state.
Proof.
  apply located_store_all. unfold peer_rows.
  apply (same_store_located (put_dm_inviter (id_of x01) (id_of x02) (id_of x0c)
    (InviteCreated chat_ticket (chat_encryption x42) (clamp64 0))
    (with_ticked (Some (clamp64 7205)) EngineState_new))).
  - by apply put_dm_same_store.
  - apply (same_store_located (with_ticked (Some (clamp64 7205)) EngineState_new)); [|exact located_new].
    by apply put_dm_same_store.
Qed.

Definition posted_text : DurableBody := body_in (id_of x03) (PText (mkTxText (lit "hi") None None)).
Definition first_chain : SendChain :=
  match join (id_of x32) DirectMessage (replicate 32 x41) with
  | Ok chain => chain | Err _ => sample_chain end.
Definition posting (route : LiveRoute) : World * result fault unit :=
  post_fragments (id_of x03) route (clamp64 7200) false first_chain (id_of x65)
    (mkWorld chat_engine chat_state 0).
Definition text_fits_dec (p : PacketPlain) : bool :=
  (N.of_nat (length (json_encode (packet_to_json p))) <=? PACKET_MAX_UNCOMPRESSED)%N.

#[local] Instance Hlc_eq_dec : EqDecision Hlc.
Proof. solve_decision. Defined.
#[local] Instance DurableBody_eq_dec : EqDecision DurableBody.
Proof. solve_decision. Defined.

Lemma posting_runs : ∃ route wA', live_route chat_state (id_of x03) = Some route ∧ posting route = (wA', Ok tt).
Proof.
  assert (match live_route chat_state (id_of x03) with
          | Some route => is_ok (posting route).2 | None => false end = true) as HX by by vm_compute.
  destruct (live_route chat_state (id_of x03)) as [route|] eqn:E; [|done].
  destruct (posting route) as [wA' [[]|e]] eqn:E2; [|done]. exists route, wA'. split; [exact eq_refl|exact E2].
Qed.

Lemma posting_fits packets route :
  live_route chat_state (id_of x03) = Some route →
  fragment_body (packed_tx posted_text) (id_of x65) (set_xor_for (body_pairs chat_state) (id_of x03))
    (sc_packet_seq first_chain) (Actor_as_bytes (lr_actor route)) = Ok packets → Forall arrives packets.
Proof.
  intros HR HF.
  assert (match live_route chat_state (id_of x03) with
    | Some route => match fragment_body (packed_tx posted_text) (id_of x65)
        (set_xor_for (body_pairs chat_state) (id_of x03)) (sc_packet_seq first_chain)
        (Actor_as_bytes (lr_actor route)) with Ok ps => forallb text_fits_dec ps | Err _ => false end
    | None => false end = true) as HX by by vm_compute.
  rewrite HR, HF in HX.
  apply Forall_forall. intros p Hp. apply marked_arrives, N.leb_le. apply list_elem_of_In in Hp.
  by apply (proj1 (forallb_forall _ _) HX).
Qed.

Lemma peer_facts : ∃ c record,
  established peer_state (id_of x03) = Some c ∧
  persist_record chat_engine (es_next_seq peer_state) posted_text = Ok record.
Proof.
  destruct (established peer_state (id_of x03)) as [c|] eqn:E.
  2: { assert (bool_decide (is_Some (established peer_state (id_of x03))) = true) as HX by by vm_compute.
       by rewrite E in HX. }
  destruct (persist_record chat_engine (es_next_seq peer_state) posted_text) as [r|] eqn:E2; [exists c, r; split; reflexivity|].
  assert (is_ok (persist_record chat_engine (es_next_seq peer_state) posted_text) = true) as HX by by vm_compute.
  by rewrite E2 in HX.
Qed.

