(* ===== verification/Agreement.v ===== *)
(** What two devices agree on: a secret sealed to a public key, media sealed under a
    conversation's secret, and the two shared secrets of a handshake, which the
    introductions carry ([seal_to] of [Directory.v], [seal_media] of [Session.v], minting
    and gates of [Handshake.v]). *)

From stdpp Require Import base tactics list numbers option strings countable gmap.
From Stdlib Require Import Strings.Byte.
From S2P Require Import Prelude Text Ids Order Channel Defaults Payload Json Ports Codec.
From S2P Require Import TestDoubles.
From S2P Require Import Chain RowLog Party HealRange Bins State StateLaws Frags Helpers HelpersLaws.
From S2P Require Import Engine Frame Ratchet RatchetLaws Vault VaultLaws Directory Skeleton Samples.
From S2P Require Import Chat Heal HealLaws Fingerprint Live LiveLaws Handshake Identity Groups.
From S2P Require Import Receive Steady Delivery Ingest Views Session.

(** * Sealed under a key, sealed to a key *)

Section Sealed.
Context `{Suite} `{!AeadLaws}.

Lemma open_seal_under key rnd plain : open_under key (seal_under key rnd plain) = Some plain.
Proof.
  unfold open_under, seal_under. assert (length (cval (nonce_of rnd)) = PACKET_NONCE_LEN) as HL by auto with widths.
  rewrite take_app_length', drop_app_length' by done. rewrite try_into_cval. cbn. apply aead_open_seal.
Qed.

Lemma seal_under_length key rnd plain : length (seal_under key rnd plain) = (length plain + 28)%nat.
Proof. unfold seal_under. rewrite length_app, aead_seal_length, arr_length. lia. Qed.

Context `{Rng} `{!KemLaws}.

(** C19. A group secret or a data key sealed to the public half of a generated key pair
    opens, with the secret half and under the same label, to the same 32 bytes; anything
    that is not 32 bytes long is refused when it is opened. *)
Theorem sealed_opens info policy seed kp plain w w' packed :
  kem_generate policy seed = Some kp →
  seal_to info policy (kp_public kp) plain w = (w', Ok packed) →
  open_sealed info policy (kp_secret kp) packed = ok_or MalformedPayload (try_into 32 plain).
Proof.
  intros HG. unfold seal_to, random_seed. run. rewrite lift_bind.
  destruct (kem_wrap _ _ _) as [[shared ct]|] eqn:HW; [|done]. cbn [ok_or]. run. intros [= <- <-].
  destruct (kem_wrap_lengths _ _ _ _ _ HW) as [HS HC]. unfold open_sealed.
  rewrite length_app, seal_under_length, HC.
  destruct (_ <=? _)%nat eqn:HE; [apply Nat.leb_le in HE; unfold PACKET_NONCE_LEN in HE; lia|].
  cbn [refuse_if]. rewrite bind_ok, take_app_length', drop_app_length' by done.
  rewrite (kem_unwrap_wrap _ _ _ _ _ _ HG HW). cbn [ok_or]. rewrite bind_ok, open_seal_under.
  cbn [ok_or]. by rewrite bind_ok.
Qed.

(** C20. Media sealed by a sender opens for everyone who has the conversation's secret and the
    hash of the content, to exactly the content, and only if the content has that hash. *)
Theorem media_opens st cid secret rnd plain :
  conv_secret st cid = Ok secret →
  open_media st cid (digest_tag plain) (seal_media secret (digest_tag plain) rnd plain) = Ok plain ∧
  ∀ hash other, open_media st cid hash other = Ok plain → hash = digest_tag plain.
Proof.
  intros HS. split.
  - unfold open_media, seal_media. rewrite HS, bind_ok, seal_under_length.
    destruct (_ <=? _)%nat eqn:HE; [apply Nat.leb_le in HE; unfold PACKET_NONCE_LEN in HE; lia|].
    cbn [refuse_if]. rewrite bind_ok, open_seal_under. cbn [ok_or]. by rewrite bind_ok, (proj2 (branded_eq_spec _ _) eq_refl).
  - intros hash other. unfold open_media. rewrite HS, bind_ok.
    destruct (refuse_if _ _); [|done]. rewrite bind_ok.
    destruct (open_under _ _) as [p|]; [|done]. cbn [ok_or]. rewrite bind_ok.
    destruct (branded_eq _ _) eqn:HB; [|done]. cbn. intros [= ->]. by apply branded_eq_spec in HB.
Qed.

End Sealed.

(** A secret for Ada's classic key pair; a picture in the conversation of [Samples.v]. *)
Definition sealed_pair : KeyPair :=
  default (chat_encryption x41) (@kem_generate SeedKem Classic (from_pair (id_of x01) (id_of x02))).
Definition sealed_run_of : World * result fault bytes :=
  @seal_to seed_suite GROUP_SECRET_INFO counting_draws Classic (kp_public sealed_pair) (replicate 32 x5a)
    (mkWorld chat_engine EngineState_new 0).

Lemma sealed_runs : ∃ w' packed, sealed_run_of = (w', Ok packed).
Proof.
  assert (is_ok sealed_run_of.2 = true) as HX by by vm_compute.
  destruct sealed_run_of as [w' [packed|e]]; [by exists w', packed|done].
Qed.

Lemma sealed_opens_witness :
  ∃ packed, @open_sealed seed_suite GROUP_SECRET_INFO Classic (kp_secret sealed_pair) packed = Ok (fill 32 x5a).
Proof.
  destruct sealed_runs as (w' & packed & HR). exists packed.
  rewrite (@sealed_opens seed_suite test_aead_laws counting_draws SeedKem_lawful GROUP_SECRET_INFO Classic
    (from_pair (id_of x01) (id_of x02)) sealed_pair (replicate 32 x5a)
    (mkWorld chat_engine EngineState_new 0) w' packed eq_refl HR).
  exact (f_equal (ok_or MalformedPayload) (try_into_cval (fill 32 x5a))).
Defined.

Lemma media_opens_witness :
  open_media chat_state (id_of x03) (digest_tag (blit "picture"))
    (seal_media (id_of x32) (digest_tag (blit "picture")) (id_of x77) (blit "picture")) = Ok (blit "picture").
Proof. apply (media_opens chat_state (id_of x03) (id_of x32) (id_of x77) (blit "picture")). vm_decide. Defined.

(** * What an introduction changes *)

(** The introduction a payload carries. *)
Definition payload_invitee (p : TxPayload) : option TxInviteeIntro :=
  match p with PInviteeIntro i => Some i | PSyncInviteeIntro s => Some (se_intro s) | _ => None end.
Definition payload_inviter (p : TxPayload) : option TxInviterIntro :=
  match p with PInviterIntro i => Some i | PSyncInviterIntro s => Some (si_intro s) | _ => None end.

(** [payload] is what was stored between [st] and [st']. *)
Definition stored_new (st st' : EngineState) (payload : TxPayload) : Prop :=
  ∃ id b, stored st' !! id = Some b ∧ stored st !! id = None ∧ db_payload b = payload.

(** Both shared secrets a party holds. *)
Definition shared_at (st : EngineState) (cid : ConversationId) : option (Secret * Secret) :=
  p ← party st cid;
  a ← on_party (λ k, party_shared_inviter) p;
  b ← on_party (λ k, party_shared_invitee) p;
  Some (a, b).

(** What is stored stays, where it is. *)
Definition Filed (w w' : World) : Prop := same_store (w_state w) (w_state w').

#[export] Instance Filed_preorder : PreOrder Filed.
Proof. unfold Filed. split; [done|]. intros w1 w2 w3 H1 H2. by etrans. Qed.

Lemma filed_modify f : (∀ st, same_store st (f st)) → Evolves Filed (modify f).
Proof. intros Hf w. apply Hf. Qed.

#[export] Hint Extern 5 (Evolves Filed (modify _)) =>
  apply filed_modify; intros; solve [apply chains_mut_same_store | apply established_mut_same_store | done] : evolve.

Section Kept.
Context `{Suite, Rng}.

#[export] Instance random32_filed : Evolves Filed random32.
Proof. by intros w. Qed.
#[export] Instance random_seed_filed : Evolves Filed random_seed.
Proof. unfold random_seed. evolve. Qed.
#[export] Instance seal_packet_m_filed {K} `{PacketAeadKey K} (key : K) p :
  Evolves Filed (seal_packet_m key p).
Proof. unfold seal_packet_m. evolve. Qed.

(** A merge that succeeds stores at most the transaction. *)
Lemma merge_tx_stores secret cid payload w w' id b record :
  merge_tx secret cid payload w = (w', Ok (id, b, record)) → Located (w_state w) →
  Located (w_state w') ∧ db_payload b = payload ∧
  stored (w_state w') = <[id := b]> (stored (w_state w)).
Proof.
  unfold merge_tx, store_new, require_tick. run.
  destruct (es_ticked (w_state w)) as [now|]; cbn [ok_or]; run; [|done]. cbv zeta.
  destruct (body (w_state w) _) as [e|] eqn:Hb.
  - case_decide as Hp; [|by run]. destruct (persist_record _ _ _); run; [|done].
    intros [= <- <- <- <-] HL. split_and!; [done..|]. by rewrite insert_id by by rewrite stored_lookup.
  - run. destruct (persist_record _ _ _); run; [|done]. rewrite bind_run. unfold insert_body_m.
    cbn [w_engine w_state w_draws]. set (new := mkDurableBody _ _ _).
    pose proof (insert_body_located (log_persist (tx_id secret payload) (w_state w)) (tx_id secret payload) new) as HI.
    destruct (insert_body _ _ _) as [st' [[]|e]]; cbn [map_err fst] in *; run; [|done].
    intros [= <- <- <- _] HL. destruct (HI HL) as (HL' & HT & HS). split_and!; [done..|].
    cbn [w_state]. rewrite HS. destruct (row_takes _ _); [done|discriminate].
Qed.

#[export] Instance write_fragments_filed fuel cid persistents tag tx_id set_xor actor since packed i chain :
  Evolves Filed (write_fragments fuel cid persistents tag tx_id set_xor actor since packed i chain).
Proof.
  revert packed i chain. induction fuel as [|fuel IH]; intros packed i chain; cbn [write_fragments];
    unfold push_writes, note_sent_packet; evolve.
Qed.
#[export] Instance absorb_peer_wraps_m_filed cid : Evolves Filed (absorb_peer_wraps_m cid).
Proof.
  intros [en st n]. unfold absorb_peer_wraps_m. run.
  destruct (absorb_peer_wraps cid st) as [st'|] eqn:E; cbn; [|done].
  revert E. apply (absorb_along same_store); [apply _|]. intros. apply established_mut_same_store.
Qed.
#[export] Instance post_handshake_packets_filed cid secret tx_id :
  Evolves Filed (post_handshake_packets cid secret tx_id).
Proof. unfold post_handshake_packets, write_chain_packets. evolve. Qed.

#[export] Instance ensure_device_keys_filed policy : Evolves Filed (ensure_device_keys policy).
Proof. unfold ensure_device_keys, new_device_keys, generate_kem, generate_sign. evolve. Qed.
#[export] Instance ensure_device_keys_steady policy : Evolves Steady (ensure_device_keys policy).
Proof. unfold ensure_device_keys, new_device_keys, generate_kem, generate_sign. evolve. Qed.

(** Whoever has a name and keys to introduce is left as it was. *)
Lemma local_calling_kept cid policy w w' parts :
  local_calling cid policy w = (w', Ok (Some parts)) → Steady w w' ∧ Filed w w'.
Proof.
  unfold local_calling. run. destruct (is_sync _ _).
  - destruct (dv_name _) as [name|]; run; [|done]. rewrite bind_run.
    pose proof (ensure_device_keys_filed policy w) as HF. pose proof (ensure_device_keys_steady policy w) as HS.
    destruct (ensure_device_keys policy w) as [w1 [[]|e]]; [|done]. run.
    destruct (dv_keys _); run; [|done]. by intros [= <- _].
  - destruct (_ ≫= _) as [[[iid name] [[id_policy enc] sign]]|]; [|by run].
    case_decide; run; [by intros [= <- _]|done].
Qed.

Lemma invitee_payload_ok cid intro w w' p :
  invitee_payload cid intro w = (w', Ok p) → w' = w ∧ payload_invitee p = Some intro.
Proof.
  unfold invitee_payload. run. destruct (is_sync _ _); run; [|by intros [= <- <-]].
  rewrite lift_bind. destruct (introduced_device _); run; [|done]. by intros [= <- <-].
Qed.
Lemma inviter_payload_ok cid intro w w' p :
  inviter_payload cid intro w = (w', Ok p) → w' = w ∧ payload_inviter p = Some intro.
Proof.
  unfold inviter_payload. run. destruct (is_sync _ _); run; [|by intros [= <- <-]].
  rewrite lift_bind. destruct (introduced_device _); run; [|done]. by intros [= <- <-].
Qed.

#[export] Instance post_intro_steady cid payload : Evolves Steady (post_intro cid payload).
Proof. unfold post_intro. evolve. Qed.

(** A posted introduction is stored and nothing else is. *)
Lemma post_intro_stores cid payload w w' l :
  post_intro cid payload w = (w', Ok l) → Located (w_state w) →
  ∃ id b, db_payload b = payload ∧ stored (w_state w') = <[id := b]> (stored (w_state w)).
Proof.
  unfold post_intro. run. rewrite lift_bind. destruct (conv_secret _ _) as [secret|] eqn:HC; run; [|done].
  rewrite bind_run. destruct (merge_tx _ _ _ _) as [w1 [[[id b] rec]|e]] eqn:HM; [|done].
  rewrite bind_run. pose proof (post_handshake_packets_filed cid secret id w1) as HT.
  destruct (post_handshake_packets _ _ _ w1) as [w2 [[]|e]]; [|done]. change (same_store (w_state w1) (w_state w2)) in HT.
  intros [= <- _] HL. destruct (merge_tx_stores _ _ _ _ _ _ _ _ HM HL) as (HL1 & Hb & HS).
  exists id, b. split; [done|]. by rewrite (proj2 (same_store_located _ _ HT HL1)).
Qed.

(** What is new when one transaction was stored is that transaction. *)
Lemma stored_new_one st st' id b payload :
  stored st' = <[id := b]> (stored st) → stored_new st st' payload → payload = db_payload b.
Proof.
  intros HS (i & b' & HN & HO & <-). rewrite HS in HN. apply lookup_insert_Some in HN as [[_ ->]|[_ HN]]; congruence.
Qed.
End Kept.

(** * The two shared secrets of a handshake *)

(** The invitee's party between its introduction and the inviter's answer. *)
Definition waits (intake : KeyPair) (si : Secret) (p : PartyRef) : Prop :=
  on_party (λ k p, ∃ t lf pol, p = PartyInvitee (InviteeMinted t lf pol intake si) ∨
                               p = PartyInvitee (IntroductionSent t lf pol intake si)) p.

Section Secrets.
Context `{Suite, Rng} `{!KemLaws}.

Lemma unwrap_wrap_shared policy s kp seed shared ct :
  kem_generate policy s = Some kp → kem_wrap policy (kp_public kp) seed = Some (shared, ct) →
  unwrap_shared policy (kp_secret kp) ct = Some (take_shared32 shared).
Proof.
  intros HG HW. unfold unwrap_shared. rewrite (kem_unwrap_wrap _ _ _ _ _ _ HG HW). cbn.
  destruct (kem_wrap_lengths _ _ _ _ _ HW) as [HL _]. unfold take_shared32.
  set (out := mkChecked (P := λ l, Nat.eqb (length l) 32) _ (shared32_ok shared)).
  assert (shared = cval out) as HO; [|by rewrite HO at 1; rewrite try_into_cval].
  unfold out. cbn [cval].
  by rewrite firstn_all2, HL, Nat.sub_diag, app_nil_r by lia.
Qed.

Lemma generate_kem_ok policy w w' kp :
  generate_kem policy w = (w', Ok kp) → w_state w' = w_state w ∧ ∃ s, kem_generate policy s = Some kp.
Proof.
  unfold generate_kem, random_seed. run. destruct (kem_generate _ _) as [kp'|] eqn:HG; cbn; [|done].
  intros [= <- <-]. eauto.
Qed.

Lemma minting_same cid f w w1 : Filed w w1 → same_store (w_state w) (party_mut cid f (w_state w1)).
Proof. intros HT. etrans; [apply HT|apply party_mut_same_store]. Qed.
Lemma minting_located cid w f w1 :
  Filed w w1 → Located (w_state w) → Located (party_mut cid f (w_state w1)).
Proof. intros HT HL. by apply (same_store_located _ _ (minting_same cid f _ _ HT)). Qed.
Lemma minting_new cid f w w1 st' id b payload :
  Filed w w1 → Located (w_state w) → stored st' = <[id := b]> (stored (party_mut cid f (w_state w1))) →
  stored_new (w_state w) st' payload → payload = db_payload b.
Proof.
  intros HT HL HS. apply stored_new_one with (id := id). rewrite HS. f_equal.
  by apply (same_store_located _ _ (minting_same cid f _ _ HT)).
Qed.

(** What the invitee has sent, and what it keeps, once it has minted its introduction. *)
Lemma invitee_introduces cid w w' r l :
  Located (w_state w) → try_mint_invitee_intro cid w = (w', Ok (r :: l)) →
  ∃ notice intro intake shared s seed p,
    notice_for (w_state w) cid = Some notice ∧
    kem_generate (n_policy notice) s = Some intake ∧
    kem_wrap (n_policy notice) (enc_bytes (n_intake_pk notice)) seed = Some (shared, ie_seed_ct intro) ∧
    ie_intake_pk intro = EncryptionPublicKey_from_bytes (kp_public intake) ∧
    party (w_state w') cid = Some p ∧ waits intake (take_shared32 shared) p ∧
    (∀ payload, stored_new (w_state w) (w_state w') payload → payload_invitee payload = Some intro).
Proof.
  intros HLo. unfold try_mint_invitee_intro. run. case_decide as HK; [|by run].
  destruct (invitee_intro_for _ _); [by run|]. destruct (notice_for _ _) as [notice|] eqn:HN; [|by run].
  unfold mint_invitee_intro. run. rewrite bind_run.
  destruct (local_calling _ _ _) as [w1 [[[[[name pic] enc] sign]|]|e]] eqn:HC; [|by run|done].
  apply local_calling_kept in HC as [HSt HT]. rewrite bind_run.
  destruct (generate_kem _ _) as [w2 [intake|e]] eqn:HG; [|done].
  apply generate_kem_ok in HG as [HS2 [s HG]]. unfold random_seed. run. rewrite lift_bind.
  destruct (kem_wrap _ _ _) as [[shared ct]|] eqn:HW; [|done]. cbn [ok_or]. run. cbv zeta. rewrite bind_run.
  set (intro := mkTxInviteeIntro _ _ _ _ _ _ _ _ _).
  destruct (invitee_payload _ _ _) as [w3 [payload|e]] eqn:HPl; [|done].
  apply invitee_payload_ok in HPl as [-> HPl]. run.
  intros HR. pose proof (sd_rows _ _ (steady_run HR)) as HP. cbn [w_state] in HP. rewrite HS2 in HP.
  apply post_intro_stores in HR; cbn [w_state] in *; rewrite HS2 in *; [|by apply (minting_located _ w)].
  destruct HR as (id & b & <- & HS).
  assert (∃ p, party (w_state w) cid = Some p ∧ on_party (λ k, kind) p = K_InviteReceived) as (p & Hp & HKp).
  { unfold kind_at in HK. destruct (party _ cid) as [p|]; [|done]. injection HK. eauto. }
  exists notice, intro, intake, shared, s, (from_pair (draw (w_draws w2)) (draw (S (w_draws w2)))), (map_party (invitee_do (Invitee.mint_intro intake (take_shared32 shared))) p).
  rewrite (steady_party _ _ HP), party_party_mut, decide_True, (steady_party _ _ (sd_rows _ _ HSt)), Hp by done.
  split_and!; [done..| |].
  - destruct p as [[[]|[]]|[[]|[]]]; try done; cbn; eauto 6.
  - intros payload Hpl. by rewrite (minting_new _ _ _ _ _ _ _ _ HT HLo HS Hpl).
Qed.

(** The inviter's answer, and both secrets it holds from then on. *)
Lemma inviter_answers cid notice intro kp s shared seed w w' r l :
  Located (w_state w) →
  notice_for (w_state w) cid = Some notice → invitee_intro_for (w_state w) cid = Some intro →
  intake_secret (w_state w) cid = Some (kp_secret kp) → kem_generate (n_policy notice) s = Some kp →
  kem_wrap (n_policy notice) (kp_public kp) seed = Some (shared, ie_seed_ct intro) →
  try_mint_inviter_intro cid w = (w', Ok (r :: l)) →
  ∃ reply answer seed',
    kem_wrap (n_policy notice) (enc_bytes (ie_intake_pk intro)) seed' = Some (answer, ii_seed_ct reply) ∧
    shared_at (w_state w') cid = Some (take_shared32 shared, take_shared32 answer) ∧
    (∀ payload, stored_new (w_state w) (w_state w') payload → payload_inviter payload = Some reply).
Proof.
  intros HLo HN HI HSk HG HW. unfold try_mint_inviter_intro. run. case_decide as HK; [|by run].
  rewrite HN, HI. destruct (inviter_intro_for _ _); [by run|]. unfold mint_inviter_intro. run. rewrite bind_run.
  destruct (local_calling _ _ _) as [w1 [[[[[name pic] enc] sign]|]|e]] eqn:HC; [|by run|done].
  apply local_calling_kept in HC as [HSt HT]. unfold random_seed. run.
  destruct (kem_wrap _ (enc_bytes _) _) as [[answer ct]|] eqn:HW'; [|unfold fail_intro; by run]. run.
  assert (intake_secret (w_state w1) cid = Some (kp_secret kp)) as ->
    by (unfold intake_secret; by rewrite (steady_party _ _ (sd_rows _ _ HSt))). run.
  rewrite (unwrap_wrap_shared _ _ _ _ _ _ HG HW). run. cbv zeta. rewrite bind_run.
  set (reply := mkTxInviterIntro _ _ _ _ _ _ _ _).
  destruct (inviter_payload _ _ _) as [w3 [payload|e]] eqn:HPl; [|done].
  apply inviter_payload_ok in HPl as [-> HPl].
  intros HR. pose proof (sd_rows _ _ (steady_run HR)) as HP. cbn [w_state] in HP.
  apply post_intro_stores in HR; cbn [w_state] in *; [|by apply (minting_located _ w)].
  destruct HR as (id & b & <- & HS).
  assert (∃ p, party (w_state w) cid = Some p ∧ on_party (λ k, kind) p = K_NoticePinned) as (p & Hp & HKp).
  { unfold kind_at in HK. destruct (party _ cid) as [p|]; [|done]. injection HK. eauto. }
  exists reply, answer, (from_pair (draw (w_draws w1)) (draw (S (w_draws w1)))). split; [exact HW'|split].
  - unfold shared_at. rewrite (steady_party _ _ HP), party_party_mut, decide_True, (steady_party _ _ (sd_rows _ _ HSt)), Hp by done.
    by destruct p as [[[]|[]]|[[]|[]]].
  - intros payload Hpl. by rewrite (minting_new _ _ _ _ _ _ _ _ HT HLo HS Hpl).
Qed.

(** The gate at the invitee lets the answer in and confirms with its secret. *)
Lemma answer_confirms cid notice reply intake si s answer seed p w :
  party (w_state w) cid = Some p → waits intake si p →
  notice_for (w_state w) cid = Some notice → inviter_intro_for (w_state w) cid = None →
  kem_generate (n_policy notice) s = Some intake →
  kem_wrap (n_policy notice) (kp_public intake) seed = Some (answer, ii_seed_ct reply) →
  intro_keys_ok (n_policy notice) (enc_bytes (ii_encryption_pk reply))
    (sign_bytes (ii_signing_pk reply)) None (ii_seed_ct reply) = true →
  ∃ w', gate_inviter_intro cid reply w = (w', Ok None) ∧
        shared_at (w_state w') cid = Some (si, take_shared32 answer).
Proof.
  intros Hp HWt HN HI HG HW HOk. unfold gate_inviter_intro. run. rewrite HN, HI, HOk. cbn [negb].
  assert (state_is_inviter (w_state w) cid = false ∧ intake_secret (w_state w) cid = Some (kp_secret intake))
    as [-> ->].
  { unfold state_is_inviter, intake_secret. rewrite Hp.
    destruct p as [p|p]; destruct HWt as (t & lf & pol & [->| ->]); done. }
  cbn [mbind option_bind]. rewrite (unwrap_wrap_shared _ _ _ _ _ _ HG HW). unfold confirm_peer_at. run. rewrite Hp.
  set (w1 := mkWorld _ _ _).
  assert (shared_at (w_state w1) cid = Some (si, take_shared32 answer) ∧
    on_party (λ k p, from_option fst false (on_invitee (Invitee.confirm_peer (take_shared32 answer)) p)) p = true)
    as [HS ->]; [|exists w1; split; [by run|done]].
  unfold shared_at. cbn [w_state w1]. rewrite party_party_mut, decide_True, Hp by done.
  destruct p as [p|p]; destruct HWt as (t & lf & pol & [->| ->]); done.
Qed.

Lemma try_fingerprint_shared st cid :
  try_fingerprint st cid =
    (t ← State.ticket st cid; inviter ← inviter_intro_for st cid; invitee ← invitee_intro_for st cid;
     '(a, b) ← shared_at st cid;
     let key : HmacSha256Key := from_bytes (as_bytes (tk_secret t)) in
     '(lo, hi) ← fingerprint_payloads st cid inviter invitee;
     Some (b64_encode (cval (as_bytes (fingerprint_mac key (is_sync st cid) lo hi (spawn_secret_of key a b)))),
           spawn_secret_of key a b)).
Proof.
  unfold try_fingerprint, shared_at. destruct (State.ticket _ _); [|done]. cbn.
  destruct (inviter_intro_for _ _); [|done]. cbn. destruct (invitee_intro_for _ _); [|done]. cbn.
  destruct (party st cid) as [[p|p]|]; cbn; [..|done];
    by destruct (party_shared_inviter p), (party_shared_invitee p).
Qed.

(** Two devices that hold the same ticket, introductions and shared secrets show the same
    digest and spawn the same child. *)
Lemma digests_agree cid st st' :
  is_sync st cid = false → is_sync st' cid = false →
  (tk_secret <$> ticket st cid) = (tk_secret <$> ticket st' cid) →
  inviter_intro_for st cid = inviter_intro_for st' cid →
  invitee_intro_for st cid = invitee_intro_for st' cid →
  shared_at st cid = shared_at st' cid → try_fingerprint st cid = try_fingerprint st' cid.
Proof.
  intros S1 S2 HT HI HE HS. rewrite !try_fingerprint_shared. unfold fingerprint_payloads.
  rewrite S1, S2, HI, HE, HS. destruct (ticket st cid) as [t|], (ticket st' cid) as [t'|]; try done.
  injection HT as HT. cbn. by rewrite HT.
Qed.

(** C5. The two ends of a handshake agree.  An invitee answers a notice with an
    introduction, the inviter, who holds the secret half of the notice's key, answers the
    introduction with its own, and the invitee's gate meets that answer before or after its
    own introduction was posted: the gate lets the answer in, and both parties then hold
    the same two shared secrets, neither of which was ever sent in the clear. *)
Theorem ends_agree cid notice kp s wE wE1 rE lE pE intro wI wI1 rI lI pI reply wE2 :
  kem_generate (n_policy notice) s = Some kp →
  n_intake_pk notice = EncryptionPublicKey_from_bytes (kp_public kp) →
  Located (w_state wE) → notice_for (w_state wE) cid = Some notice →
  try_mint_invitee_intro cid wE = (wE1, Ok (rE :: lE)) →
  stored_new (w_state wE) (w_state wE1) pE → payload_invitee pE = Some intro →
  Located (w_state wI) → notice_for (w_state wI) cid = Some notice →
  intake_secret (w_state wI) cid = Some (kp_secret kp) →
  invitee_intro_for (w_state wI) cid = Some intro →
  try_mint_inviter_intro cid wI = (wI1, Ok (rI :: lI)) →
  stored_new (w_state wI) (w_state wI1) pI → payload_inviter pI = Some reply →
  (party (w_state wE2) cid = party (w_state wE1) cid ∨
   party (w_state wE2) cid = map_party (λ k, ack_posted) <$> party (w_state wE1) cid) →
  notice_for (w_state wE2) cid = Some notice → inviter_intro_for (w_state wE2) cid = None →
  intro_keys_ok (n_policy notice) (enc_bytes (ii_encryption_pk reply))
    (sign_bytes (ii_signing_pk reply)) None (ii_seed_ct reply) = true →
  ∃ wE3 secrets, gate_inviter_intro cid reply wE2 = (wE3, Ok None) ∧
    shared_at (w_state wE3) cid = Some secrets ∧ shared_at (w_state wI1) cid = Some secrets.
Proof.
  intros HG HPk HLE HN HE HpE HiE HLI HNI HSk HII HI HpI HiI HP HN2 HI2 HOk.
  destruct (invitee_introduces _ _ _ _ _ HLE HE)
    as (? & ? & intake & shared & s' & seed & p & HN' & HG' & HW & HPk' & Hp & HWt & Hnew).
  rewrite HN in HN'. injection HN' as <-. rewrite (Hnew _ HpE) in HiE. injection HiE as ->.
  rewrite HPk in HW. cbn in HW.
  destruct (inviter_answers _ _ _ _ _ _ _ _ _ _ _ HLI HNI HII HSk HG HW HI)
    as (? & answer & seed' & HW' & HS & Hnew').
  rewrite (Hnew' _ HpI) in HiI. injection HiI as ->. rewrite HPk' in HW'. cbn in HW'.
  assert (∃ q, party (w_state wE2) cid = Some q ∧ waits intake (take_shared32 shared) q) as (q & Hq & HWq).
  { rewrite Hp in HP. destruct HP as [HP|HP]; [by exists p|]. eexists. split; [exact HP|].
    destruct p as [p|p]; destruct HWt as (t & lf & pol & [->| ->]); cbn; eauto 6. }
  destruct (answer_confirms _ _ _ _ _ _ _ _ _ _ Hq HWq HN2 HI2 HG' HW' HOk) as (wE3 & HR & HS3).
  by exists wE3, (take_shared32 shared, take_shared32 answer).
Qed.
End Secrets.

(** A handshake at both ends, each with a named identity and the notice. *)
Definition ends_notice : TxNotice :=
  mkTxNotice Classic (EncryptionPublicKey_from_bytes (kp_public sealed_pair)) [chat_durable] [chat_ephemeral]
    (clamp64 100000).
Definition ends_users : EngineState :=
  with_users {[id_of x01 := mkUser {[id_of x02 := mkIdentity (Some chat_name) None ∅]}]}
    (with_ticked (Some (clamp64 7200)) EngineState_new).
Definition ends_state (node : IdentityNode) (txs : list (Tag * DurableBody)) : EngineState :=
  store_all
    ([(id_of x61, body_in (id_of x99) (PEngineCreateIdentity (id_of x01) (id_of x02) Classic
        (chat_encryption x41) (chat_signing x41)));
      (id_of x62, body_in (id_of x0c) (PNotice ends_notice))] ++ txs)
    (put_dm (id_of x01) (id_of x02) (id_of x0c) node ends_users).

Lemma ends_rows u i c : identity_row ends_users u i c = None.
Proof.
  unfold identity_row, identity. change (es_users ends_users) with
    ({[id_of x01 := mkUser {[id_of x02 := mkIdentity (Some chat_name) None ∅]}]} : gmap UserId User).
  destruct (decide (u = id_of x01)) as [->|Hu]; [rewrite lookup_singleton_eq|by rewrite lookup_singleton_ne].
  cbn [mbind option_bind us_identities].
  destruct (decide (i = id_of x02)) as [->|Hi]; [by rewrite lookup_singleton_eq|by rewrite lookup_singleton_ne].
Qed.

Lemma located_ends node txs :
  (∀ id, identity_body node id = None) → Located (ends_state node txs).
Proof.
  intros HN. apply located_store_all. apply (same_store_located ends_users).
  - apply put_dm_same_store; [apply ends_rows|done].
  - intros id [|u i c|c] b; cbn [body_at]; [done| |done]. by rewrite ends_rows.
Qed.

Definition ends_invitee : World :=
  mkWorld chat_engine (ends_state (IdentityNode_handshake (PartyInvitee
    (InviteReceived chat_ticket (clamp64 0) Classic))) []) 0.
Definition ends_intro_run : World * result fault (list bytes) :=
  @try_mint_invitee_intro seed_suite counting_draws (id_of x0c) ends_invitee.
Definition ends_intro : TxInviteeIntro :=
  default chat_invitee (invitee_intro_for (w_state ends_intro_run.1) (id_of x0c)).
Definition ends_inviter : World :=
  mkWorld chat_engine (ends_state (IdentityNode_handshake (PartyInviter
    (NoticePinned chat_ticket sealed_pair (clamp64 0))))
    [(id_of x63, body_in (id_of x0c) (PInviteeIntro ends_intro))]) 100.
Definition ends_reply_run : World * result fault (list bytes) :=
  @try_mint_inviter_intro seed_suite counting_draws (id_of x0c) ends_inviter.
Definition ends_reply : TxInviterIntro :=
  default chat_inviter (inviter_intro_for (w_state ends_reply_run.1) (id_of x0c)).

Definition run_new (payload : TxPayload) (id : option Tag) (st st' : EngineState) : bool :=
  match id with
  | Some id => from_option (λ b, bool_decide (db_payload b = payload)) false (stored st' !! id)
               && bool_decide (stored st !! id = None)
  | None => false
  end.
Lemma run_new_stored payload id st st' : run_new payload id st st' = true → stored_new st st' payload.
Proof.
  destruct id as [id|]; cbn [run_new]; [|done]. intros [HB HN]%andb_prop. apply bool_decide_eq_true in HN.
  destruct (stored st' !! id) as [b|] eqn:E; [|done]. apply bool_decide_eq_true in HB. by exists id, b.
Qed.
Definition minted_some (r : World * result fault (list bytes)) : bool :=
  match r.2 with Ok (_ :: _) => true | _ => false end.
Lemma minted_some_run r : minted_some r = true → ∃ b l, r = (r.1, Ok (b :: l)).
Proof. destruct r as [w [[|b l]|e]]; try done. by exists b, l. Qed.

Lemma ends_minted : minted_some ends_intro_run = true ∧ minted_some ends_reply_run = true.
Proof. by vm_compute. Qed.
Lemma ends_intro_new :
  stored_new (w_state ends_invitee) (w_state ends_intro_run.1) (PInviteeIntro ends_intro).
Proof.
  apply (run_new_stored _ (invitee_intro_tx_id (w_state ends_intro_run.1) (id_of x0c))). by vm_compute.
Qed.
Lemma ends_reply_new :
  stored_new (w_state ends_inviter) (w_state ends_reply_run.1) (PInviterIntro ends_reply).
Proof.
  apply (run_new_stored _ (head (map fst (filter (λ '(_, b), db_payload b = PInviterIntro ends_reply)
    (body_pairs (w_state ends_reply_run.1)))))). by vm_compute.
Qed.

Lemma ends_agree_witness :
  ∃ wE3 secrets,
    @gate_inviter_intro seed_suite (id_of x0c) ends_reply ends_intro_run.1 = (wE3, Ok None) ∧
    shared_at (w_state wE3) (id_of x0c) = Some secrets ∧
    shared_at (w_state ends_reply_run.1) (id_of x0c) = Some secrets.
Proof.
  destruct (minted_some_run _ (proj1 ends_minted)) as (rE & lE & HE).
  destruct (minted_some_run _ (proj2 ends_minted)) as (rI & lI & HI).
  apply (@ends_agree seed_suite counting_draws SeedKem_lawful (id_of x0c) ends_notice sealed_pair
    (from_pair (id_of x01) (id_of x02)) ends_invitee ends_intro_run.1 rE lE (PInviteeIntro ends_intro) ends_intro
    ends_inviter ends_reply_run.1 rI lI (PInviterIntro ends_reply) ends_reply ends_intro_run.1
    eq_refl eq_refl).
  - by apply located_ends.
  - vm_decide.
  - exact HE.
  - exact ends_intro_new.
  - exact eq_refl.
  - by apply located_ends.
  - vm_decide.
  - vm_decide.
  - vm_decide.
  - exact HI.
  - exact ends_reply_new.
  - exact eq_refl.
  - left. exact eq_refl.
  - vm_decide.
  - vm_decide.
  - vm_decide.
Defined.
