(* ===== verification/Persist.v ===== *)
(** Replaying persist records ([Engine::apply] of [engine/persist.rs]), and what the
    records of [Engine.v] mean: opening, replay and their nonces. *)

From stdpp Require Import base tactics list numbers option strings countable gmap.
From Stdlib Require Import Strings.Byte.
From S2P Require Import Prelude Text Ids Order Channel Defaults Payload Json Ports.
From S2P Require Import CanonicalJson TestDoubles Codec CodecLaws Wire.
From S2P Require Import Chain RowLog Party HealRange Bins State StateLaws Helpers HelpersLaws.
From S2P Require Import Engine Fingerprint.

(** * Applying a record *)

(** [u64::from_be_bytes]. *)
Definition u64_from_be (l : bytes) : u64 := clamp64 (be_val l).

(** Payloads of the engine's own conversation. *)
Definition is_engine_payload (payload : TxPayload) : bool :=
  match payload with
  | PEngineInit | PEngineSetDefaults _ | PEngineCreateUser _ | PEngineCreateIdentity _ _ _ _ _
  | PEngineDeleteUser _ | PEngineDeleteIdentity _ _ | PEngineSetDisplayName _ _ _
  | PEngineUnsetDisplayName _ _ | PEngineSetProfilePic _ _ _ | PEngineSetDeviceName _
  | PEngineKickDevice _ => true
  | _ => false
  end.

Definition is_confirm (payload : TxPayload) : bool :=
  match payload with PConfirm => true | _ => false end.

Section Apply.
Context `{Suite}.

(** The secret a stored body's id was made with. *)
Definition apply_secret (en : Engine) (st : EngineState) (b : DurableBody) :
    result EngineError Secret :=
  if is_engine_payload (db_payload b) then engine_secret en
  else Ok (match conv_secret st (db_conversation_id b) with
           | Ok secret => secret
           | Err _ => from_bytes (as_bytes (db_conversation_id b))
           end).

(** [unlock(dek, nonce, ct)] of a record, with the nonce it carries. *)
Definition open_record (dek : AeadKey) (record : bytes) : result EngineError (arr 12 * bytes) :=
  _ ← refuse_if (bool_decide (length record < 12)%nat) MalformedPersist;
  nonce ← ok_or MalformedPersist (try_into 12 (take 12 record));
  packed ← ok_or MalformedPersist (aead_open dek nonce [] (drop 12 record));
  Ok (nonce, packed).

Definition parse_record (dek : AeadKey) (record : bytes) :
    result EngineError (arr 12 * DurableBody) :=
  '(nonce, packed) ← open_record dek record;
  canonical ← map_err (λ _, MalformedPersist) (decompress packed PERSIST_MAX_UNCOMPRESSED);
  json ← ok_or MalformedPersist (json_decode canonical);
  b ← map_err (λ _, MalformedPersist) (durable_body_from_json json);
  Ok (nonce, b).

(** [if seq + 1 > next_seq { next_seq = seq + 1 }; persist_log.insert(seq, id)]. *)
Definition log_applied (seq : PersistSeq) (id : Tag) (st : EngineState) : EngineState :=
  with_persist
    (if (cval (es_next_seq st) <? cval (sat_add seq 1))%N then sat_add seq 1 else es_next_seq st)
    (<[seq := id]> (es_persist_log st)) st.

(** What [apply] does with the body it opened. *)
Definition apply_body (en : Engine) (st : EngineState) (seq : PersistSeq) (b : DurableBody) :
    result EngineError EngineState :=
  secret ← apply_secret en st b;
  let id := tx_id secret (db_payload b) in
  _ ← match body st id with
      | Some existing => refuse_if (negb (bool_decide (db_payload existing = db_payload b)))
                           Equivocation
      | None => Ok tt
      end;
  let '(st, r) := insert_body id b st in
  _ ← r;
  let st := if is_confirm (db_payload b)
            then match spawn_child st (db_conversation_id b) with Ok st => st | Err _ => st end
            else st in
  Ok (log_applied seq id st).

Definition apply (en : Engine) (st : EngineState) (persist : bytes) :
    result EngineError EngineState :=
  dek ← require_dek en;
  '(nonce, b) ← parse_record dek persist;
  apply_body en st (u64_from_be (drop 4 (cval nonce))) b.

End Apply.

(** Reloading: every record of the log in order. *)
Fixpoint apply_all `{Suite} (en : Engine) (st : EngineState) (log : list bytes) :
    result EngineError EngineState :=
  match log with
  | [] => Ok st
  | record :: log => st ← apply en st record; apply_all en st log
  end.

(** * Nonces *)

Lemma be_bytes_S k n : be_bytes (S k) n = byte_of_N (N.shiftr n (8 * N.of_nat k)) :: be_bytes k n.
Proof. unfold be_bytes. by rewrite seq_S, rev_app_distr. Qed.

Lemma be_bytes_length k n : length (be_bytes k n) = k.
Proof. unfold be_bytes. by rewrite length_map, length_rev, length_seq. Qed.

Lemma be_val_bytes k (n : N) : be_val (be_bytes k n) = (n mod 256 ^ N.of_nat k)%N.
Proof.
  induction k as [|k IH]; [by rewrite N.mod_1_r|].
  rewrite be_bytes_S, be_val_cons, byte_to_of_N, IH, be_bytes_length, N.shiftr_div_pow2.
  replace (2 ^ (8 * N.of_nat k))%N with (256 ^ N.of_nat k)%N
    by (change 256%N with (2 ^ 8)%N; by rewrite <-N.pow_mul_r).
  replace (256 ^ N.of_nat (S k))%N with (256 ^ N.of_nat k * 256)%N
    by (rewrite Nat2N.inj_succ, N.pow_succ_r'; lia).
  rewrite N.Div0.mod_mul_r. lia.
Qed.

Lemma u64_from_be_to (n : u64) : u64_from_be (to_be_bytes n) = n.
Proof.
  apply checked_eq. unfold u64_from_be, to_be_bytes. rewrite clamp64_val, be_val_bytes.
  pose proof (u64_bound n). rewrite N.mod_small by done. unfold u64_max. lia.
Qed.

(** * What a record opens to *)

Section Records.
Context `{Suite, !Base64UrlLaws, !AeadLaws, !CanonicalJsonLaws, !CompressLaws}.

Lemma durable_body_decodes b :
  ∃ w, json_decode (json_encode (durable_body_to_json b)) = Some w ∧
       durable_body_from_json w = Ok b.
Proof.
  destruct (json_decode_encode (durable_body_to_json b) (durable_body_nodup b)) as (w & Hw & HE).
  exists w. split; [done|]. rewrite <-HE. apply durable_body_roundtrip.
Qed.

Lemma open_sealed_record dek nonce packed :
  open_record dek (sealed_record dek nonce packed) = Ok (nonce, packed).
Proof.
  unfold open_record, sealed_record. rewrite length_app, arr_length.
  rewrite bool_decide_eq_false_2 by lia. cbn [refuse_if mbind result_bind].
  rewrite take_app_length', drop_app_length' by (by rewrite arr_length).
  rewrite try_into_cval. cbn. by rewrite aead_open_seal.
Qed.

(** A record that was made opens, under the key it was made with, to the nonce of its
    sequence number and to its body. *)
Lemma parse_persist_record en seq b record :
  persist_record en seq b = Ok record →
  ∃ dek, en_dek en = Some dek ∧ cval seq ≠ u64_max ∧
    parse_record dek record = Ok (record_nonce PERSIST_VERSION seq, b).
Proof.
  unfold persist_record, require_dek. destruct (en_dek en) as [dek|]; [|done]. cbn.
  destruct (_ =? _)%N eqn:Hs; [done|]. cbn. destruct (_ <=? _)%N eqn:Hl; [|done]. cbn.
  intros [= <-]. exists dek. split_and!; [done|by apply N.eqb_neq|].
  unfold parse_record. rewrite open_sealed_record. cbn.
  rewrite decompress_compress by (by apply N.leb_le). cbn.
  destruct (durable_body_decodes b) as (w & -> & Hw). cbn. by rewrite Hw.
Qed.

Lemma record_nonce_seq version seq : u64_from_be (drop 4 (cval (record_nonce version seq))) = seq.
Proof.
  unfold record_nonce. cbn [cval]. rewrite drop_app_length' by (by rewrite be_bytes_length).
  apply u64_from_be_to.
Qed.

(** Applying a record applies the body it was made from, at its sequence number. *)
Lemma apply_persist_record en st seq b record :
  persist_record en seq b = Ok record → apply en st record = apply_body en st seq b.
Proof.
  intros HR. destruct (parse_persist_record _ _ _ _ HR) as (dek & Hd & _ & HP).
  unfold apply, require_dek. rewrite Hd. cbn. rewrite HP. cbn. by rewrite record_nonce_seq.
Qed.

End Records.

(** * Changes of the persist fields *)

(** Storing a body reads and changes the store only. *)
Lemma insert_body_persist id b seq log st :
  insert_body id b (with_persist seq log st) =
    (with_persist seq log (insert_body id b st).1, (insert_body id b st).2).
Proof.
  assert (remove_body id (with_persist seq log st) = with_persist seq log (remove_body id st)) as HR.
  { unfold remove_body. cbn [es_tx_place with_persist with_rest].
    by destruct (es_tx_place st !! id) as [[]|]. }
  assert (∀ st, write_row id b (with_persist seq log st) = with_persist seq log <$> write_row id b st)
    as HW.
  { clear. intros st. unfold write_row.
    change (place_of (with_persist seq log st)) with (place_of st).
    destruct (place_of st (db_conversation_id b)) as [[|u i c|c]|].
    1, 4: change (es_engine_log (with_persist seq log st)) with (es_engine_log st);
      by destruct (log_insert id b (es_engine_log st)).
    - change (identity_row (with_persist seq log st)) with (identity_row st).
      destruct (identity_row st u i c); cbn; [|done]. by destruct (identity_insert _ _ _).
    - unfold device_row. cbn [es_device with_persist with_rest].
      destruct (dv_conversations (es_device st) !! c); cbn; [|done].
      by destruct (device_insert _ _ _). }
  unfold insert_body. cbn [es_tx_place with_persist with_rest].
  destruct (es_tx_place st !! id); rewrite ?HR, HW; by destruct (write_row _ _ _).
Qed.

Lemma insert_body_keeps id b st :
  es_next_seq (insert_body id b st).1 = es_next_seq st ∧
  es_persist_log (insert_body id b st).1 = es_persist_log st ∧
  es_ticked (insert_body id b st).1 = es_ticked st.
Proof.
  pose proof (insert_body_persist id b (es_next_seq st) (es_persist_log st) st) as HP.
  assert (with_persist (es_next_seq st) (es_persist_log st) st = st) as HE by by destruct st.
  rewrite HE in HP. apply (f_equal fst) in HP. cbn [fst] in HP. rewrite HP. split_and!; [done..|].
  clear. unfold insert_body, remove_body.
  destruct (es_tx_place st !! id) as [[]|]; unfold write_row;
    destruct (place_of _ _) as [[]|]; cbn;
    repeat match goal with |- context [?o ≫= _] => destruct o; cbn end; done.
Qed.

Lemma log_persist_applied id st :
  es_next_seq st ≠ clamp64 u64_max → log_persist id st = log_applied (es_next_seq st) id st.
Proof.
  intros Hs. unfold log_persist, log_applied.
  replace (cval (es_next_seq st) <? cval (sat_add (es_next_seq st) 1))%N with true; [done|].
  symmetry. apply N.ltb_lt. rewrite sat_add_val.
  assert (cval (es_next_seq st) ≠ u64_max).
  { intros HE. apply Hs, checked_eq. rewrite HE, clamp64_val. done. }
  pose proof (u64_le_max (es_next_seq st)). unfold u64_max in *. lia.
Qed.

(** * Merging and replaying *)

Section Merge.
Context `{Suite}.

(** The body a new payload is stored as. *)
Definition new_body (cid : ConversationId) (st : EngineState) (payload : TxPayload) : DurableBody :=
  mkDurableBody cid (hlc_at (ticked_or_zero st)) payload.

Lemma merge_tx_new en st n secret cid payload w' id b record :
  body st (tx_id secret payload) = None →
  merge_tx secret cid payload (mkWorld en st n) = (w', Ok (id, b, record)) →
  id = tx_id secret payload ∧ b = new_body cid st payload ∧
  persist_record en (es_next_seq st) b = Ok record ∧
  insert_body id b (log_persist id st) = (w_state w', Ok tt) ∧
  w_engine w' = en ∧ w_draws w' = n.
Proof.
  intros HN. unfold merge_tx, store_new, require_tick, new_body, ticked_or_zero. run.
  destruct (es_ticked st) as [now|]; cbn [ok_or default]; run; [|done]. cbv zeta. rewrite HN. run.
  destruct (persist_record _ _ _) as [record'|e] eqn:HR; run; [|done].
  rewrite bind_run. unfold insert_body_m. cbn [w_engine w_state w_draws].
  destruct (insert_body _ _ _) as [st' [[]|e]] eqn:HI; cbn [map_err]; run; [|done].
  intros [= <- <- <- <-]. done.
Qed.

(** Replaying the record of a new transaction on the state it was merged into gives the
    very state that merging it gave. *)
Lemma apply_replays_merge `{!Base64UrlLaws, !AeadLaws, !CanonicalJsonLaws, !CompressLaws}
    en st n secret cid payload w' id b record :
  body st (tx_id secret payload) = None → is_confirm payload = false →
  apply_secret en st (new_body cid st payload) = Ok secret →
  merge_tx secret cid payload (mkWorld en st n) = (w', Ok (id, b, record)) →
  apply en st record = Ok (w_state w').
Proof.
  intros HN HC HS HM. destruct (merge_tx_new _ _ _ _ _ _ _ _ _ _ HN HM)
    as (-> & -> & HR & HI & _ & _).
  rewrite (apply_persist_record _ _ _ _ _ HR).
  destruct (parse_persist_record _ _ _ _ HR) as (_ & _ & Hmax & _).
  unfold apply_body. rewrite HS. cbn [mbind result_bind]. cbn [new_body db_payload] in *.
  rewrite HN. rewrite log_persist_applied in HI
    by (intros HE; apply Hmax; by rewrite HE, clamp64_val).
  unfold log_applied in HI. rewrite insert_body_persist in HI.
  pose proof (insert_body_keeps (tx_id secret payload) (new_body cid st payload) st) as (K1 & K2 & _).
  destruct (insert_body _ _ st) as [st1 r]. cbn [fst snd] in *. injection HI as <- ->.
  rewrite bind_ok, HC. cbn. unfold log_applied. by rewrite K1, K2.
Qed.

End Merge.


(** C8. The records of a run of new engine transactions are a log of it: replaying them,
    in order, on the state the run started from gives the state it ended in. *)
Theorem engine_log_replays
    `{Suite, !Base64UrlLaws, !AeadLaws, !CanonicalJsonLaws, !CompressLaws}
    en n secret cid payloads st w' records :
  Located st → engine_secret en = Ok secret →
  Forall (λ p, is_engine_payload p = true) payloads →
  NoDup (map (tx_id secret) payloads) → (∀ p, p ∈ payloads → stored st !! tx_id secret p = None) →
  mutate_on secret cid payloads (mkWorld en st n) = (w', Ok records) →
  apply_all en st records = Ok (w_state w').
Proof.
  intros HL HS. revert st records HL. induction payloads as [|p ps IH]; intros st records HL HE HD HF.
  { unfold mutate_on. cbn. run. by intros [= <- <-]. }
  apply Forall_cons in HE as [Hp HE]. apply NoDup_cons in HD as [Hnp HD].
  unfold mutate_on. cbn [map_m]. rewrite bind_assoc, bind_run.
  assert (body st (tx_id secret p) = None) as HN by (rewrite <-stored_lookup by done; apply HF; left).
  destruct (merge_tx _ _ _ _) as [w1 [[[id b] record]|e]] eqn:HM; [|done].
  run. rewrite bind_run. destruct (map_m _ ps w1) as [w2 [recs|e]] eqn:HR; [|done].
  run. intros [= <- <-].
  destruct (merge_tx_new _ _ _ _ _ _ _ _ _ _ HN HM) as (-> & -> & _ & HI & Hen & Hn).
  cbn [apply_all].
  assert (apply_secret en st (new_body cid st p) = Ok secret) as HA
    by (unfold apply_secret; cbn [new_body db_payload]; by rewrite Hp).
  assert (is_confirm p = false) as HC by by destruct p.
  rewrite (apply_replays_merge _ _ _ _ _ _ _ _ _ _ HN HC HA HM).
  cbn [mbind result_bind].
  pose proof (insert_body_located (log_persist (tx_id secret p) st) (tx_id secret p)
    (new_body cid st p) HL) as HL1. rewrite HI in HL1. destruct HL1 as (HL1 & HT & HS1).
  destruct (row_takes _ _); [|done].
  apply IH; [done..| |].
  - intros p' Hp'. rewrite HS1. change (stored (log_persist _ st)) with (stored st).
    rewrite lookup_insert_ne; [apply HF; by right|]. intros HE'. apply Hnp. rewrite HE'.
    by apply list_elem_of_fmap_2.
  - unfold mutate_on. destruct w1 as [en1 st1 n1]. cbn in *. subst. done.
Qed.

(** C35. Recording a stored payload again uses no sequence number up: the record of the
    repeat and the record of the next new transaction are sealed under the same key and
    the same nonce, although their plaintexts are different bodies. *)
Theorem repeat_reuses_nonce `{Suite} en st n secret cid payload e w1 id1 b1 record1
    secret2 cid2 payload2 w2 id2 b2 record2 :
  body st (tx_id secret payload) = Some e →
  merge_tx secret cid payload (mkWorld en st n) = (w1, Ok (id1, b1, record1)) →
  payload2 ≠ payload → body st (tx_id secret2 payload2) = None →
  merge_tx secret2 cid2 payload2 w1 = (w2, Ok (id2, b2, record2)) →
  ∃ dek, en_dek en = Some dek ∧
    record1 = sealed_record dek (record_nonce PERSIST_VERSION (es_next_seq st))
                (compress (json_encode (durable_body_to_json e))) ∧
    record2 = sealed_record dek (record_nonce PERSIST_VERSION (es_next_seq st))
                (compress (json_encode (durable_body_to_json b2))) ∧
    e ≠ b2.
Proof.
  intros He HM1 Hne HN HM2.
  assert (w1 = mkWorld en st n ∧ db_payload e = payload ∧
    persist_record en (es_next_seq st) e = Ok record1) as (-> & Hp & HR1).
  { revert HM1. unfold merge_tx, require_tick. run.
    destruct (es_ticked st) as [now|]; cbn [ok_or]; run; [|done]. cbv zeta. rewrite He.
    case_decide; [|by run]. destruct (persist_record _ _ _) as [r|]; run; [|done].
    by intros [= <- _ _ <-]. }
  destruct (merge_tx_new _ _ _ _ _ _ _ _ _ _ HN HM2) as (-> & -> & HR2 & _).
  assert (∀ b r, persist_record en (es_next_seq st) b = Ok r → ∃ dek, en_dek en = Some dek ∧
    r = sealed_record dek (record_nonce PERSIST_VERSION (es_next_seq st))
          (compress (json_encode (durable_body_to_json b)))) as HP.
  { intros b r. unfold persist_record, require_dek. destruct (en_dek en) as [dek|]; [|done].
    cbn. destruct (_ =? _)%N; [done|]. cbn. destruct (_ <=? _)%N; [|done]. cbn.
    intros [= <-]. eauto. }
  apply HP in HR1 as (dek & Hd & ->), HR2 as (dek' & Hd' & ->). simplify_eq.
  exists dek. split_and!; [done..|]. intros ->. by apply Hne.
Qed.

(** * A concrete run *)

Definition sample_channel : DurableChannel :=
  DurableChannel_new (mkChecked (lit "sql") eq_refl) (mkChecked (lit "a") eq_refl).

Definition sample_defaults : Defaults :=
  mkDefaults (mkChecked ([sample_channel], []) eq_refl) true true true None false Privacy_Name.

Definition sample_engine : Engine := mkEngine sample_defaults (Some (from_bytes (fill 32 x09))).

(** The engine's own secret and conversation. *)
Definition sample_secret : Secret := from_bytes (as_bytes
  (expand (from_bytes (fill 32 x09)) (blit "chuchotez/1/engine"))).

Definition sample_payloads : list TxPayload := [PEngineInit; PEngineCreateUser (id_of x01)].

Definition sample_start : EngineState := with_ticked (Some (clamp64 5)) EngineState_new.

Definition sample_run : World * result fault (list bytes) :=
  mutate_on sample_secret (id_of x02) sample_payloads (mkWorld sample_engine sample_start 0).

Definition ok_list {E A} (r : result E (list A)) : list A :=
  match r with Ok l => l | Err _ => [] end.

Lemma is_ok_list {E A} (r : result E (list A)) : is_ok r = true → r = Ok (ok_list r).
Proof. by destruct r. Qed.

(** Two transactions, and the state their two records give back. *)
Lemma engine_log_replays_witness :
  length (ok_list sample_run.2) = 2%nat ∧
  apply_all sample_engine sample_start (ok_list sample_run.2) = Ok (w_state sample_run.1).
Proof.
  assert (is_ok sample_run.2 = true) as HO by by vm_compute.
  split; [by vm_compute|].
  apply (engine_log_replays sample_engine 0 sample_secret (id_of x02) sample_payloads).
  - exact located_new.
  - reflexivity.
  - by repeat constructor.
  - apply (bool_decide_unpack _). by vm_compute.
  - intros p Hp. assert (stored sample_start = ∅) as -> by reflexivity. apply lookup_empty.
  - rewrite <-(is_ok_list _ HO). apply surjective_pairing.
Defined.


(** The state after the first transaction of [sample_run]. *)
Definition sample_second : EngineState :=
  w_state (merge_tx sample_secret (id_of x02) PEngineInit
             (mkWorld sample_engine sample_start 0)).1.

Definition sample_repeat : World * result fault (Tag * DurableBody * bytes) :=
  merge_tx sample_secret (id_of x02) PEngineInit (mkWorld sample_engine sample_second 0).

Definition sample_next : World * result fault (Tag * DurableBody * bytes) :=
  merge_tx sample_secret (id_of x02) (PEngineCreateUser (id_of x01)) sample_repeat.1.

Lemma repeat_reuses_nonce_witness :
  match sample_repeat.2, sample_next.2 with
  | Ok (_, _, record1), Ok (_, b2, record2) =>
      take 12 record1 = take 12 record2 ∧ record1 ≠ record2 ∧ ∃ dek,
      record2 = sealed_record dek (record_nonce PERSIST_VERSION (es_next_seq sample_second))
                  (compress (json_encode (durable_body_to_json b2)))
  | _, _ => False
  end.
Proof.
  assert (is_ok sample_repeat.2 = true) as H1 by by vm_compute.
  assert (is_ok sample_next.2 = true) as H2 by by vm_compute.
  assert (match sample_repeat.2, sample_next.2 with
          | Ok (_, _, r1), Ok (_, _, r2) => bool_decide (take 12 r1 = take 12 r2 ∧ r1 ≠ r2)
          | _, _ => false
          end = true) as H3 by by vm_compute.
  assert (from_option (λ _, true) false (body sample_second (tx_id sample_secret PEngineInit)) = true)
    as [e He]%from_option_true by by vm_compute.
  assert (from_option (λ _, false) true
    (body sample_second (tx_id sample_secret (PEngineCreateUser (id_of x01)))) = true)
    as HN%from_option_false by by vm_compute.
  destruct sample_repeat as [w1 [[[id1 b1] record1]|]] eqn:E1; [|done].
  destruct sample_next as [w2 [[[id2 b2] record2]|]] eqn:E2; [|done].
  cbn [fst snd] in *. apply bool_decide_eq_true in H3 as [H3 H4]. split_and!; [done..|].
  unfold sample_next in E2. rewrite E1 in E2. cbn [fst] in E2. unfold sample_repeat in E1.
  assert (PEngineCreateUser (id_of x01) ≠ PEngineInit) as Hne by done.
  destruct (repeat_reuses_nonce _ _ _ _ _ _ _ _ _ _ _ _ _ _ _ _ _ _ He E1 Hne HN E2)
    as (dek & _ & _ & HR & _).
  by exists dek.
Defined.
