(* ===== verification/GroupFold.v ===== *)
(** The folded form of a group ([group_json] and [parse_group] of [engine/group.rs]) and
    that it reads back. *)

From stdpp Require Import base tactics list numbers option strings countable gmap.
From Stdlib Require Import Strings.Byte.
From S2P Require Import Prelude Text Ids Order Channel Defaults Payload Json Ports Codec CodecLaws.
From S2P Require Import Chain RowLog Party HealRange Bins State.

(** [let Json::Object(m) = value else { return Err(MalformedPersist) }], and the like. *)
Definition fold_object (value : Json) : result EngineError members :=
  match value with JObject m => Ok m | _ => Err MalformedPersist end.
Definition fold_array (value : Json) : result EngineError (list Json) :=
  match value with JArray items => Ok items | _ => Err MalformedPersist end.
Definition fold_string (value : Json) : result EngineError str :=
  match value with JString s => Ok s | _ => Err MalformedPersist end.
Definition fold_number (value : Json) : result EngineError u64 :=
  match value with JNumber n => Ok n | _ => Err MalformedPersist end.
Definition fold_bool (value : Json) : result EngineError bool :=
  match value with JBool b => Ok b | _ => Err MalformedPersist end.

(** [field(m, key)?]; [optional(m, key)]. *)
Definition field (m : members) (key : string) : result EngineError Json :=
  ok_or MalformedPersist (find_key m (lit key)).
Definition optional (m : members) (key : string) : option Json := find_key m (lit key).

Definition malformed {E A} : result E A → result EngineError A := map_err (λ _, MalformedPersist).

(** [format!("{reason:?}")]. *)
Definition GroupEnd_debug (reason : GroupEnd) : string :=
  match reason with
  | OfferRejected => "OfferRejected"
  | Kicked => "Kicked"
  | Left_ => "Left"
  end.

Section Group.
Context `{Base64Url}.

Definition decode_vec (value : Json) : result EngineError bytes :=
  s ← fold_string value; ok_or MalformedPersist (b64_decode s).

Definition group_decode32 (value : Json) : result EngineError (arr 32) :=
  s ← fold_string value;
  bs ← ok_or MalformedPersist (b64_decode s);
  ok_or MalformedPersist (try_into 32 bs).

Definition member_json (member : GroupMember) : Json :=
  obj [("signing_pk", bstr (sign_bytes (gm_signing_pk member)));
       ("encryption_pk", bstr (enc_bytes (gm_encryption_pk member)));
       ("send_tag_key", id_json (gm_send_tag_key member));
       ("eph_send_tag_key", id_json (gm_eph_send_tag_key member))].

Definition photo_json : option ProfilePic → Json := or_null (λ pic, bstr (cval pic)).

Definition pending_json (row : GroupPending) : Json :=
  obj [("signing_pk", bstr (sign_bytes (gp_signing_pk row)));
       ("encryption_pk", bstr (enc_bytes (gp_encryption_pk row)));
       ("from", id_json (gp_from_conversation_id row));
       ("name", JString (cval (gp_name row)));
       ("photo", photo_json (gp_photo row))].

Definition group_json (phase : GroupPhase) : Json :=
  match phase with
  | GroupIsFailed reason => obj [("failed", jlit (GroupEnd_debug reason))]
  | GroupIsOffer offer =>
      obj [("offer", JBool true);
           ("secret", id_json (go_secret offer));
           ("name", JString (cval (go_name offer)));
           ("owner", bstr (sign_bytes (go_owner_signing_pk offer)));
           ("from", id_json (go_from_conversation_id offer))]
  | GroupIsLive live =>
      obj [("secret", id_json (gl_secret live));
           ("name", JString (cval (gl_name live)));
           ("owner", bstr (sign_bytes (gl_owner_signing_pk live)));
           ("epoch", JNumber (gl_epoch live));
           ("photo", photo_json (gl_photo live));
           ("persistents", JArray (map durable_json (gl_persistents live)));
           ("ephemerals", JArray (map ephemeral_json (gl_ephemerals live)));
           ("members", JArray (map member_json (gl_members live)));
           ("pending", JArray (map pending_json (gl_pending live)))]
  end.

Definition parse_photo (m : members) : result EngineError (option ProfilePic) :=
  match optional m "photo" with
  | Some JNull | None => Ok None
  | Some other => bs ← decode_vec other; pic ← malformed (ProfilePic_try_from bs); Ok (Some pic)
  end.

Definition parse_fold_member (value : Json) : result EngineError GroupMember :=
  m ← fold_object value;
  signing_pk ← (v ← field m "signing_pk"; decode_vec v);
  encryption_pk ← (v ← field m "encryption_pk"; decode_vec v);
  send_tag_key ← (v ← field m "send_tag_key"; group_decode32 v);
  eph_send_tag_key ← (v ← field m "eph_send_tag_key"; group_decode32 v);
  Ok (mkGroupMember (SigningPublicKey_from_bytes signing_pk)
        (EncryptionPublicKey_from_bytes encryption_pk) (from_bytes send_tag_key)
        (from_bytes eph_send_tag_key)).

Definition parse_fold_name (m : members) : result EngineError DisplayName :=
  v ← field m "name"; s ← fold_string v; malformed (DisplayName_try_from s).

Definition parse_one_pending (value : Json) : result EngineError GroupPending :=
  m ← fold_object value;
  name ← parse_fold_name m;
  signing_pk ← (v ← field m "signing_pk"; decode_vec v);
  encryption_pk ← (v ← field m "encryption_pk"; decode_vec v);
  from ← (v ← field m "from"; group_decode32 v);
  photo ← parse_photo m;
  Ok (mkGroupPending (SigningPublicKey_from_bytes signing_pk)
        (EncryptionPublicKey_from_bytes encryption_pk) (from_bytes from) name photo).

Definition parse_members (value : Json) : result EngineError (list GroupMember) :=
  items ← fold_array value; collect parse_fold_member items.
Definition parse_pending (value : Json) : result EngineError (list GroupPending) :=
  items ← fold_array value; collect parse_one_pending items.

(** [match optional_field(m, key) { Some(value) => parse(value)?, None => Vec::new() }]. *)
Definition list_field {A} (m : members) (key : string)
    (parse : Json → result EngineError (list A)) : result EngineError (list A) :=
  match optional m key with Some value => parse value | None => Ok [] end.

Definition parse_group (value : Json) : result EngineError GroupPhase :=
  m ← fold_object value;
  if existsb (λ kv, str_eqb kv.1 (lit "failed")) m then Ok (GroupIsFailed Left_)
  else
    secret ← (v ← field m "secret"; group_decode32 v);
    name ← parse_fold_name m;
    owner ← (v ← field m "owner"; decode_vec v);
    if existsb (λ kv, str_eqb kv.1 (lit "offer")) m then
      from ← (v ← field m "from"; group_decode32 v);
      Ok (GroupIsOffer (mkGroupOffer (from_bytes secret) name None
            (SigningPublicKey_from_bytes owner) (from_bytes from)))
    else
      epoch ← (v ← field m "epoch"; fold_number v);
      photo ← parse_photo m;
      persistents ← list_field m "persistents" (λ v, malformed (parse_durable_list v));
      ephemerals ← list_field m "ephemerals" (λ v, malformed (parse_ephemeral_list v));
      members ← list_field m "members" parse_members;
      pending ← list_field m "pending" parse_pending;
      Ok (GroupIsLive (mkGroupLive (from_bytes secret) name photo
            (SigningPublicKey_from_bytes owner) persistents ephemerals members pending epoch ∅
            EstablishedChains_default)).

End Group.

Create HintDb folds discriminated.

(** * Reading a folded group back *)

(** What a fold keeps of a group: the transactions and chains are folded with the row; of
    an ended group only that it ended; an offer loses its picture. *)
Definition folded_group (phase : GroupPhase) : GroupPhase :=
  match phase with
  | GroupIsFailed _ => GroupIsFailed Left_
  | GroupIsOffer o =>
      GroupIsOffer (mkGroupOffer (go_secret o) (go_name o) None (go_owner_signing_pk o)
                      (go_from_conversation_id o))
  | GroupIsLive g =>
      GroupIsLive (mkGroupLive (gl_secret g) (gl_name g) (gl_photo g) (gl_owner_signing_pk g)
        (gl_persistents g) (gl_ephemerals g) (gl_members g) (gl_pending g) (gl_epoch g) ∅
        EstablishedChains_default)
  end.

Lemma existsb_lits l key :
  existsb (λ kv : str * Json, str_eqb kv.1 (lit key)) (lits l) =
    existsb (λ kv, String.eqb kv.1 key) l.
Proof.
  induction l as [|[k v] l IH]; [done|]. cbn [lits map existsb fst]. by rewrite str_eqb_lit, <-IH.
Qed.

Lemma field_lits l k v : assoc l k = Some v → field (lits l) k = Ok v.
Proof. intros E. unfold field. by rewrite find_key_lits, E. Qed.

Lemma optional_lits l k : optional (lits l) k = assoc l k.
Proof. apply find_key_lits. Qed.

Section Read.
Context `{Base64UrlLaws}.

Lemma decode_vec_bstr bs : decode_vec (bstr bs) = Ok bs.
Proof. unfold decode_vec, bstr. cbn. by rewrite b64_decode_encode. Qed.

Lemma group_decode32_id {r} (id : branded r) : group_decode32 (id_json id) = Ok (as_bytes id).
Proof. unfold group_decode32, id_json, bstr. cbn. rewrite b64_decode_encode. cbn. by autorewrite with checked. Qed.

Lemma parse_fold_name_lits l (name : DisplayName) :
  assoc l "name" = Some (JString (cval name)) → parse_fold_name (lits l) = Ok name.
Proof.
  intros E. unfold parse_fold_name. rewrite (field_lits _ _ _ E). cbn.
  unfold DisplayName_try_from. by autorewrite with checked.
Qed.

Lemma parse_photo_lits l pic :
  assoc l "photo" = Some (photo_json pic) → parse_photo (lits l) = Ok pic.
Proof.
  intros E. unfold parse_photo. rewrite optional_lits, E. destruct pic as [pic|]; [|done].
  cbn [photo_json or_null from_option bstr]. change (JString (b64_encode (cval pic))) with (bstr (cval pic)).
  rewrite decode_vec_bstr. cbn. unfold ProfilePic_try_from. by autorewrite with checked.
Qed.

Lemma list_field_lits {A} l key (parse : Json → result EngineError (list A)) v :
  assoc l key = Some v → list_field (lits l) key parse = parse v.
Proof. intros E. unfold list_field. by rewrite optional_lits, E. Qed.

Lemma malformed_ok {E A} (a : A) : malformed (@Ok E A a) = Ok a.
Proof. done. Qed.

End Read.

Create Rewrite HintDb folds.
#[export] Hint Rewrite @decode_vec_bstr @group_decode32_id @parse_durable_list_json
  @parse_ephemeral_list_json @malformed_ok using typeclasses eauto : folds.

(** Read the next member of a folded object. *)
Ltac fold_step :=
  first
  [ rewrite bind_ok
  | erewrite parse_fold_name_lits by reflexivity
  | erewrite parse_photo_lits by reflexivity
  | erewrite field_lits by reflexivity
  | erewrite list_field_lits by reflexivity
  | progress autorewrite with folds ].
Ltac fold_members :=
  cbn [fold_object fold_array obj];
  repeat (fold_step; cbn beta iota; cbn [fold_object fold_array fold_string fold_number fold_bool obj]).

Section Group.
Context `{Base64UrlLaws}.

Lemma parse_fold_member_json member : parse_fold_member (member_json member) = Ok member.
Proof. unfold parse_fold_member, member_json. fold_members. by destruct member as [[] [] [] []]. Qed.

Lemma parse_one_pending_json row : parse_one_pending (pending_json row) = Ok row.
Proof. unfold parse_one_pending, pending_json. fold_members. by destruct row as [[] [] [] ? ?]. Qed.

Lemma parse_members_json l : parse_members (JArray (map member_json l)) = Ok l.
Proof. unfold parse_members. fold_members. apply collect_map. intros; apply parse_fold_member_json. Qed.

Lemma parse_pending_json l : parse_pending (JArray (map pending_json l)) = Ok l.
Proof. unfold parse_pending. fold_members. apply collect_map. intros; apply parse_one_pending_json. Qed.



(** A folded group reads back, up to what a fold leaves out. *)
Lemma parse_group_json phase : parse_group (group_json phase) = Ok (folded_group phase).
Proof.
  unfold parse_group. destruct phase as [live|offer|reason]; cbn [group_json fold_object obj];
    rewrite bind_ok, !existsb_lits; cbn [existsb fst String.eqb Ascii.eqb Bool.eqb orb]; [| |done].
  - fold_members. rewrite parse_members_json, bind_ok, parse_pending_json, bind_ok.
    by destruct live as [[] ? ? [] ? ? ? ? ? ? ?].
  - fold_members. by destruct offer as [[] ? ? [] []].
Qed.

End Group.
