(* ===== verification/FoldTree.v ===== *)
(** The folded form of the user and device trees ([engine/fold_tree.rs]): what
    [users_json] and [device_json] write, and [install_users] and [install_device] read
    back into a fresh state. *)

From stdpp Require Import base tactics list numbers option strings countable gmap.
From Stdlib Require Import Strings.Byte.
From S2P Require Import Prelude Text Ids Order Channel Defaults Payload Json Ports Codec.
From S2P Require Import Chain RowLog Party HealRange Bins State GroupFold.

(** A [BTreeSet]'s iterator. *)
Definition set_values `{Countable K, !Ord K} (X : gset K) : list K := sort_by ord (elements X).

Section FoldTree.
Context `{Suite}.

(** * Emitters *)

Definition name_json : option DisplayName → Json := or_null (λ n, JString (cval n)).

Definition keys_json (keys : DeviceKeys) : Json :=
  obj [("id", id_json (dk_id keys));
       ("enc", keypair_json (kp_public (dk_enc keys)) (kp_secret (dk_enc keys)));
       ("sign", keypair_json (skp_public (dk_sign keys)) (skp_secret (dk_sign keys)))].

Definition failure_name (reason : HandshakeFailure) : string :=
  match reason with
  | PolicyNotAccepted _ => "PolicyNotAccepted"
  | InviteExpired _ => "InviteExpired"
  | NoticeUnlockFailed => "NoticeUnlockFailed"
  | NoticeConflict => "NoticeConflict"
  | IntroUnlockFailed => "IntroUnlockFailed"
  | IntroVerifyFailed => "IntroVerifyFailed"
  | DuplicateIntro => "DuplicateIntro"
  | ConfirmationRejected => "ConfirmationRejected"
  | HandshakeEquivocation => "Equivocation"
  end.

Definition failure_json (reason : HandshakeFailure) : Json :=
  obj (("reason", jlit (failure_name reason)) ::
       match reason with
       | PolicyNotAccepted policy => [("policy", JString (policy_str policy))]
       | InviteExpired expires => [("expires", JNumber expires)]
       | _ => []
       end).

(** [if let Some(x) = o { members.push((key, f(x))) }]. *)
Definition pushed {A} (key : string) (f : A → Json) (o : option A) : fields :=
  from_option (λ a, [(key, f a)]) [] o.

Definition phase_json (role phase : string) (ticket : Ticket) (intake : option KeyPair)
    (list_from : TimeBin) (policy : option Policy) (shared_inviter shared_invitee : option Secret)
    (failure : option HandshakeFailure) : Json :=
  obj ([("role", jlit role); ("phase", jlit phase); ("ticket", ticket_to_json ticket);
        ("list_from", JNumber list_from)]
       ++ pushed "intake" (λ k, keypair_json (kp_public k) (kp_secret k)) intake
       ++ pushed "policy" (λ p, JString (policy_str p)) policy
       ++ pushed "shared_inviter" id_json shared_inviter
       ++ pushed "shared_invitee" id_json shared_invitee
       ++ pushed "failure" failure_json failure).

Definition inviter_json (phase : InviterPhase) : Json :=
  let write name ticket intake list_from shared_inviter shared_invitee failure :=
    phase_json "inviter" name ticket intake list_from None shared_inviter shared_invitee failure in
  match phase with
  | InviteCreated ticket intake list_from =>
      write "invite-created" ticket (Some intake) list_from None None None
  | NoticePinned ticket intake list_from =>
      write "notice-pinned" ticket (Some intake) list_from None None None
  | InviterMinted ticket intake si se list_from =>
      write "introduction-minted" ticket (Some intake) list_from (Some si) (Some se) None
  | InviterConfirming ticket intake si se list_from =>
      write "confirming" ticket (Some intake) list_from (Some si) (Some se) None
  | InviterFailed ticket list_from reason =>
      write "failed" ticket None list_from None None (Some reason)
  end.

Definition invitee_json (phase : InviteePhase) : Json :=
  let write := phase_json "invitee" in
  match phase with
  | TicketReceived ticket list_from =>
      write "ticket-received" ticket None list_from None None None None
  | InviteReceived ticket list_from policy =>
      write "invite-received" ticket None list_from (Some policy) None None None
  | InviteeMinted ticket list_from policy intake si =>
      write "introduction-minted" ticket (Some intake) list_from (Some policy) (Some si) None None
  | IntroductionSent ticket list_from policy intake si =>
      write "introduction-sent" ticket (Some intake) list_from (Some policy) (Some si) None None
  | InviteeConfirming ticket list_from policy intake si se =>
      write "confirming" ticket (Some intake) list_from (Some policy) (Some si) (Some se) None
  | InviteeFailed ticket list_from reason =>
      write "failed" ticket None list_from None None None (Some reason)
  end.

Definition party_json {k} (party : Party k) : Json :=
  match party with
  | PartyInviter p => inviter_json p
  | PartyInvitee p => invitee_json p
  end.

Definition ratchet_json (ratchet : Ratchet) : Json :=
  obj [("since", JNumber (rt_since ratchet));
       ("minted", JArray (map id_json (set_values (rt_minted ratchet))));
       ("unused", JArray (map (λ sk,
          obj [("tx_id", id_json (us_tx_id sk)); ("pk", bstr (enc_bytes (us_pk sk)));
               ("sk", bstr (us_sk sk))]) (rt_unused ratchet)));
       ("known", JArray (map (λ row,
          obj [("wrap_tx", id_json (ks_wrap_tx row)); ("shared", id_json (ks_shared row));
               ("ct_hash", id_json (ks_ct_hash row)); ("from_us", JBool (ks_from_us row));
               ("encaps_pk", bstr (enc_bytes (ks_encaps_pk row)))]) (rt_known ratchet)))].

Definition mk_json (e : CachedMk) : Json :=
  obj [("mk", id_json (cm_mk e)); ("expires_at", JNumber (cm_expires_at e));
       ("tx_id", or_null id_json (cm_tx_id e))].

(** An object of an actor and one more member. *)
Definition actor_json (actor : Actor) (key : string) (v : Json) : Json :=
  obj [("actor_id", bstr (Actor_as_bytes actor)); ("actor_role", JString (Actor_role actor));
       (key, v)].

Definition chains_json (cid : ConversationId) (chains : PacketChains) (ratchet : option Ratchet) :
    fields :=
  [("chains", JArray (map (λ '(actor, chain), chain_to_json cid actor chain) (entries (pc_send chains))));
   ("recv_chains", JArray (map (λ '(actor, chain), chain_to_json cid actor chain) (entries (pc_recv chains))));
   ("skipped_mks", JArray (map (λ '(actor, mks), actor_json actor "mks" (JArray (map mk_json mks)))
      (entries (pc_skipped_mks chains))));
   ("last_acks", JArray (map (λ '(actor, ids), actor_json actor "tx_ids" (JArray (map id_json (set_values ids))))
      (entries (pc_last_acks chains))))]
  ++ pushed "ratchet" ratchet_json ratchet.

Definition identity_chain_json (cid : ConversationId) (kind : IdentityConversation) : fields :=
  match kind with
  | RowDmHandshake _ _ chains => chains_json cid chains None
  | RowDirectMessage _ _ _ chains => chains_json cid (ec_packet chains) (Some (ec_ratchet chains))
  | RowGroup (GroupIsLive live) =>
      chains_json cid (ec_packet (gl_chains live)) (Some (ec_ratchet (gl_chains live)))
  | RowGroup _ => []
  end.

Definition device_chain_json (cid : ConversationId) (kind : DeviceConversation) : fields :=
  match kind with
  | RowSyncHandshake _ _ chains => chains_json cid chains None
  | RowSynchronization _ _ _ _ chains => chains_json cid (ec_packet chains) (Some (ec_ratchet chains))
  end.

Definition identity_conv_json (cid : ConversationId) (node : IdentityNode) : Json :=
  obj ([("conversation_id", id_json cid);
        match node with
        | RowDmHandshake party _ _ => ("handshake", party_json party)
        | RowDirectMessage secret parent _ _ =>
            ("direct_message", obj [("secret", id_json secret); ("parent", id_json parent)])
        | RowGroup phase => ("group", group_json phase)
        end] ++ identity_chain_json cid node).

Definition device_conv_json (cid : ConversationId) (node : DeviceNode) : Json :=
  obj ([("conversation_id", id_json cid);
        match node with
        | RowSyncHandshake party _ _ => ("handshake", party_json party)
        | RowSynchronization secret parent peer _ _ =>
            ("synchronization",
             obj [("secret", id_json secret); ("parent", id_json parent); ("peer", id_json peer)])
        end] ++ device_chain_json cid node).

Definition identity_json (iid : IdentityId) (ident : Identity) : Json :=
  obj [("identity_id", id_json iid); ("name", name_json (id_name ident));
       ("pic", photo_json (id_pic ident));
       ("conversations", JArray (map (λ '(cid, node), identity_conv_json cid node)
          (entries (id_conversations ident))))].

Definition user_json (uid : UserId) (user : User) : Json :=
  obj [("user_id", id_json uid);
       ("identities", JArray (map (λ '(iid, ident), identity_json iid ident)
          (entries (us_identities user))))].

Definition users_json (st : EngineState) : Json :=
  JArray (map (λ '(uid, user), user_json uid user) (entries (es_users st))).

Definition device_json (device : Device) : Json :=
  obj ([("name", name_json (dv_name device));
        ("keys", or_null keys_json (dv_keys device));
        ("conversations", JArray (map (λ '(cid, node), device_conv_json cid node)
           (entries (dv_conversations device))))]
       ++ pushed "dek_ct" bstr (dv_dek_ct device)).

(** * Parsers *)

Definition fold32 (m : members) (key : string) : result EngineError (arr 32) :=
  v ← field m key; decode_fold32 v.
Definition fold_id {r} (m : members) (key : string) : result EngineError (branded r) :=
  from_bytes <$> fold32 m key.

Definition parse_keys (value : Json) : result EngineError DeviceKeys :=
  m ← fold_object value;
  id ← fold_id m "id";
  '(epk, esk) ← (v ← field m "enc"; parse_fold_keypair v);
  '(spk, ssk) ← (v ← field m "sign"; parse_fold_keypair v);
  Ok (mkDeviceKeys id (KeyPair_from_parts epk esk) (SigningKeyPair_from_parts spk ssk)).

(** [match optional(m, key) { Some(Array(items)) => items, Some(_) => Err, None => [] }]. *)
Definition optional_array (m : members) (key : string) : result EngineError (list Json) :=
  match optional m key with
  | Some (JArray items) => Ok items
  | Some _ => Err MalformedPersist
  | None => Ok []
  end.

Definition stored_actor (m : members) : result EngineError Actor :=
  actor_bytes ← (v ← field m "actor_id"; decode_fold_bstr v);
  role ← match optional m "actor_role" with
         | Some (JString role) => Ok (Some role)
         | Some _ => Err MalformedPersist
         | None => Ok None
         end;
  ok_or MalformedPersist (Actor_from_stored role actor_bytes).

Definition parse_mk (value : Json) : result EngineError CachedMk :=
  m ← fold_object value;
  mk ← fold_id m "mk";
  expires_at ← (v ← field m "expires_at"; fold_number v);
  tx_id ← match optional m "tx_id" with
          | None | Some JNull => Ok None
          | Some v => id ← decode_fold32 v; Ok (Some (from_bytes id))
          end;
  Ok (mkCachedMk mk expires_at tx_id).

Definition parse_mks (value : Json) (chains : PacketChains) : result EngineError PacketChains :=
  m ← fold_object value;
  actor ← stored_actor m;
  mks ← (v ← field m "mks"; fold_array v);
  entries ← collect parse_mk mks;
  Ok (mkPacketChains (pc_send chains) (pc_recv chains) (<[actor := entries]> (pc_skipped_mks chains))
        (pc_last_acks chains) (pc_heal chains) (pc_live_until chains) (pc_live_pending chains)).

(** [for id in items { ids.insert(..) }]. *)
Definition parse_tag_set (items : list Json) : result EngineError (gset Tag) :=
  ids ← collect (λ v, from_bytes <$> decode_fold32 v) items;
  Ok (list_to_set ids).

Definition parse_last_ack (value : Json) (chains : PacketChains) : result EngineError PacketChains :=
  m ← fold_object value;
  actor ← stored_actor m;
  items ← (v ← field m "tx_ids"; fold_array v);
  ids ← parse_tag_set items;
  Ok (mkPacketChains (pc_send chains) (pc_recv chains) (pc_skipped_mks chains)
        (<[actor := ids]> (pc_last_acks chains)) (pc_heal chains) (pc_live_until chains)
        (pc_live_pending chains)).

Definition parse_send (value : Json) (chains : PacketChains) : result EngineError PacketChains :=
  '(_, actor, chain) ← chain_from_json value;
  Ok (mkPacketChains (<[actor := chain]> (pc_send chains)) (pc_recv chains) (pc_skipped_mks chains)
        (pc_last_acks chains) (pc_heal chains) (pc_live_until chains) (pc_live_pending chains)).

Definition parse_recv (value : Json) (chains : PacketChains) : result EngineError PacketChains :=
  '(_, actor, chain) ← chain_from_json value;
  Ok (mkPacketChains (pc_send chains) (<[actor := chain]> (pc_recv chains)) (pc_skipped_mks chains)
        (pc_last_acks chains) (pc_heal chains) (pc_live_until chains) (pc_live_pending chains)).

Definition parse_unused (value : Json) : result EngineError UnusedSk :=
  row ← fold_object value;
  tx_id ← fold_id row "tx_id";
  pk ← (v ← field row "pk"; decode_fold_bstr v);
  sk ← (v ← field row "sk"; decode_fold_bstr v);
  Ok (mkUnusedSk tx_id (EncryptionPublicKey_from_bytes pk) sk).

Definition parse_known (value : Json) : result EngineError KnownShared :=
  row ← fold_object value;
  from_us ← (v ← field row "from_us"; fold_bool v);
  wrap_tx ← fold_id row "wrap_tx";
  shared ← fold_id row "shared";
  ct_hash ← fold_id row "ct_hash";
  encaps_pk ← (v ← field row "encaps_pk"; decode_fold_bstr v);
  Ok (mkKnownShared wrap_tx shared ct_hash from_us (EncryptionPublicKey_from_bytes encaps_pk)).

Definition parse_ratchet (value : Json) : result EngineError Ratchet :=
  m ← fold_object value;
  since ← (v ← field m "since"; fold_number v);
  minted_v ← (v ← field m "minted"; fold_array v);
  minted ← parse_tag_set minted_v;
  unused_v ← (v ← field m "unused"; fold_array v);
  unused ← collect parse_unused unused_v;
  known_v ← (v ← field m "known"; fold_array v);
  known ← collect parse_known known_v;
  Ok (mkRatchet since minted unused known).

Definition parse_chains (m : members) : result EngineError (PacketChains * Ratchet) :=
  items ← optional_array m "chains";
  chains ← try_fold parse_send items PacketChains_default;
  items ← optional_array m "recv_chains";
  chains ← try_fold parse_recv items chains;
  items ← optional_array m "skipped_mks";
  chains ← try_fold parse_mks items chains;
  items ← optional_array m "last_acks";
  chains ← try_fold parse_last_ack items chains;
  ratchet ← match optional m "ratchet" with
            | Some value => parse_ratchet value
            | None => Ok Ratchet_default
            end;
  Ok (chains, ratchet).

Definition parse_failure (value : Json) : result EngineError HandshakeFailure :=
  m ← fold_object value;
  reason ← (v ← field m "reason"; fold_string v);
  if str_eqb reason (lit "PolicyNotAccepted") then
    p ← (v ← field m "policy"; fold_string v);
    policy ← ok_or MalformedPersist (parse_policy p);
    Ok (PolicyNotAccepted policy)
  else if str_eqb reason (lit "InviteExpired") then
    n ← (v ← field m "expires"; fold_number v);
    Ok (InviteExpired n)
  else if str_eqb reason (lit "NoticeUnlockFailed") then Ok NoticeUnlockFailed
  else if str_eqb reason (lit "NoticeConflict") then Ok NoticeConflict
  else if str_eqb reason (lit "IntroUnlockFailed") then Ok IntroUnlockFailed
  else if str_eqb reason (lit "IntroVerifyFailed") then Ok IntroVerifyFailed
  else if str_eqb reason (lit "DuplicateIntro") then Ok DuplicateIntro
  else if str_eqb reason (lit "ConfirmationRejected") then Ok ConfirmationRejected
  else if str_eqb reason (lit "Equivocation") then Ok HandshakeEquivocation
  else Err MalformedPersist.

Definition optional_secret (m : members) (key : string) : result EngineError (option Secret) :=
  match optional m key with
  | None | Some JNull => Ok None
  | Some v => s ← decode_fold32 v; Ok (Some (from_bytes s))
  end.

Definition some_of {A} : option A → result EngineError A := ok_or MalformedPersist.

(** The arms of the two roles. *)
Definition inviter_phase (phase : str) (ticket : Ticket) (list_from : TimeBin)
    (intake : option KeyPair) (si se : option Secret) (failure : option HandshakeFailure) :
    result EngineError InviterPhase :=
  if str_eqb phase (lit "invite-created") then
    intake ← some_of intake; Ok (InviteCreated ticket intake list_from)
  else if str_eqb phase (lit "notice-pinned") then
    intake ← some_of intake; Ok (NoticePinned ticket intake list_from)
  else if str_eqb phase (lit "introduction-minted") then
    intake ← some_of intake; si ← some_of si; se ← some_of se;
    Ok (InviterMinted ticket intake si se list_from)
  else if str_eqb phase (lit "confirming") then
    intake ← some_of intake; si ← some_of si; se ← some_of se;
    Ok (InviterConfirming ticket intake si se list_from)
  else if str_eqb phase (lit "failed") then
    reason ← some_of failure; Ok (InviterFailed ticket list_from reason)
  else Err MalformedPersist.

Definition invitee_phase (phase : str) (ticket : Ticket) (list_from : TimeBin)
    (policy : option Policy) (intake : option KeyPair) (si se : option Secret)
    (failure : option HandshakeFailure) : result EngineError InviteePhase :=
  if str_eqb phase (lit "ticket-received") then Ok (TicketReceived ticket list_from)
  else if str_eqb phase (lit "invite-received") then
    policy ← some_of policy; Ok (InviteReceived ticket list_from policy)
  else if str_eqb phase (lit "introduction-minted") then
    policy ← some_of policy; intake ← some_of intake; si ← some_of si;
    Ok (InviteeMinted ticket list_from policy intake si)
  else if str_eqb phase (lit "introduction-sent") then
    policy ← some_of policy; intake ← some_of intake; si ← some_of si;
    Ok (IntroductionSent ticket list_from policy intake si)
  else if str_eqb phase (lit "confirming") then
    policy ← some_of policy; intake ← some_of intake; si ← some_of si; se ← some_of se;
    Ok (InviteeConfirming ticket list_from policy intake si se)
  else if str_eqb phase (lit "failed") then
    reason ← some_of failure; Ok (InviteeFailed ticket list_from reason)
  else Err MalformedPersist.

(** [parse_role_phase], with the party wrapped as [parse_dm_party] and [parse_sync_party]
    do. *)
Definition parse_role_phase {k} (value : Json) : result EngineError (Party k) :=
  m ← fold_object value;
  role ← (v ← field m "role"; fold_string v);
  phase ← (v ← field m "phase"; fold_string v);
  ticket ← (v ← field m "ticket"; malformed (ticket_from_json v));
  list_from ← (v ← field m "list_from"; fold_number v);
  intake ← match optional m "intake" with
           | Some v => '(pk, sk) ← parse_fold_keypair v; Ok (Some (KeyPair_from_parts pk sk))
           | None => Ok None
           end;
  policy ← match optional m "policy" with
           | Some (JString s) => p ← ok_or MalformedPersist (parse_policy s); Ok (Some p)
           | Some _ => Err MalformedPersist
           | None => Ok None
           end;
  shared_inviter ← optional_secret m "shared_inviter";
  shared_invitee ← optional_secret m "shared_invitee";
  failure ← match optional m "failure" with
            | Some v => f ← parse_failure v; Ok (Some f)
            | None => Ok None
            end;
  if str_eqb role (lit "inviter") then
    PartyInviter <$> inviter_phase phase ticket list_from intake shared_inviter shared_invitee failure
  else if str_eqb role (lit "invitee") then
    PartyInvitee <$> invitee_phase phase ticket list_from policy intake shared_inviter shared_invitee failure
  else Err MalformedPersist.

(** [EstablishedChains { packet, ratchet, ..default() }]. *)
Definition established_from (packet : PacketChains) (ratchet : Ratchet) : EstablishedChains :=
  mkEstablishedChains packet ratchet false ∅ None None.

Definition parse_identity_conv (value : Json) : result EngineError (ConversationId * IdentityNode) :=
  m ← fold_object value;
  cid ← fold_id m "conversation_id";
  '(packet, ratchet) ← parse_chains m;
  kind ← match optional m "handshake", optional m "direct_message", optional m "group" with
         | Some hs, _, _ => party ← parse_role_phase hs; Ok (RowDmHandshake party ∅ packet)
         | None, Some dm, _ =>
             d ← fold_object dm;
             secret ← fold_id d "secret";
             parent ← fold_id d "parent";
             Ok (RowDirectMessage secret parent ∅ (established_from packet ratchet))
         | None, None, Some group =>
             phase ← parse_group group;
             Ok (RowGroup (match phase with
                           | GroupIsLive live =>
                               GroupIsLive (with_gl_chains (λ _, established_from packet ratchet) live)
                           | _ => phase
                           end))
         | None, None, None => Err MalformedPersist
         end;
  Ok (cid, kind).

Definition parse_device_conv (value : Json) : result EngineError (ConversationId * DeviceNode) :=
  m ← fold_object value;
  cid ← fold_id m "conversation_id";
  '(packet, ratchet) ← parse_chains m;
  kind ← match optional m "handshake", optional m "synchronization" with
         | Some hs, _ => party ← parse_role_phase hs; Ok (RowSyncHandshake party ∅ packet)
         | None, Some sync =>
             d ← fold_object sync;
             secret ← fold_id d "secret";
             parent ← fold_id d "parent";
             peer ← fold_id d "peer";
             Ok (RowSynchronization secret parent peer ∅ (established_from packet ratchet))
         | None, None => Err MalformedPersist
         end;
  Ok (cid, kind).

(** * Installing *)

Definition optional_name (m : members) : result EngineError (option DisplayName) :=
  v ← field m "name";
  match v with
  | JNull => Ok None
  | JString s => n ← malformed (DisplayName_try_from s); Ok (Some n)
  | _ => Err MalformedPersist
  end.

Definition optional_pic (m : members) : result EngineError (option ProfilePic) :=
  v ← field m "pic";
  match v with
  | JNull => Ok None
  | other =>
      bs ← decode_fold_bstr other; pic ← malformed (ProfilePic_try_from bs); Ok (Some pic)
  end.

Definition install_conv (uid : UserId) (iid : IdentityId) (value : Json) (st : EngineState) :
    result EngineError EngineState :=
  '(cid, node) ← parse_identity_conv value; Ok (put_dm uid iid cid node st).

(** [row.name = ..; row.pic = ..]. *)
Definition named (name : option DisplayName) (pic : option ProfilePic) (i : Identity) : Identity :=
  mkIdentity name pic (id_conversations i).

Definition install_identity (uid : UserId) (value : Json) (st : EngineState) :
    result EngineError EngineState :=
  m ← fold_object value;
  iid ← fold_id m "identity_id";
  name ← optional_name m;
  pic ← optional_pic m;
  conversations ← (v ← field m "conversations"; fold_array v);
  try_fold (install_conv uid iid) conversations
    (alter_identity uid iid (named name pic) (ensure_identity uid iid st)).

Definition install_user (value : Json) (st : EngineState) : result EngineError EngineState :=
  m ← fold_object value;
  uid ← fold_id m "user_id";
  identities ← (v ← field m "identities"; fold_array v);
  try_fold (install_identity uid) identities st.

Definition install_users (value : Json) (st : EngineState) : result EngineError EngineState :=
  users ← fold_array value; try_fold install_user users st.

Definition install_device_conv (value : Json) (st : EngineState) : result EngineError EngineState :=
  '(cid, node) ← parse_device_conv value; Ok (put_sync cid node st).

Definition optional_keys (value : Json) : result EngineError (option DeviceKeys) :=
  match value with JNull => Ok None | other => k ← parse_keys other; Ok (Some k) end.

Definition optional_dek (m : members) : result EngineError (option bytes) :=
  match optional m "dek_ct" with
  | Some (JString s) => bs ← ok_or MalformedPersist (b64_decode s); Ok (Some bs)
  | Some _ => Err MalformedPersist
  | None => Ok None
  end.

Definition install_device (value : Json) (st : EngineState) : result EngineError EngineState :=
  m ← fold_object value;
  name ← optional_name m;
  keys ← (v ← field m "keys"; optional_keys v);
  dek_ct ← optional_dek m;
  conversations ← (v ← field m "conversations"; fold_array v);
  let d := es_device st in
  try_fold install_device_conv conversations
    (with_device (mkDevice name keys (dv_conversations d) dek_ct (dv_kicked d)) st).

End FoldTree.
