(* ===== verification/FoldTreeLaws.v ===== *)
(** What the folded trees of [FoldTree.v] give back: every identity with its conversations,
    and this device, without the transactions, which the snapshot lists on their own, and
    without what a device forgets when it restarts. *)

From stdpp Require Import base tactics list numbers option strings countable gmap.
From Stdlib Require Import Strings.Byte.
From S2P Require Import Prelude Text Ids Order Channel Defaults Payload Json Ports TestDoubles Codec.
From S2P Require Import CodecLaws Chain ChainLaws RowLog Party HealRange Bins State StateLaws.
From S2P Require Import GroupFold FoldTree.

(** * What is kept *)

(** An actor that can be told from its stored role and bytes. *)
Definition actor_stored (a : Actor) : bool :=
  match a with Actor_Signing pk => negb (bool_decide (sign_bytes pk = [])) | _ => true end.

Definition keyed (c : PacketChains) : Prop :=
  map_Forall (λ a _, actor_stored a = true) (pc_send c) ∧
  map_Forall (λ a _, actor_stored a = true) (pc_recv c) ∧
  map_Forall (λ a _, actor_stored a = true) (pc_skipped_mks c) ∧
  map_Forall (λ a _, actor_stored a = true) (pc_last_acks c).

(** The running search, the live window and the copies waiting for a live acknowledgement
    are not folded; nor are presence, typing and chat senders. *)
Definition folded_packet (c : PacketChains) : PacketChains :=
  mkPacketChains (pc_send c) (pc_recv c) (pc_skipped_mks c) (pc_last_acks c) Heal_default None [].

Definition folded_established (c : EstablishedChains) : EstablishedChains :=
  established_from (folded_packet (ec_packet c)) (ec_ratchet c).

Definition folded_node (node : IdentityNode) : IdentityNode :=
  match node with
  | RowDmHandshake party _ chains => RowDmHandshake party ∅ (folded_packet chains)
  | RowDirectMessage secret parent _ chains =>
      RowDirectMessage secret parent ∅ (folded_established chains)
  | RowGroup phase =>
      RowGroup (match folded_group phase, phase with
                | GroupIsLive g, GroupIsLive live =>
                    GroupIsLive (with_gl_chains (λ _, folded_established (gl_chains live)) g)
                | g, _ => g
                end)
  end.

Definition folded_device_node (node : DeviceNode) : DeviceNode :=
  match node with
  | RowSyncHandshake party _ chains => RowSyncHandshake party ∅ (folded_packet chains)
  | RowSynchronization secret parent peer _ chains =>
      RowSynchronization secret parent peer ∅ (folded_established chains)
  end.

Definition folded_identity (i : Identity) : Identity :=
  mkIdentity (id_name i) (id_pic i) (folded_node <$> id_conversations i).

(** A user without identities is not folded. *)
Definition folded_users (users : gmap UserId User) : gmap UserId User :=
  omap (λ u, if decide (us_identities u = ∅) then None
             else Some (mkUser (folded_identity <$> us_identities u))) users.

Definition folded_device (d : Device) : Device :=
  mkDevice (dv_name d) (dv_keys d) (folded_device_node <$> dv_conversations d) (dv_dek_ct d) [].

(** The ticket of a handshake lists as many channels as one can be read with. *)
Definition ticket_ok (t : Ticket) : bool := bool_decide (1 ≤ length (tk_persistents t) ≤ 4)%nat.

Definition loadable_node (node : IdentityNode) : Prop :=
  from_option keyed True (packet_of_identity node) ∧
  match node with RowDmHandshake party _ _ => ticket_ok (party_ticket party) = true | _ => True end.
Definition loadable_device_node (node : DeviceNode) : Prop :=
  from_option keyed True (packet_of_device node) ∧
  match node with RowSyncHandshake party _ _ => ticket_ok (party_ticket party) = true | _ => True end.

(** What a fold relies on: chains belong to actors that can be told from what is stored, and
    handshakes have readable tickets. *)
Definition loadable_users (users : gmap UserId User) : Prop :=
  map_Forall (λ _ u, map_Forall (λ _ i, map_Forall (λ _ node, loadable_node node) (id_conversations i))
    (us_identities u)) users.
Definition loadable_device (d : Device) : Prop :=
  map_Forall (λ _ node, loadable_device_node node) (dv_conversations d).

#[export] Instance keyed_dec c : Decision (keyed c).
Proof. unfold keyed. apply _. Defined.
#[export] Instance loadable_node_dec node : Decision (loadable_node node).
Proof.
  apply and_dec; [destruct (packet_of_identity node); cbn; apply _|destruct node; apply _].
Defined.
#[export] Instance loadable_device_node_dec node : Decision (loadable_device_node node).
Proof.
  apply and_dec; [destruct (packet_of_device node); cbn; apply _|destruct node; apply _].
Defined.
#[export] Instance loadable_users_dec users : Decision (loadable_users users).
Proof. unfold loadable_users. apply _. Defined.
#[export] Instance loadable_device_dec d : Decision (loadable_device d).
Proof. unfold loadable_device. apply _. Defined.

(** * Maps and sets through their iterators *)

Lemma list_to_set_values `{Countable K, !Ord K} (X : gset K) : list_to_set (set_values X) = X.
Proof.
  apply set_eq. intros x. rewrite elem_of_list_to_set. unfold set_values.
  by rewrite sort_by_perm, elem_of_elements.
Qed.

Section Maps.
Context {K V : Type} `{Countable K, !Ord K}.

Lemma fold_left_insert (l : list (K * V)) (m : gmap K V) :
  NoDup (map fst l) → fold_left (λ m p, <[p.1 := p.2]> m) l m = list_to_map l ∪ m.
Proof.
  revert m. induction l as [|[k v] l IH]; intros m HN; cbn; [by rewrite left_id_L by apply _|].
  cbn in HN. apply NoDup_cons in HN as [Hk HN]. rewrite IH by done.
  rewrite <-insert_union_r by (by apply not_elem_of_list_to_map_1). by rewrite insert_union_l.
Qed.

Lemma list_to_map_entries (m : gmap K V) : list_to_map (entries m) = m.
Proof.
  rewrite <-(list_to_map_to_list m) at 2. apply list_to_map_proper.
  - apply entries_keys_NoDup.
  - apply entries_perm.
Qed.

Lemma fold_left_entries (m : gmap K V) : fold_left (λ m p, <[p.1 := p.2]> m) (entries m) ∅ = m.
Proof.
  rewrite fold_left_insert by apply entries_keys_NoDup.
  by rewrite list_to_map_entries, right_id_L by apply _.
Qed.

End Maps.

Section Laws.
Context `{Suite, !Base64UrlLaws}.

Lemma decode_fold32_id {r} (id : branded r) : decode_fold32 (id_json id) = Ok (as_bytes id).
Proof.
  unfold decode_fold32, id_json, bstr. cbn [decode_fold_bstr]. rewrite b64_decode_encode. cbn.
  by autorewrite with checked.
Qed.

Lemma decode_fold_bstr_json bs : decode_fold_bstr (bstr bs) = Ok bs.
Proof. unfold bstr. cbn. by rewrite b64_decode_encode. Qed.

Lemma fold_id_lits {r} l k (id : branded r) :
  assoc l k = Some (id_json id) → fold_id (lits l) k = Ok id.
Proof.
  intros E. unfold fold_id, fold32. rewrite (field_lits _ _ _ E), bind_ok, decode_fold32_id. by destruct id.
Qed.

Lemma parse_tag_set_json (X : gset Tag) : parse_tag_set (map id_json (set_values X)) = Ok X.
Proof.
  unfold parse_tag_set. rewrite collect_map.
  - cbn. by rewrite list_to_set_values.
  - intros [b] _. by rewrite decode_fold32_id.
Qed.

Lemma parse_fold_keypair_json pk sk : parse_fold_keypair (keypair_json pk sk) = Ok (pk, sk).
Proof.
  unfold parse_fold_keypair, keypair_json, obj. cbn [mbind result_bind].
  rewrite !find_key_lits. cbn. by rewrite !b64_decode_encode.
Qed.

End Laws.

#[export] Hint Rewrite @decode_fold32_id @decode_fold_bstr_json @parse_tag_set_json
  @parse_fold_keypair_json using typeclasses eauto : folds.

(** Read the next member of a folded object, ids included. *)
Ltac fold_read :=
  cbn [fold_object fold_array fold_string fold_number fold_bool obj];
  repeat (first [erewrite fold_id_lits by reflexivity | fold_step];
          cbn beta iota; cbn [fold_object fold_array fold_string fold_number fold_bool obj]).

Section Chains.
Context `{Suite, !Base64UrlLaws}.

Lemma stored_as a :
  actor_stored a = true → (if bool_decide (Actor_as_bytes a = []) then Actor_Handshake else a) = a.
Proof.
  destruct a as [|pk|id]; cbn; [done| |].
  - by intros ->%negb_true_iff.
  - intros _. rewrite bool_decide_eq_false_2; [done|]. intros E.
    pose proof (arr_length (as_bytes id)) as HL. by rewrite E in HL.
Qed.

Lemma stored_actor_lits l a :
  actor_stored a = true → assoc l "actor_id" = Some (bstr (Actor_as_bytes a)) →
  assoc l "actor_role" = Some (JString (Actor_role a)) → stored_actor (lits l) = Ok a.
Proof.
  intros HA E1 E2. unfold stored_actor. rewrite (field_lits _ _ _ E1), !bind_ok, decode_fold_bstr_json, bind_ok.
  rewrite optional_lits, E2, bind_ok. by rewrite Actor_from_stored_role, stored_as.
Qed.

Lemma parse_mk_json e : parse_mk (mk_json e) = Ok e.
Proof.
  unfold parse_mk, mk_json. fold_read. rewrite optional_lits. cbn [assoc String.eqb Ascii.eqb Bool.eqb].
  destruct e as [mk ex [id|]]; cbn [cm_tx_id or_null from_option]; [|done].
  change (id_json id) with (bstr (cval (as_bytes id))) at 1. unfold bstr at 1.
  change (JString (b64_encode (cval (as_bytes id)))) with (id_json id). fold_read. by destruct id.
Qed.

(** One stored entry of each of the four maps. *)
Lemma parse_send_json cid a chain c :
  actor_stored a = true → parse_send (chain_to_json cid a chain) c =
    Ok (mkPacketChains (<[a := chain]> (pc_send c)) (pc_recv c) (pc_skipped_mks c) (pc_last_acks c)
          (pc_heal c) (pc_live_until c) (pc_live_pending c)).
Proof. intros HA. unfold parse_send. rewrite chain_json_roundtrip. cbn. by rewrite stored_as. Qed.

Lemma parse_recv_json cid a chain c :
  actor_stored a = true → parse_recv (chain_to_json cid a chain) c =
    Ok (mkPacketChains (pc_send c) (<[a := chain]> (pc_recv c)) (pc_skipped_mks c) (pc_last_acks c)
          (pc_heal c) (pc_live_until c) (pc_live_pending c)).
Proof. intros HA. unfold parse_recv. rewrite chain_json_roundtrip. cbn. by rewrite stored_as. Qed.

Lemma parse_mks_json a mks c :
  actor_stored a = true → parse_mks (actor_json a "mks" (JArray (map mk_json mks))) c =
    Ok (mkPacketChains (pc_send c) (pc_recv c) (<[a := mks]> (pc_skipped_mks c)) (pc_last_acks c)
          (pc_heal c) (pc_live_until c) (pc_live_pending c)).
Proof.
  intros HA. unfold parse_mks, actor_json. fold_read.
  erewrite stored_actor_lits by (done || reflexivity). fold_read.
  by rewrite collect_map by (intros; apply parse_mk_json).
Qed.

Lemma parse_last_ack_json a ids c :
  actor_stored a = true →
  parse_last_ack (actor_json a "tx_ids" (JArray (map id_json (set_values ids)))) c =
    Ok (mkPacketChains (pc_send c) (pc_recv c) (pc_skipped_mks c) (<[a := ids]> (pc_last_acks c))
          (pc_heal c) (pc_live_until c) (pc_live_pending c)).
Proof.
  intros HA. unfold parse_last_ack, actor_json. fold_read.
  erewrite stored_actor_lits by (done || reflexivity). by fold_read.
Qed.

Lemma parse_unused_json sk :
  parse_unused (obj [("tx_id", id_json (us_tx_id sk)); ("pk", bstr (enc_bytes (us_pk sk)));
                     ("sk", bstr (us_sk sk))]) = Ok sk.
Proof. unfold parse_unused. fold_read. by destruct sk as [? [] ?]. Qed.

Lemma parse_known_json row :
  parse_known (obj [("wrap_tx", id_json (ks_wrap_tx row)); ("shared", id_json (ks_shared row));
                    ("ct_hash", id_json (ks_ct_hash row)); ("from_us", JBool (ks_from_us row));
                    ("encaps_pk", bstr (enc_bytes (ks_encaps_pk row)))]) = Ok row.
Proof. unfold parse_known. fold_read. by destruct row as [? ? ? ? []]. Qed.

Lemma parse_ratchet_json r : parse_ratchet (ratchet_json r) = Ok r.
Proof.
  unfold parse_ratchet, ratchet_json. fold_read.
  rewrite collect_map by (intros; apply parse_unused_json). fold_read.
  rewrite collect_map by (intros; apply parse_known_json). fold_read. by destruct r.
Qed.

Lemma optional_array_lits l k items :
  assoc l k = Some (JArray items) → optional_array (lits l) k = Ok items.
Proof. intros E. unfold optional_array. by rewrite optional_lits, E. Qed.

(** The loop over one of the four maps. *)
Lemma entries_fold {V} (f : Json → PacketChains → result EngineError PacketChains)
    (g : Actor * V → Json) (put : gmap Actor V → PacketChains) (m : gmap Actor V) :
  map_Forall (λ a _, actor_stored a = true) m →
  (∀ p acc, actor_stored p.1 = true → f (g p) (put acc) = Ok (put (<[p.1 := p.2]> acc))) →
  try_fold f (map g (entries m)) (put ∅) = Ok (put m).
Proof.
  intros HM HF.
  assert (∀ l acc, (∀ p, p ∈ l → actor_stored p.1 = true) →
    try_fold f (map g l) (put acc) = Ok (put (fold_left (λ m p, <[p.1 := p.2]> m) l acc))) as HL.
  { induction l as [|p l IH]; intros acc HA; cbn; [done|].
    rewrite HF by (apply HA; set_solver). cbn. apply IH. intros; apply HA; set_solver. }
  rewrite HL, fold_left_entries; [done|]. intros [a v] Hin%elem_of_entries. by apply (HM a v).
Qed.

Lemma parse_chains_lits l cid c ratchet :
  keyed c → Forall (λ kv, assoc l kv.1 = Some kv.2) (chains_json cid c ratchet) →
  assoc l "ratchet" = ratchet_json <$> ratchet →
  parse_chains (lits l) = Ok (folded_packet c, default Ratchet_default ratchet).
Proof.
  intros (K1 & K2 & K3 & K4) HF HR. unfold chains_json in HF.
  apply Forall_app in HF as [HF _]. rewrite !Forall_cons in HF. cbn [fst snd] in HF.
  destruct HF as (E1 & E2 & E3 & E4 & _).
  unfold parse_chains. rewrite (optional_array_lits _ _ _ E1), bind_ok.
  change PacketChains_default with ((λ m, mkPacketChains m ∅ ∅ ∅ Heal_default None []) ∅) at 1.
  rewrite (entries_fold _ _ _ _ K1) by (intros [a ch] acc HA; by apply parse_send_json).
  rewrite bind_ok, (optional_array_lits _ _ _ E2), bind_ok.
  change (try_fold parse_recv _ _) with (try_fold parse_recv
    (map (λ '(actor, chain), chain_to_json cid actor chain) (entries (pc_recv c)))
    ((λ m, mkPacketChains (pc_send c) m ∅ ∅ Heal_default None []) ∅)).
  rewrite (entries_fold _ _ _ _ K2) by (intros [a ch] acc HA; by apply parse_recv_json).
  rewrite bind_ok, (optional_array_lits _ _ _ E3), bind_ok.
  change (try_fold parse_mks ?l _) with (try_fold parse_mks l
    ((λ m, mkPacketChains (pc_send c) (pc_recv c) m ∅ Heal_default None []) ∅)).
  rewrite (entries_fold _ _ _ _ K3) by (intros [a mks] acc HA; by apply parse_mks_json).
  rewrite bind_ok, (optional_array_lits _ _ _ E4), bind_ok.
  change (try_fold parse_last_ack ?l _) with (try_fold parse_last_ack l
    ((λ m, mkPacketChains (pc_send c) (pc_recv c) (pc_skipped_mks c) m Heal_default None []) ∅)).
  rewrite (entries_fold _ _ _ _ K4) by (intros [a ids] acc HA; by apply parse_last_ack_json).
  rewrite bind_ok, optional_lits, HR. destruct ratchet as [r|]; cbn [fmap option_fmap option_map].
  - by rewrite parse_ratchet_json.
  - done.
Qed.

(** * Handshakes *)

Lemma parse_failure_json r : parse_failure (failure_json r) = Ok r.
Proof.
  unfold parse_failure, failure_json. cbn [fold_object obj]. rewrite bind_ok.
  erewrite (field_lits _ "reason") by reflexivity. rewrite bind_ok. cbn [fold_string jlit].
  rewrite bind_ok, !str_eqb_lit.
  destruct r; cbn [failure_name String.eqb Ascii.eqb Bool.eqb]; try done.
  fold_read. by rewrite parse_policy_str.
Qed.

Lemma assoc_pushed {A} key (f : A → Json) o l k :
  assoc (pushed key f o ++ l) k =
    if String.eqb key k then match o with Some a => Some (f a) | None => assoc l k end else assoc l k.
Proof. destruct o as [a|]; cbn; by destruct (String.eqb key k). Qed.

Lemma optional_secret_lits l k s :
  assoc l k = id_json <$> s → optional_secret (lits l) k = Ok s.
Proof.
  intros E. unfold optional_secret. rewrite optional_lits, E. destruct s as [s|]; [|done].
  cbn [fmap option_fmap option_map id_json bstr].
  change (JString (b64_encode (cval (as_bytes s)))) with (id_json s).
  rewrite decode_fold32_id. by destruct s.
Qed.

(** What [parse_role_phase] does with the members it reads. *)
Lemma parse_phase_json {k} role phase ticket intake list_from policy si se failure :
  ticket_ok ticket = true →
  parse_role_phase (k := k) (phase_json role phase ticket intake list_from policy si se failure) =
    if String.eqb role "inviter" then
      PartyInviter <$> inviter_phase (lit phase) ticket list_from intake si se failure
    else if String.eqb role "invitee" then
      PartyInvitee <$> invitee_phase (lit phase) ticket list_from policy intake si se failure
    else Err MalformedPersist.
Proof.
  intros HT. assert (ticket_from_json (ticket_to_json ticket) = Ok ticket) as HP.
  { rewrite ticket_parse. unfold ticket_ok in HT. by rewrite HT. }
  unfold phase_json, obj, parse_role_phase. cbn [fold_object]. rewrite bind_ok.
  match goal with |- context [lits ?l] =>
    assert (assoc l "role" = Some (jlit role) ∧ assoc l "phase" = Some (jlit phase) ∧
      assoc l "ticket" = Some (ticket_to_json ticket) ∧ assoc l "list_from" = Some (JNumber list_from) ∧
      assoc l "intake" = (λ k, keypair_json (kp_public k) (kp_secret k)) <$> intake ∧
      assoc l "policy" = (λ p, JString (policy_str p)) <$> policy ∧
      assoc l "shared_inviter" = id_json <$> si ∧ assoc l "shared_invitee" = id_json <$> se ∧
      assoc l "failure" = failure_json <$> failure) as (E1 & E2 & E3 & E4 & E5 & E6 & E7 & E8 & E9);
    [|generalize dependent l; intros ms; intros]
  end.
  { rewrite <-(app_nil_r (pushed "failure" _ _)). cbn [app assoc String.eqb Ascii.eqb Bool.eqb].
    rewrite !assoc_pushed. cbn [assoc String.eqb Ascii.eqb Bool.eqb].
    by destruct intake, policy, si, se, failure. }
  rewrite (field_lits _ _ _ E1), (field_lits _ _ _ E2), (field_lits _ _ _ E3), (field_lits _ _ _ E4).
  rewrite !bind_ok. cbn [fold_string fold_number jlit]. rewrite !bind_ok, HP, malformed_ok, bind_ok.
  rewrite bind_ok, !optional_lits, E5, E6, E9.
  rewrite (optional_secret_lits _ _ _ E7), (optional_secret_lits _ _ _ E8), !str_eqb_lit.
  destruct intake as [[pk sk]|], policy as [p|], failure as [r|];
    cbn [fmap option_fmap option_map kp_public kp_secret];
    rewrite ?parse_fold_keypair_json, ?bind_ok, ?parse_policy_str, ?parse_failure_json; cbn [ok_or];
    by rewrite ?bind_ok.
Qed.

Lemma parse_party_json {k} (p : Party k) :
  ticket_ok (party_ticket p) = true → parse_role_phase (party_json p) = Ok p.
Proof.
  intros HT. destruct p as [p|p]; destruct p; cbn [party_json inviter_json invitee_json];
    rewrite parse_phase_json by exact HT; cbn [String.eqb Ascii.eqb Bool.eqb];
    unfold inviter_phase, invitee_phase; rewrite !str_eqb_lit; by cbn [String.eqb Ascii.eqb Bool.eqb].
Qed.

(** * Conversations *)

Lemma parse_chains_none l :
  Forall (λ k, assoc l k = None) ["chains"; "recv_chains"; "skipped_mks"; "last_acks"; "ratchet"] →
  parse_chains (lits l) = Ok (PacketChains_default, Ratchet_default).
Proof.
  intros HF. rewrite !Forall_cons in HF. destruct HF as (E1 & E2 & E3 & E4 & E5 & _).
  unfold parse_chains, optional_array. by rewrite !optional_lits, E1, E2, E3, E4, E5.
Qed.

(** The chain members of a row are found under their keys. *)
Ltac chain_fields :=
  unfold chains_json, pushed; cbn [app from_option];
  repeat (apply Forall_cons; split; [reflexivity|]); exact (Forall_nil_2 _).

Lemma parse_identity_conv_json cid node :
  loadable_node node → parse_identity_conv (identity_conv_json cid node) = Ok (cid, folded_node node).
Proof.
  intros [HK HT]. unfold parse_identity_conv, identity_conv_json. cbn [fold_object obj].
  rewrite bind_ok. erewrite (fold_id_lits _ "conversation_id") by reflexivity. rewrite bind_ok.
  destruct node as [party log c|secret parent log c|phase].
  - rewrite (parse_chains_lits _ cid c None HK) by (chain_fields || reflexivity).
    rewrite bind_ok, !optional_lits. cbn [assoc app String.eqb Ascii.eqb Bool.eqb].
    by rewrite parse_party_json.
  - rewrite (parse_chains_lits _ cid _ (Some (ec_ratchet c)) HK) by (chain_fields || reflexivity).
    rewrite bind_ok, !optional_lits. cbn [assoc app String.eqb Ascii.eqb Bool.eqb]. by fold_read.
  - destruct phase as [live|offer|reason].
    + rewrite (parse_chains_lits _ cid _ (Some (ec_ratchet (gl_chains live))) HK)
        by (chain_fields || reflexivity).
      rewrite bind_ok, !optional_lits. cbn [assoc app String.eqb Ascii.eqb Bool.eqb].
      by rewrite parse_group_json.
    + rewrite parse_chains_none by (repeat constructor). rewrite bind_ok, !optional_lits.
      cbn [assoc app String.eqb Ascii.eqb Bool.eqb identity_chain_json]. by rewrite parse_group_json.
    + rewrite parse_chains_none by (repeat constructor). rewrite bind_ok, !optional_lits.
      cbn [assoc app String.eqb Ascii.eqb Bool.eqb identity_chain_json]. by rewrite parse_group_json.
Qed.

Lemma parse_device_conv_json cid node :
  loadable_device_node node → parse_device_conv (device_conv_json cid node) = Ok (cid, folded_device_node node).
Proof.
  intros [HK HT]. unfold parse_device_conv, device_conv_json. cbn [fold_object obj].
  rewrite bind_ok. erewrite (fold_id_lits _ "conversation_id") by reflexivity. rewrite bind_ok.
  destruct node as [party log c|secret parent peer log c].
  - rewrite (parse_chains_lits _ cid c None HK) by (chain_fields || reflexivity).
    rewrite bind_ok, !optional_lits. cbn [assoc app String.eqb Ascii.eqb Bool.eqb].
    by rewrite parse_party_json.
  - rewrite (parse_chains_lits _ cid _ (Some (ec_ratchet c)) HK) by (chain_fields || reflexivity).
    rewrite bind_ok, !optional_lits. cbn [assoc app String.eqb Ascii.eqb Bool.eqb]. by fold_read.
Qed.

End Chains.

(** * Installing *)

(** The identity row [i] at its place. *)
Definition place_identity (uid : UserId) (iid : IdentityId) (i : Identity) (st : EngineState) : EngineState :=
  with_users (<[uid := mkUser (<[iid := i]> (from_option us_identities ∅ (es_users st !! uid)))]> (es_users st)) st.

Lemma with_users_twice m m' st : with_users m (with_users m' st) = with_users m st.
Proof. done. Qed.

Lemma place_identity_alter uid iid i st f :
  alter_identity uid iid f (place_identity uid iid i st) = place_identity uid iid (f i) st.
Proof.
  unfold alter_identity, place_identity. cbn [es_users with_users with_store].
  rewrite with_users_twice, alter_insert_eq. cbn [us_identities]. by rewrite alter_insert_eq.
Qed.

Lemma ensure_placed uid iid i st :
  ensure_identity uid iid (place_identity uid iid i st) = place_identity uid iid i st.
Proof.
  unfold ensure_identity, ensure_user, place_identity. cbn [es_users with_users with_store].
  rewrite lookup_insert_eq. unfold identity. cbn [es_users with_users with_store].
  rewrite lookup_insert_eq. cbn. by rewrite lookup_insert_eq.
Qed.

Lemma ensure_new uid iid st :
  identity st uid iid = None → ensure_identity uid iid st = place_identity uid iid Identity_default st.
Proof.
  unfold ensure_identity, ensure_user, place_identity, identity. intros HN.
  destruct (es_users st !! uid) as [u|] eqn:E; cbn in *.
  - rewrite E. cbn. rewrite HN. f_equal. apply map_eq. intros k.
    destruct (decide (k = uid)) as [->|Hne].
    + by rewrite lookup_alter_eq, lookup_insert_eq, E.
    + by rewrite lookup_alter_ne, lookup_insert_ne by done.
  - rewrite lookup_insert_eq. cbn. rewrite lookup_empty, with_users_twice, alter_insert_eq. done.
Qed.

Lemma put_dm_placed uid iid i cid node st :
  put_dm uid iid cid node (place_identity uid iid i st) =
    place_identity uid iid (with_conversations (<[cid := node]> (id_conversations i)) i) st.
Proof. unfold put_dm. by rewrite ensure_placed, place_identity_alter. Qed.

(** A row without identities leaves no trace. *)
Definition folded_user (u : User) : option User :=
  if decide (us_identities u = ∅) then None else Some (mkUser (folded_identity <$> us_identities u)).

Section Install.
Context `{Suite, !Base64UrlLaws}.

Lemma optional_name_lits l name : assoc l "name" = Some (name_json name) → optional_name (lits l) = Ok name.
Proof.
  intros E. unfold optional_name. rewrite (field_lits _ _ _ E), bind_ok.
  destruct name as [name|]; cbn; [|done]. unfold DisplayName_try_from. by autorewrite with checked.
Qed.

Lemma optional_pic_lits l pic : assoc l "pic" = Some (photo_json pic) → optional_pic (lits l) = Ok pic.
Proof.
  intros E. unfold optional_pic. rewrite (field_lits _ _ _ E), bind_ok.
  destruct pic as [pic|]; [|done]. cbn [photo_json or_null from_option bstr].
  change (JString (b64_encode (cval pic))) with (bstr (cval pic)). rewrite decode_fold_bstr_json. cbn.
  unfold ProfilePic_try_from. by autorewrite with checked.
Qed.

(** The bindings of a map, through a change of its values. *)
Lemma fold_left_fmap_entries {K V W} `{Countable K, !Ord K} (f : V → W) (m : gmap K V) :
  fold_left (λ (m : gmap K W) p, <[p.1 := f p.2]> m) (entries m) ∅ = f <$> m.
Proof.
  assert (∀ (l : list (K * V)) (acc : gmap K V),
    f <$> fold_left (λ m p, <[p.1 := p.2]> m) l acc =
    fold_left (λ (m : gmap K W) p, <[p.1 := f p.2]> m) l (f <$> acc)) as HL.
  { induction l as [|p l IH]; intros acc; cbn; [done|]. by rewrite IH, fmap_insert. }
  rewrite <-(fold_left_entries m) at 2. by rewrite HL, fmap_empty.
Qed.

Lemma install_conv_json uid iid cid node st :
  loadable_node node →
  install_conv uid iid (identity_conv_json cid node) st = Ok (put_dm uid iid cid (folded_node node) st).
Proof. intros HN. unfold install_conv. by rewrite parse_identity_conv_json. Qed.

Lemma install_convs uid iid i st l :
  Forall (λ p, loadable_node p.2) l →
  try_fold (install_conv uid iid) (map (λ '(cid, node), identity_conv_json cid node) l)
    (place_identity uid iid i st) =
  Ok (place_identity uid iid (with_conversations
        (fold_left (λ m p, <[p.1 := folded_node p.2]> m) l (id_conversations i)) i) st).
Proof.
  intros HF. revert i. induction HF as [|[cid node] l HN HF IH]; intros i; cbn [map try_fold fold_left].
  - by destruct i.
  - rewrite install_conv_json, bind_ok, put_dm_placed, IH by done. by destruct i.
Qed.

Lemma install_identity_json uid iid ident st :
  identity st uid iid = None → map_Forall (λ _ node, loadable_node node) (id_conversations ident) →
  install_identity uid (identity_json iid ident) st = Ok (place_identity uid iid (folded_identity ident) st).
Proof.
  intros HN HL. unfold install_identity, identity_json. cbn [fold_object obj]. rewrite bind_ok.
  erewrite fold_id_lits by reflexivity. rewrite bind_ok.
  erewrite optional_name_lits by reflexivity. rewrite bind_ok.
  erewrite optional_pic_lits by reflexivity. rewrite bind_ok.
  erewrite field_lits by reflexivity. rewrite bind_ok. cbn [fold_array]. rewrite bind_ok.
  rewrite ensure_new, place_identity_alter by done. rewrite install_convs.
  - cbn. by rewrite fold_left_fmap_entries.
  - apply Forall_forall. intros [cid node] Hin%elem_of_entries. by apply (HL cid node).
Qed.

Lemma place_identity_other uid iid iid' i st :
  iid ≠ iid' → identity (place_identity uid iid i st) uid iid' = identity st uid iid'.
Proof.
  intros Hne. unfold identity, place_identity. cbn [es_users with_users with_store].
  rewrite lookup_insert_eq. cbn. rewrite lookup_insert_ne by done.
  destruct (es_users st !! uid); cbn; [done|]. by rewrite lookup_empty.
Qed.

Lemma install_identities uid l st :
  NoDup (map fst l) → Forall (λ p, identity st uid p.1 = None) l →
  Forall (λ p, map_Forall (λ _ node, loadable_node node) (id_conversations p.2)) l →
  try_fold (install_identity uid) (map (λ '(iid, ident), identity_json iid ident) l) st =
    Ok (fold_left (λ st p, place_identity uid p.1 (folded_identity p.2) st) l st).
Proof.
  revert st. induction l as [|[iid ident] l IH]; intros st HN H1 H2; [done|].
  cbn [map try_fold fold_left fst snd]. cbn in HN. apply NoDup_cons in HN as [Hni HN].
  apply Forall_cons in H1 as [H1 H1']. apply Forall_cons in H2 as [H2 H2'].
  rewrite install_identity_json by done. rewrite bind_ok. apply IH; [done| |done].
  apply Forall_forall. intros p Hp. rewrite Forall_forall in H1'.
  rewrite place_identity_other; [by apply H1'|]. intros ->. apply Hni. by apply (list_elem_of_fmap_2 fst).
Qed.

Lemma place_identities uid l st u :
  es_users st !! uid = Some u →
  fold_left (λ st p, place_identity uid p.1 (folded_identity p.2) st) l st =
    with_users (<[uid := mkUser (fold_left (λ m p, <[p.1 := folded_identity p.2]> m) l (us_identities u))]>
      (es_users st)) st.
Proof.
  revert st u. induction l as [|p l IH]; intros st u Hu; cbn [fold_left].
  - rewrite insert_id by (by rewrite Hu; destruct u). by destruct st.
  - rewrite (IH _ (mkUser (<[p.1 := folded_identity p.2]> (us_identities u)))).
    + unfold place_identity. cbn [es_users with_users with_store us_identities].
      by rewrite with_users_twice, insert_insert_eq.
    + unfold place_identity. cbn [es_users with_users with_store]. by rewrite lookup_insert_eq, Hu.
Qed.

Lemma install_user_json uid u st :
  es_users st !! uid = None →
  map_Forall (λ _ i, map_Forall (λ _ node, loadable_node node) (id_conversations i)) (us_identities u) →
  install_user (user_json uid u) st =
    Ok (match folded_user u with
        | Some u' => with_users (<[uid := u']> (es_users st)) st
        | None => st
        end).
Proof.
  intros HN HL. unfold install_user, user_json. cbn [fold_object obj]. rewrite bind_ok.
  erewrite fold_id_lits by reflexivity. rewrite bind_ok.
  erewrite field_lits by reflexivity. rewrite bind_ok. cbn [fold_array]. rewrite bind_ok.
  rewrite install_identities.
  - f_equal. unfold folded_user. rewrite <-fold_left_fmap_entries.
    case_decide as HE; [rewrite HE; done|].
    destruct (entries (us_identities u)) as [|p l] eqn:El.
    { destruct HE. by rewrite <-(list_to_map_entries (us_identities u)), El. }
    cbn [fold_left].
    rewrite (place_identities _ _ _ (mkUser (<[p.1 := folded_identity p.2]> ∅))).
    + unfold place_identity. cbn [es_users with_users with_store us_identities].
      by rewrite with_users_twice, insert_insert_eq.
    + unfold place_identity. cbn [es_users with_users with_store]. by rewrite lookup_insert_eq, HN.
  - apply entries_keys_NoDup.
  - apply Forall_forall. intros p _. unfold identity. by rewrite HN.
  - apply Forall_forall. intros [iid i] Hin%elem_of_entries. by apply (HL iid i).
Qed.

(** A loop that inserts what a partial function of each binding gives. *)
Lemma fold_left_omap {K V W} `{Countable K, !Ord K} (f : V → option W) (l : list (K * V)) (m : gmap K W) :
  NoDup (map fst l) →
  fold_left (λ (m : gmap K W) p, match f p.2 with Some w => <[p.1 := w]> m | None => m end) l m =
    omap f (list_to_map l) ∪ m.
Proof.
  revert m. induction l as [|[k v] l IH]; intros m HN; cbn [fold_left list_to_map foldr fst snd uncurry].
  { by rewrite omap_empty, left_id_L by apply _. }
  cbn in HN. apply NoDup_cons in HN as [Hk HN]. rewrite IH by done.
  assert ((list_to_map l : gmap K V) !! k = None) as HkN by by apply not_elem_of_list_to_map_1.
  destruct (f v) as [w|] eqn:E.
  - rewrite (omap_insert_Some _ _ _ _ w) by done.
    rewrite <-insert_union_r by (by rewrite lookup_omap, HkN). by rewrite insert_union_l.
  - rewrite omap_insert_None by done. by rewrite delete_id by (by rewrite lookup_omap, HkN).
Qed.

Lemma install_users_list l st :
  NoDup (map fst l) → Forall (λ p, es_users st !! p.1 = None) l →
  Forall (λ p, map_Forall (λ _ i, map_Forall (λ _ node, loadable_node node) (id_conversations i))
    (us_identities p.2)) l →
  try_fold install_user (map (λ '(uid, user), user_json uid user) l) st =
    Ok (with_users (fold_left (λ m p, match folded_user p.2 with Some u => <[p.1 := u]> m | None => m end)
      l (es_users st)) st).
Proof.
  revert st. induction l as [|[uid u] l IH]; intros st HN H1 H2; [by destruct st|].
  cbn [map try_fold fold_left fst snd]. cbn in HN. apply NoDup_cons in HN as [Hni HN].
  apply Forall_cons in H1 as [H1 H1']. apply Forall_cons in H2 as [H2 H2'].
  rewrite install_user_json by done. rewrite bind_ok. destruct (folded_user u) as [u'|]; [|by apply IH].
  rewrite IH; [done|done| |done].
  apply Forall_forall. intros p Hp. rewrite Forall_forall in H1'. cbn [es_users with_users with_store].
  rewrite lookup_insert_ne; [by apply H1'|]. intros ->. apply Hni. by apply (list_elem_of_fmap_2 fst).
Qed.

Lemma install_users_json st st0 :
  es_users st0 = ∅ → loadable_users (es_users st) →
  install_users (users_json st) st0 = Ok (with_users (folded_users (es_users st)) st0).
Proof.
  intros HE HL. unfold install_users, users_json. cbn [fold_array]. rewrite bind_ok, install_users_list.
  - rewrite fold_left_omap by apply entries_keys_NoDup. by rewrite list_to_map_entries, HE, right_id_L by apply _.
  - apply entries_keys_NoDup.
  - apply Forall_forall. intros p _. by rewrite HE, lookup_empty.
  - apply Forall_forall. intros [uid u] Hin%elem_of_entries. by apply (HL uid u).
Qed.

Lemma parse_keys_json keys : parse_keys (keys_json keys) = Ok keys.
Proof. unfold parse_keys, keys_json. fold_read. by destruct keys as [? [] []]. Qed.

Lemma optional_keys_json keys : optional_keys (or_null keys_json keys) = Ok keys.
Proof.
  destruct keys as [keys|]; [|done]. cbn [or_null from_option].
  change (optional_keys (keys_json keys)) with (k ← parse_keys (keys_json keys); @Ok EngineError _ (Some k)).
  by rewrite parse_keys_json.
Qed.

Lemma optional_dek_lits l dek :
  assoc l "dek_ct" = assoc (pushed "dek_ct" bstr dek) "dek_ct" → optional_dek (lits l) = Ok dek.
Proof.
  intros E. unfold optional_dek. rewrite optional_lits, E. destruct dek as [ct|]; [|done]. cbn.
  by rewrite b64_decode_encode.
Qed.

Lemma install_device_convs l st :
  Forall (λ p, loadable_device_node p.2) l →
  try_fold install_device_conv (map (λ '(cid, node), device_conv_json cid node) l) st =
  Ok (with_device (with_dv_conversations
    (fold_left (λ m p, <[p.1 := folded_device_node p.2]> m) l (dv_conversations (es_device st)))
    (es_device st)) st).
Proof.
  intros HF. revert st. induction HF as [|[cid node] l HN HF IH]; intros st; cbn [map try_fold fold_left].
  - destruct st as [? ? ? ? ? ? ? ? ? ? ? []]. done.
  - assert (install_device_conv (device_conv_json cid node) st = Ok (put_sync cid (folded_device_node node) st))
      as -> by (unfold install_device_conv; by rewrite parse_device_conv_json).
    rewrite bind_ok. by rewrite IH.
Qed.

Lemma install_device_json d st0 :
  es_device st0 = Device_default → loadable_device d →
  install_device (device_json d) st0 = Ok (with_device (folded_device d) st0).
Proof.
  intros HE HL. unfold install_device, device_json. cbn [fold_object obj]. rewrite bind_ok.
  erewrite optional_name_lits by reflexivity. rewrite bind_ok.
  erewrite (field_lits _ "keys") by reflexivity. rewrite bind_ok.
  rewrite optional_keys_json, bind_ok.
  rewrite (optional_dek_lits _ (dv_dek_ct d)) by done.
  rewrite bind_ok. erewrite (field_lits _ "conversations") by reflexivity. rewrite bind_ok.
  cbn [fold_array]. rewrite bind_ok, install_device_convs, HE.
  - cbn. by rewrite fold_left_fmap_entries.
  - apply Forall_forall. intros [cid node] Hin%elem_of_entries. by apply (HL cid node).
Qed.

End Install.
