(* ===== verification/Fold.v ===== *)
(** Folding the engine into one snapshot and loading it again ([Engine::fold] and
    [Engine::apply_folded] of [engine/persist.rs]). *)

From stdpp Require Import base tactics list numbers option strings countable gmap.
From Stdlib Require Import Strings.Byte.
From S2P Require Import Prelude Text Ids Order Channel Defaults Payload Json Ports Codec.
From S2P Require Import Chain RowLog Party HealRange Bins State Helpers Engine Directory.
From S2P Require Import Views Persist GroupFold FoldTree.

(** [FoldOk]. *)
Record FoldOk : Type := mkFoldOk {
  fo_state : EngineState; fo_persist : list bytes; fo_pings : list PingTarget;
  fo_snapshot : bytes; fo_seq : PersistSeq
}.

(** * What a snapshot keeps *)

(** The transactions of [fold]'s first loop: watermarked, and not expired. *)
Definition folds_tx (st : EngineState) (tx : Tag * DurableBody) : bool :=
  tx_watermarked st tx.1
  && negb (from_option (λ expires : UnixSeconds, (cval expires <=? cval (default (clamp64 0) (es_ticked st)))%N)
             false (payload_expire_at (db_payload tx.2))).

Definition kept_txs (st : EngineState) : list (Tag * DurableBody) :=
  filter (λ tx, folds_tx st tx = true) (body_pairs st).

Definition banned : list string :=
  ["tickets"; "chains"; "recv_chains"; "skipped_mks"; "failed"; "owners"; "inviters"; "intake";
   "shared_inviter"; "shared_invitee"; "established"; "last_acks"; "device_enc"; "device_sign"].

Section Fold.
Context `{Suite}.

(** * Folding *)

Definition tx_json (tx : Tag * DurableBody) : Json :=
  obj [("tx_id", id_json tx.1); ("body", durable_body_to_json tx.2)].

Definition frag_set_json (frag : Tag * FragSet) : Json :=
  obj [("tx_id", id_json frag.1);
       ("conversation_id", id_json (fs_conversation_id frag.2));
       ("last_i", or_null JNumber (fs_last_i frag.2));
       ("parts", JArray (map (λ part, obj [("i", JNumber part.1); ("frag", bstr part.2)])
          (entries (fs_parts frag.2))))].

Definition bin_json (progress : BinProgress) : Json :=
  obj [("channel", durable_json (bp_channel progress));
       ("tag_key", id_json (bp_tag_key progress));
       ("watermark", or_null JNumber (bp_watermark progress));
       ("completed", JArray (map JNumber (set_values (bp_completed progress))))].

Definition log_json (row : PersistSeq * Tag) : Json :=
  obj [("seq", JNumber row.1); ("tx_id", id_json row.2)].

Definition snapshot_json (st : EngineState) : Json :=
  let txs := kept_txs st in
  obj [("type", jlit "v1-engine-snapshot");
       ("next_seq", JNumber (es_next_seq st));
       ("ticked", or_null JNumber (es_ticked st));
       ("txs", JArray (map tx_json txs));
       ("users", users_json st);
       ("device", device_json (es_device st));
       ("frags", JArray (map frag_set_json (entries (es_frags st))));
       ("bins", JArray (map bin_json (values (es_bin_progress st))));
       ("persist_log", JArray (map log_json
          (filter (λ row, row.2 ∈ map fst txs) (entries (es_persist_log st)))))].

Definition fold (en : Engine) (st : EngineState) : result EngineError FoldOk :=
  dek ← require_dek en;
  let seq := es_next_seq st in
  _ ← refuse_if (cval seq =? u64_max)%N MalformedPersist;
  _ ← refuse_if (persist_outside_watermark st) WrongPhase;
  let canonical := json_encode (snapshot_json st) in
  _ ← refuse_if (negb (N.of_nat (length canonical) <=? PERSIST_MAX_UNCOMPRESSED)%N) BodyTooLarge;
  let nonce := record_nonce FOLD_VERSION seq in
  Ok (mkFoldOk st [] [] (sealed_record dek nonce (compress canonical)) seq).

(** * Loading *)

Definition parse_tx (value : Json) : result EngineError (Tag * DurableBody) :=
  m ← fold_object value;
  id_s ← (v ← field m "tx_id"; fold_string v);
  id_v ← ok_or MalformedPersist (b64_decode id_s);
  tx_id ← ok_or MalformedPersist (try_into 32 id_v);
  body ← (v ← field m "body"; malformed (durable_body_from_json v));
  Ok (from_bytes tx_id, body).

Definition parse_part (value : Json) (parts : gmap FragIndex bytes) :
    result EngineError (gmap FragIndex bytes) :=
  m ← fold_object value;
  i ← (v ← field m "i"; fold_number v);
  frag ← (v ← field m "frag"; decode_fold_bstr v);
  Ok (<[i := frag]> parts).

Definition parse_frag_set (value : Json) (frags : gmap Tag FragSet) :
    result EngineError (gmap Tag FragSet) :=
  m ← fold_object value;
  tx_id ← fold_id m "tx_id";
  conversation_id ← fold_id m "conversation_id";
  last_i ← match optional m "last_i" with
           | Some JNull | None => Ok None
           | Some (JNumber n) => Ok (Some n)
           | _ => Err MalformedPersist
           end;
  parts_v ← (v ← field m "parts"; fold_array v);
  parts ← try_fold parse_part parts_v ∅;
  Ok (<[tx_id := mkFragSet conversation_id parts last_i]> frags).

Definition parse_bin (value : Json) (bins : gmap BinKey BinProgress) :
    result EngineError (gmap BinKey BinProgress) :=
  m ← fold_object value;
  channel ← (v ← field m "channel"; parse_fold_channel v);
  tag_key ← fold_id m "tag_key";
  watermark ← (v ← field m "watermark";
    match v with JNull => Ok None | JNumber n => Ok (Some n) | _ => Err MalformedPersist end);
  completed_v ← (v ← field m "completed"; fold_array v);
  completed ← collect fold_number completed_v;
  Ok (<[progress_key channel tag_key :=
        mkBinProgress channel tag_key watermark (list_to_set completed)]> bins).

Definition parse_log_row (value : Json) (log : gmap PersistSeq Tag) :
    result EngineError (gmap PersistSeq Tag) :=
  m ← fold_object value;
  seq ← (v ← field m "seq"; fold_number v);
  tx_id ← fold_id m "tx_id";
  Ok (<[seq := tx_id]> log).

(** [txs] of another shape is ignored. *)
Definition pending_txs (m : members) : result EngineError (list (Tag * DurableBody)) :=
  match optional m "txs" with
  | Some (JArray txs) => collect parse_tx txs
  | _ => Ok []
  end.

(** [if let Some(users) = get("users") { install_users(..)? }]. *)
Definition install {A} (f : Json → A → result EngineError A) (v : option Json) (a : A) :
    result EngineError A :=
  match v with Some v => f v a | None => Ok a end.

(** [state.insert_body(..).map_err(|_| MalformedPersist)?]. *)
Definition insert_tx (tx : Tag * DurableBody) (st : EngineState) : result EngineError EngineState :=
  let '(st, r) := insert_body tx.1 tx.2 st in _ ← malformed r; Ok st.

(** The state a snapshot's JSON describes. *)
Definition load_snapshot (value : Json) : result EngineError EngineState :=
  m ← fold_object value;
  next_seq ← (v ← field m "next_seq"; fold_number v);
  ticked ← match optional m "ticked" with
           | Some JNull | None => Ok None
           | Some (JNumber n) => Ok (Some n)
           | _ => Err MalformedPersist
           end;
  pending ← pending_txs m;
  frags_v ← optional_array m "frags";
  frags ← try_fold parse_frag_set frags_v ∅;
  bins_v ← optional_array m "bins";
  bins ← try_fold parse_bin bins_v ∅;
  log_v ← optional_array m "persist_log";
  log ← try_fold parse_log_row log_v ∅;
  _ ← refuse_if (existsb (λ k, bool_decide (is_Some (optional m k))) banned) MalformedPersist;
  let st := with_rest next_seq ticked [] [] [] frags bins log EngineState_new in
  st ← install install_users (optional m "users") st;
  st ← install install_device (optional m "device") st;
  try_fold insert_tx pending st.

Definition open_snapshot (dek : AeadKey) (snapshot : bytes) : result EngineError Json :=
  _ ← refuse_if (bool_decide (length snapshot < 12)%nat) MalformedPersist;
  nonce ← ok_or MalformedPersist (try_into 12 (take 12 snapshot));
  _ ← refuse_if (negb (be_val (take 4 (cval nonce)) =? FOLD_VERSION)%N) MalformedPersist;
  packed ← ok_or MalformedPersist (aead_open dek nonce [] (drop 12 snapshot));
  canonical ← malformed (decompress packed PERSIST_MAX_UNCOMPRESSED);
  ok_or MalformedPersist (json_decode canonical).

Definition apply_folded (en : Engine) (snapshot : bytes) : result EngineError EngineState :=
  dek ← require_dek en;
  json ← open_snapshot dek snapshot;
  load_snapshot json.

End Fold.
