(* ===== verification/FoldText.v ===== *)
(** The snapshot as text: no object in it repeats a key, and loading does not observe the
    order of object members, so the canonical encoding loses nothing. *)

From stdpp Require Import base tactics list numbers option strings countable gmap.
From Stdlib Require Import Strings.Byte.
From S2P Require Import Prelude Text Ids Order Channel Defaults Payload Json Ports TestDoubles Codec.
From S2P Require Import CodecLaws Wire Chain RowLog Party HealRange Bins State Helpers Engine Directory.
From S2P Require Import Views Persist GroupFold FoldTree Fold.

(** * Emitted objects repeat no key *)

Section NoRepeats.
Context `{Suite}.

Lemma nodup_keys_pushed {A} key (f : A → Json) o :
  (∀ a, json_nodup (f a) = true) → forallb (λ kv : string * Json, json_nodup kv.2) (pushed key f o) = true.
Proof. intros Hf. destruct o; cbn; [by rewrite Hf|done]. Qed.

Lemma json_nodup_list {A} (f : A → Json) l :
  (∀ a, json_nodup (f a) = true) → forallb json_nodup (map f l) = true.
Proof. apply (json_nodup_map f l). Qed.

Lemma fold_member_nodup m : json_nodup (GroupFold.member_json m) = true.
Proof. unfold GroupFold.member_json. by rewrite json_nodup_obj. Qed.

Lemma photo_nodup pic : json_nodup (photo_json pic) = true.
Proof. by destruct pic. Qed.

Lemma name_nodup name : json_nodup (name_json name) = true.
Proof. by destruct name. Qed.

Lemma pending_nodup row : json_nodup (pending_json row) = true.
Proof. unfold pending_json. rewrite json_nodup_obj. cbn [forallb snd]. by rewrite photo_nodup. Qed.

Lemma group_nodup phase : json_nodup (group_json phase) = true.
Proof.
  destruct phase; cbn [group_json]; rewrite json_nodup_obj; cbn [forallb snd]; [|done..].
  by rewrite photo_nodup, durables_nodup, ephemerals_nodup,
    (json_nodup_map _ _ fold_member_nodup), (json_nodup_map _ _ pending_nodup).
Qed.

Lemma keypair_nodup pk sk : json_nodup (keypair_json pk sk) = true.
Proof. unfold keypair_json. by rewrite json_nodup_obj. Qed.

Lemma failure_nodup r : json_nodup (failure_json r) = true.
Proof. unfold failure_json. rewrite json_nodup_obj. by destruct r. Qed.

Lemma phase_nodup role phase ticket intake list_from policy si se failure :
  json_nodup (phase_json role phase ticket intake list_from policy si se failure) = true.
Proof.
  unfold phase_json. rewrite json_nodup_obj, !forallb_app. cbn [forallb snd].
  rewrite ticket_nodup, !nodup_keys_pushed by (done || apply failure_nodup || (intros; apply keypair_nodup)).
  rewrite !andb_true_r. by destruct intake, policy, si, se, failure.
Qed.

Lemma party_nodup {k} (p : Party k) : json_nodup (party_json p) = true.
Proof. destruct p as [p|p]; destruct p; apply phase_nodup. Qed.

Lemma chain_nodup cid a chain : json_nodup (chain_to_json cid a chain) = true.
Proof. unfold chain_to_json. by rewrite json_nodup_obj. Qed.

Lemma mk_nodup e : json_nodup (mk_json e) = true.
Proof. unfold mk_json. rewrite json_nodup_obj. by destruct (cm_tx_id e). Qed.

Lemma actor_nodup a key v :
  key ≠ "actor_id" → key ≠ "actor_role" → json_nodup v = true → json_nodup (actor_json a key v) = true.
Proof.
  intros H1 H2 Hv. unfold actor_json. rewrite json_nodup_obj. cbn [forallb snd map fst]. rewrite Hv.
  rewrite bool_decide_eq_true_2; [done|]. repeat (apply NoDup_cons; split; [set_solver|]). constructor.
Qed.

Lemma ratchet_nodup r : json_nodup (ratchet_json r) = true.
Proof.
  unfold ratchet_json. rewrite json_nodup_obj. cbn [forallb snd].
  rewrite !json_nodup_map by (intros; rewrite ?json_nodup_obj; done). done.
Qed.

Lemma chains_nodup cid c ratchet :
  forallb (λ kv : string * Json, json_nodup kv.2) (chains_json cid c ratchet) = true.
Proof.
  unfold chains_json. rewrite forallb_app. cbn [forallb snd].
  rewrite nodup_keys_pushed by apply ratchet_nodup.
  rewrite !json_nodup_map; [done|..].
  - intros [a ids]. apply actor_nodup; [done..|]. by apply json_nodup_map.
  - intros [a mks]. apply actor_nodup; [done..|]. apply json_nodup_map, mk_nodup.
  - intros [a chain]. apply chain_nodup.
  - intros [a chain]. apply chain_nodup.
Qed.

Lemma identity_conv_nodup cid node : json_nodup (identity_conv_json cid node) = true.
Proof.
  unfold identity_conv_json. rewrite json_nodup_obj, forallb_app. cbn [forallb snd].
  destruct node as [party log c|secret parent log c|[live|offer|reason]];
    cbn [snd identity_chain_json]; rewrite ?chains_nodup, ?party_nodup, ?group_nodup;
    rewrite ?json_nodup_obj; done.
Qed.

Lemma device_conv_nodup cid node : json_nodup (device_conv_json cid node) = true.
Proof.
  unfold device_conv_json. rewrite json_nodup_obj, forallb_app. cbn [forallb snd].
  destruct node; cbn [snd device_chain_json]; rewrite ?chains_nodup, ?party_nodup;
    rewrite ?json_nodup_obj; done.
Qed.

Lemma users_nodup st : json_nodup (users_json st) = true.
Proof.
  apply json_nodup_map. intros [uid u]. unfold user_json. rewrite json_nodup_obj. cbn [forallb snd].
  rewrite json_nodup_map; [done|]. intros [iid i]. unfold identity_json. rewrite json_nodup_obj.
  cbn [forallb snd]. rewrite name_nodup, photo_nodup, json_nodup_map; [done|].
  intros [cid node]. apply identity_conv_nodup.
Qed.

Lemma keys_nodup o : json_nodup (or_null keys_json o) = true.
Proof.
  apply json_nodup_or_null. intros k. unfold keys_json. rewrite json_nodup_obj. cbn [forallb snd].
  by rewrite !keypair_nodup.
Qed.

Lemma device_nodup d : json_nodup (device_json d) = true.
Proof.
  unfold device_json. rewrite json_nodup_obj, forallb_app. cbn [forallb snd].
  rewrite nodup_keys_pushed by done. rewrite name_nodup, keys_nodup, json_nodup_map.
  - by destruct (dv_dek_ct d).
  - intros [cid node]. apply device_conv_nodup.
Qed.

Lemma snapshot_nodup st : json_nodup (snapshot_json st) = true.
Proof.
  unfold snapshot_json. rewrite json_nodup_obj. cbn [forallb snd].
  rewrite users_nodup, device_nodup, number_or_null_nodup, !json_nodup_map; [done|..].
  - intros row. unfold log_json. by rewrite json_nodup_obj.
  - intros p. unfold bin_json. rewrite json_nodup_obj. cbn [forallb snd].
    by rewrite durable_json_nodup, number_or_null_nodup, json_nodup_map.
  - intros f. unfold frag_set_json. rewrite json_nodup_obj. cbn [forallb snd].
    rewrite number_or_null_nodup, json_nodup_map; [done|]. intros part. by rewrite json_nodup_obj.
  - intros tx. unfold tx_json. rewrite json_nodup_obj. cbn [forallb snd]. by rewrite durable_body_nodup.
Qed.

End NoRepeats.

(** * Loading does not observe the order of members *)

Lemma fold_object_bind {A} (f : members → result EngineError A) v w :
  Proper (members_equiv ==> eq) f → json_equiv v w → (fold_object v ≫= f) = (fold_object w ≫= f).
Proof. intros Hf HE. inversion HE; subst; try done. cbn. by apply Hf. Qed.

Lemma field_bind {A} (f g : Json → result EngineError A) m1 m2 k :
  (∀ v w, json_equiv v w → f v = g w) → members_equiv m1 m2 → (field m1 k ≫= f) = (field m2 k ≫= g).
Proof. intros Hf HE. unfold field. specialize (HE (lit k)). inversion HE; [|done]. cbn. by apply Hf. Qed.

Lemma fold_array_bind {A} (f : list Json → result EngineError A) v w :
  (∀ l1 l2, Forall2 json_equiv l1 l2 → f l1 = f l2) → json_equiv v w →
  (fold_array v ≫= f) = (fold_array w ≫= f).
Proof. intros Hf HE. inversion HE; subst; try done. cbn. by apply Hf. Qed.

Lemma array_field_bind {A} (f g : list Json → result EngineError A) m1 m2 k :
  (∀ l1 l2, Forall2 json_equiv l1 l2 → f l1 = g l2) → members_equiv m1 m2 →
  ((field m1 k ≫= λ v, fold_array v) ≫= f) = ((field m2 k ≫= λ v, fold_array v) ≫= g).
Proof.
  intros Hf HE. unfold field. specialize (HE (lit k)). inversion HE as [v w HV|]; [|done].
  destruct HV; try done. cbn. by apply Hf.
Qed.

Lemma optional_array_bind {A} (f g : list Json → result EngineError A) m1 m2 k :
  (∀ l1 l2, Forall2 json_equiv l1 l2 → f l1 = g l2) → members_equiv m1 m2 →
  (optional_array m1 k ≫= f) = (optional_array m2 k ≫= g).
Proof.
  intros Hf HE. unfold optional_array, optional. specialize (HE (lit k)).
  inversion HE as [v w HV|]; [destruct HV; try done|]; cbn; by apply Hf.
Qed.

Lemma collect_equiv {E A} (f : Json → result E A) l1 l2 :
  Proper (json_equiv ==> eq) f → Forall2 json_equiv l1 l2 → collect f l1 = collect f l2.
Proof.
  intros Hf. induction 1 as [|x y l1 l2 Hxy _ IH]; [done|]. cbn. by rewrite (Hf _ _ Hxy), IH.
Qed.

Lemma try_fold_equiv {E S} (f : Json → S → result E S) l1 l2 s :
  Proper (json_equiv ==> eq ==> eq) f → Forall2 json_equiv l1 l2 → try_fold f l1 s = try_fold f l2 s.
Proof.
  intros Hf HF. revert s. induction HF as [|x y l1 l2 Hxy _ IH]; intros s; [done|]. cbn.
  rewrite (Hf _ _ Hxy s s eq_refl). destruct (f y s); cbn; auto.
Qed.

Lemma has_key_equiv m1 m2 key :
  members_equiv m1 m2 →
  existsb (λ kv : str * Json, str_eqb kv.1 key) m1 = existsb (λ kv : str * Json, str_eqb kv.1 key) m2.
Proof.
  assert (∀ m, existsb (λ kv : str * Json, str_eqb kv.1 key) m = bool_decide (is_Some (find_key m key))) as HX.
  { induction m as [|[k v] m IH]; [done|]. cbn [existsb fst]. unfold find_key; fold find_key.
    destruct (str_eqb k key); [|exact IH]. symmetry. apply bool_decide_eq_true_2. eauto. }
  intros HE. rewrite !HX. apply bool_decide_ext. specialize (HE key). inversion HE; split; intros [? ?]; eauto; done.
Qed.

(** A parser that only tells the kinds of value apart. *)
Ltac fold_leaf :=
  let v := fresh "v" in let w := fresh "w" in let E := fresh "E" in
  intros v w E; destruct E; reflexivity.

(** A parser, read by read: each read of a member respects the equivalence. *)
Ltac fold_proper :=
  repeat first
  [ reflexivity
  | match goal with
    | HE : members_equiv ?m1 ?m2 |- _ ?m1 _ = _ ?m2 _ => rewrite HE; reflexivity
    | HE : members_equiv ?m1 ?m2 |- _ ?m1 = _ ?m2 => rewrite HE; reflexivity
    | HE : json_equiv ?v ?w |- _ ?v = _ ?w => rewrite HE; reflexivity
    | HE : Forall2 json_equiv ?l1 ?l2 |- collect _ ?l1 = collect _ ?l2 =>
        apply collect_equiv; [apply _|exact HE]
    | HE : Forall2 json_equiv ?l1 ?l2 |- try_fold _ ?l1 _ = try_fold _ ?l2 _ =>
        apply try_fold_equiv; [apply _|exact HE]
    | HE : Forall2 json_equiv ?l1 ?l2 |- ?f ?l1 = ?f ?l2 =>
        apply (_ : Proper (Forall2 json_equiv ==> eq) f); exact HE
    end
  | apply fold_object_bind; [intros ?m1 ?m2 ?HE|assumption]
  | apply array_field_bind; [intros ?l1 ?l2 ?HE|assumption]
  | apply field_bind; [intros ?v ?w ?HE|assumption]
  | apply fold_array_bind; [intros ?l1 ?l2 ?HE|assumption]
  | apply optional_array_bind; [intros ?l1 ?l2 ?HE|assumption]
  | apply bind_ext; [|intros]
  | match goal with a : (_ * _)%type |- _ => destruct a end
  | match goal with
    | HE : members_equiv ?m1 ?m2 |- context [optional ?m1 ?k] =>
        let H := fresh in
        pose proof (HE (lit k)) as H; unfold optional;
        destruct H as [?v ?w []|]
    end ].

#[export] Instance fold_string_proper : Proper (json_equiv ==> eq) fold_string.
Proof. fold_leaf. Qed.
#[export] Instance fold_number_proper : Proper (json_equiv ==> eq) fold_number.
Proof. fold_leaf. Qed.
#[export] Instance fold_bool_proper : Proper (json_equiv ==> eq) fold_bool.
Proof. fold_leaf. Qed.

Section Invariance.
Context `{Suite}.

#[export] Instance decode_fold_bstr_proper : Proper (json_equiv ==> eq) decode_fold_bstr.
Proof. fold_leaf. Qed.
#[export] Instance decode_fold32_proper : Proper (json_equiv ==> eq) decode_fold32.
Proof. fold_leaf. Qed.
#[export] Instance decode_vec_proper : Proper (json_equiv ==> eq) decode_vec.
Proof. fold_leaf. Qed.
#[export] Instance group_decode32_proper : Proper (json_equiv ==> eq) group_decode32.
Proof. fold_leaf. Qed.
#[export] Instance chain_decode_proper : Proper (json_equiv ==> eq) Chain.decode_bstr.
Proof. fold_leaf. Qed.
#[export] Instance chain_decode32_proper : Proper (json_equiv ==> eq) Chain.decode32.
Proof. fold_leaf. Qed.

#[export] Instance fold_id_proper {r} : Proper (members_equiv ==> eq ==> eq) (fold_id (r := r)).
Proof.
  intros m1 m2 HE k ? <-. unfold fold_id, fold32. f_equal. fold_proper.
Qed.

#[export] Instance parse_fold_keypair_proper : Proper (json_equiv ==> eq) parse_fold_keypair.
Proof.
  intros v w HE. change (parse_fold_keypair ?v) with (m ← fold_object v;
    pk ← (v ← field m "pk"; decode_fold_bstr v); sk ← (v ← field m "sk"; decode_fold_bstr v);
    @Ok EngineError _ (pk, sk)). fold_proper.
Qed.

#[export] Instance parse_photo_proper : Proper (members_equiv ==> eq) parse_photo.
Proof. intros m1 m2 HE. unfold parse_photo. fold_proper. Qed.

#[export] Instance parse_fold_name_proper : Proper (members_equiv ==> eq) parse_fold_name.
Proof. intros m1 m2 HE. unfold parse_fold_name. fold_proper. Qed.

#[export] Instance parse_fold_member_proper : Proper (json_equiv ==> eq) parse_fold_member.
Proof. intros v w HE. unfold parse_fold_member. fold_proper. Qed.

#[export] Instance parse_one_pending_proper : Proper (json_equiv ==> eq) parse_one_pending.
Proof. intros v w HE. unfold parse_one_pending. fold_proper. Qed.

#[export] Instance parse_members_proper : Proper (json_equiv ==> eq) parse_members.
Proof. intros v w HE. unfold parse_members. fold_proper. Qed.

#[export] Instance parse_pending_proper : Proper (json_equiv ==> eq) parse_pending.
Proof. intros v w HE. unfold parse_pending. fold_proper. Qed.

Lemma list_field_equiv {A} (f g : Json → result EngineError (list A)) m1 m2 k :
  (∀ v w, json_equiv v w → f v = g w) → members_equiv m1 m2 → list_field m1 k f = list_field m2 k g.
Proof.
  intros Hf HE. unfold list_field, optional. specialize (HE (lit k)). inversion HE; [|done]. by apply Hf.
Qed.

#[export] Instance parse_group_proper : Proper (json_equiv ==> eq) parse_group.
Proof.
  intros v w HE. unfold parse_group. apply fold_object_bind; [|done]. intros m1 m2 HM.
  rewrite !(has_key_equiv _ _ _ HM). case_match; [done|].
  do 3 (apply bind_ext; [fold_proper|intros]). case_match; [fold_proper|].
  do 2 (apply bind_ext; [fold_proper|intros]).
  do 4 (apply bind_ext; [apply list_field_equiv; [|done]; intros ?v ?w HV; by rewrite HV|intros]). done.
Qed.

#[export] Instance parse_keys_proper : Proper (json_equiv ==> eq) parse_keys.
Proof. intros v w HE. unfold parse_keys. fold_proper. Qed.

#[export] Instance stored_actor_proper : Proper (members_equiv ==> eq) stored_actor.
Proof. intros m1 m2 HE. unfold stored_actor. fold_proper. Qed.

#[export] Instance parse_mk_proper : Proper (json_equiv ==> eq) parse_mk.
Proof. intros v w HE. unfold parse_mk. fold_proper. Qed.

#[export] Instance parse_mks_proper : Proper (json_equiv ==> eq ==> eq) parse_mks.
Proof. intros v w HE c ? <-. unfold parse_mks. fold_proper. Qed.

#[export] Instance parse_tag_set_proper : Proper (Forall2 json_equiv ==> eq) parse_tag_set.
Proof.
  intros l1 l2 HE. unfold parse_tag_set. apply bind_ext; [|done]. apply collect_equiv; [|done].
  intros v w HV. by rewrite HV.
Qed.

#[export] Instance parse_last_ack_proper : Proper (json_equiv ==> eq ==> eq) parse_last_ack.
Proof. intros v w HE c ? <-. unfold parse_last_ack. fold_proper. Qed.

#[export] Instance chain_from_json_proper : Proper (json_equiv ==> eq) chain_from_json.
Proof.
  intros v w HE. change (chain_from_json ?v) with (members ← fold_object v;
    cid ← (v ← field members "conversation_id"; Chain.decode_bstr v);
    _ ← refuse_if (negb (bool_decide (length cid = 32%nat))) MalformedPersist;
    actor_id ← (v ← field members "actor_id"; Chain.decode_bstr v);
    role ← match optional members "actor_role" with
           | Some (JString role) => Ok (Some role) | Some _ => Err MalformedPersist | None => Ok None end;
    root ← (v ← field members "root"; Chain.decode32 v);
    c ← (v ← field members "c"; Chain.decode32 v);
    epoch ← (v ← field members "epoch"; fold_number v);
    packet_seq ← (v ← field members "packet_seq"; fold_number v);
    cid ← ok_or MalformedPersist (try_into 32 cid);
    actor ← ok_or MalformedPersist (Actor_from_stored role actor_id);
    @Ok EngineError _ (@from_bytes RConversationId cid, actor,
      mkSendChain (from_bytes root) (from_bytes c) epoch packet_seq)). fold_proper.
Qed.

#[export] Instance parse_send_proper : Proper (json_equiv ==> eq ==> eq) parse_send.
Proof. intros v w HE c ? <-. unfold parse_send. by rewrite HE. Qed.

#[export] Instance parse_recv_proper : Proper (json_equiv ==> eq ==> eq) parse_recv.
Proof. intros v w HE c ? <-. unfold parse_recv. by rewrite HE. Qed.

#[export] Instance parse_unused_proper : Proper (json_equiv ==> eq) parse_unused.
Proof. intros v w HE. unfold parse_unused. fold_proper. Qed.

#[export] Instance parse_known_proper : Proper (json_equiv ==> eq) parse_known.
Proof. intros v w HE. unfold parse_known. fold_proper. Qed.

#[export] Instance parse_ratchet_proper : Proper (json_equiv ==> eq) parse_ratchet.
Proof. intros v w HE. unfold parse_ratchet. fold_proper. Qed.

#[export] Instance optional_ratchet_proper : Proper (members_equiv ==> eq) (λ m,
  match optional m "ratchet" with Some value => parse_ratchet value | None => Ok Ratchet_default end).
Proof. intros m1 m2 HE. unfold optional. destruct (HE (lit "ratchet")) as [v w HV|]; [by rewrite HV|done]. Qed.

#[export] Instance parse_chains_proper : Proper (members_equiv ==> eq) parse_chains.
Proof.
  intros m1 m2 HE. unfold parse_chains.
  do 4 (apply optional_array_bind; [intros ?l1 ?l2 ?HF|done]; apply bind_ext; [fold_proper|intros]).
  apply bind_ext; [|done]. by apply optional_ratchet_proper.
Qed.

#[export] Instance parse_failure_proper : Proper (json_equiv ==> eq) parse_failure.
Proof.
  intros v w HE. unfold parse_failure. apply fold_object_bind; [|done]. intros m1 m2 HM.
  apply bind_ext; [fold_proper|intros]. case_match; [fold_proper|]. case_match; [fold_proper|]. done.
Qed.

#[export] Instance optional_secret_proper : Proper (members_equiv ==> eq ==> eq) optional_secret.
Proof. intros m1 m2 HE k ? <-. unfold optional_secret. fold_proper. Qed.

#[export] Instance malformed_ticket_proper :
  Proper (json_equiv ==> eq) (λ v, malformed (ticket_from_json v)).
Proof. intros v w HE. by rewrite HE. Qed.

#[export] Instance parse_role_phase_proper {k} : Proper (json_equiv ==> eq) (parse_role_phase (k := k)).
Proof.
  intros v w HE. unfold parse_role_phase. apply fold_object_bind; [|done]. intros m1 m2 HM.
  do 2 (apply bind_ext; [fold_proper|intros]).
  apply bind_ext; [apply field_bind; [intros ?v ?w HV; by rewrite HV|done]|intros].
  apply bind_ext; [fold_proper|intros].
  apply bind_ext.
  { unfold optional. destruct (HM (lit "intake")) as [v1 w1 HV|]; [by rewrite HV|done]. }
  intros. apply bind_ext; [fold_proper|intros].
  do 2 (apply bind_ext; [by rewrite HM|intros]).
  apply bind_ext; [|done].
  unfold optional. destruct (HM (lit "failure")) as [v1 w1 HV|]; [by rewrite HV|done].
Qed.

(** The members of a nested object. *)
Lemma nested_bind {A} (f : members → result EngineError A) v w :
  Proper (members_equiv ==> eq) f → json_equiv v w → (fold_object v ≫= f) = (fold_object w ≫= f).
Proof. apply fold_object_bind. Qed.

#[export] Instance parse_identity_conv_proper : Proper (json_equiv ==> eq) parse_identity_conv.
Proof.
  intros v w HE. unfold parse_identity_conv. apply fold_object_bind; [|done]. intros m1 m2 HM.
  apply bind_ext; [by rewrite HM|intros cid]. apply bind_ext; [by rewrite HM|intros [packet ratchet]].
  apply bind_ext; [|done]. unfold optional.
  destruct (HM (lit "handshake")) as [v1 w1 HV|]; [by rewrite HV|].
  destruct (HM (lit "direct_message")) as [v1 w1 HV|]; [fold_proper|].
  destruct (HM (lit "group")) as [v1 w1 HV|]; [by rewrite HV|done].
Qed.

#[export] Instance parse_device_conv_proper : Proper (json_equiv ==> eq) parse_device_conv.
Proof.
  intros v w HE. unfold parse_device_conv. apply fold_object_bind; [|done]. intros m1 m2 HM.
  apply bind_ext; [by rewrite HM|intros cid]. apply bind_ext; [by rewrite HM|intros [packet ratchet]].
  apply bind_ext; [|done]. unfold optional.
  destruct (HM (lit "handshake")) as [v1 w1 HV|]; [by rewrite HV|].
  destruct (HM (lit "synchronization")) as [v1 w1 HV|]; [fold_proper|done].
Qed.

#[export] Instance optional_name_proper : Proper (members_equiv ==> eq) optional_name.
Proof. intros m1 m2 HE. unfold optional_name. apply field_bind; [|done]. fold_leaf. Qed.

#[export] Instance optional_pic_proper : Proper (members_equiv ==> eq) optional_pic.
Proof. intros m1 m2 HE. unfold optional_pic. apply field_bind; [|done]. fold_leaf. Qed.

#[export] Instance install_conv_proper uid iid : Proper (json_equiv ==> eq ==> eq) (install_conv uid iid).
Proof. intros v w HE st ? <-. unfold install_conv. by rewrite HE. Qed.

#[export] Instance install_identity_proper uid : Proper (json_equiv ==> eq ==> eq) (install_identity uid).
Proof. intros v w HE st ? <-. unfold install_identity. fold_proper. Qed.

#[export] Instance install_user_proper : Proper (json_equiv ==> eq ==> eq) install_user.
Proof. intros v w HE st ? <-. unfold install_user. fold_proper. Qed.

#[export] Instance install_users_proper : Proper (json_equiv ==> eq ==> eq) install_users.
Proof. intros v w HE st ? <-. unfold install_users. fold_proper. Qed.

#[export] Instance install_device_conv_proper : Proper (json_equiv ==> eq ==> eq) install_device_conv.
Proof. intros v w HE st ? <-. unfold install_device_conv. by rewrite HE. Qed.

#[export] Instance optional_keys_proper : Proper (json_equiv ==> eq) optional_keys.
Proof.
  intros v w HE. assert (parse_keys v = parse_keys w) as E by by rewrite HE.
  unfold optional_keys. destruct HE; try done; by rewrite E.
Qed.

#[export] Instance optional_dek_proper : Proper (members_equiv ==> eq) optional_dek.
Proof. intros m1 m2 HE. unfold optional_dek. fold_proper. Qed.

#[export] Instance install_device_proper : Proper (json_equiv ==> eq ==> eq) install_device.
Proof. intros v w HE st ? <-. unfold install_device. fold_proper. Qed.

#[export] Instance parse_tx_proper : Proper (json_equiv ==> eq) parse_tx.
Proof.
  intros v w HE. unfold parse_tx. apply fold_object_bind; [|done]. intros m1 m2 HM.
  do 3 (apply bind_ext; [fold_proper|intros]). apply bind_ext; [|done].
  apply field_bind; [|done]. intros ?v ?w HV. by rewrite HV.
Qed.

#[export] Instance parse_part_proper : Proper (json_equiv ==> eq ==> eq) parse_part.
Proof. intros v w HE st ? <-. unfold parse_part. fold_proper. Qed.

#[export] Instance parse_frag_set_proper : Proper (json_equiv ==> eq ==> eq) parse_frag_set.
Proof. intros v w HE st ? <-. unfold parse_frag_set. fold_proper. Qed.

#[export] Instance parse_fold_channel_proper : Proper (json_equiv ==> eq) parse_fold_channel.
Proof.
  intros v w HE. change (parse_fold_channel ?v) with (m ← fold_object v;
    v ← field m "kind"; kind ← fold_string v; v ← field m "address"; address ← fold_string v;
    kind ← malformed (Kind_try_from kind); address ← malformed (Address_try_from address);
    @Ok EngineError _ (DurableChannel_new kind address)). fold_proper.
Qed.

#[export] Instance parse_bin_proper : Proper (json_equiv ==> eq ==> eq) parse_bin.
Proof.
  intros v w HE st ? <-. unfold parse_bin. apply fold_object_bind; [|done]. intros m1 m2 HM.
  do 2 (apply bind_ext; [fold_proper|intros]).
  apply bind_ext; [apply field_bind; [fold_leaf|done]|intros]. fold_proper.
Qed.

#[export] Instance parse_log_row_proper : Proper (json_equiv ==> eq ==> eq) parse_log_row.
Proof. intros v w HE st ? <-. unfold parse_log_row. fold_proper. Qed.

#[export] Instance pending_txs_proper : Proper (members_equiv ==> eq) pending_txs.
Proof.
  intros m1 m2 HE. unfold pending_txs, optional. destruct (HE (lit "txs")) as [v w HV|]; [|done].
  destruct HV; try done. fold_proper.
Qed.

Lemma install_equiv {A} (f : Json → A → result EngineError A) v w a :
  Proper (json_equiv ==> eq ==> eq) f → option_Forall2 json_equiv v w → install f v a = install f w a.
Proof. intros Hf [x y HE|]; cbn; [by apply Hf|done]. Qed.

#[export] Instance load_snapshot_proper : Proper (json_equiv ==> eq) load_snapshot.
Proof.
  intros v w HE. unfold load_snapshot. apply fold_object_bind; [|done]. intros m1 m2 HM.
  do 2 (apply bind_ext; [fold_proper|intros]). apply bind_ext; [by rewrite HM|intros].
  do 3 (apply optional_array_bind; [intros ?l1 ?l2 ?HF|done]; apply bind_ext; [fold_proper|intros]).
  apply bind_ext.
  { f_equal. generalize banned. induction l as [|k l IH]; [done|]. cbn [existsb]. rewrite IH. f_equal.
    apply bool_decide_ext. unfold optional. destruct (HM (lit k)); split; intros []; eauto; done. }
  intros. do 2 (apply bind_ext; [apply install_equiv; [apply _|apply HM]|intros]). done.
Qed.

End Invariance.
