(* ===== verification/Onward.v ===== *)
(** The host's operations as one transition system, and what no sequence of them undoes:
    the clock, the sequence numbers of persist records, the log of what was stored, the
    draws, the filing of list progress.

    [onward] is the preorder of a whole operation, weaker than the [forward] of the sending
    paths ([Frame.v]): acknowledging and deleting take queued writes away, ticking moves the
    clock, unlocking changes the key that is held.  Replaying a record ([Engine::apply]) can
    overwrite what its own number stands for; [kept_along] says what a run with replays keeps. *)

From stdpp Require Import base tactics list numbers option strings countable gmap.
From Stdlib Require Import Strings.Byte.
From S2P Require Import Prelude Text Ids Order Channel Defaults Payload Json Ports Codec.
From S2P Require Import TestDoubles.
From S2P Require Import Chain RowLog Party HealRange Bins State StateLaws Frags Helpers Engine.
From S2P Require Import Frame Ratchet RatchetLaws Vault VaultLaws Directory Chat Heal HealLaws.
From S2P Require Import Fingerprint Live LiveLaws Handshake Identity Groups Receive Ingest Views.
From S2P Require Import Skeleton Samples Session Invite Poll Persist GroupFold FoldTree Fold.

(** * The preorder *)

(** [None] is before any time. *)
Definition clock_le (a b : option UnixSeconds) : Prop :=
  ∀ t, a = Some t → ∃ t', b = Some t' ∧ (cval t ≤ cval t')%N.

#[export] Instance clock_le_preorder : PreOrder clock_le.
Proof.
  split; [intros a t Ht; by exists t|]. intros a b c H1 H2 t Ht.
  apply H1 in Ht as (t' & Ht' & ?). apply H2 in Ht' as (t'' & -> & ?). exists t''. split; [done|lia].
Qed.

Record onward (w w' : World) : Prop := mkOnward {
  ow_draws : (w_draws w ≤ w_draws w')%nat;
  ow_defaults : en_defaults (w_engine w') = en_defaults (w_engine w);
  ow_clock : clock_le (es_ticked (w_state w)) (es_ticked (w_state w'));
  ow_seq : (cval (es_next_seq (w_state w)) ≤ cval (es_next_seq (w_state w')))%N;
  ow_log : log_ok (w_state w) → log_grows (w_state w) (w_state w');
  ow_bins : bins_keyed (es_bin_progress (w_state w)) → bins_keyed (es_bin_progress (w_state w'))
}.

#[export] Instance onward_preorder : PreOrder onward.
Proof.
  split; [intros w; split; auto using log_grows_refl; done|].
  intros w1 w2 w3 [] []. split; try congruence; try lia; [by etrans| |auto].
  intros Hw. apply ow_log0 in Hw as Hg. eapply log_grows_trans; [done..|]. apply ow_log1, Hg.
Qed.

#[export] Instance forward_onward {A} (m : M A) : Evolves forward m → Evolves onward m | 100.
Proof.
  intros Hm w. destruct (Hm w) as [HE ? HT ? ? ? ? HL HB]. split; rewrite ?HE, ?HT, ?HB; try done.
Qed.

(** The part of the state the preorder looks at. *)
Definition watched (st : EngineState) :=
  (es_ticked st, es_next_seq st, es_persist_log st, es_bin_progress st).

Lemma outbox_watched st st' : outbox st' = outbox st → watched st' = watched st.
Proof. unfold outbox, watched. congruence. Qed.

Lemma onward_watched en en' n n' st st' :
  watched st' = watched st → en_defaults en' = en_defaults en → (n ≤ n')%nat →
  onward (mkWorld en st n) (mkWorld en' st' n').
Proof.
  unfold watched. intros [= H1 H2 H3 H4] Hd Hn.
  split; cbn; rewrite ?H1, ?H2, ?H4; try done. by apply log_grows_same.
Qed.

Lemma modify_onward f : (∀ st, watched (f st) = watched st) → Evolves onward (modify f).
Proof. intros Hf [en st n]. by apply onward_watched. Qed.

#[export] Instance set_dek_onward dek : Evolves onward (set_dek dek).
Proof. intros [en st n]. by apply onward_watched. Qed.

(** Running on from a world already reached. *)
Lemma onward_then {A} (m : M A) w w1 : Evolves onward m → onward w w1 → onward w (m w1).1.
Proof. intros Hm Hw. etrans; [done|apply Hm]. Qed.

(** What a refused operation leaves: the state it was given, the handle and the draws. *)
Definition rolled_back (w w' : World) : World := mkWorld (w_engine w') (w_state w) (w_draws w').

Lemma onward_rolled_back w w' : onward w w' → onward w (rolled_back w w').
Proof. intros []. destruct w, w'. by apply onward_watched. Qed.

#[export] Instance on_clone_onward {A} (m : M A) : Evolves onward m → Evolves onward (on_clone m).
Proof.
  intros Hm w. unfold on_clone. specialize (Hm w). destruct (m w) as [w' [a|[e|]]]; cbn in *; try done.
  by apply (onward_rolled_back _ w').
Qed.

(** Changes by a scan for a row. *)
Lemma outbox_group_phase_mut cid f st : outbox (group_phase_mut cid f st) = outbox st.
Proof. unfold group_phase_mut. by destruct (scan _ _) as [[[]]|]. Qed.
Lemma outbox_live_mut cid f st : outbox (live_mut cid f st) = outbox st.
Proof. apply outbox_group_phase_mut. Qed.
Lemma outbox_state_fail cid reason st : outbox (state_fail cid reason st) = outbox st.
Proof. apply outbox_party_mut. Qed.
Lemma outbox_ack_posted cid st : outbox (state_ack_posted cid st) = outbox st.
Proof. unfold state_ack_posted. apply outbox_party_mut. Qed.
Lemma outbox_unlock_failed cid st : outbox (store_unlock_failed cid st) = outbox st.
Proof. unfold store_unlock_failed. repeat case_match; auto using outbox_state_fail. Qed.
Lemma outbox_annotate cid actor mk id st : outbox (annotate_cached_mk cid actor mk id st) = outbox st.
Proof. apply outbox_chains_mut. Qed.
Lemma outbox_put_dm_inviter u i cid p st : outbox (put_dm_inviter u i cid p st) = outbox st.
Proof. apply outbox_put_dm. Qed.
Lemma outbox_put_dm_invitee u i cid p st : outbox (put_dm_invitee u i cid p st) = outbox st.
Proof. apply outbox_put_dm. Qed.
Lemma outbox_ensure_user u st : outbox (ensure_user u st) = outbox st.
Proof. unfold ensure_user. by case_match. Qed.
Lemma outbox_ensure_identity u i st : outbox (ensure_identity u i st) = outbox st.
Proof. unfold ensure_identity. by repeat case_match; rewrite <-(outbox_ensure_user u st). Qed.
Lemma outbox_set_identity u i f st : outbox (set_identity u i f st) = outbox st.
Proof. unfold set_identity. rewrite <-(outbox_ensure_identity u i st). done. Qed.
Lemma outbox_device_kick `{Suite} d st : outbox (note_device_kick d st) = outbox st.
Proof. unfold note_device_kick. by repeat case_match. Qed.
Lemma outbox_sync_peer cid actor st : outbox (note_sync_peer cid actor st) = outbox st.
Proof. unfold note_sync_peer. by repeat case_match. Qed.
Lemma outbox_spawn_child `{Suite} st cid st' : spawn_child st cid = Ok st' → outbox st' = outbox st.
Proof.
  unfold spawn_child. intros ([] & _ & (peer & _ & [= <-])%bind_inv)%bind_inv. apply outbox_spawn.
Qed.
#[export] Hint Rewrite outbox_group_phase_mut outbox_live_mut outbox_state_fail outbox_ack_posted
  outbox_unlock_failed outbox_annotate outbox_put_dm_inviter outbox_put_dm_invitee
  outbox_ensure_user outbox_ensure_identity outbox_set_identity @outbox_device_kick
  outbox_sync_peer : outbox.
#[export] Hint Extern 5 (Evolves onward (modify _)) =>
  apply modify_onward; intros; solve [done | apply outbox_watched; quiet] : evolve.

(** * Every computation of the engine *)

Section Onward.
Context `{Suite, Rng}.

(** ** Sending ([Ratchet.v], [Live.v]) *)

#[export] Instance push_eph_forward route now body : Evolves forward (push_eph route now body).
Proof. unfold push_eph. evolve. Qed.
#[export] Instance push_durable_forward route now body : Evolves forward (push_durable route now body).
Proof. unfold push_durable. evolve. Qed.
#[export] Instance probe_presence_forward cid route chain now :
  Evolves forward (probe_presence cid route chain now).
Proof. unfold probe_presence, expect_established_mut. evolve. Qed.
#[export] Instance post_signal_forward cid secret composing :
  Evolves forward (post_signal cid secret composing).
Proof. unfold post_signal. evolve. Qed.
#[export] Instance live_fragments_forward fuel cid route now wait key tx_id set_xor packed i chain durable :
  Evolves forward (live_fragments fuel cid route now wait key tx_id set_xor packed i chain durable).
Proof.
  revert packed i chain durable. induction fuel as [|fuel IH]; intros; cbn [live_fragments]; evolve.
Qed.
#[export] Instance post_fragments_forward cid route now wait chain tx_id :
  Evolves forward (post_fragments cid route now wait chain tx_id).
Proof. unfold post_fragments, expect_established_mut. evolve. Qed.
#[export] Instance post_live_at_forward fuel cid secret tx_id payload :
  Evolves forward (post_live_at fuel cid secret tx_id payload).
Proof.
  revert tx_id payload. induction fuel as [|fuel IH]; intros; cbn [post_live_at]; evolve.
Qed.
#[export] Instance post_live_forward cid secret tx_id payload :
  Evolves forward (post_live cid secret tx_id payload).
Proof. apply post_live_at_forward. Qed.
#[export] Instance deliver_live_forward cid secret payloads :
  Evolves forward (deliver_live cid secret payloads).
Proof. unfold deliver_live. evolve. Qed.
#[export] Instance flush_live_forward : Evolves forward flush_live.
Proof. unfold flush_live, flush_live_row, expect_established_mut. evolve. Qed.
#[export] Instance remember_sender_forward cid tx_id : Evolves forward (remember_sender cid tx_id).
Proof. unfold remember_sender, expect_established_mut. evolve. Qed.
#[export] Instance finish_chat_forward cid secret payload :
  Evolves forward (finish_chat cid secret payload).
Proof. unfold finish_chat. evolve. Qed.
#[export] Instance note_packet_signal_forward cid now packet :
  Evolves forward (note_packet_signal cid now packet).
Proof. unfold note_packet_signal, note_typing, note_presence, expect_established_mut. evolve. Qed.

(** ** The handshake *)

#[export] Instance advance_ack_phases_forward : Evolves forward advance_ack_phases.
Proof. unfold advance_ack_phases. evolve. Qed.
#[export] Instance mint_on_forward ids payload : Evolves forward (mint_on ids payload).
Proof. unfold mint_on. evolve. Qed.
#[export] Instance generate_kem_forward policy : Evolves forward (generate_kem policy).
Proof. unfold generate_kem. evolve. Qed.
#[export] Instance generate_sign_forward policy : Evolves forward (generate_sign policy).
Proof. unfold generate_sign. evolve. Qed.
#[export] Instance ensure_device_keys_forward policy : Evolves forward (ensure_device_keys policy).
Proof. unfold ensure_device_keys, new_device_keys. evolve. Qed.
#[export] Instance local_calling_forward cid policy : Evolves forward (local_calling cid policy).
Proof. unfold local_calling. evolve. Qed.
#[export] Instance post_intro_forward cid payload : Evolves forward (post_intro cid payload).
Proof. unfold post_intro. evolve. Qed.
#[export] Instance try_mint_invitee_intro_forward cid : Evolves forward (try_mint_invitee_intro cid).
Proof. unfold try_mint_invitee_intro, mint_invitee_intro, invitee_payload. evolve. Qed.
#[export] Instance fail_intro_forward cid : Evolves forward (fail_intro cid).
Proof. unfold fail_intro. evolve. Qed.
#[export] Instance try_mint_inviter_intro_forward cid : Evolves forward (try_mint_inviter_intro cid).
Proof. unfold try_mint_inviter_intro, mint_inviter_intro, inviter_payload. evolve. Qed.
#[export] Instance mint_pending_intros_forward : Evolves forward mint_pending_intros.
Proof. unfold mint_pending_intros. evolve. Qed.
#[export] Instance gate_fail_forward cid reason : Evolves forward (gate_fail cid reason).
Proof. unfold gate_fail. evolve. Qed.
#[export] Instance handshake_ingest_gate_forward cid payload :
  Evolves forward (handshake_ingest_gate cid payload).
Proof.
  unfold handshake_ingest_gate, gate_notice, gate_invitee_intro, gate_inviter_intro, confirm_peer_at.
  evolve. destruct (match _ with Some _ => _ | None => _ end); evolve.
Qed.

(** ** Users, identities, this device *)

#[export] Instance fan_engine_to_sync_forward payloads : Evolves forward (fan_engine_to_sync payloads).
Proof. unfold fan_engine_to_sync. evolve. Qed.
#[export] Instance mutate_forward fan secret payloads : Evolves forward (mutate fan secret payloads).
Proof. unfold mutate. evolve. Qed.
#[export] Instance mutate_engine_forward fan payloads : Evolves forward (mutate_engine fan payloads).
Proof. unfold mutate_engine. evolve. Qed.
#[export] Instance seal_to_forward policy pk kind plain : Evolves forward (seal_to policy pk kind plain).
Proof. unfold seal_to. evolve. Qed.
#[export] Instance seal_sync_dek_forward policy pk plain : Evolves forward (seal_sync_dek policy pk plain).
Proof. exact (seal_to_forward SYNC_DEK_INFO policy pk plain). Qed.
#[export] Instance seal_group_secret_forward policy pk plain :
  Evolves forward (seal_group_secret policy pk plain).
Proof. exact (seal_to_forward GROUP_SECRET_INFO policy pk plain). Qed.
#[export] Typeclasses Opaque seal_sync_dek seal_group_secret.
#[export] Instance wrap_sync_dek_forward cid : Evolves forward (wrap_sync_dek cid).
Proof. unfold wrap_sync_dek. evolve. Qed.
#[export] Instance hold_sync_dek_onward ct : Evolves onward (hold_sync_dek ct).
Proof. unfold hold_sync_dek. evolve. Qed.

(** ** Groups *)

#[export] Instance new_member_forward pk enc : Evolves forward (new_member pk enc).
Proof. unfold new_member. evolve. Qed.
#[export] Instance post_roster_forward ids : Evolves forward (post_roster ids).
Proof. unfold post_roster, sign_roster, merge_and_post. evolve. Qed.
#[export] Instance on_group_payload_forward cid payload : Evolves forward (on_group_payload cid payload).
Proof. unfold on_group_payload, note_invite, note_accept, note_roster. evolve. Qed.
#[export] Instance seal_invites_forward group_id secret policy pk name photo peers :
  Evolves forward (seal_invites group_id secret policy pk name photo peers).
Proof. induction peers as [|[[] ] peers IH]; cbn [seal_invites]; evolve. Qed.
#[export] Instance mint_invites_forward ids payloads persist :
  Evolves forward (mint_invites ids payloads persist).
Proof. revert persist. induction payloads as [|[] payloads IH]; intros; cbn [mint_invites]; evolve. Qed.
#[export] Instance delete_group_onward ids : Evolves onward (delete_group ids).
Proof. unfold delete_group. evolve. Qed.

(** ** Receiving *)

#[export] Instance ack_completed_last_forward persistent packet cid :
  Evolves forward (ack_completed_last persistent packet cid).
Proof. unfold ack_completed_last. evolve. Qed.
#[export] Instance accept_body_forward cid packet persistent tx_id b :
  Evolves forward (accept_body cid packet persistent tx_id b).
Proof. unfold accept_body, expect_established_mut. evolve. Qed.
#[export] Instance accept_fragment_forward cid packet persistent :
  Evolves forward (accept_fragment cid packet persistent).
Proof. unfold accept_fragment. evolve. Qed.
#[export] Instance on_established_forward cid now packet persistent :
  Evolves forward (on_established cid now packet persistent).
Proof. unfold on_established. evolve. Qed.
#[export] Instance open_as_forward cid secret sort body persistent now actors :
  Evolves forward (open_as cid secret sort body persistent now actors).
Proof.
  induction actors as [|a actors IH]; cbn [open_as]; unfold expect_established_mut; evolve.
Qed.
#[export] Instance finish_established_forward channel tag body :
  Evolves forward (finish_established channel tag body).
Proof. unfold finish_established, ingest_established, open_established. evolve. Qed.

#[export] Instance merge_body_onward cid packet persistent tx_id b :
  Evolves onward (merge_body cid packet persistent tx_id b).
Proof. unfold merge_body. evolve. Qed.
#[export] Instance merge_packet_onward hit packet persistent :
  Evolves onward (merge_packet hit packet persistent).
Proof. unfold merge_packet, merge_packed, pruned. evolve. Qed.
#[export] Instance open_and_merge_onward hit now body persistent :
  Evolves onward (open_and_merge hit now body persistent).
Proof. unfold open_and_merge. evolve. Qed.
#[export] Instance ingest_hits_onward hits now body persistent :
  Evolves onward (ingest_hits hits now body persistent).
Proof.
  induction hits as [|hit hits IH]; cbn [ingest_hits]; [apply _|]. intros w.
  pose proof (evolves (R := onward) (m := open_and_merge hit now body persistent) w) as H1.
  destruct (open_and_merge _ _ _ _ w) as [w' [a|[e|]]]; cbn in *; try done.
  destruct e; try done. etrans; [done|apply IH].
Qed.
#[export] Instance ingest_known_body_onward hits body persistent :
  Evolves onward (ingest_known_body hits body persistent).
Proof. unfold ingest_known_body. evolve. Qed.

(** ** What moves the watched parts themselves *)

Lemma complete_list_bin_keyed channel hit st :
  bins_keyed (es_bin_progress st) → bins_keyed (es_bin_progress (complete_list_bin channel hit st)).
Proof.
  intros HB. unfold complete_list_bin. cbn [es_bin_progress with_bin_progress with_rest].
  apply map_Forall_insert_2; [|done].
  set (key := progress_key _ _).
  set (p := default _ (es_bin_progress st !! key)).
  assert (key = progress_key (bp_channel p) (bp_tag_key p)) as Hk.
  { subst p. destruct (es_bin_progress st !! key) as [p|] eqn:E; [|done]. by apply (HB key p). }
  case_match; [done|]. by rewrite advance_progress_key.
Qed.

#[export] Instance complete_list_bin_onward channel hit :
  Evolves onward (modify (complete_list_bin channel hit)).
Proof.
  intros [en st n]. split; cbn [fst w_state w_engine w_draws modify]; try done.
  - by apply log_grows_same.
  - apply complete_list_bin_keyed.
Qed.

Lemma outbox_expire now st : outbox (expire_handshakes now st) = outbox st.
Proof.
  unfold expire_handshakes. generalize (expired_handshakes st now). intros l. revert st.
  induction l as [|[cid e] l IH]; intros st; cbn [fold_left]; [done|].
  rewrite IH. apply outbox_state_fail.
Qed.

#[export] Instance tick_onward now : Evolves onward (tick now).
Proof.
  intros w. unfold tick. run. rewrite lift_bind. destruct (require_dek _); [|done].
  rewrite lift_bind. unfold refuse_if. destruct (from_option _ _ _) eqn:E; [done|]. run.
  apply onward_then; [evolve|].
  destruct w as [en st n]. cbn [w_state w_engine w_draws] in *.
  etrans; [|apply onward_watched; [apply outbox_watched, outbox_expire|done..]].
  split; cbn; try done; [|by apply log_grows_same]. intros t Ht. rewrite Ht in E. cbn in E.
  exists now. split; [done|]. by apply N.ltb_ge.
Qed.

#[export] Instance write_ack_onward channel tag body : Evolves onward (write_ack channel tag body).
Proof. unfold write_ack. evolve. Qed.
#[export] Instance write_blob_ack_onward kind address tag body :
  Evolves onward (write_blob_ack kind address tag body).
Proof. unfold write_blob_ack. evolve. Qed.

Lemma forget_handshake_keyed cid t st :
  bins_keyed (es_bin_progress st) → bins_keyed (es_bin_progress (forget_handshake cid t st)).
Proof.
  intros HB. cbn. revert HB. generalize (es_bin_progress st).
  induction (tk_persistents t) as [|ch l IH]; intros bins HB; cbn [fold_left]; [done|].
  apply IH. by apply map_Forall_delete.
Qed.

#[export] Instance delete_conversation_onward ids : Evolves onward (delete_conversation ids).
Proof.
  unfold delete_conversation. evolve. intros [en st n]. etrans.
  - apply (onward_watched en en n n st (drop_conversation (cr_conversation_id ids) st).2); [|done..].
    apply outbox_watched, outbox_drop.
  - split; cbn [fst w_state w_engine w_draws modify]; try done; [by apply log_grows_same|].
    apply forget_handshake_keyed.
Qed.

#[export] Instance insert_body_m_forward id b : Evolves forward (insert_body_m id b).
Proof.
  intros [en st n]. unfold insert_body_m. cbn [w_state w_engine w_draws].
  pose proof (outbox_insert_body id b st) as Ho. destruct (insert_body _ _ _) as [st' r].
  by apply forward_outbox.
Qed.

Lemma post_notice_onward cid secret now payload put after :
  (∀ st, outbox (put st) = outbox st) → (∀ st, outbox (after st) = outbox st) →
  Evolves onward (post_notice cid secret now payload put after).
Proof.
  intros Hp Ha w. unfold post_notice. run. rewrite lift_bind.
  destruct (persist_record _ _ _) as [rec|] eqn:E; [|done]. apply persist_record_seq in E. run.
  destruct w as [en st n]. cbn [w_state w_engine w_draws] in *.
  apply onward_then; [evolve; apply modify_onward; intros; apply outbox_watched; auto|].
  - assert (cval (es_next_seq st) < cval (sat_add (es_next_seq st) 1))%N as Hlt
      by (pose proof (u64_le_max (es_next_seq st)); u64_lia).
    etrans; [|apply onward_watched; [apply outbox_watched, Hp|done..]].
    split; cbn; try done; [lia|]. intros HL.
    split_and!; [|done|by left]. intros s Hs%HL. cbn. lia.
Qed.
End Onward.

#[export] Hint Extern 5 (Evolves onward (post_notice _ _ _ _ _ _)) =>
  apply post_notice_onward; intros; solve [done | quiet] : evolve.

(** * The host's operations *)

(** One constructor for each public operation that takes a state and gives one back, or changes
    the handle; the ones that only read are not steps.  [Engine::apply_folded] takes no state:
    the state it gives is the start of another run. *)
Inductive host_op : Type :=
| OpWrapDek (secret : UnlockSecret)
| OpUnlock (header : bytes) (secret : UnlockSecret)
| OpLock
| OpOpenSyncDek (ct : bytes)
| OpTick (now : u64)
| OpSetDefaults (defaults : Defaults)
| OpCreateUser
| OpCreateIdentity (user_id : UserId) (policy : Policy)
| OpDeleteUser (user_id : UserId)
| OpDeleteIdentity (user_id : UserId) (identity_id : IdentityId)
| OpSetDisplayName (user_id : UserId) (identity_id : IdentityId) (name : str)
| OpUnsetDisplayName (user_id : UserId) (identity_id : IdentityId)
| OpSetDeviceName (name : str)
| OpKickDevice (device_id : DeviceId)
| OpLeaveSync
| OpSetProfilePic (user_id : UserId) (identity_id : IdentityId) (pic : option bytes)
| OpSetPrefs (ids : ConversationRef) (prefs : ConversationPrefs)
| OpCreateInvite (user_id : UserId) (identity_id : IdentityId) (expires : u64)
    (persistents : option (list DurableChannel))
| OpReceiveTicket (user_id : UserId) (identity_id : IdentityId) (ticket : str)
| OpCreateSyncInvite (policy : Policy) (expires : u64) (device_name : str)
    (persistents : option (list DurableChannel))
| OpReceiveSyncTicket (ticket : str)
| OpConfirm (ids : ConversationRef)
| OpReject (ids : ConversationRef)
| OpDelete (ids : ConversationRef)
| OpText (ids : ConversationRef) (body : str) (reply_to : option Tag)
| OpMedia (ids : ConversationRef) (attachments : list MediaDraft) (reply_to : option Tag)
    (caption : option str)
| OpEdit (ids : ConversationRef) (target : Tag) (body : str)
| OpRemove (ids : ConversationRef) (target : Tag)
| OpReaction (ids : ConversationRef) (target : Tag) (emoji : str) (add : bool)
| OpTyping (ids : ConversationRef) (composing : bool)
| OpRead (ids : ConversationRef) (up_to : Tag)
| OpDelivered (ids : ConversationRef) (up_to : Tag)
| OpPresence (ids : ConversationRef)
| OpCreateGroup (user_id : UserId) (identity_id : IdentityId) (contacts : list ConversationId)
    (name : str) (photo : option bytes)
| OpAddGroupMember (ids : ConversationRef) (contact : ConversationId)
| OpAcceptGroup (ids : ConversationRef)
| OpRejectGroup (ids : ConversationRef)
| OpKickGroupMember (ids : ConversationRef) (signing_pk : bytes)
| OpLeaveGroup (ids : ConversationRef)
| OpSetGroupName (ids : ConversationRef) (name : str)
| OpSetGroupPhoto (ids : ConversationRef) (photo : option bytes)
| OpIngestList (channel : DurableChannel) (tag : Tag) (bodies : list bytes)
| OpIngestPacket (channel : DurableChannel) (tag : Tag) (body : bytes)
| OpIngestEphemeral (channel : EphemeralChannel) (tag : Tag) (body : bytes)
| OpWriteAck (channel : DurableChannel) (tag : Tag) (body : bytes)
| OpWriteBlobAck (kind : Kind) (address : Address) (tag : Tag) (body : bytes)
| OpApply (record : bytes)
| OpFold.

(** Running for the change alone. *)
Definition run_only {A} (m : M A) : M unit := _ ← m; mret tt.

(** [Engine::apply] and [Engine::fold] take the state and give one back. *)
Definition apply_m `{Suite} (record : bytes) : M unit :=
  en ← get_engine; st ← get_state; st' ← lift (apply en st record); modify (λ _, st').

Definition fold_m `{Suite} : M unit :=
  en ← get_engine; st ← get_state; ok ← lift (fold en st); modify (λ _, fo_state ok).

Section Host.
Context `{Suite, Rng}.

Definition host (op : host_op) : M unit :=
  match op with
  | OpWrapDek secret => run_only (wrap_dek secret)
  | OpUnlock header secret => unlock header secret
  | OpLock => lock
  | OpOpenSyncDek ct => hold_sync_dek ct
  | OpTick now => run_only (tick now)
  | OpSetDefaults defaults => run_only (set_defaults defaults)
  | OpCreateUser => run_only create_user
  | OpCreateIdentity user policy => run_only (create_identity user policy)
  | OpDeleteUser user => run_only (delete_user user)
  | OpDeleteIdentity user identity => run_only (delete_identity user identity)
  | OpSetDisplayName user identity name => run_only (set_display_name user identity name)
  | OpUnsetDisplayName user identity => run_only (unset_display_name user identity)
  | OpSetDeviceName name => run_only (set_device_name name)
  | OpKickDevice device_id => run_only (kick_device device_id)
  | OpLeaveSync => run_only leave_sync
  | OpSetProfilePic user identity pic => run_only (set_profile_pic user identity pic)
  | OpSetPrefs ids prefs => run_only (set_conversation_prefs ids prefs)
  | OpCreateInvite user identity expires persistents =>
      run_only (create_invite user identity expires persistents)
  | OpReceiveTicket user identity ticket => run_only (receive_ticket user identity ticket)
  | OpCreateSyncInvite policy expires name persistents =>
      run_only (create_sync_invite policy expires name persistents)
  | OpReceiveSyncTicket ticket => run_only (receive_sync_ticket ticket)
  | OpConfirm ids => run_only (confirm_established ids)
  | OpReject ids => run_only (reject_established ids)
  | OpDelete ids => run_only (delete_conversation ids)
  | OpText ids body reply_to => run_only (send_text ids body reply_to)
  | OpMedia ids attachments reply_to caption =>
      run_only (send_media ids attachments reply_to caption)
  | OpEdit ids target body => run_only (edit_message ids target body)
  | OpRemove ids target => run_only (remove_message ids target)
  | OpReaction ids target emoji add => run_only (send_reaction ids target emoji add)
  | OpTyping ids composing => run_only (send_typing ids composing)
  | OpRead ids up_to => run_only (send_read ids up_to)
  | OpDelivered ids up_to => run_only (send_delivered ids up_to)
  | OpPresence ids => run_only (send_presence ids)
  | OpCreateGroup user identity contacts name photo =>
      run_only (create_group user identity contacts name photo)
  | OpAddGroupMember ids contact => run_only (add_group_member ids contact)
  | OpAcceptGroup ids => run_only (accept_group ids)
  | OpRejectGroup ids => run_only (reject_group ids)
  | OpKickGroupMember ids pk => run_only (kick_group_member ids pk)
  | OpLeaveGroup ids => run_only (leave_group ids)
  | OpSetGroupName ids name => run_only (set_group_name ids name)
  | OpSetGroupPhoto ids photo => run_only (set_group_photo ids photo)
  | OpIngestList channel tag bodies => run_only (ingest_list channel tag bodies)
  | OpIngestPacket channel tag body => run_only (ingest_packet channel tag body)
  | OpIngestEphemeral channel tag body => run_only (ingest_ephemeral_packet channel tag body)
  | OpWriteAck channel tag body => run_only (write_ack channel tag body)
  | OpWriteBlobAck kind address tag body => run_only (write_blob_ack kind address tag body)
  | OpApply record => apply_m record
  | OpFold => fold_m
  end.

(** One call: an error leaves the host with the state it handed in; a panic ends the run. *)
Definition host_step (op : host_op) (w : World) : option World :=
  match host op w with
  | (w', Ok _) => Some w'
  | (w', Err (Refuse _)) => Some (rolled_back w w')
  | (_, Err Panic) => None
  end.

Fixpoint host_run (ops : list host_op) (w : World) : option World :=
  match ops with
  | [] => Some w
  | op :: ops => w ← host_step op w; host_run ops w
  end.

(** *** Every operation is a computation built of those above. *)

#[export] Instance require_confirming_forward ids : Evolves forward (require_confirming ids).
Proof. unfold require_confirming. evolve. Qed.
#[export] Instance spawn_child_m_forward cid : Evolves forward (spawn_child_m cid).
Proof.
  intros [en st n]. unfold spawn_child_m. run. rewrite lift_bind.
  destruct (spawn_child st cid) as [st'|] eqn:E; [|done]. apply outbox_spawn_child in E.
  by apply forward_outbox.
Qed.
#[export] Instance send_chat_forward ids payload : Evolves forward (send_chat ids payload).
Proof. unfold send_chat. evolve. Qed.
#[export] Instance send_signal_forward ids composing : Evolves forward (send_signal ids composing).
Proof. unfold send_signal. evolve. Qed.
#[export] Instance put_media_onward cid secret caption reply_to att :
  Evolves onward (put_media cid secret caption reply_to att).
Proof. unfold put_media. evolve. Qed.
#[export] Instance change_group_onward ids change payload :
  Evolves onward (change_group ids change payload).
Proof. unfold change_group. evolve. Qed.

#[export] Instance run_only_onward {A} (m : M A) : Evolves onward m → Evolves onward (run_only m).
Proof. intros Hm. unfold run_only. evolve. Qed.

(** Folding gives back the state it was given. *)
#[export] Instance fold_m_onward : Evolves onward fold_m.
Proof.
  intros [en st n]. unfold fold_m. run. rewrite lift_bind.
  destruct (fold en st) as [ok|e] eqn:HF; [|done].
  unfold fold in HF. apply bind_inv in HF as (dek & _ & HF). cbv zeta in HF.
  do 3 (apply bind_inv in HF as (? & _ & HF)). injection HF as <-. done.
Qed.

(** The number a record is logged under. *)
Definition record_seq (record : bytes) : PersistSeq := u64_from_be (drop 4 (take 12 record)).

Definition replayed_by (op : host_op) : option PersistSeq :=
  match op with OpApply record => Some (record_seq record) | _ => None end.

Lemma host_onward op : replayed_by op = None → Evolves onward (host op).
Proof.
  intros HR. destruct op; try discriminate HR; clear HR; cbn [host]; try apply run_only_onward.
  all: unfold wrap_dek, unlock, lock, set_defaults, create_user, create_identity, delete_user,
    delete_identity, set_display_name, unset_display_name, set_device_name, kick_device, leave_sync,
    set_profile_pic, set_conversation_prefs, create_invite, receive_ticket, create_sync_invite,
    receive_sync_ticket, put_ticket.
  all: unfold confirm_established, send_sync_dek,
    reject_established, send_text, send_media, edit_message, send_reaction, create_group,
    add_group_member, accept_group, reject_group, kick_group_member, kick_live_member, leave_group,
    set_group_name, set_group_photo, rename_group, rephoto_group, ingest_list, ingest_packet,
    ingest_ephemeral_packet.
  all: evolve.
Qed.

(** * Replays in between *)

(** The log of [st'] has the entries of [st] at numbers not in [seqs], and all others at
    numbers in [seqs] or not used in [st]. *)
Definition log_carried (seqs : list PersistSeq) (st st' : EngineState) : Prop :=
  log_ok st' ∧
  (∀ seq id, seq ∉ seqs → es_persist_log st !! seq = Some id → es_persist_log st' !! seq = Some id) ∧
  (∀ seq, is_Some (es_persist_log st' !! seq) →
     is_Some (es_persist_log st !! seq) ∨ (cval (es_next_seq st) ≤ cval seq)%N ∨ seq ∈ seqs).

(** What a run keeps in which records with the numbers [seqs] were replayed. *)
Record kept_along (seqs : list PersistSeq) (w w' : World) : Prop := mkCarried {
  ca_draws : (w_draws w ≤ w_draws w')%nat;
  ca_clock : clock_le (es_ticked (w_state w)) (es_ticked (w_state w'));
  ca_seq : (cval (es_next_seq (w_state w)) ≤ cval (es_next_seq (w_state w')))%N;
  ca_log : log_ok (w_state w) → Forall (λ seq : PersistSeq, (cval seq < u64_max)%N) seqs →
    log_carried seqs (w_state w) (w_state w');
  ca_bins : bins_keyed (es_bin_progress (w_state w)) → bins_keyed (es_bin_progress (w_state w'))
}.

Lemma onward_carried w w' : onward w w' → kept_along [] w w'.
Proof.
  intros []. split; try done. intros HL _. destruct (ow_log0 HL) as (H1 & H2 & H3).
  split_and!; [done| |].
  - intros seq id _ Hid. by eapply lookup_weaken.
  - intros seq [Hs|Hs]%H3; [by left|by right; left].
Qed.

Lemma carried_trans l1 l2 w1 w2 w3 : kept_along l1 w1 w2 → kept_along l2 w2 w3 → kept_along (l1 ++ l2) w1 w3.
Proof.
  intros [A1 A2 A3 A4 A5] [B1 B2 B3 B4 B5]. split; try lia; [by etrans| |auto].
  intros HL [HF1 HF2]%Forall_app. destruct (A4 HL HF1) as (C1 & C2 & C3).
  destruct (B4 C1 HF2) as (D1 & D2 & D3). split_and!; [done| |].
  - intros seq id Hn Hid. rewrite not_elem_of_app in Hn. destruct Hn. auto.
  - intros seq Hs. rewrite elem_of_app.
    destruct (D3 seq Hs) as [Hs2|[Hs2|Hs2]]; [|right; left; lia|by right; right; right].
    destruct (C3 seq Hs2) as [?|[?|?]]; [by left|by right; left|by right; right; left].
Qed.

(** Replaying moves the number on past the record's, and logs under it. *)
Lemma log_applied_carried seq id en n st :
  kept_along [seq] (mkWorld en st n) (mkWorld en (log_applied seq id st) n).
Proof.
  assert (cval (es_next_seq st) ≤ cval (es_next_seq (log_applied seq id st)))%N as HS.
  { unfold log_applied. cbn. destruct (N.ltb_spec (cval (es_next_seq st)) (cval (sat_add seq 1))); lia. }
  split; cbn [w_draws w_state]; [done|done|exact HS| |done].
  intros HL Hmax%List.Forall_inv. split_and!.
  - intros s. cbn. intros [HE|[_ Hs]]%lookup_insert_is_Some.
    + subst s. pose proof (sat_add_val seq 1) as HA.
      destruct (N.ltb_spec (cval (es_next_seq st)) (cval (sat_add seq 1))); lia.
    + specialize (HL s Hs). unfold log_applied in HS. cbn in HS. lia.
  - intros s i Hn Hi. cbn. rewrite lookup_insert_ne; [done|]. intros ->. apply Hn. by left.
  - intros s. cbn. intros [HE|[_ Hs]]%lookup_insert_is_Some; [right; right; rewrite HE; by left|by left].
Qed.

Lemma apply_body_carried en n st seq b st' :
  apply_body en st seq b = Ok st' → kept_along [seq] (mkWorld en st n) (mkWorld en st' n).
Proof.
  unfold apply_body. intros (secret & _ & HA)%bind_inv. cbv zeta in HA.
  apply bind_inv in HA as ([] & _ & HA).
  pose proof (outbox_insert_body (tx_id secret (db_payload b)) b st) as HO.
  destruct (insert_body _ _ _) as [st1 r]. cbn [fst] in HO. apply bind_inv in HA as ([] & _ & HA).
  set (st2 := if is_confirm _ then _ else _) in HA.
  assert (outbox st2 = outbox st) as HO2.
  { unfold st2. destruct (is_confirm _); [|done].
    destruct (spawn_child st1 _) as [st3|] eqn:HSp; [|done]. by rewrite (outbox_spawn_child _ _ _ HSp). }
  injection HA as <-. apply (carried_trans [] [seq] _ (mkWorld en st2 n)); [|apply log_applied_carried].
  apply onward_carried, onward_watched; [by apply outbox_watched|done|done].
Qed.

Lemma apply_carried en n st record st' :
  apply en st record = Ok st' → kept_along [record_seq record] (mkWorld en st n) (mkWorld en st' n).
Proof.
  unfold apply. intros (dek & _ & ([nonce b] & HP & HA)%bind_inv)%bind_inv.
  unfold parse_record in HP. apply bind_inv in HP as ([nonce' packed] & HO & HP).
  do 3 (apply bind_inv in HP as (? & _ & HP)). injection HP as -> _.
  unfold open_record in HO. apply bind_inv in HO as ([] & _ & HO).
  apply bind_inv in HO as (nonce2 & HN & HO). apply bind_inv in HO as (packed2 & _ & HO).
  injection HO as -> _. apply (apply_body_carried _ n) in HA. unfold record_seq.
  destruct (try_into 12 (take 12 record)) as [a|] eqn:HT; cbn [ok_or] in HN; [|done].
  injection HN as ->. apply check_Some in HT. by rewrite <-HT.
Qed.

End Host.

(** The numbers of the records a run replays, refused ones included. *)
Definition replayed (ops : list host_op) : list PersistSeq := omap replayed_by ops.

Section Run.
Context `{Suite, Rng}.

Lemma host_step_carried op w w' :
  host_step op w = Some w' → kept_along (option_list (replayed_by op)) w w'.
Proof.
  unfold host_step. destruct (replayed_by op) as [seq|] eqn:HR; cbn [option_list].
  - destruct op; try done. injection HR as <-. cbn [host]. unfold apply_m. destruct w as [en st n]. run.
    rewrite lift_bind. destruct (apply en st record) as [st'|e] eqn:HA; cbn.
    + intros [= <-]. by apply apply_carried.
    + intros [= <-]. apply (carried_trans [] [_] _ (mkWorld en st n)); [by apply onward_carried|].
      split; try done. intros HL _. split_and!; auto.
  - pose proof (host_onward op HR w) as HO. destruct (host op w) as [w1 [a|[e|]]]; [| |done].
    + intros [= <-]. by apply onward_carried.
    + intros [= <-]. by apply onward_carried, onward_rolled_back.
Qed.

Lemma host_run_app ops1 ops2 w : host_run (ops1 ++ ops2) w = (w ← host_run ops1 w; host_run ops2 w).
Proof.
  revert w. induction ops1 as [|op ops1 IH]; intros w; cbn; [done|]. destruct (host_step op w); cbn; auto.
Qed.

(** C4. Whatever the host calls on the state it was given last, in whatever order and with
    whatever arguments, as long as no call panics: the clock never goes back and is never
    unset, the next sequence number of a persist record never decreases, the count of draws
    never goes down, and the list progress stays filed under its own channel and key.  What
    was logged under a number stays logged under it, unless a record with that number is
    replayed; everything logged since was logged under numbers that were free at the start
    or are of replayed records; and every logged number stays below the next one, unless a
    record with the largest number of all is replayed.  Operations that are refused count
    as calls. *)
Theorem host_run_onward ops w w' :
  host_run ops w = Some w' →
  (w_draws w ≤ w_draws w')%nat ∧
  clock_le (es_ticked (w_state w)) (es_ticked (w_state w')) ∧
  (cval (es_next_seq (w_state w)) ≤ cval (es_next_seq (w_state w')))%N ∧
  (bins_keyed (es_bin_progress (w_state w)) → bins_keyed (es_bin_progress (w_state w'))) ∧
  (log_ok (w_state w) → Forall (λ seq : PersistSeq, (cval seq < u64_max)%N) (replayed ops) →
     log_ok (w_state w') ∧
     (∀ seq id, seq ∉ replayed ops → es_persist_log (w_state w) !! seq = Some id →
        es_persist_log (w_state w') !! seq = Some id) ∧
     (∀ seq, is_Some (es_persist_log (w_state w') !! seq) →
        is_Some (es_persist_log (w_state w) !! seq) ∨
        (cval (es_next_seq (w_state w)) ≤ cval seq)%N ∨ seq ∈ replayed ops)).
Proof.
  enough (host_run ops w = Some w' → kept_along (replayed ops) w w') as HO by (intros []%HO; by split_and!).
  revert w. induction ops as [|op ops IH]; intros w; cbn; [intros [= ->]; by apply onward_carried|].
  destruct (host_step op w) as [w1|] eqn:E; cbn; [|done]. intros HR.
  apply host_step_carried in E. apply IH in HR. pose proof (carried_trans _ _ _ _ _ E HR) as HC.
  unfold replayed. cbn. by destruct (replayed_by op).
Qed.
End Run.

(** A direct message, a tick, a record replayed, a fold, a tick that is refused because the clock
    would go back, a lock, a tick that is refused. *)
Definition busy_ref : ConversationRef := mkConversationRef (id_of x01) (id_of x02) (id_of x03).
Definition busy_record : bytes :=
  match persist_record chat_engine (clamp64 41)
    (body_in (id_of x03) (PText (mkTxText (lit "replayed") None None))) with
  | Ok record => record | Err _ => [] end.
Definition busy_ops : list host_op :=
  [OpText busy_ref (lit "yo") None; OpTick (clamp64 7300); OpApply busy_record;
   OpTyping busy_ref true; OpFold; OpTick (clamp64 7000); OpLock; OpTick (clamp64 7400)].
Definition busy_start : World := mkWorld chat_engine chat_state 0.

Lemma busy_runs : ∃ w', host_run busy_ops busy_start = Some w'.
Proof. apply (bool_decide_unpack (is_Some _)). by vm_compute. Qed.

Lemma chat_log_ok : log_ok chat_state.
Proof. assert (es_persist_log chat_state = ∅) as HE by vm_decide. intros seq. rewrite HE. by intros []. Qed.

Lemma host_run_onward_witness :
  ∃ w', host_run busy_ops busy_start = Some w' ∧ log_ok (w_state w') ∧
    replayed busy_ops = [clamp64 41] ∧
    clock_le (Some (clamp64 7200)) (es_ticked (w_state w')).
Proof.
  destruct busy_runs as [w' HR]. destruct (host_run_onward _ _ _ HR) as (_ & HC & _ & _ & HL).
  assert (replayed busy_ops = [clamp64 41]) as HS by vm_decide.
  exists w'. split_and!; [exact HR| |exact HS|exact HC].
  apply HL; [exact chat_log_ok|]. rewrite HS. apply Forall_singleton. by vm_compute.
Defined.

(** The record is taken in, and logged under its number. *)
Example busy_logged :
  match host_run (take 3 busy_ops) busy_start with
  | Some w' => bool_decide (is_Some (es_persist_log (w_state w') !! clamp64 41)) &&
      (cval (es_next_seq (w_state w')) =? 42)%N
  | None => false
  end = true.
Proof. by vm_compute. Qed.
