(* ===== verification/FoldLaws.v ===== *)
(** Loading what was folded ([fold] then [apply_folded]): the kept transactions, the trees
    and the log come back, and nothing else. *)

From stdpp Require Import base tactics list numbers option strings countable gmap sorting.
From Stdlib Require Import Strings.Byte.
From S2P Require Import Prelude Text Ids Order Channel Defaults Payload Json Ports TestDoubles Codec.
From S2P Require Import CodecLaws Wire Chain ChainLaws RowLog Party HealRange Bins State StateLaws.
From S2P Require Import Helpers HelpersLaws Engine Directory Skeleton Samples Views Persist.
From S2P Require Import GroupFold FoldTree FoldTreeLaws Fold FoldText.

(** * Erasing the logs *)

Definition unlog (node : IdentityNode) : IdentityNode :=
  match node with
  | RowDmHandshake party _ c => RowDmHandshake party ∅ c
  | RowDirectMessage secret parent _ c => RowDirectMessage secret parent ∅ c
  | RowGroup (GroupIsLive g) => RowGroup (GroupIsLive (with_gl_log (λ _, ∅) g))
  | RowGroup phase => RowGroup phase
  end.
Definition unlog_device (node : DeviceNode) : DeviceNode :=
  match node with
  | RowSyncHandshake party _ c => RowSyncHandshake party ∅ c
  | RowSynchronization secret parent peer _ c => RowSynchronization secret parent peer ∅ c
  end.

Definition unlog_identity (i : Identity) : Identity :=
  mkIdentity (id_name i) (id_pic i) (unlog <$> id_conversations i).
Definition unlog_user (u : User) : User := mkUser (unlog_identity <$> us_identities u).

(** The state without its transactions. *)
Definition unlogged (st : EngineState) : EngineState :=
  with_store ∅ ∅ (unlog_user <$> es_users st)
    (with_dv_conversations (unlog_device <$> dv_conversations (es_device st)) (es_device st)) st.

(** * Iterators of changed maps *)

Lemma StronglySorted_sublist {A} (R : A → A → Prop) l1 l2 :
  l1 `sublist_of` l2 → StronglySorted R l2 → StronglySorted R l1.
Proof.
  induction 1 as [|x l1 l2 Hs IH|x l1 l2 Hs IH]; intros HS; [constructor| |].
  - apply StronglySorted_inv in HS as [HS HF]. constructor; [by apply IH|].
    rewrite Forall_forall in HF. apply Forall_forall. intros y Hy. apply HF. eapply elem_of_sublist; eauto.
  - apply StronglySorted_inv in HS as [HS _]. by apply IH.
Qed.

(** * States whose rows were changed in place *)

Definition node_takes (node : IdentityNode) (p : TxPayload) : bool :=
  match node with
  | RowDmHandshake _ _ _ => stores DmHandshakeTx p
  | RowDirectMessage _ _ _ _ => stores DmTx p
  | RowGroup (GroupIsLive _) => stores LiveGroupTx p
  | RowGroup _ => false
  end.
Definition device_takes (node : DeviceNode) (p : TxPayload) : bool :=
  match node with
  | RowSyncHandshake _ _ _ => stores SyncHandshakeTx p
  | RowSynchronization _ _ _ _ _ => stores SyncTx p
  end.

Section Reshaped.
Context (F : User → option User) (h : Identity → Identity) (g : IdentityNode → IdentityNode)
  (gd : DeviceNode → DeviceNode) (st st' : EngineState).
Context (HF : ∀ u, match F u with
  | Some u' => us_identities u' = h <$> us_identities u | None => us_identities u = ∅ end).
Context (Hh : ∀ i, id_conversations (h i) = g <$> id_conversations i).
Context (HU : es_users st' = omap F (es_users st)).
Context (HD : dv_conversations (es_device st') = gd <$> dv_conversations (es_device st)).

Lemma reshaped_idents : idents st' = map (λ '(u, i, ident), (u, i, h ident)) (idents st).
Proof.
  unfold idents. rewrite HU, entries_omap.
  induction (entries (es_users st)) as [|[u user] l IH]; [done|]. cbn. rewrite map_app, <-IH.
  pose proof (HF user) as HFu. destruct (F user) as [user'|]; cbn; [|by rewrite HFu].
  f_equal. rewrite HFu, (entries_change (us_identities user) _ (λ _, h)) by (intros; apply lookup_fmap).
  rewrite !map_map. apply map_ext. by intros [].
Qed.

Lemma reshaped_scan {B} (f : Identity → option B) : scan f st' = scan (λ i, f (h i)) st.
Proof.
  unfold scan. rewrite reshaped_idents. induction (idents st) as [|[[u i] ident] l IH]; [done|].
  cbn. by rewrite IH.
Qed.

Lemma reshaped_place_of cid : place_of st' cid = place_of st cid.
Proof.
  assert ((λ x : UserId * IdentityId * IdentityNode, (x.1.1, x.1.2)) <$> scan (row cid Some) st' =
    (λ x, (x.1.1, x.1.2)) <$> scan (row cid Some) st) as HS.
  { rewrite reshaped_scan. unfold scan. induction (idents st) as [|[[u i] ident] l IH]; [done|]. cbn.
    unfold row in *. rewrite Hh, lookup_fmap. by destruct (id_conversations ident !! cid). }
  unfold place_of, device_row. rewrite HD, lookup_fmap.
  destruct (scan _ st') as [[[u' i'] k']|], (scan _ st) as [[[u i] k]|]; try done.
  - by injection HS as -> ->.
  - by destruct (dv_conversations (es_device st) !! cid).
Qed.

Lemma reshaped_row u i c : identity_row st' u i c = g <$> identity_row st u i c.
Proof.
  unfold identity_row, identity. rewrite HU, lookup_omap.
  destruct (es_users st !! u) as [user|]; [|done]. cbn. pose proof (HF user) as HFu.
  destruct (F user) as [user'|]; cbn; rewrite HFu.
  - rewrite lookup_fmap. destruct (us_identities user !! i) as [ident|]; [|done]. cbn.
    by rewrite Hh, lookup_fmap.
  - by rewrite lookup_empty.
Qed.

Lemma row_takes_node s b : row_takes s b =
  match place_of s (db_conversation_id b) with
  | Some (PlaceIdentity u i c) => from_option (λ k, node_takes k (db_payload b)) false (identity_row s u i c)
  | Some (PlaceDevice c) => from_option (λ k, device_takes k (db_payload b)) false (device_row c Some s)
  | _ => stores EngineTx (db_payload b)
  end.
Proof. done. Qed.

Lemma reshaped_takes b :
  (∀ k p, node_takes (g k) p = node_takes k p) → (∀ k p, device_takes (gd k) p = device_takes k p) →
  row_takes st' b = row_takes st b.
Proof.
  intros HG HGd. rewrite !row_takes_node, reshaped_place_of.
  destruct (place_of st _) as [[|u i c|c]|]; try done.
  - rewrite reshaped_row. destruct (identity_row st u i c); cbn; [apply HG|done].
  - unfold device_row. rewrite HD, lookup_fmap. destruct (_ !! c); cbn; [apply HGd|done].
Qed.

End Reshaped.

Lemma unlogged_takes st b : row_takes (unlogged st) b = row_takes st b.
Proof.
  apply (reshaped_takes (Some ∘ unlog_user) unlog_identity unlog unlog_device); try done.
  - cbn. apply map_eq. intros k. rewrite lookup_fmap, lookup_omap. by destruct (es_users st !! k).
  - by intros [| |[]].
  - by intros [].
Qed.

(** What a fold keeps of the state; its transactions come back one by one. *)
Definition folded_state (st : EngineState) : EngineState :=
  with_store ∅ ∅ (folded_users (es_users st)) (folded_device (es_device st))
    (with_rest (es_next_seq st) (es_ticked st) [] [] [] (es_frags st) (es_bin_progress st)
       (filter (λ row, row.2 ∈ map fst (kept_txs st)) (es_persist_log st)) EngineState_new).

Lemma folded_takes st b : row_takes (folded_state st) b = row_takes st b.
Proof.
  apply (reshaped_takes folded_user folded_identity folded_node folded_device_node); try done.
  - intros u. unfold folded_user. by case_decide.
  - by intros [| |[]].
  - by intros [].
Qed.

Lemma folded_state_located st : Located (folded_state st) ∧ stored (folded_state st) = ∅.
Proof.
  assert (∀ id p b, body_at (folded_state st) id p ≠ Some b) as HN.
  { intros id [|u i c|c] b; cbn; [done| |].
    - rewrite (reshaped_row folded_user folded_identity folded_node st) by
        (done || (intros u'; unfold folded_user; by case_decide)).
      destruct (identity_row st u i c) as [[| |[]]|]; done.
    - unfold device_row. cbn. rewrite lookup_fmap. by destruct (_ !! c) as [[]|]. }
  split; [intros id p b Hb; by apply HN in Hb|].
  apply map_eq. intros id. rewrite lookup_empty. apply eq_None_not_Some. intros [b Hb].
  rewrite stored_lookup in Hb by (intros ? p ? Hp; by apply HN in Hp).
  unfold body in Hb. by cbn in Hb.
Qed.

(** * Storing the transactions again *)

(** Changing the value under a key does not show through a map that does not see it. *)
Lemma fmap_alter_same {K V W} `{Countable K} (f : V → W) (h : V → V) (m : gmap K V) k :
  (∀ v, m !! k = Some v → f (h v) = f v) → f <$> alter h k m = f <$> m.
Proof.
  intros HE. apply map_eq. intros k'. rewrite !lookup_fmap. destruct (decide (k' = k)) as [->|Hne].
  - rewrite lookup_alter_eq. destruct (m !! k) as [v|] eqn:E; [|done]. cbn. by rewrite HE.
  - by rewrite lookup_alter_ne.
Qed.

Lemma alter_row_unlogged u i c f st :
  (∀ k, identity_row st u i c = Some k → unlog (f k) = unlog k) →
  unlogged (alter_row u i c f st) = unlogged st.
Proof.
  intros HE. unfold unlogged, alter_row, alter_identity. cbn [es_users es_device with_users with_store].
  rewrite (fmap_alter_same unlog_user); [done|]. intros user Hu. unfold unlog_user. cbn. f_equal.
  apply fmap_alter_same. intros ident Hi. unfold unlog_identity. cbn. f_equal.
  apply fmap_alter_same. intros k Hk. apply HE. unfold identity_row, identity. rewrite Hu. cbn.
  by rewrite Hi.
Qed.

Lemma alter_device_unlogged c f st :
  (∀ k, dv_conversations (es_device st) !! c = Some k → unlog_device (f k) = unlog_device k) →
  unlogged (alter_device_row c f st) = unlogged st.
Proof.
  intros HE. unfold unlogged, alter_device_row.
  cbn [es_users es_device with_device with_store dv_conversations with_dv_conversations].
  by rewrite (fmap_alter_same unlog_device).
Qed.

Lemma write_row_unlogged id b st st' :
  write_row id b st = Some st' →
  unlogged st' = unlogged st ∧ ∃ place, es_tx_place st' = <[id := place]> (es_tx_place st).
Proof.
  unfold write_row. destruct (place_of st _) as [[|u i c|c]|].
  1, 4: destruct (log_insert _ _ _) as [log|]; [|done]; intros [= <-]; split; [done|by eexists].
  - destruct (identity_row st u i c) as [kind|] eqn:Hk; [|done]. cbn.
    destruct (identity_insert id b kind) as [kind'|] eqn:E; [|done]. intros [= <-].
    split; [|by eexists]. change (unlogged (with_tx_place ?p ?s)) with (unlogged s).
    apply alter_row_unlogged. rewrite Hk. intros k [= <-].
    revert E. destruct kind as [p log ch|s p log ch|[live|o|r]]; cbn [identity_insert]; try done;
      destruct (log_insert id b _); cbn; try done; by intros [= <-].
  - unfold device_row. destruct (_ !! c) as [kind|] eqn:Hk; [|done]. cbn.
    destruct (device_insert id b kind) as [kind'|] eqn:E; [|done]. intros [= <-].
    split; [|by eexists]. change (unlogged (with_tx_place ?p ?s)) with (unlogged s).
    apply alter_device_unlogged. rewrite Hk. intros k [= <-].
    revert E. destruct kind; cbn [device_insert]; destruct (log_insert id b _); cbn; try done;
      by intros [= <-].
Qed.

Lemma insert_txs l st :
  Located st → NoDup (map fst l) → Forall (λ tx, es_tx_place st !! tx.1 = None) l →
  Forall (λ tx, row_takes st tx.2 = true) l →
  ∃ st', try_fold insert_tx l st = Ok st' ∧ Located st' ∧ unlogged st' = unlogged st ∧
    stored st' = fold_left (λ m tx, <[tx.1 := tx.2]> m) l (stored st).
Proof.
  revert st. induction l as [|[id b] l IH]; intros st HL HN HP HT; [by exists st|].
  cbn in HN. apply NoDup_cons in HN as [Hni HN]. apply Forall_cons in HP as [HP HPs].
  apply Forall_cons in HT as [HT HTs]. cbn [fst snd] in *.
  pose proof (insert_body_located st id b HL) as HI.
  assert (∃ st1, insert_body id b st = (st1, Ok tt) ∧ unlogged st1 = unlogged st ∧
    ∃ place, es_tx_place st1 = <[id := place]> (es_tx_place st)) as (st1 & E & HU & place & Hp).
  { unfold insert_body. rewrite HP. destruct (write_row id b st) as [st1|] eqn:E.
    - exists st1. split; [done|]. by apply (write_row_unlogged id b).
    - apply write_row_takes with (id := id) in HT as [? HT]. congruence. }
  rewrite E in HI. destruct HI as (HL1 & _ & HS). rewrite HT in HS.
  assert (insert_tx (id, b) st = Ok st1) as HE by (unfold insert_tx; cbn [fst snd]; by rewrite E).
  cbn [try_fold]. rewrite HE, bind_ok.
  destruct (IH st1) as (st' & HR & HL' & HU' & HS'); [done|done| | |].
  - apply Forall_forall. intros tx Htx. rewrite Forall_forall in HPs.
    rewrite Hp, lookup_insert_ne; [by apply HPs|]. intros ->. apply Hni. by apply (list_elem_of_fmap_2 fst).
  - apply Forall_forall. intros tx Htx. rewrite Forall_forall in HTs.
    rewrite <-unlogged_takes, HU, unlogged_takes. by apply HTs.
  - exists st'. split_and!; [done|done|by rewrite HU'|]. by rewrite HS', HS.
Qed.

(** * Reading the snapshot *)

Lemma sublist_fst_NoDup {K V} (l1 l2 : list (K * V)) :
  NoDup (map fst l2) → l1 `sublist_of` l2 → NoDup (map fst l1).
Proof.
  intros HN HS. revert HN. induction HS as [|x l1 l2 HS IH|x l1 l2 HS IH]; cbn; [done| |];
    intros [Hx HN]%NoDup_cons; [|by apply IH]. constructor; [|by apply IH].
  intros (y & Hy & Hin)%list_elem_of_fmap. apply Hx. apply list_elem_of_fmap. exists y.
  split; [done|]. by eapply elem_of_sublist.
Qed.

Lemma list_to_map_filter `{Countable K, !Ord K} {V} (P : K * V → Prop) `{∀ x, Decision (P x)} (m : gmap K V) :
  list_to_map (filter P (entries m)) = filter P m.
Proof.
  rewrite map_filter_alt. apply list_to_map_proper.
  - apply (sublist_fst_NoDup _ (entries m)); [apply entries_keys_NoDup|apply sublist_filter].
  - by rewrite entries_perm.
Qed.

Section Load.
Context `{Suite, !Base64UrlLaws}.

Lemma parse_tx_json tx : parse_tx (tx_json tx) = Ok tx.
Proof.
  unfold parse_tx, tx_json. cbn [fold_object obj]. rewrite bind_ok.
  erewrite (field_lits _ "tx_id") by reflexivity. rewrite bind_ok. cbn [fold_string id_json bstr].
  rewrite bind_ok, b64_decode_encode. cbn [ok_or]. rewrite bind_ok, try_into_cval. cbn [ok_or].
  rewrite bind_ok. erewrite (field_lits _ "body") by reflexivity.
  rewrite bind_ok, durable_body_roundtrip, malformed_ok, bind_ok. by destruct tx as [[] ?].
Qed.

Lemma parse_part_json part acc :
  parse_part (obj [("i", JNumber part.1); ("frag", bstr part.2)]) acc = Ok (<[part.1 := part.2]> acc).
Proof. unfold parse_part. fold_read. done. Qed.

Lemma parse_frag_set_json frag acc :
  parse_frag_set (frag_set_json frag) acc = Ok (<[frag.1 := frag.2]> acc).
Proof.
  unfold parse_frag_set, frag_set_json. cbn [fold_object obj]. rewrite bind_ok.
  erewrite (fold_id_lits _ "tx_id") by reflexivity. rewrite bind_ok.
  erewrite (fold_id_lits _ "conversation_id") by reflexivity. rewrite bind_ok, optional_lits.
  erewrite (field_lits _ "parts") by reflexivity. rewrite bind_ok. cbn [fold_array].
  assert (try_fold parse_part (map (λ part, obj [("i", JNumber part.1); ("frag", bstr part.2)])
    (entries (fs_parts frag.2))) ∅ = Ok (fs_parts frag.2)) as HP.
  { rewrite (try_fold_map _ _ (λ m p, <[p.1 := p.2]> m)) by (intros; apply parse_part_json).
    by rewrite fold_left_entries. }
  destruct frag as [id [cid parts [last|]]]; cbn [assoc String.eqb Ascii.eqb Bool.eqb fst snd fs_parts
    fs_last_i fs_conversation_id or_null from_option] in *; by rewrite !bind_ok, HP, bind_ok.
Qed.

Lemma parse_fold_channel_json ch : parse_fold_channel (durable_json ch) = Ok ch.
Proof.
  unfold parse_fold_channel, durable_json, obj. rewrite bind_ok, !find_key_lits. cbn.
  unfold Kind_try_from, Address_try_from. autorewrite with checked. by destruct ch.
Qed.

Lemma parse_bin_json p acc :
  parse_bin (bin_json p) acc = Ok (<[progress_key (bp_channel p) (bp_tag_key p) := p]> acc).
Proof.
  unfold parse_bin, bin_json. cbn [fold_object obj]. rewrite bind_ok.
  erewrite (field_lits _ "channel") by reflexivity. rewrite bind_ok, parse_fold_channel_json, bind_ok.
  erewrite (fold_id_lits _ "tag_key") by reflexivity. rewrite bind_ok.
  erewrite (field_lits _ "watermark") by reflexivity. rewrite bind_ok.
  assert (match or_null JNumber (bp_watermark p) with
          | JNull => Ok None | JNumber n => Ok (Some n) | _ => Err MalformedPersist end =
          @Ok EngineError _ (bp_watermark p)) as -> by by destruct (bp_watermark p).
  rewrite bind_ok. erewrite (field_lits _ "completed") by reflexivity. rewrite bind_ok.
  cbn [fold_array]. rewrite bind_ok, collect_map by done. rewrite bind_ok, list_to_set_values.
  by destruct p.
Qed.

Lemma parse_log_row_json row acc : parse_log_row (log_json row) acc = Ok (<[row.1 := row.2]> acc).
Proof. unfold parse_log_row, log_json. fold_read. done. Qed.

(** The three maps of a snapshot. *)
Lemma frags_read (frags : gmap Tag FragSet) : try_fold parse_frag_set (map frag_set_json (entries frags)) ∅ = Ok frags.
Proof.
  rewrite (try_fold_map _ _ (λ m p, <[p.1 := p.2]> m)) by (intros; apply parse_frag_set_json).
  by rewrite fold_left_entries.
Qed.

Lemma bins_read (bins : gmap BinKey BinProgress) :
  bins_keyed bins → try_fold parse_bin (map bin_json (values bins)) ∅ = Ok bins.
Proof.
  intros HB. unfold values. rewrite map_map.
  rewrite (try_fold_map _ _ (λ m (p : BinKey * BinProgress), <[p.1 := p.2]> m)).
  - by rewrite fold_left_entries.
  - intros [k p] acc Hin%elem_of_entries. rewrite parse_bin_json. cbn [fst snd].
    by rewrite <-(HB k p Hin).
Qed.

Lemma log_read (log : gmap PersistSeq Tag) (l : list Tag) :
  try_fold parse_log_row (map log_json (filter (λ row, row.2 ∈ l) (entries log))) ∅ =
    Ok (filter (λ row, row.2 ∈ l) log).
Proof.
  rewrite (try_fold_map _ _ (λ m p, <[p.1 := p.2]> m)) by (intros; apply parse_log_row_json).
  rewrite <-list_to_map_filter. f_equal. rewrite fold_left_insert; [by rewrite (right_id_L ∅ (∪))|].
  apply (sublist_fst_NoDup _ (entries log)); [apply entries_keys_NoDup|apply sublist_filter].
Qed.

(** Loading the JSON of a snapshot stores the kept transactions in the folded state. *)
Lemma load_snapshot_json st :
  loadable_users (es_users st) → loadable_device (es_device st) → bins_keyed (es_bin_progress st) →
  load_snapshot (snapshot_json st) = try_fold insert_tx (kept_txs st) (folded_state st).
Proof.
  intros HU HD HB. unfold load_snapshot, snapshot_json. cbn [fold_object obj]. rewrite bind_ok.
  erewrite (field_lits _ "next_seq") by reflexivity. rewrite bind_ok. cbn [fold_number]. rewrite bind_ok.
  rewrite (optional_lits _ "ticked"). cbn [assoc String.eqb Ascii.eqb Bool.eqb].
  assert (match or_null JNumber (es_ticked st) with
          | JNull => Ok None | JNumber n => Ok (Some n) | _ => Err MalformedPersist end =
          @Ok EngineError _ (es_ticked st)) as HT by by destruct (es_ticked st).
  rewrite HT, bind_ok. unfold pending_txs. rewrite (optional_lits _ "txs").
  cbn [assoc String.eqb Ascii.eqb Bool.eqb].
  rewrite collect_map by (intros; apply parse_tx_json). rewrite bind_ok.
  erewrite (optional_array_lits _ "frags") by reflexivity. rewrite bind_ok, frags_read, bind_ok.
  erewrite (optional_array_lits _ "bins") by reflexivity. rewrite bind_ok, bins_read, bind_ok by done.
  erewrite (optional_array_lits _ "persist_log") by reflexivity. rewrite bind_ok, log_read, bind_ok.
  unfold banned. cbn [existsb]. rewrite !optional_lits. cbn [assoc String.eqb Ascii.eqb Bool.eqb].
  rewrite !(bool_decide_eq_false_2 (is_Some None)) by (by intros []). cbn [orb refuse_if].
  rewrite bind_ok. cbn [install]. rewrite install_users_json by done. rewrite bind_ok.
  rewrite install_device_json by done. by rewrite bind_ok.
Qed.

End Load.

(** * Folding and loading *)

Lemma unlog_folded node : unlog (folded_node node) = folded_node node.
Proof. by destruct node as [| |[]]. Qed.

Lemma fmap_fixed {K V} `{Countable K} (f g : V → V) (m : gmap K V) :
  (∀ v, f (g v) = g v) → f <$> (g <$> m) = g <$> m.
Proof. intros HE. rewrite <-map_fmap_compose. apply map_fmap_ext. intros k v _. apply HE. Qed.

Lemma unlogged_folded st : unlogged (folded_state st) = folded_state st.
Proof.
  unfold unlogged, folded_state, with_store. cbn. f_equal.
  - apply map_eq. intros k. unfold folded_users. rewrite lookup_fmap, lookup_omap.
    destruct (es_users st !! k) as [u|]; [|done]. cbn. case_decide; [done|]. cbn. do 2 f_equal.
    unfold unlog_user. cbn. f_equal. apply fmap_fixed. intros i. unfold unlog_identity, folded_identity.
    cbn. f_equal. apply fmap_fixed, unlog_folded.
  - unfold folded_device, with_dv_conversations. cbn. f_equal. apply fmap_fixed. by intros [].
Qed.

Lemma kept_txs_map st : Located st →
  fold_left (λ m tx, <[tx.1 := tx.2]> m) (kept_txs st) ∅ = filter (λ tx, folds_tx st tx = true) (stored st).
Proof.
  intros HL. unfold kept_txs, body_pairs. rewrite <-list_to_map_filter, fold_left_insert.
  - by rewrite (right_id_L ∅ (∪)).
  - apply (sublist_fst_NoDup _ (entries (stored st))); [apply entries_keys_NoDup|apply sublist_filter].
Qed.

Section Roundtrip.
Context `{Suite, !Base64UrlLaws, !AeadLaws, !CanonicalJsonLaws, !CompressLaws}.

Lemma open_sealed_snapshot dek seq canonical :
  (N.of_nat (length canonical) ≤ PERSIST_MAX_UNCOMPRESSED)%N →
  open_snapshot dek (sealed_record dek (record_nonce FOLD_VERSION seq) (compress canonical)) =
    ok_or MalformedPersist (json_decode canonical).
Proof.
  intros HL. unfold open_snapshot, sealed_record. rewrite length_app, arr_length.
  rewrite bool_decide_eq_false_2 by lia. cbn [refuse_if]. rewrite bind_ok.
  rewrite take_app_length', drop_app_length' by (by rewrite arr_length).
  rewrite try_into_cval. cbn [ok_or]. rewrite bind_ok.
  assert (be_val (take 4 (cval (record_nonce FOLD_VERSION seq))) = FOLD_VERSION) as ->.
  { unfold record_nonce. cbn [cval]. rewrite take_app_length' by (by rewrite be_bytes_length).
    by rewrite be_val_bytes. }
  rewrite N.eqb_refl. cbn [negb refuse_if]. rewrite bind_ok, aead_open_seal. cbn [ok_or].
  rewrite bind_ok, decompress_compress by done. by rewrite malformed_ok, bind_ok.
Qed.

(** C6. A snapshot loads back.  Folding changes nothing and numbers the snapshot with the
    next sequence number; loading what it sealed, under the same key, succeeds and gives a
    state in which exactly the watermarked, unexpired transactions are stored, and which
    apart from them is the folded state: the same clock, sequence number, half-received
    fragments and listing progress, the log of the kept transactions, and every identity
    and conversation with its secrets, chains and ratchet.  It asks that the stored bodies
    still fit the rows of their conversations, that progress is filed under its own key,
    and that no chain belongs to an empty signing key and no ticket lists no channel. *)
Theorem fold_loads en st ok :
  Located st → loadable_users (es_users st) → loadable_device (es_device st) →
  bins_keyed (es_bin_progress st) → Forall (λ tx, row_takes st tx.2 = true) (kept_txs st) →
  fold en st = Ok ok →
  fo_state ok = st ∧ fo_seq ok = es_next_seq st ∧
  ∃ st', apply_folded en (fo_snapshot ok) = Ok st' ∧ Located st' ∧
    stored st' = filter (λ tx, folds_tx st tx = true) (stored st) ∧
    unlogged st' = folded_state st.
Proof.
  intros HL HU HD HB HT. unfold fold. destruct (en_dek en) as [dek|] eqn:Hd; unfold require_dek;
    rewrite Hd; [|done]. cbn [ok_or]. rewrite bind_ok.
  destruct (_ =? _)%N; [done|]. cbn [refuse_if]. rewrite bind_ok.
  destruct (persist_outside_watermark st); [done|]. cbn [refuse_if]. rewrite bind_ok.
  destruct (_ <=? _)%N eqn:Hl; [|done]. cbn [negb refuse_if]. rewrite bind_ok. intros [= <-].
  split_and!; [done|done|]. cbn [fo_snapshot]. unfold apply_folded, require_dek. rewrite Hd. cbn [ok_or].
  rewrite bind_ok, open_sealed_snapshot by by apply N.leb_le.
  destruct (json_decode_encode (snapshot_json st) (snapshot_nodup st)) as (w & -> & HE).
  cbn [ok_or]. rewrite bind_ok, <-(load_snapshot_proper _ _ HE), load_snapshot_json by done.
  destruct (folded_state_located st) as [HL0 HS0].
  destruct (insert_txs (kept_txs st) (folded_state st)) as (st' & HR & HL' & HU' & HS').
  - done.
  - apply (sublist_fst_NoDup _ (entries (stored st))); [apply entries_keys_NoDup|apply sublist_filter].
  - by apply Forall_forall.
  - eapply Forall_impl; [exact HT|]. intros tx. by rewrite folded_takes.
  - exists st'. split_and!; [done|done| |by rewrite HU', unlogged_folded].
    by rewrite HS', HS0, kept_txs_map.
Qed.

End Roundtrip.

(** * The sample device *)

Lemma is_ok_inv {E A} (r : result E A) : is_ok r = true → ∃ a, r = Ok a.
Proof. destruct r as [a|e]; [eauto|done]. Qed.

Lemma chat_loadable :
  loadable_users (es_users chat_state) ∧ loadable_device (es_device chat_state) ∧
  bins_keyed (es_bin_progress chat_state) ∧
  Forall (λ tx, row_takes chat_state tx.2 = true) (kept_txs chat_state).
Proof.
  split_and!.
  - apply (bool_decide_unpack _). by vm_compute.
  - apply (bool_decide_unpack _). by vm_compute.
  - by apply map_Forall_empty.
  - apply (bool_decide_unpack _). by vm_compute.
Qed.

Lemma chat_folds : ∃ ok, fold chat_engine chat_state = Ok ok.
Proof. apply is_ok_inv. by vm_compute. Qed.

Lemma chat_kept : size (filter (λ tx, folds_tx chat_state tx = true) (stored chat_state)) = 5%nat.
Proof. by vm_compute. Qed.

Lemma fold_loads_witness :
  ∃ ok st', fold chat_engine chat_state = Ok ok ∧
    apply_folded chat_engine (fo_snapshot ok) = Ok st' ∧ size (stored st') = 5%nat.
Proof.
  destruct chat_folds as [ok HF]. destruct chat_loadable as (HU & HD & HB & HT).
  destruct (fold_loads chat_engine chat_state ok located_chat HU HD HB HT HF)
    as (_ & _ & st' & HA & _ & HS & _).
  exists ok, st'. repeat split; [exact HF|exact HA|]. rewrite HS. exact chat_kept.
Defined.
