(* ===== verification/Adapters.v ===== *)
(** The shipped adapters: the ports of [Ports.v] over third-party crates
    ([chuchotez-adapters]: [aead.rs], [argon.rs], [b64u.rs], [compress.rs], [hash.rs],
    [hmac.rs], [kem.rs], [sign.rs], [v1.rs]; the JSON adapter is in [CanonicalJson.v]).

    The crates are type classes of parameters; what their documentation says of them is a
    law class each.  The adapters choose algorithms and seeds by policy, join and split
    keys, signatures and ciphertexts, and cap what a stream may inflate to; with the laws
    of the crates they keep the laws of the ports, that of the AEAD for texts within the
    length limit of AES-GCM. *)

From stdpp Require Import base tactics list numbers option strings countable gmap.
From Stdlib Require Import Strings.Byte.
From S2P Require Import Prelude Text Ids Defaults Payload Json Ports CanonicalJson TestDoubles Engine.

(** * The crates *)

Class LibcruxSha : Set := {
  hmac_sha2_256 : arr 32 → bytes → arr 32;
  sha2_256 : bytes → arr 32
}.

(** [libcrux_aes]: [encrypt] gives the ciphertext and the tag.  [aes_takes] is the length
    limit of the algorithm on the associated data and the text. *)
Class LibcruxAes : Set := {
  aes_takes : bytes → bytes → bool;
  aes_encrypt : arr 32 → arr 12 → bytes → bytes → option (bytes * arr 16);
  aes_decrypt : arr 32 → arr 12 → bytes → bytes → arr 16 → option bytes
}.

Class Base64Crate : Set := {
  encode_string : bytes → str;
  decode_vec : str → option bytes
}.

(** [flate2]: the deflated bytes; and the blocks that inflating hands to its writer in
    order, with whether the stream ends well when the writer takes every block. *)
Class Flate2 : Set := {
  deflate_best : bytes → bytes;
  inflate : bytes → list bytes * bool
}.

(** [argon2]: the parameters, and the hash into 32 bytes. *)
Class Argon2Crate : Type := {
  argon2_params : Set;
  params_new : u32 → u32 → u32 → option argon2_params;
  hash_password_into : argon2_params → bytes → arr 16 → option (arr 32)
}.

Inductive Algorithm : Set := X25519 | MlKem768 | XWingKemDraft06.

(** [libcrux_kem]. *)
Class LibcruxKemCrate : Type := {
  kc_private : Set; kc_public : Set; kc_ct : Set; kc_ss : Set;
  key_gen_derand : Algorithm → bytes → option (kc_private * kc_public);
  public_decode : Algorithm → bytes → option kc_public;
  public_encode : kc_public → bytes;
  private_decode : Algorithm → bytes → option kc_private;
  private_encode : kc_private → bytes;
  ct_decode : Algorithm → bytes → option kc_ct;
  ct_encode : kc_ct → bytes;
  ss_encode : kc_ss → bytes;
  encapsulate_derand : kc_public → bytes → option (kc_ss * kc_ct);
  decapsulate : kc_ct → kc_private → option kc_ss
}.

Definition SEED_32 : nat := 32.
Definition CLASSIC_SIG : nat := 64.
Definition PQ_SIG : nat := 3309.
Definition PQ_SK : nat := 4032.
Definition PQ_PK : nat := 1952.

Class LibcruxEd25519 : Set := {
  secret_to_public : arr SEED_32 → arr SEED_32;
  ed25519_sign : bytes → arr SEED_32 → option (arr CLASSIC_SIG);
  ed25519_verify : bytes → arr SEED_32 → arr CLASSIC_SIG → bool
}.

(** [ml_dsa_65]: a key pair is the verification key and the signing key. *)
Class LibcruxMlDsa : Set := {
  mldsa_generate : arr SEED_32 → arr PQ_PK * arr PQ_SK;
  mldsa_sign : arr PQ_SK → bytes → bytes → arr 32 → option (arr PQ_SIG);
  mldsa_verify : arr PQ_PK → bytes → bytes → arr PQ_SIG → bool
}.

(** * Laws of the crates *)

(** Within the length limit AES-256-GCM takes a text, keeps its length, and decrypts what it
    encrypted. *)
Class LibcruxAesLaws `{LibcruxAes} : Prop :=
  aes_encrypts : ∀ k n aad pt, aes_takes aad pt = true →
    ∃ ct tag, aes_encrypt k n aad pt = Some (ct, tag) ∧
      length ct = length pt ∧ aes_decrypt k n aad ct tag = Some pt.

Class Base64CrateLaws `{Base64Crate} : Prop :=
  decode_encode_string : ∀ bs, decode_vec (encode_string bs) = Some bs.

(** A deflated stream inflates to what was deflated. *)
Class Flate2Laws `{Flate2} : Prop :=
  inflate_deflate : ∀ bs, ∃ blocks, inflate (deflate_best bs) = (blocks, true) ∧ concat blocks = bs.

Definition alg_ct_len (a : Algorithm) : nat :=
  match a with X25519 => 32 | MlKem768 => 1088 | XWingKemDraft06 => 1120 end.

(** Encoded keys and ciphertexts decode under the same algorithm; a secret encapsulated to
    a generated key decapsulates with its private half; sizes are the algorithm's. *)
Class LibcruxKemLaws `{LibcruxKemCrate} : Prop := {
  decode_generated : ∀ a seed sk pk, key_gen_derand a seed = Some (sk, pk) →
    private_decode a (private_encode sk) = Some sk ∧ public_decode a (public_encode pk) = Some pk;
  ct_decode_encode : ∀ a bs pk seed ss ct, public_decode a bs = Some pk →
    encapsulate_derand pk seed = Some (ss, ct) → ct_decode a (ct_encode ct) = Some ct;
  decapsulate_encapsulated : ∀ a seed sk pk seed' ss ct, key_gen_derand a seed = Some (sk, pk) →
    encapsulate_derand pk seed' = Some (ss, ct) → decapsulate ct sk = Some ss;
  encapsulated_lengths : ∀ a bs pk seed ss ct, public_decode a bs = Some pk →
    encapsulate_derand pk seed = Some (ss, ct) →
    length (ss_encode ss) = 32%nat ∧ length (ct_encode ct) = alg_ct_len a
}.

Class LibcruxEd25519Laws `{LibcruxEd25519} : Prop :=
  ed25519_verify_sign : ∀ sk msg sig, ed25519_sign msg sk = Some sig →
    ed25519_verify msg (secret_to_public sk) sig = true.

Class LibcruxMlDsaLaws `{LibcruxMlDsa} : Prop :=
  mldsa_verify_sign : ∀ seed msg ctx rnd sig,
    mldsa_sign (mldsa_generate seed).2 msg ctx rnd = Some sig →
    mldsa_verify (mldsa_generate seed).1 msg ctx sig = true.

(** All the crates of the suite. *)
Class Crates : Type := {
  #[global] crate_sha :: LibcruxSha;
  #[global] crate_aes :: LibcruxAes;
  #[global] crate_b64 :: Base64Crate;
  #[global] crate_flate :: Flate2;
  #[global] crate_argon :: Argon2Crate;
  #[global] crate_kem :: LibcruxKemCrate;
  #[global] crate_ed25519 :: LibcruxEd25519;
  #[global] crate_mldsa :: LibcruxMlDsa
}.

Class CratesLaws `{Crates} : Prop := {
  #[global] crate_aes_laws :: LibcruxAesLaws;
  #[global] crate_b64_laws :: Base64CrateLaws;
  #[global] crate_flate_laws :: Flate2Laws;
  #[global] crate_kem_laws :: LibcruxKemLaws;
  #[global] crate_ed25519_laws :: LibcruxEd25519Laws;
  #[global] crate_mldsa_laws :: LibcruxMlDsaLaws
}.

(** * Hashes, base64url and Argon2id *)

Definition LibcruxHmac `{LibcruxSha} : HmacSha256 :=
  λ key data, from_bytes (hmac_sha2_256 (as_bytes key) data).

Definition LibcruxSha256 `{LibcruxSha} : Sha256 := λ data, sha2_256 data.

Definition Base64Ct `{Base64Crate} : Base64Url :=
  {| b64_encode := encode_string; b64_decode := decode_vec |}.

Definition RustcryptoArgon2id `{Argon2Crate} : Argon2id := λ passphrase salt m t p,
  params ← params_new m t p; hash_password_into params passphrase salt.

(** * AES-256-GCM *)

Definition TAG_LEN : nat := 16.

Section Aes.
Context `{LibcruxAes}.

(** [None] where the [expect] would panic. *)
Definition AesGcm_seal (key : AeadKey) (nonce : arr 12) (aad plaintext : bytes) : option bytes :=
  '(ct, tag) ← aes_encrypt (as_bytes key) nonce aad plaintext;
  Some (ct ++ cval tag).

Definition AesGcm_open (key : AeadKey) (nonce : arr 12) (aad ciphertext : bytes) : option bytes :=
  if (length ciphertext <? TAG_LEN)%nat then None
  else
    let n := (length ciphertext - TAG_LEN)%nat in
    tag ← try_into 16 (drop n ciphertext);
    aes_decrypt (as_bytes key) nonce aad (take n ciphertext) tag.

(** The port has no panic to give; [seal_within_limit] shows it needs none within the length
    limit of the algorithm. *)
Definition AesGcm : Aead :=
  {| aead_seal key nonce aad plaintext := default [] (AesGcm_seal key nonce aad plaintext);
     aead_open := AesGcm_open |}.

End Aes.

(** * Deflate *)

(** [usize::MAX]. *)
Definition usize_max : N := 2 ^ 64 - 1.

(** A writer that fails closed when its output would exceed [max]. *)
Record Capped : Set := mkCapped { cp_buf : bytes; cp_max : N; cp_oversize : bool }.

Definition Capped_new (max : N) : Capped := mkCapped [] max false.

(** [false] for the error. *)
Definition capped_write (buf : bytes) (c : Capped) : Capped * bool :=
  if (cp_max c <? N.min (N.of_nat (length (cp_buf c)) + N.of_nat (length buf)) usize_max)%N
  then (mkCapped (cp_buf c) (cp_max c) true, false)
  else (mkCapped (cp_buf c ++ buf) (cp_max c) (cp_oversize c), true).

(** The decoder hands over its blocks until one is refused. *)
Fixpoint write_blocks (blocks : list bytes) (c : Capped) : Capped :=
  match blocks with
  | [] => c
  | block :: blocks =>
      let '(c, taken) := capped_write block c in
      if taken : bool then write_blocks blocks c else c
  end.

Definition Deflate_decompress `{Flate2} (src : bytes) (max_uncompressed : N) :
    result CompressError bytes :=
  let '(blocks, ended) := inflate src in
  let capped := write_blocks blocks (Capped_new max_uncompressed) in
  if cp_oversize capped then Err Compress_Oversize
  else if ended : bool then Ok (cp_buf capped) else Err Compress_Codec.

Definition Deflate `{Flate2} : Compress :=
  {| compress := deflate_best; decompress := Deflate_decompress |}.

(** * Key encapsulation *)

Definition alg (policy : Policy) : Algorithm :=
  match policy with Classic => X25519 | PostQuantum => MlKem768 | Hybrid => XWingKemDraft06 end.

Definition wrap_seed (policy : Policy) (seed : arr 64) : bytes :=
  match policy with
  | Classic | PostQuantum => take SEED_32 (cval seed)
  | Hybrid => cval seed
  end.

Section Kem.
Context `{LibcruxKemCrate}.

Definition LibcruxKem_generate (policy : Policy) (seed : arr 64) : option KeyPair :=
  let slice := match policy with
               | Classic | Hybrid => take SEED_32 (cval seed)
               | PostQuantum => cval seed
               end in
  '(sk, pk) ← key_gen_derand (alg policy) slice;
  Some (KeyPair_from_parts (public_encode pk) (private_encode sk)).

Definition LibcruxKem_wrap (policy : Policy) (pk : bytes) (seed : arr 64) :
    option (bytes * bytes) :=
  public ← public_decode (alg policy) pk;
  '(ss, ct) ← encapsulate_derand public (wrap_seed policy seed);
  Some (ss_encode ss, ct_encode ct).

Definition LibcruxKem_unwrap (policy : Policy) (sk kem_ct : bytes) : option bytes :=
  secret ← private_decode (alg policy) sk;
  ct ← ct_decode (alg policy) kem_ct;
  ss_encode <$> decapsulate ct secret.

Definition LibcruxKem : Kem :=
  {| kem_generate := LibcruxKem_generate; kem_wrap := LibcruxKem_wrap;
     kem_unwrap := LibcruxKem_unwrap |}.

End Kem.

(** * Signatures *)

(** [first] and [second] of [generate]: the halves of the seed. *)
Definition seed_first (seed : arr 64) : arr SEED_32 :=
  default (fill SEED_32 x00) (try_into SEED_32 (take SEED_32 (cval seed))).
Definition seed_second (seed : arr 64) : arr SEED_32 :=
  default (fill SEED_32 x00) (try_into SEED_32 (drop SEED_32 (cval seed))).

Section Sign.
Context `{LibcruxEd25519, LibcruxMlDsa}.

Definition classic_from_seed (seed32 : arr SEED_32) : SigningKeyPair :=
  SigningKeyPair_from_parts (cval (secret_to_public seed32)) (cval seed32).

Definition pq_from_seed (seed32 : arr SEED_32) : SigningKeyPair :=
  let '(verification_key, signing_key) := mldsa_generate seed32 in
  SigningKeyPair_from_parts (cval verification_key) (cval signing_key).

Definition LibcruxSign_generate (policy : Policy) (seed : arr 64) : option SigningKeyPair :=
  match policy with
  | Classic => Some (classic_from_seed (seed_first seed))
  | PostQuantum => Some (pq_from_seed (seed_first seed))
  | Hybrid =>
      let classic := classic_from_seed (seed_first seed) in
      let pq := pq_from_seed (seed_second seed) in
      Some (SigningKeyPair_from_parts (skp_public classic ++ skp_public pq)
              (skp_secret classic ++ skp_secret pq))
  end.

(** The arms of [sign] and [verify] that the hybrid arm calls. *)
Definition sign_classic (sk message : bytes) : option bytes :=
  sk ← try_into SEED_32 sk; sig ← ed25519_sign message sk; Some (cval sig).

Definition sign_pq (sk message : bytes) (seed : Random32) : option bytes :=
  key ← try_into PQ_SK sk; sig ← mldsa_sign key message [] (as_bytes seed); Some (cval sig).

Definition LibcruxSign_sign (policy : Policy) (sk message : bytes) (seed : Random32) :
    option bytes :=
  match policy with
  | Classic => sign_classic sk message
  | PostQuantum => sign_pq sk message seed
  | Hybrid =>
      if negb (Nat.eqb (length sk) (32 + PQ_SK)) then None
      else
        classic ← sign_classic (take 32 sk) message;
        pq ← sign_pq (drop 32 sk) message seed;
        Some (classic ++ pq)
  end.

Definition verify_classic (pk message sig : bytes) : bool :=
  match try_into SEED_32 pk, try_into CLASSIC_SIG sig with
  | Some pk, Some sig => ed25519_verify message pk sig
  | _, _ => false
  end.

Definition verify_pq (pk message sig : bytes) : bool :=
  match try_into PQ_PK pk, try_into PQ_SIG sig with
  | Some pk, Some sig => mldsa_verify pk message [] sig
  | _, _ => false
  end.

Definition LibcruxSign_verify (policy : Policy) (pk message sig : bytes) : bool :=
  match policy with
  | Classic => verify_classic pk message sig
  | PostQuantum => verify_pq pk message sig
  | Hybrid =>
      Nat.eqb (length pk) (32 + PQ_PK) && Nat.eqb (length sig) (CLASSIC_SIG + PQ_SIG)
      && verify_classic (take 32 pk) message (take CLASSIC_SIG sig)
      && verify_pq (drop 32 pk) message (drop CLASSIC_SIG sig)
  end.

Definition LibcruxSign : Sign :=
  {| sign_generate := LibcruxSign_generate; sign_sign := LibcruxSign_sign;
     sign_verify := LibcruxSign_verify |}.

End Sign.

(** * The default suite and engine *)

Definition std_suite `{Crates} : Suite := {|
  suite_hmac := LibcruxHmac; suite_compress := Deflate; suite_b64u := Base64Ct;
  suite_aead := AesGcm; suite_json := Rfc8785; suite_kem := LibcruxKem;
  suite_sign := LibcruxSign; suite_hash := LibcruxSha256; suite_argon := RustcryptoArgon2id
|}.

(** The suite of an engine is in its context ([Engine.v]). *)
Definition std_engine (defaults : Defaults) : Engine := Engine_new defaults.

(** * The cap *)

(** Up to the cap the blocks are gathered. *)
Lemma write_blocks_fit blocks buf max over :
  (N.of_nat (length (buf ++ concat blocks)) <= max)%N →
  write_blocks blocks (mkCapped buf max over) = mkCapped (buf ++ concat blocks) max over.
Proof.
  revert buf. induction blocks as [|block blocks IH]; intros buf; cbn [concat write_blocks].
  { by rewrite app_nil_r. }
  rewrite app_assoc. intros Hle. unfold capped_write. cbn [cp_buf cp_max cp_oversize].
  rewrite (proj2 (N.ltb_ge _ _)); [by apply IH|]. rewrite !length_app in Hle. lia.
Qed.

(** Past it the writer has failed, wherever the blocks are cut. *)
Lemma write_blocks_over blocks buf max :
  (max < usize_max)%N → (N.of_nat (length buf) <= max)%N →
  (max < N.of_nat (length (buf ++ concat blocks)))%N →
  cp_oversize (write_blocks blocks (mkCapped buf max false)) = true.
Proof.
  intros Hmax. revert buf. induction blocks as [|block blocks IH]; intros buf Hbuf; cbn [concat].
  { rewrite app_nil_r. lia. }
  rewrite app_assoc. intros Hover. cbn [write_blocks]. unfold capped_write.
  cbn [cp_buf cp_max cp_oversize]. destruct (N.ltb_spec max
    (N.min (N.of_nat (length buf) + N.of_nat (length block)) usize_max)); [done|].
  apply IH; [rewrite length_app; lia|done].
Qed.

(** What [decompress] gives, in terms of the whole output: how the decoder cuts it into
    blocks does not matter. *)
Lemma decompress_whole `{Flate2} src max :
  (max < usize_max)%N →
  Deflate_decompress src max =
    let '(blocks, ended) := inflate src in
    if (max <? N.of_nat (length (concat blocks)))%N then Err Compress_Oversize
    else if ended : bool then Ok (concat blocks) else Err Compress_Codec.
Proof.
  intros Hmax. unfold Deflate_decompress, Capped_new. destruct (inflate src) as [blocks ended].
  destruct (N.ltb_spec max (N.of_nat (length (concat blocks)))).
  - by rewrite write_blocks_over by (cbn; lia || done).
  - by rewrite write_blocks_fit.
Qed.

(** * Laws *)

Lemma Deflate_fit `{Flate2} src max blocks :
  inflate src = (blocks, true) → (N.of_nat (length (concat blocks)) <= max)%N →
  Deflate_decompress src max = Ok (concat blocks).
Proof. intros Hin Hle. unfold Deflate_decompress, Capped_new. by rewrite Hin, write_blocks_fit. Qed.

#[export] Instance Deflate_lawful `{Flate2Laws} : @CompressLaws Deflate.
Proof.
  intros bs max Hle. destruct (inflate_deflate bs) as (blocks & Hin & <-). by apply Deflate_fit.
Qed.

(** Within the length limit sealing does not panic, adds sixteen bytes, and opens. *)
Lemma seal_within_limit `{LibcruxAesLaws} key nonce aad plaintext :
  aes_takes aad plaintext = true →
  ∃ body, AesGcm_seal key nonce aad plaintext = Some body ∧
    length body = (length plaintext + 16)%nat ∧ AesGcm_open key nonce aad body = Some plaintext.
Proof.
  intros HT. destruct (aes_encrypts (as_bytes key) nonce aad plaintext HT) as (ct & tag & HE & HL & HD).
  exists (ct ++ cval tag). unfold AesGcm_seal, AesGcm_open, TAG_LEN. rewrite HE, length_app, arr_length.
  split_and!; [done|by rewrite HL|].
  replace (length ct + 16 - 16)%nat with (length ct) by lia.
  rewrite (proj2 (Nat.ltb_ge _ _)) by lia.
  rewrite drop_app_length, take_app_length, try_into_cval. exact HD.
Qed.

(** The law of the port, for a crate without a limit. *)
Lemma AesGcm_lawful `{LibcruxAesLaws} :
  (∀ aad plaintext, aes_takes aad plaintext = true) → @AeadLaws AesGcm.
Proof.
  intros HT. split; intros k n aad pt; cbn [aead_open aead_seal AesGcm];
    by destruct (seal_within_limit k n aad pt (HT aad pt)) as (body & -> & HL & HO).
Qed.

#[export] Instance LibcruxKem_lawful `{LibcruxKemLaws} : @KemLaws LibcruxKem.
Proof.
  split.
  - intros policy s kp seed shared ct. cbn [kem_generate kem_wrap kem_unwrap LibcruxKem].
    unfold LibcruxKem_generate, LibcruxKem_wrap, LibcruxKem_unwrap.
    destruct (key_gen_derand (alg policy) _) as [[sk pk]|] eqn:HG; [|done]. cbn. intros [= <-].
    cbn [kp_public kp_secret]. destruct (decode_generated _ _ _ _ HG) as [Hsk Hpk].
    rewrite Hsk, Hpk. cbn.
    destruct (encapsulate_derand pk _) as [[ss c]|] eqn:HE; [|done]. cbn. intros [= <- <-].
    rewrite (ct_decode_encode _ _ _ _ _ _ Hpk HE). cbn.
    by rewrite (decapsulate_encapsulated _ _ _ _ _ _ _ HG HE).
  - intros policy bs seed shared ct. cbn [kem_wrap LibcruxKem]. unfold LibcruxKem_wrap.
    destruct (public_decode _ bs) as [pk|] eqn:HP; [|done]. cbn.
    destruct (encapsulate_derand pk _) as [[ss c]|] eqn:HE; [|done]. cbn. intros [= <- <-].
    destruct (encapsulated_lengths _ _ _ _ _ _ HP HE) as [HS HC]. split; [done|].
    rewrite HC. by destruct policy.
Qed.

Section SignLaws.
Context `{LibcruxEd25519Laws, LibcruxMlDsaLaws}.

Lemma classic_verifies s msg sig :
  sign_classic (cval s) msg = Some sig →
  verify_classic (cval (secret_to_public s)) msg sig = true ∧ length sig = CLASSIC_SIG.
Proof.
  unfold sign_classic, verify_classic. rewrite try_into_cval. cbn [mbind option_bind].
  destruct (ed25519_sign msg s) as [sg|] eqn:HS; [|done]. intros [= <-].
  rewrite !try_into_cval. split; [by apply ed25519_verify_sign|apply arr_length].
Qed.

Lemma pq_verifies s msg rnd sig :
  sign_pq (cval (mldsa_generate s).2) msg rnd = Some sig →
  verify_pq (cval (mldsa_generate s).1) msg sig = true ∧ length sig = PQ_SIG.
Proof.
  unfold sign_pq, verify_pq. rewrite try_into_cval. cbn [mbind option_bind].
  destruct (mldsa_sign _ msg [] _) as [sg|] eqn:HS; [|done]. intros [= <-].
  rewrite !try_into_cval. split; [by eapply mldsa_verify_sign|apply arr_length].
Qed.

(** A signature of either kind has its length, whatever the key. *)
Lemma sign_lengths policy sk msg rnd sig :
  LibcruxSign_sign policy sk msg rnd = Some sig → length sig = sign_sig_len policy.
Proof.
  assert (∀ sk sig, sign_classic sk msg = Some sig → length sig = 64%nat) as HC.
  { intros k sg. unfold sign_classic. destruct (try_into _ k); [|done]. cbn [mbind option_bind].
    destruct (ed25519_sign _ _); [|done]. intros [= <-]. apply arr_length. }
  assert (∀ sk sig, sign_pq sk msg rnd = Some sig → length sig = 3309%nat) as HP.
  { intros k sg. unfold sign_pq. destruct (try_into _ k); [|done]. cbn [mbind option_bind].
    destruct (mldsa_sign _ _ _ _); [|done]. intros [= <-]. apply arr_length. }
  destruct policy; cbn [LibcruxSign_sign]; [apply HC|apply HP|].
  destruct (negb _); [done|].
  destruct (sign_classic _ msg) as [c|] eqn:EC; [|done]. cbn [mbind option_bind].
  destruct (sign_pq _ msg rnd) as [q|] eqn:EQ; [|done]. intros [= <-].
  rewrite length_app, (HC _ _ EC), (HP _ _ EQ). done.
Qed.

Lemma pq_pair s :
  pq_from_seed s = SigningKeyPair_from_parts (cval (mldsa_generate s).1) (cval (mldsa_generate s).2).
Proof. unfold pq_from_seed. by destruct (mldsa_generate s). Qed.

Lemma generate_lengths policy s kp :
  LibcruxSign_generate policy s = Some kp → length (skp_public kp) = sign_pk_len policy.
Proof.
  unfold LibcruxSign_generate. rewrite !pq_pair. destruct policy; intros [= <-]; cbn [skp_public classic_from_seed].
  - apply arr_length.
  - apply arr_length.
  - rewrite length_app. by do 2 rewrite arr_length.
Qed.

(** Both halves of a hybrid signature verify where it is checked. *)
#[export] Instance LibcruxSign_lawful : @SignLaws LibcruxSign.
Proof.
  intros policy s kp msg rnd sig. cbn [sign_generate sign_sign sign_verify LibcruxSign].
  unfold LibcruxSign_generate. rewrite !pq_pair.
  destruct policy; intros [= <-]; cbn [LibcruxSign_sign LibcruxSign_verify skp_public skp_secret
    classic_from_seed].
  - intros HS. by apply classic_verifies.
  - intros HS. by apply pq_verifies in HS as [HS _].
  - rewrite !length_app, !arr_length, Nat.eqb_refl. cbn [negb].
    rewrite (take_app_length' (cval (seed_first s))) by by rewrite arr_length.
    rewrite (drop_app_length' (cval (seed_first s))) by by rewrite arr_length.
    destruct (sign_classic _ msg) as [c|] eqn:EC; [|done]. cbn [mbind option_bind].
    destruct (sign_pq _ msg rnd) as [q|] eqn:EQ; [|done]. intros [= <-].
    apply classic_verifies in EC as [EC LC]. apply pq_verifies in EQ as [EQ LQ].
    rewrite (take_app_length' c), (drop_app_length' c) by done.
    rewrite take_app_length', drop_app_length' by by rewrite arr_length.
    rewrite length_app, LC, LQ, EC, EQ. by rewrite !Nat.eqb_refl.
Qed.

(** A hybrid key accepts only what both of its halves accept. *)
Lemma hybrid_needs_both pk msg sig :
  LibcruxSign_verify Hybrid pk msg sig = true →
  LibcruxSign_verify Classic (take 32 pk) msg (take CLASSIC_SIG sig) = true ∧
  LibcruxSign_verify PostQuantum (drop 32 pk) msg (drop CLASSIC_SIG sig) = true.
Proof. cbn [LibcruxSign_verify]. rewrite !andb_true_iff. tauto. Qed.

End SignLaws.

(** C21. The shipped suite keeps the promises of the ports, given what the crates document:
    signatures, encapsulated secrets, encoded and compressed texts come back under every
    policy; a text within the length limit of AES-GCM seals without a panic into sixteen more
    bytes and opens again; keys and signatures have the sizes the policy says; and a hybrid
    signature is accepted only where both of its halves are. *)
Theorem std_suite_lawful `{CratesLaws} :
  @Base64UrlLaws (@suite_b64u std_suite) ∧
  (∀ key nonce aad plaintext, aes_takes aad plaintext = true →
     ∃ body, AesGcm_seal key nonce aad plaintext = Some body ∧
       @aead_seal (@suite_aead std_suite) key nonce aad plaintext = body ∧
       length body = (length plaintext + 16)%nat ∧
       @aead_open (@suite_aead std_suite) key nonce aad body = Some plaintext) ∧
  @KemLaws (@suite_kem std_suite) ∧ @SignLaws (@suite_sign std_suite) ∧
  @CanonicalJsonLaws (@suite_json std_suite) ∧
  @CompressLaws (@suite_compress std_suite) ∧
  (∀ policy s kp, @sign_generate (@suite_sign std_suite) policy s = Some kp →
     length (skp_public kp) = sign_pk_len policy) ∧
  (∀ policy sk msg rnd sig, @sign_sign (@suite_sign std_suite) policy sk msg rnd = Some sig →
     length sig = sign_sig_len policy) ∧
  (∀ pk msg sig, @sign_verify (@suite_sign std_suite) Hybrid pk msg sig = true →
     @sign_verify (@suite_sign std_suite) Classic (take 32 pk) msg (take CLASSIC_SIG sig) = true ∧
     @sign_verify (@suite_sign std_suite) PostQuantum (drop 32 pk) msg (drop CLASSIC_SIG sig) = true).
Proof.
  split_and!.
  - exact decode_encode_string.
  - intros key nonce aad pt HT.
    destruct (seal_within_limit key nonce aad pt HT) as (body & HS & HL & HO).
    exists body. cbn [aead_seal aead_open suite_aead std_suite AesGcm]. by rewrite HS.
  - apply LibcruxKem_lawful.
  - apply LibcruxSign_lawful.
  - apply Rfc8785_laws.
  - apply Deflate_lawful.
  - apply generate_lengths.
  - apply sign_lengths.
  - apply hybrid_needs_both.
Qed.

(** * Concrete crates

    Crates simple enough to evaluate, and lawful: every law above can hold. *)

Lemma pair_ok (a b : arr 32) : Nat.eqb (length (cval a ++ cval b)) CLASSIC_SIG = true.
Proof. by rewrite length_app, !arr_length. Qed.

Lemma stretch_ok n (s : arr 32) : Nat.eqb (length (repeat_seed n (cval s))) n = true.
Proof. unfold repeat_seed. rewrite length_map, length_seq. apply Nat.eqb_refl. Qed.

Definition stretch (n : nat) (s : arr 32) : arr n := mkChecked (repeat_seed n (cval s)) (stretch_ok n s).

Definition first32 (bs : bytes) : arr 32 := default (fill 32 x00) (try_into 32 (take 32 bs)).

Lemma first32_stretch n s : (32 <= n)%nat → first32 (cval (stretch n s)) = s.
Proof.
  intros Hn. unfold first32. cbn [cval stretch].
  replace (take 32 (repeat_seed n (cval s))) with (cval s); [by rewrite try_into_cval|].
  apply list_eq. intros i. unfold repeat_seed. destruct (decide (i < 32)%nat) as [Hi|Hi].
  - rewrite lookup_take_lt, list_lookup_fmap, lookup_seq_lt by lia. cbn [fmap option_fmap option_map Nat.add].
    rewrite Nat.mod_small by done.
    destruct (lookup_lt_is_Some_2 (cval s) i) as [b Hb]; [by rewrite arr_length|].
    by rewrite Hb, (nth_lookup_Some _ _ _ _ Hb).
  - rewrite lookup_take_ge by lia. apply lookup_ge_None. rewrite arr_length. lia.
Qed.

Definition pad32 (bs : bytes) : bytes := take 32 (bs ++ replicate 32 x00).

Definition zero_ended (a : Algorithm) (ss : bytes) : bytes := ss ++ replicate (alg_ct_len a - 32) x00.

Definition ed_signature (msg : bytes) (sk : arr 32) : arr CLASSIC_SIG :=
  mkChecked (cval sk ++ cval (xor_arr msg (fill 32 x00))) (pair_ok _ _).

Definition mldsa_signature (key msg : bytes) : arr PQ_SIG := stretch PQ_SIG (xor_arr msg (first32 key)).

Definition toy_tag : arr 16 := fill 16 x07.

Definition toy_crates : Crates := {|
  crate_sha := {| hmac_sha2_256 k d := xor_arr d k; sha2_256 d := xor_arr d (fill 32 x00) |};
  crate_aes := {|
    aes_takes aad pt := (length aad <=? 65535)%nat && (length pt <=? 65535)%nat;
    aes_encrypt k n aad pt := Some (xor_stream (cval k) (cval n) pt, toy_tag);
    aes_decrypt k n aad ct tag :=
      if decide (cval tag = cval toy_tag) then Some (xor_stream (cval k) (cval n) ct) else None |};
  crate_b64 := {| encode_string := hex_encode; decode_vec := hex_decode |};
  crate_flate := {|
    deflate_best bs := bs ++ [x01];
    inflate src :=
      match rev src with
      | x01 :: rest => ([rev rest], true)
      | _ => ([], false)
      end |};
  crate_argon := {| argon2_params := u32; params_new m _ _ := Some m;
    hash_password_into _ passphrase salt := Some (xor_arr (passphrase ++ cval salt) (fill 32 x00)) |};
  crate_kem := {|
    kc_private := bytes; kc_public := Algorithm * bytes; kc_ct := Algorithm * bytes; kc_ss := bytes;
    key_gen_derand a seed := Some (seed, (a, seed));
    public_decode a bs := Some (a, bs); public_encode := snd;
    private_decode _ bs := Some bs; private_encode := id;
    ct_decode a bs := Some (a, bs); ct_encode := snd; ss_encode := id;
    encapsulate_derand pk seed := Some (pad32 seed, (pk.1, zero_ended pk.1 (pad32 seed)));
    decapsulate ct _ := Some (take 32 ct.2) |};
  crate_ed25519 := {|
    secret_to_public sk := sk;
    ed25519_sign msg sk := Some (ed_signature msg sk);
    ed25519_verify msg pk sig := bool_decide (cval sig = cval (ed_signature msg pk)) |};
  crate_mldsa := {|
    mldsa_generate seed := (stretch PQ_PK seed, stretch PQ_SK seed);
    mldsa_sign key msg _ _ := Some (mldsa_signature (cval key) msg);
    mldsa_verify pk msg _ sig := bool_decide (cval sig = cval (mldsa_signature (cval pk) msg)) |}
|}.

#[local] Existing Instance toy_crates.

Lemma pad32_length bs : length (pad32 bs) = 32%nat.
Proof. unfold pad32. rewrite length_take, length_app, length_replicate. lia. Qed.

Lemma toy_inflate bs : inflate (bs ++ [x01]) = ([bs], true).
Proof. cbn. by rewrite rev_unit, rev_involutive. Qed.

Lemma toy_kem_laws : LibcruxKemLaws.
Proof.
  split.
  - by intros a seed sk pk [= <- <-].
  - intros a bs pk seed ss ct [= <-]. cbn. by intros [= <- <-].
  - intros a seed sk pk seed' ss ct [= <- <-]. cbn. intros [= <- <-]. cbn. f_equal.
    unfold zero_ended. by rewrite take_app_length' by by rewrite pad32_length.
  - intros a bs pk seed ss ct [= <-]. cbn. intros [= <- <-]. unfold id, zero_ended. cbn.
    rewrite length_app, length_replicate, pad32_length. split; [done|by destruct a].
Qed.

Lemma toy_lawful : CratesLaws.
Proof.
  split.
  - intros k n aad pt _. do 2 eexists. split_and!; [done|apply xor_stream_length|]. cbn [aes_decrypt
      crate_aes toy_crates]. rewrite decide_True by done. by rewrite xor_stream_involutive.
  - exact HexB64_lawful.
  - intros bs. exists [bs]. split; [apply toy_inflate|apply app_nil_r].
  - apply toy_kem_laws.
  - intros sk msg sig [= <-]. by apply bool_decide_eq_true.
  - intros seed msg ctx rnd sig [= <-]. apply bool_decide_eq_true.
    assert (first32 (cval (stretch PQ_SK seed)) = first32 (cval (stretch PQ_PK seed))) as HE
      by (rewrite !first32_stretch by (apply Nat.leb_le; reflexivity); done).
    change (cval (mldsa_signature (cval (stretch PQ_SK seed)) msg) =
            cval (mldsa_signature (cval (stretch PQ_PK seed)) msg)).
    unfold mldsa_signature. by rewrite HE.
Qed.

Lemma std_suite_lawful_witness :
  @KemLaws (@suite_kem (@std_suite toy_crates)) ∧ @SignLaws (@suite_sign (@std_suite toy_crates)) ∧
  ∃ body, @AesGcm_seal crate_aes (from_bytes (fill 32 x07)) (fill 12 x09) [xc1] (replicate 484 x2a) = Some body ∧
    length body = 500%nat.
Proof.
  pose proof (@std_suite_lawful toy_crates toy_lawful) as (_ & HA & HK & HSg & _).
  split_and!; [exact HK|exact HSg|].
  destruct (HA (from_bytes (fill 32 x07)) (fill 12 x09) [xc1] (replicate 484 x2a)) as (body & HS & _ & HL & _);
    [reflexivity|]. by exists body.
Defined.
